(* ===== verification/_CoqProject ===== *)
-Q . S2P
Prelude.v
Memory.v
Java.v
Conf.v
CarrotCache.v
Reference.v
Utils.v
Command.v
CommandParse.v
CommandParser.v
World.v
Execute.v
CommandProcessor.v
WorkThread.v
Writes.v
Dispatch.v
DispatchCorrect.v
Client.v
ClientReply.v
Protocol.v
ParseCorrect.v
ParseSafety.v
ExecuteCorrect.v
ProcessCorrect.v
Stream.v
Network.v
Termination.v
ServeCorrect.v
ServeErrors.v
ServerCommands.v
Footprint.v
Piecemeal.v
UtilsCorrect.v
CommandTypes.v
ClientCorrect.v
Css.v
Stylesheets.v
JavaScript.v
Json.v
Sha256.v
Authorization.v
AuthorizationCorrect.v
HAProxy.v
Frames.v
FramesCorrect.v
Filters.v
Shards.v
ShardsCorrect.v
ShardsServed.v
Labels.v
LabelsOverlap.v
CodeView.v
LogQL.v
LineFilters.v
LogQLCorrect.v
Stored.v
FilterButtons.v
LogQLExpr.v
ButtonsCorrect.v
LineFiltersCorrect.v
Regex.v
QueryBuilder.v
QueryMachine.v
QueryMachineCorrect.v
QuerySafety.v
QueryText.v
QueryTheorems.v
LogsTheorems.v
Flame.v
FlameCorrect.v
Theorems.v
BoundsTheorems.v
PluginTheorems.v
ShardTheorems.v
ClientTheorems.v
DispatchTheorems.v
BuilderTheorems.v
ConfTheorems.v
AuthTheorems.v
WriteTheorems.v
