(* ===== verification/Prelude.v ===== *)
(** * Memcarrot: a verification development

    Memcarrot is a cache server that speaks the text protocol of memcached.  This
    library models the server of [src/src/main/java/com/carrotdata/memcarrot] - the
    parser, the commands, the request processor, the worker thread that serves a
    connection, the dispatch of connections to workers - and its client, and proves
    that together they implement the protocol.  It also models parts of the Grafana
    plugin bundles of [src/grafana/plugins] the repository ships.

    ** The program

    - [MemcarrotServer] accepts connections and hands a readable channel to a worker
      ([RequestHandlers.submit]).
    - [WorkThread.run] (RequestHandlers.java) reads the channel into a native input
      buffer, calls [CommandProcessor.process] for every complete request in it, sends
      the responses from a native output buffer, and moves an incomplete request to the
      front of the input buffer to be completed by the next read.
    - [CommandProcessor.process] calls [CommandParser.parse], checks that the command
      points into the buffer ([isMemorySafe]), runs its [execute], and turns the two
      protocol exceptions into error replies.
    - The classes of [commands/] hold the parsed fields ([AbstractMemcachedCommand]),
      parse their arguments and execute themselves on the store, which is carrot-cache,
      a third-party library.
    - [AuthorizationHandler] authorizes a connection by its host or by a login; the server
      does not call it yet.
    - [SimpleClient] is the client the project ships; [MemcarrotConf] holds the settings.
    - The bundles [grafana-lokiexplore-app/*.js] and [grafana-pyroscope-app/*.js] are
      compiled web applications.  Of the profiles explorer: the query builder with its state
      machine, the filters, the label repository, the code pane and the flame graphs.  Of
      the logs app: the query expressions, the filter buttons, the line filters, the stored
      preferences, the queries that are split over shards and the merging of their responses.
      Of both: the style functions that fill CSS
      templates from a theme.

    ** The files

    - [Prelude]: byte strings, machine integers, outcomes of Java and JavaScript code
      ([result], with exceptions as values), shared tactics and hints.
    - [Memory]: the interface to native memory ([UnsafeAccess], a third-party class),
      its laws, and regions: [bytes_at], [view], [same_off].
    - [Java]: decimal printing and parsing of the Java library, with the round trip.
      [Conf]: MemcarrotConf.java.
    - [CarrotCache]: the interface to carrot-cache: [CarrotUtils], [Memcached],
      [RecordWriter], and what the server relies on as law classes.
    - [Reference]: one concrete instance of every interface with its laws proved; the
      witnesses run on it.
    - [Utils]: util/Utils.java and util/Key.java.  [UtilsCorrect]: facts on them.
    - [Command]: the command objects; commandLength, inputConsumed, isMemorySafe.
    - [CommandParse]: the parse methods.  [CommandParser]: CommandParser.java.
      [CommandTypes]: the types and ranges of what they return.
    - [World]: the state a worker acts on (memory, store, input events, bytes sent, last
      command) and the monad of its code.  [Execute]: the execute methods.
    - [CommandProcessor], [WorkThread]: CommandProcessor.java and the worker loop of
      RequestHandlers.java, over the interface [Channel] of its loops that write; the instance
      [at_once], meant where none is named, takes a response whole.  [Writes]: the loops
      write by write, on a channel that takes a part, nothing or throws ([by_attempts]).
    - [Dispatch]: [RequestHandlers.submit], [MemcarrotServer.read] and the hand-over in
      [WorkThread] as labelled steps of the selector and the workers, one per access to a
      shared field.  [DispatchCorrect]: its invariant [pool_ok], progress of [submit] and
      of a worker, workers that have died.
    - [Client]: the requests SimpleClient.java sends.  [ClientReply]: how it reads the
      responses.  [ClientCorrect]: the replies of [Protocol] through its read loop.
    - [Protocol]: the abstract specification - what a request does to the store and what
      its reply is ([respond]), without memory or buffers.
    - [ParseCorrect], [ParseSafety]: the parser on well-formed and on arbitrary input.
    - [ExecuteCorrect], [ServerCommands], [ProcessCorrect]: execute and process
      against [Protocol].
    - [Stream], [Network], [ServeCorrect], [ServeErrors]: pipelines cut into reads, and
      the worker against [Protocol]; errors.
    - [Termination]: the worker comes back on any input.  [Footprint]: a program logic for
      what it changes in memory, and what that is.  [Piecemeal]: a relational logic of the
      worker on [by_attempts] against the worker on [at_once], rule by rule ([follows]), and
      the worker's place in it ([connection_served]).
    - [Sha256], [Authorization]: AuthorizationHandler.java and HashUtil.java, with the digest
      of the Java library.  [AuthorizationCorrect]: what a connection says, read from its text.
      [HAProxy]: the header parser of HAProxyServer.java.
    - [Css], [Stylesheets]: CSS as a reader sees it, and the templates of the bundles.
    - [JavaScript], [Json], [Regex]: what the bundles use of the language - strings, numbers;
      JSON written and read; patterns with their backtracking, and replacement texts.
    - [Frames], [FramesCorrect], [Shards], [ShardsCorrect], [ShardsServed]: module 2854 of
      747.js, the merging of responses and the sharded query as a step function of its
      callbacks and timers; [ShardsServed] has the runs ([Behaves]) of a data source that
      answers each request once, or fails it, and their invariant.
    - [Filters], [Labels], [CodeView], [Flame]: the filters ([Xt], [Zt], [en]), the cached
      label repository ([G], [_]), the code pane ([zs]) and the flame graphs ([C], [k]) of
      [grafana-pyroscope-app/75.js].  [FlameCorrect]: trees and their encoding.
      [LabelsOverlap]: listings that overlap, with promises as steps.
    - [QueryBuilder], [QueryMachine]: the query builder of 75.js, its filters, queries and
      actions, and its state machine.  [QueryMachineCorrect], [QuerySafety]: the machine's
      invariant.  [QueryText]: the queries as texts.
    - [LogQL], [LineFilters]: the query expressions and the line filter editor of
      [grafana-lokiexplore-app/747.js] and [module.js].  [LogQLCorrect], [LogQLExpr],
      [LineFiltersCorrect]: a reader of such expressions, and what they read as.
    - [Stored]: module 227 of 747.js, the favourites and options in the browser's storage.
      [FilterButtons]: modules 558 and 1383, the buttons that add, replace and remove filters,
      with the parsers of fields (7097).  [ButtonsCorrect]: field filters decoded, the buttons'
      states.
    - [Theorems], [BoundsTheorems], [DispatchTheorems], [ClientTheorems], [QueryTheorems],
      [LogsTheorems], [PluginTheorems], [ShardTheorems], [BuilderTheorems], [ConfTheorems],
      [AuthTheorems], [WriteTheorems]: the properties, those of the list C1 to C40 with a concrete run of each.

    ** What is shown

    - Refinement: a connection answers a pipeline of well-formed requests, however it is
      cut into reads, as [Protocol.respond_all] says (C1); so does one call of [process]
      (C3), a retrieval with its flushes (C9), and a counter command on every branch (C16).
    - The parser inverts the client's encoder (C2), knows an incomplete request (C24) and
      returns numbers within their types (C21).
    - On arbitrary input: parsed commands point into the buffer (C4, C23), serving ends unless
      it is the channel that takes no more bytes (C5), and the worker writes inside its two
      buffers (C6), given that the texts it copies without measuring them fit; [stats] shows
      what happens when one does not (C34).
    - Writing: a channel that takes bytes piecemeal is as good as one that takes them at once,
      which the other theorems are about (C37); what becomes of the connection when a write
      fails, and of the worker in the clause that never leaves its loop (C33).
    - Concurrency: in every interleaving a connection has at most one worker (C7),
      [submit] returns if some worker is free (C25), a waiting worker serves what it is
      handed (C26), and what becomes of a worker that died (C27).
    - Errors: oversized requests and items (C31, C32), a request that kills its worker (C35).
    - Authorization: what the handler makes of a connection is what the text it received
      says (C10), only hosts that logged in are known, and how a connection comes to be
      passed on (C8), and a login lets the host's later
      connections pass (C22); unlisted theorems on what is refused by mistake, on a refusal
      that cannot be sent, and on PROXY headers.
    - The client reads back what [Protocol] answers (C38); unlisted theorems on single replies,
      and on responses that arrive in parts and are misread.
    - Sharded queries: from a data source that answers each request once or fails it, whenever
      the timers go off, a query that is over without giving up has had every shard answered
      once (C17) and delivered the sum of the replies (C11); for any callbacks and timers in any
      order it makes a bounded number of requests (C18); why it gives up is unlisted.  Two
      responses to one request are outside of C11 and C17: after two time-outs of one shard two
      timers are set and its answers are added twice.
    - The query builder: the one event that throws (C12), the invariant of its states (C19),
      what its selections do (C20) and the query read back (C14), both for plain names and
      values, and what its comparison of
      filters decides (C39).
    - The logs app: a label expression selects what its filters say (C13), field filters read
      as the values they encode (C28), no text escapes from its quotes (C30); the filter buttons
      are switches (C29); favourites (C36); unlisted theorems on edits of line filters,
      excluded values of metadata that exclude nothing and the buttons of fields.
    - The profiles app: flame graphs (C15), the label cache under overlapping calls (C40);
      unlisted theorems on the filter buttons, the code pane, and the templates as CSS.

    ** Bounds and fuel

    [int] and [long] are [Z]; narrowing casts wrap ([to_int], [to_long]).  Offsets into a
    buffer are at most its capacity, an [int].  Loops that are not structural have fuel:
    a scan has its byte limit, the key count one round per byte ([countKeys_fuel]), a
    retrieval two rounds per key, the batch one round per buffered byte, the reads one
    round per event and byte; the walk of a flame graph has one round per frame, the
    matches of a pattern one per character ([match_all_enough]), the reading of JSON two per
    character ([json_value_fuel]).  [Termination] proves that
    the server never runs out of fuel when its channel takes responses at once; on [by_attempts]
    running out means that the attempts are used up inside a loop that writes (C5), and C15 gives the rows themselves, so no theorem
    holds because fuel ran out.  JavaScript's numbers are [Z] where the code uses them as
    integers below 2^53, and [spec_float] where it adds them; a sharded query of n shards
    makes at most (n+1)(n+2)(8n+9) requests.  The code of an authorization is done after 37
    writes that take something, the length of its longest reply.

    ** What is not modelled

    Sockets fail by the read events of [World.Event] and the attempts of [Writes] and
    [Authorization]; [Dispatch] has the worker's outcome with a key, not its bytes.  Logging, timing counters and the back-off times of
    an idle worker are left out.  Start-up
    ([Memcarrot], [MemcarrotServer.run] outside the action on a key) and the loops of
    [HAProxyServer], a sample that prints what it reads, are not modelled; nor is the rest of
    the bundles, which is React components, vendored libraries and calls to Grafana, nor
    what the client does with its socket.  carrot-cache and [UnsafeAccess] are interfaces
    with laws, instantiated only for the witnesses; so is Grafana's search in a sorted
    field, and the ids of filters are a function from calls to texts.  The browser's storage
    never refuses a write. *)

From Stdlib Require Export ZArith Lia Bool Ascii String.
From stdpp Require Export base list strings numbers.

#[global] Open Scope Z_scope.

(** ** Byte strings

    A Java [byte[]] or a stretch of native memory is a [list ascii]; the
    protocol is ASCII, and a byte outside 0..127 is compared for equality only. *)

Abbreviation bytes := (list ascii).

(** [str "get"] is ["get".getBytes()]. *)
Definition str (s : string) : bytes := list_ascii_of_string s.
Arguments str s%_string_scope.

Definition SP : ascii := " "%char.
Definition CR : ascii := "013"%char.
Definition NUL : ascii := "000"%char.
Definition LF : ascii := "010"%char.
Definition CRLF : bytes := [CR; LF].

(** Texts with a separator between them: JavaScript's [l.join(sep)]. *)
Fixpoint join (sep : bytes) (l : list bytes) : bytes :=
  match l with
  | [] => []
  | [w] => w
  | w :: l => w ++ sep ++ join sep l
  end.

(** Length of a list as a [Z], the type of every Java size and offset. *)
Definition zlen {A} (l : list A) : Z := Z.of_nat (length l).

(** ** Machine integers *)

Definition INT_MAX : Z := 2 ^ 31 - 1.
Definition in_int (z : Z) : Prop := - 2 ^ 31 <= z <= INT_MAX.
Definition in_long (z : Z) : Prop := - 2 ^ 63 <= z < 2 ^ 63.

(** Java's narrowing cast [(int) v]: two's complement truncation. *)
Definition to_int (z : Z) : Z := (z + 2 ^ 31) `mod` 2 ^ 32 - 2 ^ 31.
(** Java's [long] arithmetic wraps the same way. *)
Definition to_long (z : Z) : Z := (z + 2 ^ 63) `mod` 2 ^ 64 - 2 ^ 63.

(** ** Outcomes of Java code *)

(** The exceptions the modelled code throws or lets through.
    [UnsupportedCommand] is a subclass of [IllegalFormatException], itself and
    [NumberFormatException] are subclasses of [IllegalArgumentException]. *)
Inductive exn : Type :=
  | IllegalFormatException (msg : bytes)
  | UnsupportedCommand (msg : bytes)
  | NumberFormatException
  | IllegalArgumentException (msg : bytes)
  | BufferOverflowException
  | BufferUnderflowException
  | NegativeArraySizeException (n : Z)
  | NoSuchElementException
  | ArrayIndexOutOfBoundsException
  | RuntimeException (msg : bytes)
  | IOException (msg : bytes).

(** A Java method returns a value, throws, or stops the JVM.  [OutOfFuel] is the
    model's own: a loop ran out of the fuel it was given, which the development
    proves never to happen. *)
Inductive result (A : Type) : Type :=
  | Ok (a : A)
  | Throw (e : exn)
  | SystemExit
  | OutOfFuel.
Arguments Ok {A} _.
Arguments Throw {A} _.
Arguments SystemExit {A}.
Arguments OutOfFuel {A}.

#[global] Instance exn_eq_dec : EqDecision exn.
Proof. solve_decision. Defined.

(** Sequencing: an exception, or the end of the JVM, skips the rest. *)
Definition rbind {A B} (r : result A) (f : A -> result B) : result B :=
  match r with
  | Ok a => f a | Throw e => Throw e | SystemExit => SystemExit | OutOfFuel => OutOfFuel
  end.

(** [try { r } catch (NumberFormatException e) { throw e'; }] *)
Definition catch_nfe {A} (r : result A) (e' : exn) : result A :=
  match r with Throw NumberFormatException => Throw e' | _ => r end.

Declare Scope mc_scope.
Delimit Scope mc_scope with mc.
Notation "'let*' x := e 'in' k" := (rbind e (fun x => k))
  (at level 10, x name, e at level 200, k at level 200) : mc_scope.
#[global] Open Scope mc_scope.

(** The equality test of Java on bytes. *)
Notation "a =c? b" := (Ascii.eqb a b) (at level 70) : mc_scope.

(** ** Generic lemmas *)

Lemma zlen_nil {A} : zlen (@nil A) = 0.
Proof. reflexivity. Qed.
Lemma zlen_cons {A} (x : A) l : zlen (x :: l) = 1 + zlen l.
Proof. unfold zlen. cbn [length]. lia. Qed.
Lemma zlen_app {A} (l k : list A) : zlen (l ++ k) = zlen l + zlen k.
Proof. unfold zlen. rewrite length_app. lia. Qed.
Lemma zlen_nonneg {A} (l : list A) : 0 <= zlen l.
Proof. unfold zlen. lia. Qed.
Lemma zlen_0 {A} (l : list A) : zlen l = 0 -> l = [].
Proof. destruct l; [done|]. unfold zlen; cbn [length]; lia. Qed.
Lemma zlen_pos {A} (l : list A) : l <> [] -> 0 < zlen l.
Proof. destruct l; [done|]. unfold zlen; cbn [length]; lia. Qed.
Lemma to_nat_zlen {A} (l : list A) : Z.to_nat (zlen l) = length l.
Proof. unfold zlen. lia. Qed.

Lemma zlen_CRLF : zlen CRLF = 2.
Proof. reflexivity. Qed.

Create HintDb mc.
Create Rewrite HintDb mc.
#[export] Hint Rewrite @zlen_nil @zlen_cons @zlen_app zlen_CRLF : mc.
#[export] Hint Resolve zlen_nonneg zlen_pos : mc.

(** [zlen_norm] normalises lengths everywhere; [zlia] then calls [lia] with
    the non-negativity of every length in sight. *)
Ltac zlen_norm := autorewrite with mc in *.
Ltac zlen_facts :=
  repeat match goal with
  | |- context [zlen ?l] =>
      lazymatch goal with H : 0 <= zlen l |- _ => fail | _ => pose proof (zlen_nonneg l) end
  | _ : context [zlen ?l] |- _ =>
      lazymatch goal with H : 0 <= zlen l |- _ => fail | _ => pose proof (zlen_nonneg l) end
  end.
Ltac zlia := zlen_norm; zlen_facts; lia.

(** Compute the lengths of literals. *)
Ltac zstr :=
  repeat match goal with
  | |- context [zlen (str (String ?c ?s))] =>
      let n := eval vm_compute in (zlen (str (String c s))) in
      change (zlen (str (String c s))) with n
  end.

(** Case analysis on the first integer comparison of the goal, the impossible
    branch closed by arithmetic. *)
Ltac zcase :=
  match goal with
  | |- context [?a =? ?b] => destruct (Z.eqb_spec a b)
  | |- context [?a <=? ?b] => destruct (Z.leb_spec a b)
  | |- context [?a <? ?b] => destruct (Z.ltb_spec a b)
  | |- context [?a >? ?b] => rewrite (Z.gtb_ltb a b); destruct (Z.ltb_spec b a)
  | |- context [?a >=? ?b] => rewrite (Z.geb_leb a b); destruct (Z.leb_spec b a)
  end; try (exfalso; zlia).

Lemma eqb_char_true (a b : ascii) : (a =c? b) = true <-> a = b.
Proof. apply Ascii.eqb_eq. Qed.
Lemma eqb_char_false (a b : ascii) : (a =c? b) = false <-> a <> b.
Proof. apply Ascii.eqb_neq. Qed.
Lemma eqb_char_refl (a : ascii) : (a =c? a) = true.
Proof. apply Ascii.eqb_refl. Qed.

Lemma to_int_id z : in_int z -> to_int z = z.
Proof. unfold in_int, INT_MAX, to_int. intros. rewrite Z.mod_small; lia. Qed.
Lemma to_int_range z : in_int (to_int z).
Proof.
  unfold in_int, INT_MAX, to_int.
  pose proof (Z.mod_pos_bound (z + 2 ^ 31) (2 ^ 32)). lia.
Qed.
