(* ===== verification/Memory.v ===== *)
(** * Native memory

    The server parses requests and writes responses in native memory through
    [com.carrotdata.cache.util.UnsafeAccess], a third-party class.  This file
    is the interface to it ([UnsafeAccess], with its laws in
    [UnsafeAccessLaws]) and the reasoning principles about regions that the
    components share: [bytes_at] reads a region, [view m p n l] says that the
    first [n] bytes at [p] agree with the list [l] ([l] may be longer than what
    has arrived, or shorter), and [same_on] compares memories on a region. *)

From S2P Require Import Prelude.

(** ** The interface *)

(** The operations of [UnsafeAccess] the server uses.  [copyBytes m l p] stands
    for both [copy(byte[], 0, p, length)] and the copy of a constant that
    [allocAndCopy] placed in static memory; [copyMem] is [copy(src, dst, len)]. *)
Class UnsafeAccess (mem : Type) := {
  toByte : mem -> Z -> ascii;
  putByte : mem -> Z -> ascii -> mem;
  copyBytes : mem -> bytes -> Z -> mem;
  copyMem : mem -> Z -> Z -> Z -> mem
}.

(** A write changes the bytes it is told to change, and no other. *)
Class UnsafeAccessLaws (mem : Type) `{UnsafeAccess mem} : Prop := {
  toByte_putByte m p c q :
    toByte (putByte m p c) q = if q =? p then c else toByte m q;
  toByte_copyBytes m l p q :
    toByte (copyBytes m l p) q =
      if (p <=? q) && (q <? p + zlen l)
      then default NUL (l !! Z.to_nat (q - p)) else toByte m q;
  toByte_copyMem m s d n q :
    toByte (copyMem m s d n) q =
      if (d <=? q) && (q <? d + n) then toByte m (s + (q - d)) else toByte m q
}.

Section Regions.
Context {mem : Type} `{UnsafeAccess mem}.

(** The [n] bytes at [p]; empty when [n] is not positive. *)
Definition bytes_at (m : mem) (p n : Z) : bytes :=
  (fun i => toByte m (p + Z.of_nat i)) <$> seq 0 (Z.to_nat n).

Definition view (m : mem) (p n : Z) (l : bytes) : Prop :=
  forall i c, l !! i = Some c -> Z.of_nat i < n -> toByte m (p + Z.of_nat i) = c.

(** The memories agree on [n] bytes from [p]. *)
Definition same_on (m m' : mem) (p n : Z) : Prop :=
  forall q, p <= q < p + n -> toByte m' q = toByte m q.

(** The memories agree everywhere else. *)
Definition same_off (m m' : mem) (p n : Z) : Prop :=
  forall q, q < p \/ p + n <= q -> toByte m' q = toByte m q.

Lemma length_bytes_at m p n : length (bytes_at m p n) = Z.to_nat n.
Proof. unfold bytes_at. by rewrite length_fmap, length_seq. Qed.

Lemma zlen_bytes_at m p n : 0 <= n -> zlen (bytes_at m p n) = n.
Proof. unfold zlen. rewrite length_bytes_at. lia. Qed.

Lemma lookup_bytes_at m p n i :
  (i < Z.to_nat n)%nat -> bytes_at m p n !! i = Some (toByte m (p + Z.of_nat i)).
Proof.
  intros. unfold bytes_at. rewrite list_lookup_fmap, lookup_seq_lt by done.
  cbn. f_equal.
Qed.

Lemma bytes_at_ext m m' p p' n :
  (forall i, 0 <= i < n -> toByte m (p + i) = toByte m' (p' + i)) ->
  bytes_at m p n = bytes_at m' p' n.
Proof.
  intros E. apply list_fmap_ext. intros i x Hx%lookup_seq. apply E. lia.
Qed.

Lemma bytes_at_app m p a b :
  0 <= a -> 0 <= b -> bytes_at m p (a + b) = bytes_at m p a ++ bytes_at m (p + a) b.
Proof.
  intros. unfold bytes_at. rewrite Z2Nat.inj_add, seq_app, fmap_app by lia. f_equal.
  replace (0 + Z.to_nat a)%nat with (Z.to_nat a + 0)%nat by lia.
  rewrite <- fmap_add_seq, <- list_fmap_compose.
  apply list_fmap_ext. intros i x _. cbn. f_equal. lia.
Qed.

(** ** [view] *)

Lemma view_app m p n l k :
  view m p n (l ++ k) <-> view m p n l /\ view m (p + zlen l) (n - zlen l) k.
Proof.
  unfold view, zlen. split.
  - intros V. split; intros i c Hi Hn.
    + apply V; [by apply lookup_app_l_Some | done].
    + replace (p + Z.of_nat (length l) + Z.of_nat i)
        with (p + Z.of_nat (length l + i)) by lia.
      apply V; [|lia]. rewrite lookup_app_r by lia.
      by replace (length l + i - length l)%nat with i by lia.
  - intros [V1 V2] i c [Hi|[Hl Hi]]%lookup_app_Some Hn; [by apply V1|].
    specialize (V2 _ _ Hi). rewrite <- V2 by lia. f_equal. lia.
Qed.

Lemma view_cons m p n c l :
  view m p n (c :: l) <-> (0 < n -> toByte m p = c) /\ view m (p + 1) (n - 1) l.
Proof.
  change (c :: l) with ([c] ++ l). rewrite view_app.
  replace (zlen [c]) with 1 by reflexivity. apply and_iff_compat_r. unfold view. split.
  - intros V Hn. specialize (V 0%nat c eq_refl ltac:(lia)). rewrite <- V. f_equal. lia.
  - intros V i c' Hi Hn. apply list_lookup_singleton_Some in Hi as [-> <-].
    rewrite <- V by lia. f_equal. lia.
Qed.

Lemma view_nil m p n : view m p n [].
Proof. intros i c Hi. done. Qed.

Lemma view_short m p n l : n <= 0 -> view m p n l.
Proof. intros Hn i c Hi Hi'. lia. Qed.

Lemma view_mono m p n n' l : view m p n l -> n' <= n -> view m p n' l.
Proof. intros V Hn i c Hi Hi'. apply V; [done | lia]. Qed.

Lemma view_same m m' p n l : view m p n l -> same_on m m' p n -> view m' p n l.
Proof. intros V S i c Hi Hn. rewrite S by lia. by apply V. Qed.

Lemma view_bytes_at m p n : view m p n (bytes_at m p n).
Proof.
  intros i c Hi Hn. pose proof (lookup_lt_Some _ _ _ Hi) as L.
  rewrite length_bytes_at in L. rewrite lookup_bytes_at in Hi by lia. congruence.
Qed.

(** Reading back a region that is completely in view. *)
Lemma bytes_at_view m p n l :
  view m p n l -> zlen l <= n -> bytes_at m p (zlen l) = l.
Proof.
  intros V Hn. apply list_eq. intros i.
  destruct (decide (i < length l)%nat) as [Hi|Hi].
  - rewrite lookup_bytes_at by (unfold zlen; lia).
    destruct (lookup_lt_is_Some_2 l i Hi) as [c Hc]. rewrite Hc. f_equal.
    apply V; [done|]. unfold zlen in Hn. lia.
  - rewrite !lookup_ge_None_2; try done; [lia|]. rewrite length_bytes_at.
    unfold zlen. lia.
Qed.

Lemma bytes_at_view_iff m p l : bytes_at m p (zlen l) = l <-> view m p (zlen l) l.
Proof.
  split; [|intros; by apply (bytes_at_view m p (zlen l))].
  intros E. rewrite <- E at 2. apply view_bytes_at.
Qed.

End Regions.

(** ** Writes *)

Section Writes.
Context {mem : Type} `{UnsafeAccessLaws mem}.

Lemma same_on_refl (m : mem) p n : same_on m m p n.
Proof. by intros q _. Qed.
Lemma same_off_refl (m : mem) p n : same_off m m p n.
Proof. by intros q _. Qed.

Lemma same_off_trans (m1 m2 m3 : mem) p n :
  same_off m1 m2 p n -> same_off m2 m3 p n -> same_off m1 m3 p n.
Proof. intros A B q Hq. rewrite B by done. by apply A. Qed.

Lemma same_off_widen (m m' : mem) p n p' n' :
  same_off m m' p n -> p' <= p -> p + n <= p' + n' -> same_off m m' p' n'.
Proof. intros S Hp Hn q Hq. apply S. lia. Qed.

(** A change inside one region leaves a disjoint region alone. *)
Lemma same_off_on (m m' : mem) p n p' n' :
  same_off m m' p n -> p' + n' <= p \/ p + n <= p' -> same_on m m' p' n'.
Proof. intros S Hd q Hq. apply S. lia. Qed.

Lemma copyBytes_off (m : mem) l p : same_off m (copyBytes m l p) p (zlen l).
Proof.
  intros q Hq. rewrite toByte_copyBytes.
  destruct (Z.leb_spec p q), (Z.ltb_spec q (p + zlen l)); cbn; try done; lia.
Qed.

Lemma putByte_off (m : mem) c p : same_off m (putByte m p c) p 1.
Proof. intros q Hq. rewrite toByte_putByte. by zcase. Qed.

Lemma copyMem_off (m : mem) s d n : same_off m (copyMem m s d n) d n.
Proof.
  intros q Hq. rewrite toByte_copyMem.
  destruct (Z.leb_spec d q), (Z.ltb_spec q (d + n)); cbn; try done; lia.
Qed.

Lemma view_copyBytes (m : mem) l p n : view (copyBytes m l p) p n l.
Proof.
  intros i c Hi Hn. rewrite toByte_copyBytes.
  pose proof (lookup_lt_Some _ _ _ Hi). unfold zlen.
  destruct (Z.leb_spec p (p + Z.of_nat i)),
    (Z.ltb_spec (p + Z.of_nat i) (p + Z.of_nat (length l))); cbn; try lia.
  replace (Z.to_nat (p + Z.of_nat i - p)) with i by lia. by rewrite Hi.
Qed.

Lemma bytes_at_copyBytes (m : mem) l p : bytes_at (copyBytes m l p) p (zlen l) = l.
Proof. apply (bytes_at_view _ _ (zlen l)); [apply view_copyBytes | lia]. Qed.

Lemma bytes_at_copyMem (m : mem) s d n :
  bytes_at (copyMem m s d n) d n = bytes_at m s n.
Proof.
  apply bytes_at_ext. intros i Hi. rewrite toByte_copyMem.
  destruct (Z.leb_spec d (d + i)), (Z.ltb_spec (d + i) (d + n)); cbn; try lia.
  f_equal. lia.
Qed.

Lemma bytes_at_same (m m' : mem) p n : same_on m m' p n -> bytes_at m' p n = bytes_at m p n.
Proof. intros S. apply bytes_at_ext. intros i Hi. apply S. lia. Qed.

(** Moving a region, possibly onto itself. *)
Lemma view_copyMem (m : mem) s d n l : view m s n l -> view (copyMem m s d n) d n l.
Proof.
  intros V i c Hi Hn. rewrite toByte_copyMem.
  destruct (Z.leb_spec d (d + Z.of_nat i)), (Z.ltb_spec (d + Z.of_nat i) (d + n)); cbn; try lia.
  rewrite <- (V i c Hi Hn). f_equal. lia.
Qed.

(** Appending to a region in view. *)
Lemma view_append (m : mem) p l k :
  view m p (zlen l) l -> view (copyBytes m k (p + zlen l)) p (zlen l + zlen k) (l ++ k).
Proof.
  intros V. apply view_app. split.
  - eapply view_mono; [|reflexivity]. intros i c Hi Hn. rewrite <- (V i c Hi); [|].
    + apply (copyBytes_off m k (p + zlen l)). pose proof (lookup_lt_Some _ _ _ Hi).
      unfold zlen. lia.
    + pose proof (lookup_lt_Some _ _ _ Hi). unfold zlen. lia.
  - apply view_copyBytes.
Qed.

(** Appending to a region that already holds [l]. *)
Lemma bytes_at_append (m : mem) p l k :
  bytes_at m p (zlen l) = l ->
  bytes_at (copyBytes m k (p + zlen l)) p (zlen (l ++ k)) = l ++ k.
Proof.
  intros E. rewrite zlen_app, bytes_at_app by zlia. f_equal.
  - etransitivity; [apply bytes_at_same | exact E].
    eapply same_off_on; [apply copyBytes_off | lia].
  - apply bytes_at_copyBytes.
Qed.

End Writes.
