(* ===== verification/Java.v ===== *)
(** * The parts of the Java standard library the server and client rely on

    Decimal conversion ([Long.toString], [Integer.toString], [Long.parseLong],
    [Integer.parseInt]) on byte strings, with the round trip between them and
    the facts the protocol needs: a printed number is a non-empty token of
    digits with an optional leading minus sign. *)

From S2P Require Import Prelude.

(** ** Printing *)

Definition digit (d : Z) : ascii := ascii_of_nat (48 + Z.to_nat d).

(** The decimal digits of [n >= 0], least significant first.  Nineteen digits
    suffice for the magnitude of a [long]; the fuel is 20. *)
Fixpoint rev_digits (fuel : nat) (n : Z) : bytes :=
  match fuel with
  | O => []
  | S f => if n <? 10 then [digit n] else digit (n mod 10) :: rev_digits f (n / 10)
  end.

(** [Long.toString(z)]; [Integer.toString] is the same function on [int]s. *)
Definition Long_toString (z : Z) : bytes :=
  if z <? 0 then "-"%char :: rev (rev_digits 20 (- z)) else rev (rev_digits 20 z).

(** ** Parsing *)

Definition digit_val (c : ascii) : option Z :=
  let n := Z.of_nat (nat_of_ascii c) in
  if (48 <=? n) && (n <=? 57) then Some (n - 48) else None.

Fixpoint digits_val (acc : Z) (s : bytes) : option Z :=
  match s with
  | [] => Some acc
  | c :: s' => match digit_val c with Some d => digits_val (10 * acc + d) s' | None => None end
  end.

Definition parse_nat (s : bytes) : option Z :=
  match s with [] => None | _ => digits_val 0 s end.

(** The integer a decimal string denotes, of any size: an optional sign, then
    at least one digit. *)
Definition parse_decimal (s : bytes) : option Z :=
  match s with
  | c :: s' =>
      if c =c? "-"%char then Z.opp <$> parse_nat s'
      else if c =c? "+"%char then parse_nat s' else parse_nat s
  | [] => None
  end.

(** [Long.parseLong] and [Integer.parseInt]: [None] is [NumberFormatException]. *)
Definition parseLong (s : bytes) : option Z :=
  v ← parse_decimal s; if (- 2 ^ 63 <=? v) && (v <? 2 ^ 63) then Some v else None.
Definition parseInt (s : bytes) : option Z :=
  v ← parse_decimal s; if (- 2 ^ 31 <=? v) && (v <? 2 ^ 31) then Some v else None.

(** ** Round trip *)

Definition is_digit (c : ascii) : Prop := is_Some (digit_val c).

Lemma digit_val_digit d : 0 <= d < 10 -> digit_val (digit d) = Some d.
Proof.
  intros Hd. unfold digit_val, digit. rewrite nat_ascii_embedding by lia.
  destruct (Z.leb_spec 48 (Z.of_nat (48 + Z.to_nat d))),
    (Z.leb_spec (Z.of_nat (48 + Z.to_nat d)) 57); cbn [andb]; try lia. f_equal. lia.
Qed.

Lemma digits_val_app acc s c :
  digits_val acc (s ++ [c]) =
    (v ← digits_val acc s; d ← digit_val c; Some (10 * v + d)).
Proof.
  revert acc. induction s as [|x s IH]; intros acc; cbn.
  - by destruct (digit_val c).
  - destruct (digit_val x); [apply IH | done].
Qed.

Lemma digits_val_rev f n :
  0 <= n < 10 ^ Z.of_nat f -> digits_val 0 (rev (rev_digits f n)) = Some n.
Proof.
  revert n. induction f as [|f IH]; intros n Hn; [rewrite Z.pow_0_r in Hn; cbn; f_equal; lia|]. cbn [rev_digits].
  destruct (Z.ltb_spec n 10) as [Hs|Hs].
  - cbn [rev app digits_val]. rewrite digit_val_digit by lia. f_equal; lia.
  - cbn [rev]. rewrite digits_val_app, IH; cbn.
    + rewrite digit_val_digit by (apply Z.mod_pos_bound; lia). cbn. f_equal.
      pose proof (Z.div_mod n 10). lia.
    + rewrite Nat2Z.inj_succ, Z.pow_succ_r in Hn by lia.
      split; [apply Z.div_pos; lia | apply Z.div_lt_upper_bound; lia].
Qed.

Lemma rev_digits_digits f n : 0 <= n -> Forall is_digit (rev_digits f n).
Proof.
  revert n. induction f as [|f IH]; intros n Hn; cbn; [by constructor|].
  destruct (Z.ltb_spec n 10).
  - constructor; [|done]. eexists. apply digit_val_digit. lia.
  - constructor.
    + eexists. apply digit_val_digit, Z.mod_pos_bound. lia.
    + apply IH, Z.div_pos; lia.
Qed.

Lemma rev_digits_ne f n : rev (rev_digits (S f) n) <> [].
Proof.
  cbn [rev_digits]. destruct (n <? 10); cbn; [done|]. by destruct (rev _).
Qed.

Lemma parse_nat_digits n : 0 <= n < 10 ^ 20 -> parse_nat (rev (rev_digits 20 n)) = Some n.
Proof.
  intros Hn. unfold parse_nat.
  destruct (rev (rev_digits 20 n)) eqn:E; [by apply (rev_digits_ne 19) in E|].
  rewrite <- E. by apply digits_val_rev.
Qed.

Lemma is_digit_signs c : is_digit c -> c <> "-"%char /\ c <> "+"%char.
Proof. intros [v Hv]. split; intros ->; done. Qed.

Lemma parse_decimal_toString z :
  - 10 ^ 20 < z < 10 ^ 20 -> parse_decimal (Long_toString z) = Some z.
Proof.
  intros Hz. unfold Long_toString. destruct (Z.ltb_spec z 0).
  - cbn [parse_decimal]. rewrite eqb_char_refl, parse_nat_digits by lia. cbn. f_equal. lia.
  - pose proof (parse_nat_digits z ltac:(lia)) as P.
    pose proof (rev_digits_digits 20 z ltac:(lia)) as D. apply Forall_rev in D.
    unfold parse_decimal. destruct (rev (rev_digits 20 z)) as [|c s] eqn:E; [done|].
    inversion D as [|? ? Hc%is_digit_signs]; subst.
    rewrite !(proj2 (eqb_char_false _ _)) by tauto. done.
Qed.

Lemma parseLong_toString z : in_long z -> parseLong (Long_toString z) = Some z.
Proof.
  intros Hz. unfold in_long in Hz. unfold parseLong.
  rewrite parse_decimal_toString by lia. cbn.
  destruct (Z.leb_spec (- 2 ^ 63) z), (Z.ltb_spec z (2 ^ 63)); cbn in *; done || lia.
Qed.

Lemma parseInt_toString z : in_int z -> parseInt (Long_toString z) = Some z.
Proof.
  intros Hz. unfold in_int, INT_MAX in Hz. unfold parseInt.
  rewrite parse_decimal_toString by lia. cbn.
  destruct (Z.leb_spec (- 2 ^ 31) z), (Z.ltb_spec z (2 ^ 31)); cbn in *; done || lia.
Qed.

(** ** Numbers as protocol tokens *)

(** A character that neither separates tokens nor starts [noreply]. *)
Definition num_char (c : ascii) : Prop := is_digit c \/ c = "-"%char.

Lemma num_char_plain c : num_char c -> c <> SP /\ c <> CR /\ c <> "n"%char.
Proof. intros [[v Hv]| ->]; [repeat split; intros ->; done | done]. Qed.

Lemma Long_toString_chars z : Forall num_char (Long_toString z).
Proof.
  unfold Long_toString. destruct (Z.ltb_spec z 0).
  - constructor; [by right|]. apply Forall_rev.
    eapply Forall_impl; [by left | apply rev_digits_digits; lia].
  - apply Forall_rev. eapply Forall_impl; [by left | apply rev_digits_digits; lia].
Qed.

Lemma Long_toString_ne z : Long_toString z <> [].
Proof. unfold Long_toString. destruct (z <? 0); [done | apply (rev_digits_ne 19)]. Qed.

Lemma Long_toString_short z : zlen (Long_toString z) <= 21.
Proof.
  assert (H : forall f n, (length (rev_digits f n) <= f)%nat).
  { induction f as [|f IH]; intros n; [done|]. cbn [rev_digits].
    destruct (n <? 10); cbn [length]; [lia|]. specialize (IH (n / 10)). lia. }
  pose proof (H 20%nat (- z)). pose proof (H 20%nat z).
  unfold Long_toString, zlen. destruct (z <? 0); cbn [length]; rewrite length_rev; lia.
Qed.

Lemma zlen_toString_pos z : 0 < zlen (Long_toString z).
Proof. apply zlen_pos, Long_toString_ne. Qed.
#[export] Hint Resolve zlen_toString_pos : mc.
