(* ===== verification/Conf.v ===== *)
(** * Configuration: MemcarrotConf.java

    A setting is looked up in the environment first, then in the properties of the cache
    configuration ([CacheConfig], of carrot-cache), then it is the default.  Numbers are
    parsed on every call of a getter.  [System.getenv] and the number of processors are
    arguments. *)

From stdpp Require Import gmap.
From S2P Require Import Prelude.
From S2P Require Import Java.

Definition CONF_SERVER_PORT : bytes := str "server.port".
Definition CONF_SERVER_ADDRESS : bytes := str "server.address".
Definition CONF_THREAD_POOL_SIZE : bytes := str "workers.pool.size".
Definition CONF_KV_SIZE_MAX : bytes := str "kv.size.max".
Definition CONF_SND_RCV_BUFFER_SIZE : bytes := str "tcp.buffer.size".
Definition CONF_USER_NAME : bytes := str "user.name".
Definition CONF_USER_PASSWORD_SHA256 : bytes := str "user.password.sha256".

Definition DEFAULT_SERVER_PORT : Z := 11211.
Definition DEFAULT_SERVER_ADDRESS : bytes := str "127.0.0.1".
Definition DEFAULT_THREAD_POOL_SIZE (availableProcessors : Z) : Z := Z.max 1 (availableProcessors / 2).
Definition DEFAULT_KV_SIZE_MAX : Z := 4 * 1024 * 1024.
Definition DEFAULT_SNDRCV_BUFFER_SIZE : Z := 32 * 1024.

(** [CacheConfig.getProperties()]: [java.util.Properties]. *)
Abbreviation Properties := (gmap bytes bytes).

#[local] Open Scope Z_scope.

Section Conf.
Context (getenv : bytes -> option bytes) (availableProcessors : Z).

(** The steps the getters share. *)
Definition get_setting (props : Properties) (name fallback : bytes) : bytes :=
  match getenv name with Some s => s | None => default fallback (props !! name) end.
Definition get_number (props : Properties) (name : bytes) (fallback : Z) : result Z :=
  match parseInt (get_setting props name (Long_toString fallback)) with
  | Some n => Ok n
  | None => Throw NumberFormatException
  end.
Definition set_number (props : Properties) (name : bytes) (n : Z) : Properties := <[name := Long_toString n]> props.

Definition getServerPort (props : Properties) : result Z := get_number props CONF_SERVER_PORT DEFAULT_SERVER_PORT.
Definition setServerPort (props : Properties) (port : Z) : Properties := set_number props CONF_SERVER_PORT port.
Definition getServerAddress (props : Properties) : bytes := get_setting props CONF_SERVER_ADDRESS DEFAULT_SERVER_ADDRESS.
Definition setServerAddress (props : Properties) (address : bytes) : Properties := <[CONF_SERVER_ADDRESS := address]> props.
Definition getSndRcvBufferSize (props : Properties) : result Z :=
  get_number props CONF_SND_RCV_BUFFER_SIZE DEFAULT_SNDRCV_BUFFER_SIZE.
Definition setSndRcvBufferSize (props : Properties) (size : Z) : Properties := set_number props CONF_SND_RCV_BUFFER_SIZE size.
Definition getThreadPoolSize (props : Properties) : result Z :=
  get_number props CONF_THREAD_POOL_SIZE (DEFAULT_THREAD_POOL_SIZE availableProcessors).
Definition setThreadPoolSize (props : Properties) (size : Z) : Properties := set_number props CONF_THREAD_POOL_SIZE size.
Definition getKeyValueMaxSize (props : Properties) : result Z := get_number props CONF_KV_SIZE_MAX DEFAULT_KV_SIZE_MAX.
Definition setKeyValueMaxSize (props : Properties) (size : Z) : Properties := set_number props CONF_KV_SIZE_MAX size.
Definition getNode (props : Properties) : result bytes :=
  let* port := getServerPort props in
  Ok (getServerAddress props ++ str ":" ++ Long_toString port).
Definition getUserLoginName (props : Properties) : bytes := get_setting props CONF_USER_NAME [].
Definition getUserPasswordSHA256 (props : Properties) : bytes := get_setting props CONF_USER_PASSWORD_SHA256 [].

(** [getConf(file)]: the configuration is made once, from the file of the first call;
    [getInstance] is [CacheConfig.getInstance]. *)
Definition getConf (getInstance : option bytes -> Properties) (conf : option Properties) (file : option bytes)
    : Properties * option Properties :=
  match conf with
  | Some c => (c, conf)
  | None => let c := getInstance file in (c, Some c)
  end.

(** ** Lookups *)

Lemma get_number_set (props : Properties) name n fallback :
  getenv name = None -> in_int n -> get_number (set_number props name n) name fallback = Ok n.
Proof.
  intros He Hn. unfold get_number, get_setting, set_number. rewrite He, lookup_insert_eq. cbn [from_option id].
  by rewrite parseInt_toString.
Qed.

Lemma get_setting_other (props : Properties) name name' s fallback :
  name <> name' -> get_setting (<[name' := s]> props) name fallback = get_setting props name fallback.
Proof. intros Hne. unfold get_setting. by rewrite lookup_insert_ne. Qed.

Lemma get_number_other (props : Properties) name name' s fallback :
  name <> name' -> get_number (<[name' := s]> props) name fallback = get_number props name fallback.
Proof. intros Hne. unfold get_number. by rewrite get_setting_other. Qed.

Lemma get_number_default name fallback :
  getenv name = None -> in_int fallback -> get_number ∅ name fallback = Ok fallback.
Proof.
  intros He Hf. unfold get_number, get_setting. rewrite He, lookup_empty. cbn [from_option id]. by rewrite parseInt_toString.
Qed.

Lemma get_number_env (props : Properties) name s fallback :
  getenv name = Some s ->
  get_number props name fallback = match parseInt s with Some n => Ok n | None => Throw NumberFormatException end.
Proof. intros He. unfold get_number, get_setting. by rewrite He. Qed.
End Conf.
