(* ===== verification/CarrotCache.v ===== *)
(** * The interface to carrot-cache

    The storage engine ([com.carrotdata.cache]) is a third-party library; the
    server calls it and nothing here says how it works.  [CarrotUtils] are the
    byte-level helpers of its [Utils] class, [Memcached] the cache operations,
    [RecordWriter] the serialisation of a stored item into a response.  What the
    server relies on is in the [...Laws] classes, one law per documented fact. *)

From S2P Require Import Prelude.
From S2P Require Import Memory.
From S2P Require Import Java.

(** ** [com.carrotdata.cache.util.Utils] *)

Class CarrotUtils := {
  (** [compareTo(ptr1, len1, ptr2, len2)] on the two byte ranges. *)
  compareTo : bytes -> bytes -> Z;
  (** [strToLongDirect(ptr, len)]; [None] is [NumberFormatException]. *)
  strToLongDirect : bytes -> option Z;
  (** The bytes [longToStrDirect(ptr, size, v)] writes; it returns their number. *)
  longToStrDirect : Z -> bytes;
  murmurHash : bytes -> Z -> Z;
  toHex : bytes -> bytes
}.

Class CarrotUtilsLaws `{CarrotUtils} : Prop := {
  compareTo_eq a b : compareTo a b = 0 <-> a = b;
  (** The parser accepts every decimal [long] a client prints ... *)
  strToLong_print v : in_long v -> strToLongDirect (Long_toString v) = Some v;
  (** ... and returns a Java [long]. *)
  strToLong_range s v : strToLongDirect s = Some v -> in_long v;
  longToStr_print v : 0 <= v -> in_long v -> longToStrDirect v = Long_toString v
}.

(** ** [com.carrotdata.cache.support.Memcached] *)

Inductive OpResult : Type := STORED | NOT_STORED | EXISTS | NOT_FOUND | DELETED.

#[global] Instance OpResult_eq_dec : EqDecision OpResult.
Proof. solve_decision. Defined.

(** A [Memcached] instance over stores [S]; [item] is its [Record] class, and
    [None] a record whose [value] is [null].  Keys and values are the byte
    ranges the Java methods receive as (pointer, size) pairs. *)
Class Memcached (S item : Type) := {
  mc_set : S -> bytes -> bytes -> Z -> Z -> OpResult * S;
  mc_add : S -> bytes -> bytes -> Z -> Z -> OpResult * S;
  mc_replace : S -> bytes -> bytes -> Z -> Z -> OpResult * S;
  mc_append : S -> bytes -> bytes -> Z -> Z -> OpResult * S;
  mc_prepend : S -> bytes -> bytes -> Z -> Z -> OpResult * S;
  mc_cas : S -> bytes -> bytes -> Z -> Z -> Z -> OpResult * S;
  mc_get : S -> bytes -> option item * S;
  mc_gets : S -> bytes -> option item * S;
  mc_gat : S -> bytes -> Z -> option item * S;
  mc_gats : S -> bytes -> Z -> option item * S;
  (** [incr] and [decr] may throw ([inl]), by their documentation a
      [NumberFormatException] or an [IllegalArgumentException]; a negative result
      means that there is no such key. *)
  mc_incr : S -> bytes -> Z -> (exn + Z) * S;
  mc_decr : S -> bytes -> Z -> (exn + Z) * S;
  mc_touch : S -> bytes -> Z -> Z * S;
  mc_delete : S -> bytes -> OpResult * S;
  mc_flushAll : S -> Z -> S;
  (** [stats()]: names and values, alternating. *)
  mc_stats : S -> list bytes;
  (** [getCache().shutdown()]: [Some msg] is an [IOException]. *)
  mc_shutdown : S -> option bytes * S
}.

(** ** [Memcached.Record.write] *)

(** [rec_write m r key dst avail isCAS] writes the response line and data block
    of [r] at [dst], where [avail] bytes are free, and returns the size of the
    whole item; [rec_render] is that item. *)
Class RecordWriter (mem item : Type) := {
  rec_render : item -> bytes -> bool -> bytes;
  rec_write : mem -> item -> bytes -> Z -> Z -> bool -> mem * Z
}.

Class RecordWriterLaws (mem item : Type) `{UnsafeAccess mem, RecordWriter mem item} : Prop := {
  (** An item that fits is written in full, and nothing else is. *)
  rec_write_fits m r k dst avail isCAS :
    zlen (rec_render r k isCAS) <= avail ->
    rec_write m r k dst avail isCAS =
      (copyBytes m (rec_render r k isCAS) dst, zlen (rec_render r k isCAS));
  (** An item that does not fit is reported with its size, and the writer stays
      inside the space it was given. *)
  rec_write_size m r k dst avail isCAS :
    snd (rec_write m r k dst avail isCAS) = zlen (rec_render r k isCAS);
  rec_write_off m r k dst avail isCAS :
    same_off m (fst (rec_write m r k dst avail isCAS)) dst (Z.max 0 avail)
}.

(** Looking an item up again, with nothing in between, changes nothing: what
    the retry of a retrieval command after a partial flush relies on. *)
Class MemcachedRetryLaws (S item : Type) `{Memcached S item} : Prop := {
  mc_get_again s k : mc_get (snd (mc_get s k)) k = mc_get s k;
  mc_gets_again s k : mc_gets (snd (mc_gets s k)) k = mc_gets s k;
  mc_gat_again s k e : mc_gat (snd (mc_gat s k e)) k e = mc_gat s k e;
  mc_gats_again s k e : mc_gats (snd (mc_gats s k e)) k e = mc_gats s k e
}.
