(* ===== verification/Reference.v ===== *)
(** * Concrete instances of the interfaces

    A total-map memory, decimal utilities and a small association-list store.
    They show that the laws of [Memory] and [CarrotCache] can hold together, and
    give the witnesses of the theorems something to run on.  Nothing here is a
    claim about the real carrot-cache; the theorems are proved from the laws. *)

From S2P Require Import Prelude.
From S2P Require Import Memory.
From S2P Require Import Java.
From S2P Require Import CarrotCache.

(** ** Memory: a total map from addresses to bytes *)

Definition Mem : Type := Z -> ascii.

#[export] Instance fun_mem : UnsafeAccess Mem := {
  toByte m p := m p;
  putByte m p c := fun q => if q =? p then c else m q;
  copyBytes m l p := fun q =>
    if (p <=? q) && (q <? p + zlen l) then default NUL (l !! Z.to_nat (q - p)) else m q;
  copyMem m s d n := fun q =>
    if (d <=? q) && (q <? d + n) then m (s + (q - d)) else m q
}.

#[export] Instance fun_mem_laws : UnsafeAccessLaws Mem.
Proof. by split. Qed.

(** A memory that holds [l] at [p] and zeroes elsewhere. *)
Definition mem_of (l : bytes) (p : Z) : Mem := copyBytes (fun _ => NUL) l p.

(** ** Utilities *)

Definition ref_compare (a b : bytes) : Z := if decide (a = b) then 0 else 1.

#[export] Instance ref_utils : CarrotUtils := {
  compareTo := ref_compare;
  strToLongDirect := parseLong;
  longToStrDirect := Long_toString;
  murmurHash l seed := foldr (fun c h => to_int (31 * h + Z.of_nat (nat_of_ascii c))) seed l;
  toHex l := l
}.

#[export] Instance ref_utils_laws : CarrotUtilsLaws.
Proof.
  split; cbn.
  - intros a b. unfold ref_compare. case_decide; split; done || lia.
  - apply parseLong_toString.
  - intros s v. unfold parseLong. destruct (parse_decimal s) as [w|]; [|done]. cbn.
    destruct (Z.leb_spec (- 2 ^ 63) w), (Z.ltb_spec w (2 ^ 63)); cbn; try done.
    intros [= <-]. done.
  - done.
Qed.

(** ** A store *)

Record Item := { i_data : bytes; i_flags : Z; i_exp : Z; i_cas : Z }.
Record Store := { entries : list (bytes * Item); next_cas : Z }.

Fixpoint find_key (k : bytes) (l : list (bytes * Item)) : option Item :=
  match l with
  | [] => None
  | (k', i) :: l => if decide (k = k') then Some i else find_key k l
  end.
Definition del_key (k : bytes) (l : list (bytes * Item)) : list (bytes * Item) :=
  filter (fun e => e.1 <> k) l.

Definition put (s : Store) (k v : bytes) (f e : Z) : OpResult * Store :=
  (STORED, {| entries := (k, {| i_data := v; i_flags := f; i_exp := e; i_cas := next_cas s |})
                          :: del_key k (entries s);
              next_cas := next_cas s + 1 |}).
Definition lookup_key (s : Store) (k : bytes) : option Item := find_key k (entries s).

Definition change (s : Store) (k : bytes) (f : Item -> OpResult * Store) (missing : OpResult) :
    OpResult * Store :=
  match lookup_key s k with Some i => f i | None => (missing, s) end.

Definition touch_item (s : Store) (k : bytes) (e : Z) : option Item * Store :=
  match lookup_key s k with
  | Some i =>
      let i := {| i_data := i_data i; i_flags := i_flags i; i_exp := e; i_cas := i_cas i |} in
      (Some i, {| entries := (k, i) :: del_key k (entries s); next_cas := next_cas s |})
  | None => (None, s)
  end.

Definition add_to (s : Store) (k : bytes) (op : Z -> Z) : (exn + Z) * Store :=
  match lookup_key s k with
  | None => (inr (-1), s)
  | Some i =>
      match parseLong (i_data i) with
      | None => (inl NumberFormatException, s)
      | Some v => (inr (op v), (put s k (Long_toString (op v)) (i_flags i) (i_exp i)).2)
      end
  end.

#[export] Instance ref_store : Memcached Store Item := {
  mc_set s k v f e := put s k v f e;
  mc_add s k v f e := if lookup_key s k is Some _ then (NOT_STORED, s) else put s k v f e;
  mc_replace s k v f e := if lookup_key s k is Some _ then put s k v f e else (NOT_STORED, s);
  mc_append s k v f e := change s k (fun i => put s k (i_data i ++ v) (i_flags i) (i_exp i)) NOT_STORED;
  mc_prepend s k v f e := change s k (fun i => put s k (v ++ i_data i) (i_flags i) (i_exp i)) NOT_STORED;
  mc_cas s k v f e c :=
    change s k (fun i => if i_cas i =? c then put s k v f e else (EXISTS, s)) NOT_FOUND;
  mc_get s k := (lookup_key s k, s);
  mc_gets s k := (lookup_key s k, s);
  mc_gat s k e := touch_item s k e;
  mc_gats s k e := touch_item s k e;
  mc_incr s k v := add_to s k (fun w => w + v);
  mc_decr s k v := add_to s k (fun w => Z.max 0 (w - v));
  mc_touch s k e :=
    match lookup_key s k with Some i => (i_exp i, (touch_item s k e).2) | None => (-1, s) end;
  mc_delete s k :=
    change s k (fun _ => (DELETED, {| entries := del_key k (entries s); next_cas := next_cas s |}))
      NOT_FOUND;
  mc_flushAll s _ := {| entries := []; next_cas := next_cas s |};
  mc_stats s := [str "curr_items"; Long_toString (zlen (entries s))];
  mc_shutdown s := (None, s)
}.

(** ** Rendering an item: [VALUE key flags bytes [cas]\r\n data \r\n] *)

Definition ref_render (i : Item) (k : bytes) (isCAS : bool) : bytes :=
  str "VALUE " ++ k ++ [SP] ++ Long_toString (i_flags i) ++ [SP]
    ++ Long_toString (zlen (i_data i))
    ++ (if isCAS then SP :: Long_toString (i_cas i) else [])
    ++ CRLF ++ i_data i ++ CRLF.

#[export] Instance ref_writer : RecordWriter Mem Item := {
  rec_render := ref_render;
  rec_write m i k dst avail isCAS :=
    let l := ref_render i k isCAS in
    (if zlen l <=? avail then copyBytes m l dst else m, zlen l)
}.

#[export] Instance ref_writer_laws : RecordWriterLaws Mem Item.
Proof.
  split; cbn [rec_render rec_write ref_writer fst snd].
  - intros. by zcase.
  - done.
  - intros m r k dst avail b. zcase; [|apply same_off_refl].
    eapply same_off_widen; [apply copyBytes_off|..]; lia.
Qed.

Lemma find_key_hd k i l : find_key k ((k, i) :: l) = Some i.
Proof. cbn. by rewrite decide_True. Qed.

Lemma del_key_hd k i l : del_key k ((k, i) :: del_key k l) = del_key k l.
Proof.
  unfold del_key. rewrite filter_cons_False by (cbn; congruence).
  rewrite list_filter_filter. apply list_filter_iff. intros e. tauto.
Qed.

Lemma touch_again s k e : touch_item (touch_item s k e).2 k e = touch_item s k e.
Proof.
  unfold touch_item at 2 3. destruct (lookup_key s k) as [i|] eqn:E; cbn.
  - unfold touch_item, lookup_key. cbn [entries next_cas].
    rewrite find_key_hd, del_key_hd. done.
  - unfold touch_item. by rewrite E.
Qed.

#[export] Instance ref_retry_laws : MemcachedRetryLaws Store Item.
Proof. split; cbn; intros; try done; apply touch_again. Qed.

Definition empty_store : Store := {| entries := []; next_cas := 1 |}.
