(* ===== verification/Utils.v ===== *)
(** * [util/Utils.java] and [util/Key.java]

    The tokenizer of the parsers ([nextTokenStart], [nextTokenEnd]), the
    in-place upper-casing, the expiration-time adjustment, and the key wrapper.
    The two token scanners are one loop over a byte predicate, [scan]; its fuel
    is the byte limit, which the loop cannot exceed. *)

From S2P Require Import Prelude.
From S2P Require Import Memory.
From S2P Require Import Java.
From S2P Require Import CarrotCache.

(** ** Token scanning *)

Section Scan.
Context {mem : Type} `{UnsafeAccess mem}.

(** [while (p(toByte(ptr + off))) { off++; if (off == limit) return -1; }
    return off;]  A round per byte of a limit that is not negative; for a negative one, which
    the parser never passes, the code would run on. *)
Fixpoint scan (p : ascii -> bool) (fuel : nat) (m : mem) (ptr limit off : Z) : Z :=
  match fuel with
  | O => -1
  | S f =>
      if p (toByte m (ptr + off)) then
        let off := off + 1 in
        if off =? limit then -1 else scan p f m ptr limit off
      else off
  end.

Definition nextTokenStart (m : mem) (ptr limit : Z) : Z :=
  if limit =? 0 then -1 else scan (fun c => c =c? SP) (Z.to_nat limit) m ptr limit 0.

Definition nextTokenEnd (m : mem) (ptr limit : Z) : Z :=
  if limit =? 0 then -1
  else scan (fun c => negb (c =c? SP) && negb (c =c? CR)) (Z.to_nat limit) m ptr limit 0.

Definition requestIsComplete : bool := false.

(** ** [toUpperCase] *)

(** A Java [byte] is signed. *)
Definition byte_val (c : ascii) : Z :=
  let n := Z.of_nat (nat_of_ascii c) in if n <? 128 then n else n - 256.
Definition byte_of (v : Z) : ascii := ascii_of_nat (Z.to_nat (v mod 256)).

Fixpoint toUpperCase_loop (n : nat) (m : mem) (addr i : Z) : mem :=
  match n with
  | O => m
  | S n' =>
      let v := byte_val (toByte m (addr + i)) in
      let m := if (v <=? 122) && (97 <=? v) then putByte m (addr + i) (byte_of (v - 32)) else m in
      toUpperCase_loop n' m addr (i + 1)
  end.

Definition toUpperCase (m : mem) (addr len : Z) : mem :=
  toUpperCase_loop (Z.to_nat len) m addr 0.

End Scan.

(** ** [adjustExpirationTime], with the clock as an argument *)

Definition adjustExpirationTime (now exptime : Z) : Z :=
  if exptime <? 0 then exptime
  else if exptime <=? 60 * 60 * 24 * 30 then to_long (now + to_long (exptime * 1000))
  else to_long (exptime * 1000).

(** ** [Key] *)

Record Key := { address : Z; key_length : Z }.

Section Keys.
Context {mem : Type} `{UnsafeAccess mem} `{CarrotUtils}.

(** [Math.abs] on [int]: the minimum is its own absolute value. *)
Definition Math_abs (z : Z) : Z := to_int (Z.abs z).

Definition Key_hashCode (m : mem) (k : Key) : Z :=
  Math_abs (murmurHash (bytes_at m (address k) (key_length k)) 0).

Definition Key_compareTo (m : mem) (k o : Key) : Z :=
  compareTo (bytes_at m (address k) (key_length k)) (bytes_at m (address o) (key_length o)).

(** The argument is a [Key] already ([instanceof]); [this == o] is the
    reference shortcut, decided by [same]. *)
Definition Key_equals (m : mem) (same : bool) (k o : Key) : bool :=
  if same then true else Key_compareTo m k o =? 0.

Definition Key_toString (m : mem) (k : Key) : bytes :=
  toHex (bytes_at m (address k) (key_length k)).

End Keys.

(** ** Scanning lemmas *)

Section ScanFacts.
Context {mem : Type} `{UnsafeAccess mem}.
Implicit Types (m : mem) (l : bytes).

(** What the loop returns: the offset of the first byte that fails [p], or -1
    when the [limit] bytes all satisfy it. *)
Lemma scan_spec p fuel m ptr limit off :
  0 <= off < limit -> limit - off <= Z.of_nat fuel ->
  (forall i, 0 <= i < off -> p (toByte m (ptr + i)) = true) ->
  let r := scan p fuel m ptr limit off in
  (r = -1 /\ forall i, 0 <= i < limit -> p (toByte m (ptr + i)) = true) \/
  (off <= r < limit /\ p (toByte m (ptr + r)) = false /\
   forall i, 0 <= i < r -> p (toByte m (ptr + i)) = true).
Proof.
  revert off. induction fuel as [|f IH]; intros off Ho Hf Hp; cbn; [lia|].
  destruct (p (toByte m (ptr + off))) eqn:E; [|right; repeat split; done || lia].
  assert (Hp' : forall i, 0 <= i < off + 1 -> p (toByte m (ptr + i)) = true).
  { intros i Hi. destruct (decide (i = off)) as [->|]; [done|]. apply Hp. lia. }
  destruct (Z.eqb_spec (off + 1) limit) as [<-|]; [by left|].
  destruct (IH (off + 1)) as [?|(? & ? & ?)]; [lia|lia|done|by left|].
  right. repeat split; done || lia.
Qed.

(** The same on a region in view: the token [l] is followed by [c]. *)
Lemma scan_view p fuel m ptr limit l c k off :
  view m (ptr + off) (limit - off) (l ++ c :: k) ->
  Forall (fun x => p x = true) l -> p c = false ->
  0 <= off < limit -> limit - off <= Z.of_nat fuel ->
  scan p fuel m ptr limit off = if zlen l <? limit - off then off + zlen l else -1.
Proof.
  revert off fuel. induction l as [|x l IH]; intros off fuel V Hl Hc Ho Hf;
    (destruct fuel as [|fuel]; [lia|]); cbn [scan app] in *;
    apply view_cons in V as [Hx V]; rewrite Hx by lia.
  - rewrite Hc. zcase. zlia.
  - inversion Hl as [|? ? Hpx Hl']; subst. rewrite Hpx.
    destruct (Z.eqb_spec (off + 1) limit) as [<-|]; [by zcase|].
    replace (ptr + off + 1) with (ptr + (off + 1)) in V by lia.
    replace (limit - off - 1) with (limit - (off + 1)) in V by lia.
    rewrite IH by (done || lia). rewrite zlen_cons. repeat zcase; zlia.
Qed.

(** Token-level view of the two scanners. *)
Definition plain (c : ascii) : Prop := c <> SP /\ c <> CR.
Definition sep (c : ascii) : Prop := c = SP \/ c = CR.

#[local] Lemma plain_scans l :
  Forall plain l -> Forall (fun x => negb (x =c? SP) && negb (x =c? CR) = true) l.
Proof.
  intros Hl. eapply Forall_impl; [|exact Hl]. intros c [H1 H2].
  by rewrite (proj2 (eqb_char_false _ _) H1), (proj2 (eqb_char_false _ _) H2).
Qed.

Lemma nextTokenEnd_view m ptr limit l c k :
  view m ptr limit (l ++ c :: k) -> Forall plain l -> sep c -> 0 <= limit ->
  nextTokenEnd m ptr limit = if zlen l <? limit then zlen l else -1.
Proof.
  intros V Hl Hc Hlim. unfold nextTokenEnd.
  destruct (Z.eqb_spec limit 0) as [->|]; [by zcase|].
  rewrite (scan_view _ _ _ _ _ l c k).
  - rewrite Z.sub_0_r. done.
  - by rewrite Z.add_0_r, Z.sub_0_r.
  - by apply plain_scans.
  - by destruct Hc as [-> | ->].
  - lia.
  - lia.
Qed.

(** One separating space before a plain byte. *)
Lemma nextTokenStart_space m ptr limit c k :
  view m ptr limit (SP :: c :: k) -> c <> SP -> 0 <= limit ->
  nextTokenStart m ptr limit = if 1 <? limit then 1 else -1.
Proof.
  intros V Hc Hlim. unfold nextTokenStart.
  destruct (Z.eqb_spec limit 0) as [->|]; [done|].
  rewrite (scan_view _ _ _ _ _ [SP] c k).
  - by rewrite Z.sub_0_r.
  - by rewrite Z.add_0_r, Z.sub_0_r.
  - by repeat constructor.
  - by apply eqb_char_false.
  - lia.
  - lia.
Qed.

(** No space: the token starts here. *)
Lemma nextTokenStart_here m ptr limit c k :
  view m ptr limit (c :: k) -> c <> SP -> 0 <= limit ->
  nextTokenStart m ptr limit = if 0 <? limit then 0 else -1.
Proof.
  intros V Hc Hlim. unfold nextTokenStart.
  destruct (Z.eqb_spec limit 0) as [->|]; [done|].
  rewrite (scan_view _ _ _ _ _ [] c k).
  - by rewrite Z.sub_0_r.
  - by rewrite Z.add_0_r, Z.sub_0_r.
  - done.
  - by apply eqb_char_false.
  - lia.
  - lia.
Qed.

Lemma nextTokenStart_spec m ptr limit :
  0 < limit ->
  let r := nextTokenStart m ptr limit in
  (r = -1 /\ forall i, 0 <= i < limit -> toByte m (ptr + i) = SP) \/
  (0 <= r < limit /\ toByte m (ptr + r) <> SP /\
   forall i, 0 <= i < r -> toByte m (ptr + i) = SP).
Proof.
  intros Hl. unfold nextTokenStart. destruct (Z.eqb_spec limit 0); [lia|].
  destruct (scan_spec (fun c => c =c? SP) (Z.to_nat limit) m ptr limit 0)
    as [[-> A]|(B & C & D)]; [lia|lia|intros; lia|left|right].
  - split; [done|]. intros i Hi. by apply eqb_char_true, A.
  - split; [lia|]. split; [by apply eqb_char_false|].
    intros i Hi. by apply eqb_char_true, D.
Qed.

Lemma nextTokenEnd_spec m ptr limit :
  0 < limit ->
  let r := nextTokenEnd m ptr limit in
  (r = -1 /\ forall i, 0 <= i < limit -> plain (toByte m (ptr + i))) \/
  (0 <= r < limit /\ sep (toByte m (ptr + r)) /\
   forall i, 0 <= i < r -> plain (toByte m (ptr + i))).
Proof.
  intros Hl. unfold nextTokenEnd. destruct (Z.eqb_spec limit 0); [lia|].
  assert (P : forall c, negb (c =c? SP) && negb (c =c? CR) = true -> plain c).
  { intros c [A%negb_true_iff B%negb_true_iff]%andb_true_iff.
    by apply eqb_char_false in A, B. }
  destruct (scan_spec (fun c => negb (c =c? SP) && negb (c =c? CR)) (Z.to_nat limit) m ptr limit 0)
    as [[-> A]|(B & C & D)]; [lia|lia|intros; lia|left|right].
  - split; [done|]. intros i Hi. by apply P, A.
  - split; [lia|]. split; [|intros i Hi; by apply P, D].
    apply andb_false_iff in C as [C%negb_false_iff|C%negb_false_iff]; apply eqb_char_true in C;
      [by left | by right].
Qed.

(** Ranges, for the bounds proofs. *)
Lemma nextTokenStart_range m ptr limit :
  0 <= limit -> -1 <= nextTokenStart m ptr limit < Z.max 1 limit.
Proof.
  intros. destruct (decide (limit = 0)) as [->|]; [done|].
  destruct (nextTokenStart_spec m ptr limit) as [[-> _]|(? & _)]; lia.
Qed.
Lemma nextTokenEnd_range m ptr limit :
  0 <= limit -> -1 <= nextTokenEnd m ptr limit < Z.max 1 limit.
Proof.
  intros. destruct (decide (limit = 0)) as [->|]; [done|].
  destruct (nextTokenEnd_spec m ptr limit) as [[-> _]|(? & _)]; lia.
Qed.
Lemma nextTokenStart_lt m ptr limit :
  0 <= limit -> nextTokenStart m ptr limit = -1 \/ 0 <= nextTokenStart m ptr limit < limit.
Proof.
  intros. destruct (decide (limit = 0)) as [->|]; [by left|].
  destruct (nextTokenStart_spec m ptr limit) as [[-> _]|(? & _)]; [lia|by left|by right].
Qed.
Lemma nextTokenEnd_lt m ptr limit :
  0 <= limit -> nextTokenEnd m ptr limit = -1 \/ 0 <= nextTokenEnd m ptr limit < limit.
Proof.
  intros. destruct (decide (limit = 0)) as [->|]; [by left|].
  destruct (nextTokenEnd_spec m ptr limit) as [[-> _]|(? & _)]; [lia|by left|by right].
Qed.

End ScanFacts.
