(* ===== verification/Command.v ===== *)
(** * Command objects

    [AbstractMemcachedCommand] and the command classes as data: one record of
    parsed fields for the single-key commands, one for the retrieval commands,
    and the tagged union [MemcachedCommand] of everything the parser can return.
    Also what [WorkThread] and [CommandProcessor] ask of any command:
    [commandLength], [inputConsumed] and [isMemorySafe]. *)

From S2P Require Import Prelude.
From S2P Require Import Memory.

(** ** The fields of [AbstractMemcachedCommand] *)

Record Abstract := {
  keyPtr : Z;
  keySize : Z;
  valPtr : Z;
  valSize : Z;
  flags : Z;
  exptime : Z;
  cas : Z;
  value : Z;
  noreply : bool;
  isCAS : bool;
  consumed : Z
}.

(** A freshly allocated command: Java zeroes every field. *)
Definition new_Abstract (isCAS : bool) : Abstract :=
  {| keyPtr := 0; keySize := 0; valPtr := 0; valSize := 0; flags := 0; exptime := 0;
     cas := 0; value := 0; noreply := false; isCAS := isCAS; consumed := 0 |}.

(** [RetrievalCommand]: the fields it uses of its superclass, and its own. *)
Record Retrieval := {
  r_exptime : Z;
  r_isCAS : bool;
  r_isTouch : bool;
  r_keys : list Z;
  r_keySizes : list Z;
  r_consumed : Z
}.

(** [FLUSH_ALL] does not extend [AbstractMemcachedCommand]. *)
Record FlushAll := { f_noreply : bool; f_consumed : Z; f_delay : Z }.

Inductive StorageVerb : Type := SET | ADD | REPLACE | APPEND | PREPEND | CAS.
Inductive RetrievalVerb : Type := GET | GETS | GAT | GATS.

#[global] Instance StorageVerb_eq_dec : EqDecision StorageVerb.
Proof. solve_decision. Defined.
#[global] Instance RetrievalVerb_eq_dec : EqDecision RetrievalVerb.
Proof. solve_decision. Defined.

Inductive MemcachedCommand : Type :=
  | StorageCommand (v : StorageVerb) (c : Abstract)
  | RetrievalCommand (v : RetrievalVerb) (c : Retrieval)
  | INCR (c : Abstract)
  | DECR (c : Abstract)
  | TOUCH (c : Abstract)
  | DELETE (c : Abstract)
  | FLUSH_ALL (c : FlushAll)
  | STATS
  | VERSION
  | QUIT
  | SHUTDOWN
  | SAVE
  | BGSAVE.

(** The constructors: [CAS()] sets [isCAS]; [GETS()], [GAT()] and [GATS()] set
    [isCAS], [isTouch] and both. *)
Definition new_StorageCommand (v : StorageVerb) : Abstract :=
  new_Abstract (match v with CAS => true | _ => false end).
Definition new_GETS : bool * bool := (true, false).
Definition new_GAT : bool * bool := (false, true).
Definition new_GATS : bool * bool := (true, true).

Definition new_RetrievalCommand (v : RetrievalVerb) : Retrieval :=
  let '(cas, touch) :=
    match v with GET => (false, false) | GETS => new_GETS | GAT => new_GAT | GATS => new_GATS end in
  {| r_exptime := 0; r_isCAS := cas; r_isTouch := touch; r_keys := []; r_keySizes := [];
     r_consumed := 0 |}.

(** ** [commandLength]: the command's name and the space after it *)

Definition commandLength (cmd : MemcachedCommand) : Z :=
  match cmd with
  | StorageCommand SET _ | StorageCommand ADD _ | StorageCommand CAS _ => 4
  | StorageCommand REPLACE _ | StorageCommand PREPEND _ => 8
  | StorageCommand APPEND _ => 7
  | RetrievalCommand GET _ | RetrievalCommand GAT _ => 4
  | RetrievalCommand GETS _ | RetrievalCommand GATS _ => 5
  | INCR _ | DECR _ => 5
  | TOUCH _ => 6
  | DELETE _ => 7
  | FLUSH_ALL _ => 10
  | BGSAVE => 7
  | STATS | VERSION | QUIT | SHUTDOWN | SAVE => 0
  end.

(** ** [inputConsumed] *)

(** [AbstractMemcachedCommand.inputConsumed]. *)
Definition abstract_inputConsumed (consumed len : Z) : Z :=
  if consumed =? 0 then 0 else consumed + len.

Definition inputConsumed (cmd : MemcachedCommand) : Z :=
  match cmd with
  | StorageCommand _ c | INCR c | DECR c | TOUCH c | DELETE c =>
      abstract_inputConsumed (consumed c) (commandLength cmd)
  | RetrievalCommand _ c => abstract_inputConsumed (r_consumed c) (commandLength cmd)
  | FLUSH_ALL c => f_consumed c + commandLength cmd
  | STATS => 7
  | VERSION => 9
  | QUIT => 6
  | SHUTDOWN => 10
  | SAVE | BGSAVE => 0
  end.

(** ** [isMemorySafe] *)

Definition abstract_isMemorySafe (storage : bool) (c : Abstract) (memptr memsize : Z) : bool :=
  let safe := (0 <? keyPtr c) && (0 <? keySize c) in
  let safe := safe && (memptr <? keyPtr c) && (keyPtr c + keySize c <? memptr + memsize) in
  if storage then
    let safe := safe && ((0 <? valPtr c) && (0 <=? valSize c)) in
    let safe := safe && ((memptr <? valPtr c) && (valPtr c + valSize c <? memptr + memsize)) in
    safe && (keyPtr c + keySize c <? valPtr c)
  else safe.

(** [RetrievalCommand.isMemorySafe] checks every key. *)
Fixpoint retrieval_isMemorySafe (keys keySizes : list Z) (memptr memsize : Z) : bool :=
  match keys, keySizes with
  | k :: keys, s :: keySizes =>
      let safe := (0 <? k) && (0 <? s) in
      let safe := safe && ((memptr <? k) && (k + s <? memptr + memsize)) in
      if negb safe then false else retrieval_isMemorySafe keys keySizes memptr memsize
  | _, _ => true
  end.

(** [CommandProcessor.isMemorySafe]: commands that are not an
    [AbstractMemcachedCommand] hold no pointers. *)
Definition isMemorySafe (cmd : MemcachedCommand) (memptr memsize : Z) : bool :=
  match cmd with
  | StorageCommand _ c => abstract_isMemorySafe true c memptr memsize
  | INCR c | DECR c | TOUCH c | DELETE c => abstract_isMemorySafe false c memptr memsize
  | RetrievalCommand _ c => retrieval_isMemorySafe (r_keys c) (r_keySizes c) memptr memsize
  | FLUSH_ALL _ | STATS | VERSION | QUIT | SHUTDOWN | SAVE | BGSAVE => true
  end.
