(* ===== verification/CommandParse.v ===== *)
(** * The [parse] methods of the command classes

    One definition per method, in the shape of the Java code: offsets [start]
    and [end_] into the buffer, every early [return false] as [Ok None], every
    thrown exception as [Throw].  [Ok (Some c)] is [return true] with the fields
    of the command set.  The noreply-and-line-end tail that [StorageCommand],
    [INCR], [TOUCH] and [DELETE] repeat is [parse_tail]. *)

From S2P Require Import Prelude.
From S2P Require Import Memory.
From S2P Require Import Java.
From S2P Require Import CarrotCache.
From S2P Require Import Utils.
From S2P Require Import Command.

Definition NOREPLY : bytes := str "noreply".

(** The two spellings of the line-end message: with the escapes spelt out, and
    with an actual carriage return and line feed in it. *)
Definition crlf_expected_escaped : bytes := str "'\r\n' was expected".
Definition crlf_expected_raw : bytes := str "'" ++ CRLF ++ str "' was expected".

Section Parse.
Context {mem : Type} `{UnsafeAccess mem} `{CarrotUtils}.

Definition getLong (m : mem) (p len : Z) : result Z :=
  match strToLongDirect (bytes_at m p len) with
  | Some v => Ok v
  | None => Throw NumberFormatException
  end.

Definition throwIfNotEquals (n v : Z) (msg : bytes) : result unit :=
  if n =? v then Ok tt else Throw (IllegalFormatException msg).
Definition throwIfEquals (n v : Z) (msg : bytes) : result unit :=
  if n =? v then Throw (IllegalFormatException msg) else Ok tt.

(** [// skip \r\n]: the line end must be complete and be there. *)
Definition skip_crlf (msg : bytes) (m : mem) (inBuffer bufferSize end_ : Z) : result (option Z) :=
  if bufferSize - 2 <? end_ then Ok None
  else if negb (toByte m (inBuffer + end_) =c? CR) then Throw (IllegalFormatException msg)
  else
    let end_ := end_ + 1 in
    if negb (toByte m (inBuffer + end_) =c? LF) then Throw (IllegalFormatException msg)
    else Ok (Some (end_ + 1)).

(** [// check noreply] and the line end.  A word that starts with [n] but is not
    [noreply] is not rejected here (the Java code builds the exception and drops
    it); the line-end test then fails on it. *)
Definition parse_tail (msg : bytes) (m : mem) (inBuffer bufferSize end_ : Z) :
    result (option (bool * Z)) :=
  let start := nextTokenStart m (inBuffer + end_) (bufferSize - end_) in
  if start <? 0 then Ok None
  else
    let start := start + end_ in
    let finish noreply end_ :=
      let* r := skip_crlf msg m inBuffer bufferSize end_ in
      Ok (match r with Some e => Some (noreply, e) | None => None end) in
    if (toByte m (inBuffer + start) =c? "n"%char) && (9 <=? bufferSize - start) then
      if compareTo (bytes_at m (inBuffer + start) 7) NOREPLY =? 0
      then finish true (start + 7) else finish false end_
    else if toByte m (inBuffer + start) =c? "n"%char then Ok None
    else finish false end_.

(** The block that [StorageCommand.parse] repeats for flags, exptime, bytes and
    cas: exactly one space, a non-empty token, its value; [end_] is where the
    previous token ended, and the continuation receives the value and the new
    [end_]. *)
Definition number_field {A} (msg : bytes) (m : mem) (inBuffer bufferSize end_ : Z)
    (kont : Z -> Z -> result (option A)) : result (option A) :=
  let start := nextTokenStart m (inBuffer + end_) (bufferSize - end_) in
  if start <=? 0 then Ok None else
  let* _ := throwIfNotEquals start 1 msg in
  let start := start + end_ in
  let end_ := nextTokenEnd m (inBuffer + start) (bufferSize - start) in
  if end_ <=? 0 then Ok None else
  let end_ := end_ + start in
  let* v := getLong m (inBuffer + start) (end_ - start) in
  kont v end_.

(** What follows the last field: the optional [noreply], the line end, and the
    data block, which must be complete (with two bytes after it). *)
Definition storage_finish (this : Abstract) (m : mem) (inBuffer bufferSize : Z)
    (keySize flags exptime valSize cas end_ : Z) : result (option Abstract) :=
  let* t := parse_tail crlf_expected_escaped m inBuffer bufferSize end_ in
  match t with
  | None => Ok None
  | Some (noreply, end_) =>
      let valPtr := inBuffer + end_ in
      if valSize >? bufferSize - end_ - 2 then Ok None
      else Ok (Some {|
        keyPtr := inBuffer; keySize := keySize; valPtr := valPtr; valSize := valSize;
        flags := flags; exptime := exptime; cas := cas; value := value this;
        noreply := noreply; isCAS := isCAS this; consumed := valSize + end_ + 2 |})
  end.

(** The key's token is not checked to be complete: [end_] may be -1, and the next
    scan then starts one byte before the buffer. *)
Definition StorageCommand_parse (this : Abstract) (m : mem) (inBuffer bufferSize : Z) :
    result (option Abstract) :=
  catch_nfe (
    let start := 0 in
    let end_ := nextTokenEnd m inBuffer bufferSize in
    let keySize := end_ - start in
    let end_ := end_ + start in
    number_field (str "1 malformed request") m inBuffer bufferSize end_ (fun v end_ =>
    if (v >? 4294967295) || (v <? 0)
    then Throw (IllegalFormatException (str "flags is not 32 - bit unsigned")) else
    let flags := v in
    number_field (str "2 malformed request") m inBuffer bufferSize end_ (fun exptime end_ =>
    number_field (str "3 malformed request") m inBuffer bufferSize end_ (fun v end_ =>
    if (v >? INT_MAX) || (v <? 0)
    then Throw (IllegalFormatException (str "illegal value size: " ++ Long_toString v)) else
    let valSize := to_int v in
    let finish cas := storage_finish this m inBuffer bufferSize keySize flags exptime valSize cas in
    if isCAS this then
      number_field (str "4 malformed request") m inBuffer bufferSize end_ finish
    else finish (cas this) end_))))
  (IllegalFormatException (str "not a number")).

(** [INCR.parse], which [DECR] inherits. *)
Definition INCR_parse (this : Abstract) (m : mem) (inBuffer bufferSize : Z) :
    result (option Abstract) :=
  catch_nfe (
    let start := 0 in
    let keyPtr := inBuffer in
    let end_ := nextTokenEnd m inBuffer bufferSize in
    if end_ <=? 0 then Ok None else
    let end_ := end_ + start in
    let keySize := end_ - start in
    let start := nextTokenStart m (inBuffer + end_) (bufferSize - end_) in
    if start <=? 0 then Ok None else
    let* _ := throwIfNotEquals start 1 (str "malformed request") in
    let start := start + end_ in
    let end_ := nextTokenEnd m (inBuffer + start) (bufferSize - start) in
    if end_ <=? 0 then Ok None else
    let end_ := end_ + start in
    let* value := getLong m (inBuffer + start) (end_ - start) in
    let* t := parse_tail crlf_expected_raw m inBuffer bufferSize end_ in
    Ok (match t with
        | None => None
        | Some (noreply, end_) => Some {|
            keyPtr := keyPtr; keySize := keySize; valPtr := valPtr this; valSize := valSize this;
            flags := flags this; exptime := exptime this; cas := cas this; value := value;
            noreply := noreply; isCAS := isCAS this; consumed := end_ |}
        end))
  (IllegalFormatException (str "not a number")).

Definition TOUCH_parse (this : Abstract) (m : mem) (inBuffer bufferSize : Z) :
    result (option Abstract) :=
  catch_nfe (
    let start := 0 in
    let keyPtr := inBuffer in
    let end_ := nextTokenEnd m inBuffer bufferSize in
    if end_ <=? 0 then Ok None else
    let end_ := end_ + start in
    let keySize := end_ - start in
    let start := nextTokenStart m (inBuffer + end_) (bufferSize - end_) in
    if start <=? 0 then Ok None else
    let* _ := throwIfNotEquals start 1 (str "malformed request") in
    let start := start + end_ in
    let end_ := nextTokenEnd m (inBuffer + start) (bufferSize - start) in
    if end_ <=? 0 then Ok None else
    let end_ := end_ + start in
    let* exptime := getLong m (inBuffer + start) (end_ - start) in
    let* t := parse_tail crlf_expected_escaped m inBuffer bufferSize end_ in
    Ok (match t with
        | None => None
        | Some (noreply, end_) => Some {|
            keyPtr := keyPtr; keySize := keySize; valPtr := valPtr this; valSize := valSize this;
            flags := flags this; exptime := exptime; cas := cas this; value := value this;
            noreply := noreply; isCAS := isCAS this; consumed := end_ |}
        end))
  (IllegalFormatException (str "not a number")).

Definition DELETE_parse (this : Abstract) (m : mem) (inBuffer bufferSize : Z) :
    result (option Abstract) :=
  let start := 0 in
  let keyPtr := inBuffer in
  let end_ := nextTokenEnd m inBuffer bufferSize in
  if end_ <=? 0 then Ok None else
  let end_ := end_ + start in
  let keySize := end_ - start in
  let* t := parse_tail crlf_expected_raw m inBuffer bufferSize end_ in
  Ok (match t with
      | None => None
      | Some (noreply, end_) => Some {|
          keyPtr := keyPtr; keySize := keySize; valPtr := valPtr this; valSize := valSize this;
          flags := flags this; exptime := exptime this; cas := cas this; value := value this;
          noreply := noreply; isCAS := isCAS this; consumed := end_ |}
      end).

(** ** Retrieval commands *)

(** The [while] loop of [calculateNumberOfKeys]; every round that does not leave
    the loop advances [end_], so [inBufferSize + 1] rounds are enough. *)
Fixpoint countKeys (fuel : nat) (m : mem) (inBuffer inBufferSize count end_ : Z) : Z :=
  match fuel with
  | O => count
  | S f =>
      if negb (toByte m (inBuffer + end_) =c? CR) && (end_ <? inBufferSize) then
        let start := nextTokenStart m (inBuffer + end_) (inBufferSize - end_) in
        if start <? 0 then -1 else
        let start := start + end_ in
        let end_ := nextTokenEnd m (inBuffer + start) (inBufferSize - start) in
        if end_ <? 0 then -1 else
        let end_ := end_ + start in
        if end_ =? start then count
        else countKeys f m inBuffer inBufferSize (count + 1) end_
      else count
  end.

Definition calculateNumberOfKeys (m : mem) (inBuffer inBufferSize : Z) : Z :=
  countKeys (Z.to_nat inBufferSize + 1) m inBuffer inBufferSize 0 0.

(** The [for] loop that fills [keys] and [keySizes]: [todo] keys to go, [first]
    on the first round.  [Ok (Some (keys, sizes, end_))] when it completes. *)
Fixpoint readKeys (todo : nat) (first : bool) (m : mem) (inBuffer bufferSize end_ : Z) :
    result (option (list Z * list Z * Z)) :=
  match todo with
  | O => Ok (Some ([], [], end_))
  | S todo =>
      let start := nextTokenStart m (inBuffer + end_) (bufferSize - end_) in
      if start <? 0 then Ok None else
      let* _ := (if first then Ok tt
                 else throwIfNotEquals start 1 (str "malformed request")) in
      let start := start + end_ in
      let end_ := nextTokenEnd m (inBuffer + start) (bufferSize - start) in
      if end_ <? 0 then Ok None else
      let* _ := throwIfEquals end_ 0 (str "malformed request") in
      let end_ := end_ + start in
      let* r := readKeys todo false m inBuffer bufferSize end_ in
      Ok (match r with
          | Some (ks, ss, e) => Some (inBuffer + start :: ks, end_ - start :: ss, e)
          | None => None
          end)
  end.

(** [new long[n]] throws on a negative size. *)
Definition new_array (n : Z) : result unit :=
  if n <? 0 then Throw (NegativeArraySizeException n) else Ok tt.

Definition RetrievalCommand_parse (this : Retrieval) (m : mem) (inBuffer bufferSize : Z) :
    result (option Retrieval) :=
  catch_nfe (
    let count := calculateNumberOfKeys m inBuffer bufferSize in
    if count <? 0 then Ok None else
    let count := if r_isTouch this then count - 1 else count in
    let* _ := new_array count in
    let end_ := 0 in
    let body exptime end_ :=
      let* r := readKeys (Z.to_nat count) true m inBuffer bufferSize end_ in
      match r with
      | None => Ok None
      | Some (keys, keySizes, end_) =>
          let* e := skip_crlf crlf_expected_raw m inBuffer bufferSize end_ in
          Ok (match e with
              | None => None
              | Some end_ => Some {|
                  r_exptime := exptime; r_isCAS := r_isCAS this; r_isTouch := r_isTouch this;
                  r_keys := keys; r_keySizes := keySizes; r_consumed := end_ |}
              end)
      end in
    if r_isTouch this then
      let start := nextTokenStart m (inBuffer + end_) (bufferSize - end_) in
      if start <? 0 then Ok None else
      let start := start + end_ in
      let end_ := nextTokenEnd m (inBuffer + start) (bufferSize - start) in
      if end_ <? 0 then Ok None else
      let* _ := throwIfEquals end_ 0 (str "malformed request") in
      let end_ := end_ + start in
      let* exptime := getLong m (inBuffer + start) (end_ - start) in
      body exptime end_
    else body (r_exptime this) end_)
  (IllegalFormatException (str "not a number")).

(** ** Server commands *)

(** [FLUSH_ALL.parse].  [consumed] starts at 0 (or is set to -1 when no argument
    was found) and the final offset is added to it. *)
Definition FLUSH_ALL_parse (m : mem) (inBuffer bufferSize : Z) : result (option FlushAll) :=
  catch_nfe (
    let start := 0 in
    let end_ := nextTokenEnd m inBuffer bufferSize in
    let finish noreply delay end_ :=
      let consumed := if end_ =? 0 then -1 else 0 in
      let* e := skip_crlf crlf_expected_raw m inBuffer bufferSize end_ in
      Ok (match e with
          | None => None
          | Some end_ =>
              Some {| f_noreply := noreply; f_consumed := consumed + end_; f_delay := delay |}
          end) in
    let check_noreply withDelay delay start end_ :=
      if (0 <? start) || negb withDelay then
        if (toByte m (inBuffer + start) =c? "n"%char) && (9 <=? bufferSize - start) then
          if compareTo (bytes_at m (inBuffer + start) 7) NOREPLY =? 0
          then finish true delay (start + 7) else finish false delay end_
        else if toByte m (inBuffer + start) =c? "n"%char then Ok None
        else finish false delay end_
      else finish false delay end_ in
    if 0 <? end_ then
      let end_ := end_ + start in
      if negb (toByte m (inBuffer + start) =c? "n"%char) then
        let* v := getLong m (inBuffer + start) (end_ - start) in
        let delay := to_int v in
        if delay <? 0 then Throw (IllegalFormatException (str "delay is negative")) else
        let start := nextTokenStart m (inBuffer + end_) (bufferSize - end_) in
        let start := if 0 <? start then start + end_ else start in
        check_noreply true delay start end_
      else check_noreply false 0 start end_
    else if end_ =? -1 then Ok None
    else finish false 0 end_)
  (IllegalFormatException (str "delay is not a number")).

Definition STATS_parse (m : mem) (inBuffer bufferSize : Z) : result bool :=
  if bufferSize <? 2 then Ok false
  else if bufferSize >? 2 then Throw (UnsupportedCommand (str "STATS"))
  else if negb (compareTo CRLF (bytes_at m inBuffer 2) =? 0)
  then Throw (UnsupportedCommand (str "STATS"))
  else Ok true.

(** [VERSION.parse], [QUIT.parse] and [SHUTDOWN.parse]: two bytes must be left,
    whatever they are. *)
Definition VERSION_parse (bufferSize : Z) : bool := if negb (bufferSize =? 2) then false else true.
Definition QUIT_parse (bufferSize : Z) : bool := if negb (bufferSize =? 2) then false else true.
Definition SHUTDOWN_parse (bufferSize : Z) : bool := if negb (bufferSize =? 2) then false else true.

(** [SAVE.parse] and [BGSAVE.parse] are stubs. *)
Definition SAVE_parse : bool := false.
Definition BGSAVE_parse : bool := false.

(** Wrap the fields a [parse] method set into the command they belong to. *)
Definition lift {A B} (f : A -> B) (r : result (option A)) : result (option B) :=
  let* o := r in Ok (match o with Some a => Some (f a) | None => None end).

(** The virtual call [cmd.parse(ptr, size)]. *)
Definition parse_command (cmd : MemcachedCommand) (m : mem) (p n : Z) :
    result (option MemcachedCommand) :=
  match cmd with
  | StorageCommand v c => lift (StorageCommand v) (StorageCommand_parse c m p n)
  | RetrievalCommand v c => lift (RetrievalCommand v) (RetrievalCommand_parse c m p n)
  | INCR c => lift INCR (INCR_parse c m p n)
  | DECR c => lift DECR (INCR_parse c m p n)
  | TOUCH c => lift TOUCH (TOUCH_parse c m p n)
  | DELETE c => lift DELETE (DELETE_parse c m p n)
  | FLUSH_ALL _ => lift FLUSH_ALL (FLUSH_ALL_parse m p n)
  | STATS => let* b := STATS_parse m p n in Ok (if b then Some STATS else None)
  | VERSION => Ok (if VERSION_parse n then Some VERSION else None)
  | QUIT => Ok (if QUIT_parse n then Some QUIT else None)
  | SHUTDOWN => Ok (if SHUTDOWN_parse n then Some SHUTDOWN else None)
  | SAVE => Ok (if SAVE_parse then Some SAVE else None)
  | BGSAVE => Ok (if BGSAVE_parse then Some BGSAVE else None)
  end.

End Parse.
