(* ===== verification/CommandParser.v ===== *)
(** * [commands/CommandParser.java]

    [CommandParser.parse] picks the command class from the first token of the
    buffer and runs its [parse] method on the rest.  [Ok None] is the Java
    [return null]: the request is incomplete and more input is needed. *)

From S2P Require Import Prelude.
From S2P Require Import Memory.
From S2P Require Import Java.
From S2P Require Import CarrotCache.
From S2P Require Import Utils.
From S2P Require Import Command.
From S2P Require Import CommandParse.

Section Parser.
Context {mem : Type} `{UnsafeAccess mem} `{CarrotUtils}.

(** [compareTo(buf, len, cmd, len) == 0] against a command name of that length. *)
Definition is_cmd (m : mem) (buf len : Z) (name : string) : bool :=
  compareTo (bytes_at m buf len) (str name) =? 0.

(** The dispatch on the length of the first token, then on its bytes. *)
Definition newCommand (m : mem) (buf len : Z) : result MemcachedCommand :=
  let unsupported := Throw (UnsupportedCommand (bytes_at m buf len)) in
  let cmp := is_cmd m buf len in
  let storage v := Ok (StorageCommand v (new_StorageCommand v)) in
  let retrieval v := Ok (RetrievalCommand v (new_RetrievalCommand v)) in
  if len =? 3 then
    if cmp "get"%string then retrieval GET
    else if cmp "gat"%string then retrieval GAT
    else if cmp "set"%string then storage SET
    else if cmp "add"%string then storage ADD
    else if cmp "cas"%string then storage CAS
    else unsupported
  else if len =? 4 then
    if cmp "gets"%string then retrieval GETS
    else if cmp "gats"%string then retrieval GATS
    else if cmp "incr"%string then Ok (INCR (new_Abstract false))
    else if cmp "decr"%string then Ok (DECR (new_Abstract false))
    else if cmp "save"%string then Ok SAVE
    else if cmp "quit"%string then Ok QUIT
    else unsupported
  else if len =? 5 then
    if cmp "touch"%string then Ok (TOUCH (new_Abstract false))
    else if cmp "stats"%string then Ok STATS
    else unsupported
  else if len =? 6 then
    if cmp "append"%string then storage APPEND
    else if cmp "delete"%string then Ok (DELETE (new_Abstract false))
    else if cmp "bgsave"%string then Ok BGSAVE
    else unsupported
  else if len =? 7 then
    if cmp "prepend"%string then storage PREPEND
    else if cmp "replace"%string then storage REPLACE
    else if cmp "version"%string then Ok VERSION
    else unsupported
  else if len =? 8 then
    if cmp "shutdown"%string then Ok SHUTDOWN else unsupported
  else if len =? 9 then
    if cmp "flush_all"%string
    then Ok (FLUSH_ALL {| f_noreply := false; f_consumed := 0; f_delay := 0 |})
    else unsupported
  else unsupported.

Definition parse (m : mem) (buf size : Z) : result (option MemcachedCommand) :=
  if size <? 3 then Ok None
  else
    let start := nextTokenStart m buf size in
    if 0 <? start then Throw (IllegalFormatException (str "malformed request"))
    else if start <? 0 then Ok None
    else
      let end_ := nextTokenEnd m (buf + start) (size - start) in
      if end_ <? 0 then Ok None
      else
        let len := end_ - start in
        let* cmd := newCommand m buf len in
        let start := nextTokenStart m (buf + len) (size - len) in
        if start =? -1 then Ok None
        else if 1 <? start then Throw (IllegalFormatException (str "malformed request"))
        else parse_command cmd m (buf + len + start) (size - start - len).

(** [endcrlf], a private helper the parser no longer calls. *)
Definition endcrlf (m : mem) (ptr size : Z) : bool :=
  if size <? 2 then false
  else (toByte m (ptr + size - 2) =c? CR) && (toByte m (ptr + size - 1) =c? LF).

End Parser.
