(* ===== verification/World.v ===== *)
(** * The state a worker thread acts on, and the monad of its code

    A worker reads and writes native memory, calls the store, reads from and sends
    to its client's socket and records the command it executed last (the
    thread-local of [CommandProcessor]).  [M A] is Java code over that state: exceptions keep the
    effects that came before them. *)

From S2P Require Import Prelude.
From S2P Require Import Memory.
From S2P Require Import CarrotCache.
From S2P Require Import Command.

(** What [channel.read] can meet: bytes that have arrived, nothing yet (before or
    after the 500 ms limit ran out), the end of the stream, or an I/O error. *)
Inductive Event : Type :=
  | Data (l : bytes)
  | Idle
  | TimedOut
  | EndOfStream
  | ReadError (msg : bytes).

Record World (mem S : Type) := {
  w_mem : mem;
  w_store : S;
  w_input : list Event;
  w_sent : bytes;
  w_last : option MemcachedCommand
}.
Arguments w_mem {mem S} _.
Arguments w_store {mem S} _.
Arguments w_input {mem S} _.
Arguments w_sent {mem S} _.
Arguments w_last {mem S} _.

Section Monad.
Context {mem S : Type}.
#[local] Abbreviation world := (World mem S).

Definition M (A : Type) : Type := world -> result A * world.

Definition ret {A} (a : A) : M A := fun w => (Ok a, w).
Definition bindM {A B} (c : M A) (f : A -> M B) : M B := fun w =>
  match c w with
  | (Ok a, w') => f a w'
  | (Throw e, w') => (Throw e, w')
  | (SystemExit, w') => (SystemExit, w')
  | (OutOfFuel, w') => (OutOfFuel, w')
  end.
Definition lift_result {A} (r : result A) : M A := fun w => (r, w).
Definition throw {A} (e : exn) : M A := lift_result (Throw e).
Definition exit {A} : M A := lift_result SystemExit.

(** [try { c } catch (...) { handler }]: [handler] is [None] on the exceptions
    that no clause catches. *)
Definition try_catch {A} (c : M A) (handler : exn -> option (M A)) : M A := fun w =>
  match c w with
  | (Throw e, w') => match handler e with Some h => h w' | None => (Throw e, w') end
  | r => r
  end.

Definition set_mem (m : mem) (w : world) : world :=
  {| w_mem := m; w_store := w_store w; w_input := w_input w; w_sent := w_sent w; w_last := w_last w |}.
Definition set_store (s : S) (w : world) : world :=
  {| w_mem := w_mem w; w_store := s; w_input := w_input w; w_sent := w_sent w; w_last := w_last w |}.
Definition set_last (c : option MemcachedCommand) (w : world) : world :=
  {| w_mem := w_mem w; w_store := w_store w; w_input := w_input w; w_sent := w_sent w; w_last := c |}.
Definition add_sent (l : bytes) (w : world) : world :=
  {| w_mem := w_mem w; w_store := w_store w; w_input := w_input w; w_sent := w_sent w ++ l; w_last := w_last w |}.
Definition set_input (es : list Event) (w : world) : world :=
  {| w_mem := w_mem w; w_store := w_store w; w_input := es; w_sent := w_sent w; w_last := w_last w |}.

(** A call of the store. *)
Definition call {A} (f : S -> A * S) : M A := fun w =>
  let '(a, s) := f (w_store w) in (Ok a, set_store s w).
(** A computation on memory. *)
Definition on_mem {A} (f : mem -> mem * A) : M A := fun w =>
  let '(m, a) := f (w_mem w) in (Ok a, set_mem m w).
Definition read_mem {A} (f : mem -> A) : M A := fun w => (Ok (f (w_mem w)), w).
Definition record_last (c : option MemcachedCommand) : M unit := fun w => (Ok tt, set_last c w).
Definition get_last : M (option MemcachedCommand) := fun w => (Ok (w_last w), w).
Definition get_input : M (list Event) := fun w => (Ok (w_input w), w).
Definition put_input (es : list Event) : M unit := fun w => (Ok tt, set_input es w).
Definition send (l : bytes) : M unit := fun w => (Ok tt, add_sent l w).

End Monad.

Arguments M mem S A : clear implicits.

Notation "'letM' x := e 'in' k" := (bindM e (fun x => k))
  (at level 10, x name, e at level 200, k at level 200) : mc_scope.

Section Primitives.
Context {mem S : Type} `{UnsafeAccess mem}.

(** [UnsafeAccess.copy] of bytes, [UnsafeAccess.putByte], and a read. *)
Definition write (l : bytes) (p : Z) : M mem S unit := on_mem (fun m => (copyBytes m l p, tt)).
Definition put_byte (c : ascii) (p : Z) : M mem S unit := on_mem (fun m => (putByte m p c, tt)).
Definition read (p n : Z) : M mem S bytes := read_mem (fun m => bytes_at m p n).

End Primitives.
