(* ===== verification/Execute.v ===== *)
(** * The [execute] methods

    Each command class's [execute]: the store call, then the response written to
    the output buffer, whose size is the result.  The retrieval commands flush a
    full buffer through the [consumer] and look the key up again. *)

From S2P Require Import Prelude.
From S2P Require Import Memory.
From S2P Require Import Java.
From S2P Require Import CarrotCache.
From S2P Require Import Command.
From S2P Require Import World.

(** ** Response constants of [MemcachedCommand] *)

Definition c_STORED : bytes := str "STORED" ++ CRLF.
Definition c_NOT_STORED : bytes := str "NOT_STORED" ++ CRLF.
Definition c_EXISTS : bytes := str "EXISTS" ++ CRLF.
Definition c_NOT_FOUND : bytes := str "NOT_FOUND" ++ CRLF.
Definition c_TOUCHED : bytes := str "TOUCHED" ++ CRLF.
Definition c_DELETED : bytes := str "DELETED" ++ CRLF.
Definition c_OK : bytes := str "OK" ++ CRLF.
Definition c_END : bytes := str "END" ++ CRLF.
Definition CLIENT_ERROR : bytes := str "CLIENT_ERROR ".
Definition SERVER_ERROR : bytes := str "SERVER_ERROR ".
Definition NUMBER_FORMAT_ERROR : bytes := str "CLIENT_ERROR number format error" ++ CRLF.

Section Execute.
Context {mem S item : Type}.
Context `{UnsafeAccess mem} `{CarrotUtils} `{Memcached S item} `{RecordWriter mem item}.

(** [System.getProperty("MEMCARROT_VERSION")]. *)
Variable version : option bytes.
(** The [OutputConsumer] passed down from the worker thread. *)
Variable consume : Z -> M mem S unit.

#[local] Abbreviation MS := (M mem S).

(** [UnsafeAccess.copy(l, outBuffer, n); return n;] *)
Definition reply (l : bytes) (n outBuffer : Z) : MS Z :=
  letM _ := write (take (Z.to_nat n) l) outBuffer in ret n.

(** [MemcachedCommand.ok] and [AbstractMemcachedCommand.crlf]. *)
Definition ok (ptr : Z) : MS unit :=
  letM _ := put_byte "O"%char ptr in
  letM _ := put_byte "K"%char (ptr + 1) in
  letM _ := put_byte CR (ptr + 2) in
  put_byte LF (ptr + 3).
Definition crlf (ptr : Z) : MS unit :=
  letM _ := put_byte CR ptr in
  put_byte LF (ptr + 1).

(** ** Storage commands *)

(** The reply shared by every storage command but [CAS]. *)
Definition stored_reply (c : Abstract) (result : OpResult) (outBuffer : Z) : MS Z :=
  if negb (noreply c) then
    if decide (result = NOT_STORED) then reply c_NOT_STORED 12 outBuffer
    else reply c_STORED 8 outBuffer
  else ret 0.

Definition storage_execute (op : S -> bytes -> bytes -> Z -> Z -> OpResult * S)
    (c : Abstract) (outBuffer : Z) : MS Z :=
  letM key := read (keyPtr c) (keySize c) in
  letM val := read (valPtr c) (valSize c) in
  letM result := call (fun s => op s key val (to_int (flags c)) (exptime c)) in
  stored_reply c result outBuffer.

Definition SET_execute : Abstract -> Z -> MS Z := storage_execute mc_set.
Definition ADD_execute : Abstract -> Z -> MS Z := storage_execute mc_add.
Definition REPLACE_execute : Abstract -> Z -> MS Z := storage_execute mc_replace.
Definition APPEND_execute : Abstract -> Z -> MS Z := storage_execute mc_append.
Definition PREPEND_execute : Abstract -> Z -> MS Z := storage_execute mc_prepend.

Definition CAS_execute (c : Abstract) (outBuffer : Z) : MS Z :=
  letM key := read (keyPtr c) (keySize c) in
  letM val := read (valPtr c) (valSize c) in
  letM result := call (fun s => mc_cas s key val (to_int (flags c)) (exptime c) (cas c)) in
  if negb (noreply c) then
    match result with
    | EXISTS => reply c_EXISTS 8 outBuffer
    | NOT_FOUND => reply c_NOT_FOUND 11 outBuffer
    | NOT_STORED => reply c_NOT_STORED 12 outBuffer
    | _ => reply c_STORED 8 outBuffer
    end
  else ret 0.

Definition StorageCommand_execute (v : StorageVerb) : Abstract -> Z -> MS Z :=
  match v with
  | SET => SET_execute | ADD => ADD_execute | REPLACE => REPLACE_execute
  | APPEND => APPEND_execute | PREPEND => PREPEND_execute | CAS => CAS_execute
  end.

(** ** Retrieval commands *)

(** The loop of [GET.execute] over the keys that are left, [outSize] bytes being
    pending in the output buffer.  [i--; continue;] is the recursive call on the
    same keys; it happens at most once per key, so [2 * count + 1] is fuel
    enough. *)
Fixpoint retrieve (fuel : nat) (fetch : S -> bytes -> option item * S) (isCAS : bool)
    (keys : list (Z * Z)) (outBuffer outBufferSize outSize : Z) : MS Z :=
  match fuel with
  | O => lift_result OutOfFuel
  | Datatypes.S f =>
      match keys with
      | [] =>
          letM _ := write c_END (outBuffer + outSize) in
          ret (outSize + 5)
      | (k, ks) :: keys' =>
          letM key := read k ks in
          letM r := call (fun s => fetch s key) in
          match r with
          | None => retrieve f fetch isCAS keys' outBuffer outBufferSize outSize
          | Some r =>
              letM size := on_mem (fun m =>
                rec_write m r key (outBuffer + outSize) (outBufferSize - outSize) isCAS) in
              if size >? outBufferSize - outSize - 5 then
                if outSize >? 0 then
                  letM _ := consume outSize in
                  retrieve f fetch isCAS keys outBuffer outBufferSize 0
                else throw BufferOverflowException
              else retrieve f fetch isCAS keys' outBuffer outBufferSize (outSize + size)
          end
      end
  end.

Definition retrieval_execute (fetch : S -> bytes -> option item * S)
    (c : Retrieval) (outBuffer outBufferSize : Z) : MS Z :=
  let keys := zip (r_keys c) (r_keySizes c) in
  retrieve (2 * length keys + 1) fetch (r_isCAS c) keys outBuffer outBufferSize 0.

Definition GET_execute : Retrieval -> Z -> Z -> MS Z := retrieval_execute mc_get.
Definition GETS_execute : Retrieval -> Z -> Z -> MS Z := retrieval_execute mc_gets.
Definition GAT_execute (c : Retrieval) : Z -> Z -> MS Z :=
  retrieval_execute (fun s k => mc_gat s k (r_exptime c)) c.
Definition GATS_execute (c : Retrieval) : Z -> Z -> MS Z :=
  retrieval_execute (fun s k => mc_gats s k (r_exptime c)) c.

Definition RetrievalCommand_execute (v : RetrievalVerb) : Retrieval -> Z -> Z -> MS Z :=
  match v with
  | GET => GET_execute | GETS => GETS_execute | GAT => GAT_execute | GATS => GATS_execute
  end.

(** ** Counters *)

(** The [catch] clauses of [INCR.execute] and [DECR.execute]: the second one
    catches every other [IllegalArgumentException]. *)
Definition arith_handler (c : Abstract) (outBuffer : Z) (e : exn) : option (MS Z) :=
  let answer msg :=
    Some (if negb (noreply c)
          then letM _ := write msg outBuffer in ret (zlen msg) else ret 0) in
  match e with
  | NumberFormatException => answer NUMBER_FORMAT_ERROR
  | IllegalArgumentException msg | IllegalFormatException msg | UnsupportedCommand msg =>
      answer (CLIENT_ERROR ++ msg ++ CRLF)
  | _ => None
  end.

Definition arith_execute (op : S -> bytes -> Z -> (exn + Z) * S) (c : Abstract) (outBuffer : Z) :
    MS Z :=
  try_catch
    (letM key := read (keyPtr c) (keySize c) in
     letM r := call (fun s => op s key (value c)) in
     letM result := (match r with inl e => throw e | inr v => ret v end) in
     if negb (noreply c) then
       if result >=? 0 then
         let s := longToStrDirect result in
         let size := zlen s in
         letM _ := write s outBuffer in
         letM _ := crlf (outBuffer + size) in
         ret (size + 2)
       else reply c_NOT_FOUND 11 outBuffer
     else ret 0)
    (arith_handler c outBuffer).

Definition INCR_execute : Abstract -> Z -> MS Z := arith_execute mc_incr.
Definition DECR_execute : Abstract -> Z -> MS Z := arith_execute mc_decr.

(** ** [touch] and [delete] *)

Definition TOUCH_execute (c : Abstract) (outBuffer : Z) : MS Z :=
  letM key := read (keyPtr c) (keySize c) in
  letM result := call (fun s => mc_touch s key (exptime c)) in
  if negb (noreply c) then
    if result >=? 0 then reply c_TOUCHED 9 outBuffer else reply c_NOT_FOUND 11 outBuffer
  else ret 0.

Definition DELETE_execute (c : Abstract) (outBuffer : Z) : MS Z :=
  letM key := read (keyPtr c) (keySize c) in
  letM result := call (fun s => mc_delete s key) in
  if negb (noreply c) then
    if decide (result = DELETED) then reply c_DELETED 9 outBuffer
    else reply c_NOT_FOUND 11 outBuffer
  else ret 0.

(** ** Server commands *)

Definition FLUSH_ALL_execute (c : FlushAll) (outBuffer : Z) : MS Z :=
  letM _ := call (fun s => (tt, mc_flushAll s (f_delay c))) in
  if negb (f_noreply c) then letM _ := ok outBuffer in ret 4 else ret 0.

(** [it.next()] twice per round: an odd list runs out in the middle.  The output
    buffer's size is not consulted. *)
Fixpoint stats_loop (stats : list bytes) (outBuffer off : Z) : MS Z :=
  match stats with
  | [] =>
      letM _ := write c_END (outBuffer + off) in
      ret (off + 5)
  | [_] => throw NoSuchElementException
  | name :: value :: stats =>
      letM _ := write (str "STAT ") (outBuffer + off) in
      let off := off + 5 in
      letM _ := write name (outBuffer + off) in
      let off := off + zlen name in
      letM _ := put_byte SP (outBuffer + off) in
      let off := off + 1 in
      letM _ := write value (outBuffer + off) in
      let off := off + zlen value in
      letM _ := write CRLF (outBuffer + off) in
      let off := off + 2 in
      stats_loop stats outBuffer off
  end.

Definition STATS_execute (outBuffer : Z) : MS Z :=
  letM stats := call (fun s => (mc_stats s, s)) in
  stats_loop stats outBuffer 0.

Definition VERSION_execute (outBuffer : Z) : MS Z :=
  let version := default (str "unknown") version in
  letM _ := write (str "VERSION ") outBuffer in
  let len := zlen version in
  letM _ := write version (outBuffer + 8) in
  letM _ := write CRLF (outBuffer + 8 + len) in
  ret (10 + len).

Definition SHUTDOWN_execute (outBuffer : Z) : MS Z :=
  letM r := call mc_shutdown in
  match r with
  | None => exit
  | Some e =>
      let msg := SERVER_ERROR ++ e ++ CRLF in
      letM _ := write msg outBuffer in
      ret (zlen msg)
  end.

Definition QUIT_execute : MS Z := ret 0.
Definition SAVE_execute : MS Z := ret 0.
Definition BGSAVE_execute : MS Z := ret 0.

(** ** The virtual call [cmd.execute(...)] *)

Definition execute (cmd : MemcachedCommand) (outBuffer outBufferSize : Z) : MS Z :=
  match cmd with
  | StorageCommand v c => StorageCommand_execute v c outBuffer
  | RetrievalCommand v c => RetrievalCommand_execute v c outBuffer outBufferSize
  | INCR c => INCR_execute c outBuffer
  | DECR c => DECR_execute c outBuffer
  | TOUCH c => TOUCH_execute c outBuffer
  | DELETE c => DELETE_execute c outBuffer
  | FLUSH_ALL c => FLUSH_ALL_execute c outBuffer
  | STATS => STATS_execute outBuffer
  | VERSION => VERSION_execute outBuffer
  | QUIT => QUIT_execute
  | SHUTDOWN => SHUTDOWN_execute outBuffer
  | SAVE => SAVE_execute
  | BGSAVE => BGSAVE_execute
  end.

End Execute.
