(* ===== verification/CommandProcessor.v ===== *)
(** * [CommandProcessor.java]

    [process] runs one request from the input buffer: parse, check the pointers,
    execute, and turn the two protocol exceptions into error responses.  Its
    result is the size of the response in the output buffer, or -1 when the
    request is incomplete. *)

From S2P Require Import Prelude.
From S2P Require Import Memory.
From S2P Require Import Java.
From S2P Require Import CarrotCache.
From S2P Require Import Utils.
From S2P Require Import Command.
From S2P Require Import CommandParse.
From S2P Require Import CommandParser.
From S2P Require Import World.
From S2P Require Import Execute.

Section Processor.
Context {mem S item : Type}.
Context `{UnsafeAccess mem} `{CarrotUtils} `{Memcached S item} `{RecordWriter mem item}.
Variable version : option bytes.
Variable consume : Z -> M mem S unit.

#[local] Abbreviation MS := (M mem S).

(** [byte[] buf = msg.getBytes(); copy(buf, 0, outPtr, buf.length); return buf.length;] *)
Definition answer (msg : bytes) (outPtr : Z) : MS Z :=
  letM _ := write msg outPtr in ret (zlen msg).

Definition INTERNAL_ERROR : bytes := str "SERVER_ERROR internal error" ++ CRLF.
Definition ERROR : bytes := str "ERROR" ++ CRLF.

(** The two [catch] clauses. *)
Definition process_handler (outPtr : Z) (e : exn) : option (MS Z) :=
  match e with
  | UnsupportedCommand _ => Some (answer ERROR outPtr)
  | IllegalFormatException msg => Some (answer (CLIENT_ERROR ++ msg ++ CRLF) outPtr)
  | _ => None
  end.

Definition process (inputPtr inputSize outPtr outSize : Z) : MS Z :=
  try_catch
    (letM _ := record_last None in
     letM r := read_mem (fun m => parse m inputPtr inputSize) in
     letM cmd := lift_result r in
     match cmd with
     | None => ret (-1)
     | Some cmd =>
         letM _ := record_last (Some cmd) in
         let safe := isMemorySafe cmd inputPtr inputSize in
         if negb safe then answer INTERNAL_ERROR outPtr
         else execute version consume cmd outPtr outSize
     end)
    (process_handler outPtr).

End Processor.
