(* ===== verification/WorkThread.v ===== *)
(** * [WorkThread] of [RequestHandlers.java]: serving one connection

    A worker that has been given a selection key reads from its channel into the
    input buffer, runs [CommandProcessor.process] on every complete request in it,
    and sends the responses; an incomplete request is moved to the front of the
    buffer and completed by the next read.  [serve] is the body of the [while]
    loop of [run] for one key, with its [catch] clauses; [connection] is a
    connection's whole life, one [serve] per selection. *)

From S2P Require Import Prelude.
From S2P Require Import Memory.
From S2P Require Import Java.
From S2P Require Import CarrotCache.
From S2P Require Import Command.
From S2P Require Import World.
From S2P Require Import Execute.
From S2P Require Import CommandProcessor.

Definition INPUT_TOO_LARGE : bytes :=
  str "CLIENT_ERROR Input is too large, increase value of 'kv.size.max' configuration option" ++ CRLF.
Definition OUTPUT_TOO_LARGE : bytes :=
  str "SERVER_ERROR Command result is too large, increase value of 'kv.size.max' configuration option" ++ CRLF.

(** The loops that write the [out] buffer to the channel.  How a channel takes bytes is not
    the worker's: [write_all] is [while (out.hasRemaining()) channel.write(out)], and
    [write_anyway] the same with [try { ... } catch (IOException e) { key.cancel(); }]
    around every [write], with the answer whether the key was cancelled. *)
Class Channel (mem S : Type) := {
  write_all : bytes -> M mem S unit;
  write_anyway : bytes -> M mem S bool
}.

(** A channel that takes a response at once, the one meant when none is named.  [Writes]
    has the channel that takes bytes piecemeal, fails or blocks. *)
#[export] Instance at_once {mem S} : Channel mem S | 10 := {
  write_all := send;
  write_anyway l := letM _ := send l in ret false
}.

(** How the inner [while] loop over the buffered requests ends. *)
Inductive BatchEnd : Type :=
  | Drained
  | Incomplete (consumed : Z)
  | CloseChannel.

(** What becomes of the connection and its worker when a key has been served:
    released for the next selection, closed, released although its key was cancelled - the
    channel stays open and is not selected again -, still waiting for input that the
    list of events does not tell of, the worker dead of an uncaught exception, or
    the JVM gone. *)
Inductive Outcome : Type :=
  | Released
  | Closed
  | Abandoned
  | Waiting
  | Died (e : exn)
  | Exited.

#[global] Instance Outcome_eq_dec : EqDecision Outcome.
Proof. solve_decision. Defined.

Section Worker.
Context {mem S item : Type}.
Context `{UnsafeAccess mem} `{CarrotUtils} `{Memcached S item} `{RecordWriter mem item}.
Context `{Channel mem S}.
Variable version : option bytes.
(** The two direct buffers and their capacity. *)
Variables in_ptr out_ptr bufferSize : Z.

#[local] Abbreviation MS := (M mem S).

(** [out.limit(n); out.position(0); while (out.hasRemaining()) channel.write(out);]
    A limit outside the capacity is an [IllegalArgumentException]. *)
Definition write_out (n : Z) : MS unit :=
  if (n <? 0) || (bufferSize <? n) then throw (IllegalArgumentException [])
  else letM l := read out_ptr n in write_all l.

(** [ChannelOutputConsumer.consume]. *)
Definition consume (upto : Z) : MS unit := write_out upto.

(** [out.clear(); out.put(msg); out.flip();] and the write loop. *)
Definition put_and_write (msg : bytes) : MS unit :=
  if bufferSize <? zlen msg then throw BufferOverflowException
  else letM _ := write msg out_ptr in write_out (zlen msg).

(** The same around the loop of the clause that catches [BufferOverflowException]. *)
Definition put_and_write_anyway (msg : bytes) : MS bool :=
  if bufferSize <? zlen msg then throw BufferOverflowException
  else
    letM _ := write msg out_ptr in
    letM l := read out_ptr (zlen msg) in
    write_anyway l.

(** The loop [while (consumed < inputSize)].  Every round that continues consumes
    at least one byte, so [inputSize + 1] is fuel enough. *)
Fixpoint batch (fuel : nat) (consumed inputSize : Z) : MS BatchEnd :=
  match fuel with
  | O => lift_result OutOfFuel
  | Datatypes.S f =>
      if consumed <? inputSize then
        letM responseLength :=
          process version consume (in_ptr + consumed) (inputSize - consumed) out_ptr bufferSize in
        if responseLength <? 0 then ret (Incomplete consumed)
        else
          letM _ := (if 0 <? responseLength then write_out responseLength else ret tt) in
          letM cmd := get_last in
          let consumed := match cmd with Some c => consumed + inputConsumed c | None => consumed end in
          match cmd with
          | None | Some QUIT => ret CloseChannel
          | _ => batch f consumed inputSize
          end
      else ret Drained
  end.

(** [channel.read(in)] at position [in_pos]: as many bytes as are there and fit. *)
Definition channel_read (in_pos : Z) (l : bytes) (es : list Event) : MS Z :=
  let n := Z.min (zlen l) (bufferSize - in_pos) in
  let rest := drop (Z.to_nat n) l in
  letM _ := put_input (match rest with [] => es | _ => Data rest :: es end) in
  letM _ := write (take (Z.to_nat n) l) (in_ptr + in_pos) in
  ret n.

(** The loop [outer]. *)
Fixpoint serve_loop (fuel : nat) (in_pos inputSize : Z) : MS Outcome :=
  match fuel with
  | O => lift_result OutOfFuel
  | Datatypes.S f =>
      if inputSize =? bufferSize then
        letM _ := put_and_write INPUT_TOO_LARGE in ret Closed
      else
        letM es := get_input in
        match es with
        | [] => ret Waiting
        | EndOfStream :: es => letM _ := put_input es in ret Closed
        | TimedOut :: es => letM _ := put_input es in ret Closed
        | ReadError msg :: es => letM _ := put_input es in throw (IOException msg)
        | Idle :: es => letM _ := put_input es in serve_loop f in_pos inputSize
        | Data l :: es =>
            letM num := channel_read in_pos l es in
            if num =? 0 then serve_loop f in_pos inputSize
            else
              let in_pos := in_pos + num in
              let inputSize := inputSize + num in
              letM e := batch (Z.to_nat inputSize + 1) 0 inputSize in
              match e with
              | Drained => ret Released
              | CloseChannel => ret Closed
              | Incomplete consumed =>
                  if 0 <? consumed then
                    letM _ := on_mem (fun m =>
                      (copyMem m (in_ptr + consumed) in_ptr (inputSize - consumed), tt)) in
                    let inputSize := inputSize - consumed in
                    serve_loop f inputSize inputSize
                  else serve_loop f in_pos inputSize
              end
        end
  end.

(** Rounds [serve_loop] can take on a list of events. *)
Definition event_size (e : Event) : nat := match e with Data l => 1 + length l | _ => 1 end.
Definition events_size (es : list Event) : nat := sum_list_with event_size es.

(** The clause that catches [BufferOverflowException]. *)
Definition overflow_clause : MS Outcome :=
  letM cancelled := put_and_write_anyway OUTPUT_TOO_LARGE in
  ret (if cancelled : bool then Abandoned else Released).

(** The [catch] clauses around the loop.  Whatever they do not catch reaches the
    outermost [catch (Throwable)] and ends the thread. *)
Definition serve_handler (e : exn) : option (MS Outcome) :=
  match e with
  | IOException _ => Some (ret Closed)
  | BufferOverflowException => Some overflow_clause
  | _ => None
  end.

Definition serve : MS Outcome := fun w =>
  match try_catch (serve_loop (events_size (w_input w) + 1) 0 0) serve_handler w with
  | (Throw e, w') => (Ok (Died e), w')
  | (SystemExit, w') => (Ok Exited, w')
  | r => r
  end.

(** The selector hands the key out again as long as it is released and readable. *)
Fixpoint connection (fuel : nat) : MS Outcome :=
  match fuel with
  | O => lift_result OutOfFuel
  | Datatypes.S f =>
      letM es := get_input in
      match es with
      | [] => ret Released
      | _ =>
          letM o := serve in
          match o with Released => connection f | _ => ret o end
      end
  end.

End Worker.
