(* ===== verification/Writes.v ===== *)
(** * A channel that takes bytes piecemeal, fails or blocks

    The code sends a response in a loop, [while (out.hasRemaining()) channel.write(out)],
    whose every [write] may take any number of bytes, none included, or throw.  What the
    writes of a connection will do is a list of [Attempt]s.  [write_loop] is that loop, of
    [WorkThread.run] and of [ChannelOutputConsumer.consume]; [overflow_loop] is the one in the
    clause that catches [BufferOverflowException], which catches the exceptions of [write]
    inside the loop and cancels the key.  A loop whose attempts are used up is still looping:
    it has no result.

    [by_attempts] is the channel of the worker made of them; its state, a [Socket], travels
    beside the store. *)

From S2P Require Import Prelude.
From S2P Require Import CarrotCache.
From S2P Require Import World.
From S2P Require Import WorkThread.

(** What [channel.write(out)] does: takes up to [n] bytes, or throws. *)
Inductive Attempt : Type :=
  | Takes (n : nat)
  | WriteFails (msg : bytes).

(** The attempts to come, and whether the key is cancelled. *)
Record Socket := { to_come : list Attempt; cancelled : bool }.

(** The loops: the outcome, whether the key was cancelled, what was sent, what is to come. *)
Fixpoint write_loop (l : bytes) (es : list Attempt) : result unit * bytes * list Attempt :=
  match l, es with
  | [], _ => (Ok tt, [], es)
  | _, [] => (OutOfFuel, [], [])
  | _, Takes n :: es => let '(r, s, es') := write_loop (drop n l) es in (r, take n l ++ s, es')
  | _, WriteFails msg :: es => (Throw (IOException msg), [], es)
  end.

Fixpoint overflow_loop (l : bytes) (es : list Attempt) : result unit * bool * bytes * list Attempt :=
  match l, es with
  | [], _ => (Ok tt, false, [], es)
  | _, [] => (OutOfFuel, false, [], [])
  | _, Takes n :: es => let '(r, c, s, es') := overflow_loop (drop n l) es in (r, c, take n l ++ s, es')
  | _, WriteFails _ :: es => let '(r, _, s, es') := overflow_loop l es in (r, true, s, es')
  end.

(** Attempts that take something; those that fail; what a list of attempts takes. *)
Definition progresses (a : Attempt) : bool := match a with Takes (S _) => true | _ => false end.
Definition fails (a : Attempt) : bool := match a with WriteFails _ => true | Takes _ => false end.
Definition useful (es : list Attempt) : nat := length (List.filter progresses es).
Definition clean (es : list Attempt) : Prop := Forall (fun a => fails a = false) es.
Definition taken_by (es : list Attempt) : nat :=
  sum_list_with (fun a => match a with Takes n => n | WriteFails _ => 0%nat end) es.

(** ** The worker on such a channel *)

Section Channel.
Context {mem S item : Type} `{Memcached S item}.

Definition beside {A} (r : A * S) (c : Socket) : A * (S * Socket) := let '(a, s) := r in (a, (s, c)).

(** The store with the channel's state next to it. *)
#[export] Instance store_beside : Memcached (S * Socket) item | 5 := {
  mc_set s k v f e := beside (mc_set s.1 k v f e) s.2;
  mc_add s k v f e := beside (mc_add s.1 k v f e) s.2;
  mc_replace s k v f e := beside (mc_replace s.1 k v f e) s.2;
  mc_append s k v f e := beside (mc_append s.1 k v f e) s.2;
  mc_prepend s k v f e := beside (mc_prepend s.1 k v f e) s.2;
  mc_cas s k v f e c := beside (mc_cas s.1 k v f e c) s.2;
  mc_get s k := beside (mc_get s.1 k) s.2;
  mc_gets s k := beside (mc_gets s.1 k) s.2;
  mc_gat s k e := beside (mc_gat s.1 k e) s.2;
  mc_gats s k e := beside (mc_gats s.1 k e) s.2;
  mc_incr s k n := beside (mc_incr s.1 k n) s.2;
  mc_decr s k n := beside (mc_decr s.1 k n) s.2;
  mc_touch s k e := beside (mc_touch s.1 k e) s.2;
  mc_delete s k := beside (mc_delete s.1 k) s.2;
  mc_flushAll s d := (mc_flushAll s.1 d, s.2);
  mc_stats s := mc_stats s.1;
  mc_shutdown s := beside (mc_shutdown s.1) s.2
}.

(** What is to come after a loop, and a cancelled key. *)
Definition after_writes (es : list Attempt) (c : bool) (w : World mem (S * Socket)) : World mem (S * Socket) :=
  set_store ((w_store w).1, {| to_come := es; cancelled := cancelled (w_store w).2 || c |}) w.

#[export] Instance by_attempts : Channel mem (S * Socket) | 0 := {
  write_all l := fun w =>
    let '(r, s, es) := write_loop l (to_come (w_store w).2) in (r, after_writes es false (add_sent s w));
  write_anyway l := fun w =>
    let '(r, c, s, es) := overflow_loop l (to_come (w_store w).2) in
    (rbind r (fun _ => Ok c), after_writes es c (add_sent s w))
}.

(** A world with a channel's state put next to its store. *)
Definition over (w : World mem S) (c : Socket) : World mem (S * Socket) :=
  {| w_mem := w_mem w; w_store := (w_store w, c); w_input := w_input w; w_sent := w_sent w; w_last := w_last w |}.

End Channel.

(** ** The loops *)

Lemma taken_by_app es es' : taken_by (es ++ es') = (taken_by es + taken_by es')%nat.
Proof. unfold taken_by. induction es as [|a es IH]; cbn; [done|]. lia. Qed.
Lemma useful_app es es' : useful (es ++ es') = (useful es + useful es')%nat.
Proof. unfold useful. by rewrite List.filter_app, length_app. Qed.
Lemma taken_by_fails es : Forall (fun a => fails a = true) es -> taken_by es = 0%nat.
Proof. induction 1 as [|[n|m] es Ha _ IH]; [done..|]. exact IH. Qed.

(** [es] begins with [used], which took [n] bytes and failed nowhere. *)
Record spent (es used left : list Attempt) (n : nat) : Prop := {
  spent_eq : es = used ++ left;
  spent_clean : clean used;
  spent_taken : (n <= taken_by used)%nat;
  spent_useful : (useful used <= n)%nat
}.

Lemma spent_nil es : spent es [] es 0.
Proof. split; [done|constructor|cbn; lia..]. Qed.
Lemma spent_trans es u1 es1 u2 es2 n1 n2 :
  spent es u1 es1 n1 -> spent es1 u2 es2 n2 -> spent es (u1 ++ u2) es2 (n1 + n2).
Proof.
  intros [-> C1 T1 U1] [-> C2 T2 U2]. split; [by rewrite app_assoc|by apply Forall_app|..].
  - rewrite taken_by_app. lia.
  - rewrite useful_app. lia.
Qed.

(** A text that was sent in part. *)
Definition cut (l s rest : bytes) : Prop := l = s ++ rest /\ rest <> [].

Lemma take_step (l : bytes) n s rest : drop n l = s ++ rest -> l = (take n l ++ s) ++ rest.
Proof. intros E. by rewrite <- app_assoc, <- E, take_drop. Qed.

Lemma take_cut (l : bytes) n s rest : cut (drop n l) s rest -> cut l (take n l ++ s) rest /\ length (take n l) = n.
Proof.
  intros [E Hne]. split; [by split; [apply take_step|]|].
  rewrite length_take_le; [done|]. destruct (decide (n <= length l)%nat); [done|].
  rewrite drop_ge in E by lia. by destruct s, rest.
Qed.

Lemma write_loop_spec l es :
  match write_loop l es with
  | (Ok _, s, es') => s = l /\ exists used, spent es used es' (length l)
  | (Throw e, s, es') => exists used msg rest, e = IOException msg /\ cut l s rest /\
      es = used ++ WriteFails msg :: es' /\ clean used /\ length s = taken_by used
  | (OutOfFuel, s, es') => es' = [] /\ exists rest, cut l s rest /\ clean es /\ length s = taken_by es /\
      (useful es <= length s)%nat
  | _ => False
  end.
Proof.
  revert l; induction es as [|[n|msg] es IH]; intros [|b l]; cbn [write_loop].
  1,3,5: split; [done|]; exists []; apply spent_nil.
  - split; [done|]. exists (b :: l). split_and!; [by split|constructor|done|cbn; lia].
  - specialize (IH (drop n (b :: l))). set (l0 := b :: l) in *.
    assert (Hn : (Nat.b2n (progresses (Takes n)) <= length (take n l0))%nat).
    { unfold l0. destruct n; cbn; lia. }
    assert (Hu : forall es, useful (Takes n :: es) = (Nat.b2n (progresses (Takes n)) + useful es)%nat).
    { intros es0. unfold useful. cbn [List.filter]. by destruct (progresses (Takes n)). }
    destruct (write_loop (drop n l0) es) as [[[[]|e| |] s] es'].
    + destruct IH as [-> (used & [-> C T U])]. split; [apply take_drop|]. exists (Takes n :: used).
      rewrite length_drop in *. rewrite length_take in Hn.
      split; [done|by constructor| |]; [cbn [taken_by sum_list_with] in *; fold (taken_by used) in *; lia|].
      rewrite Hu. lia.
    + destruct IH as (used & msg & rest & -> & Hc & -> & C & T). apply take_cut in Hc as [Hc Hl].
      exists (Takes n :: used), msg, rest. split_and!; [done|exact Hc|done|by constructor|].
      rewrite length_app, Hl, T. done.
    + done.
    + destruct IH as [-> (rest & Hc & C & T & U)]. apply take_cut in Hc as [Hc Hl]. split; [done|].
      exists rest. split_and!; [exact Hc|by constructor|by rewrite length_app, Hl, T|].
      rewrite Hu, length_app, Hl in *. lia.
  - exists [], msg, (b :: l). split_and!; [done|by split|done|constructor|done].
Qed.

Lemma overflow_loop_spec l es :
  match overflow_loop l es with
  | (Ok _, false, s, es') => s = l /\ exists used, spent es used es' (length l)
  | (Ok _, true, s, es') => s = l /\ exists u1 msg u2, es = (u1 ++ WriteFails msg :: u2) ++ es' /\ (0 < taken_by u2)%nat
  | (OutOfFuel, c, s, es') => es' = [] /\ exists rest, cut l s rest /\ length s = taken_by es /\
      (useful es <= length s)%nat /\ if c then ~ clean es else clean es
  | _ => False
  end.
Proof.
  revert l; induction es as [|[n|msg] es IH]; intros [|b l]; cbn [overflow_loop].
  1,3,5: split; [done|]; exists []; apply spent_nil.
  - split; [done|]. exists (b :: l). split_and!; [by split|done|cbn; lia|constructor].
  - specialize (IH (drop n (b :: l))). set (l0 := b :: l) in *.
    assert (Hn : (Nat.b2n (progresses (Takes n)) <= length (take n l0))%nat).
    { unfold l0. destruct n; cbn; lia. }
    assert (Hu : forall es, useful (Takes n :: es) = (Nat.b2n (progresses (Takes n)) + useful es)%nat).
    { intros es0. unfold useful. cbn [List.filter]. by destruct (progresses (Takes n)). }
    destruct (overflow_loop (drop n l0) es) as [[[[[]|e| |] c] s] es']; [| |done|].
    + destruct c.
      * destruct IH as [-> (u1 & msg & u2 & -> & T)]. split; [apply take_drop|]. by exists (Takes n :: u1), msg, u2.
      * destruct IH as [-> (used & [-> C T U])]. split; [apply take_drop|]. exists (Takes n :: used).
        rewrite length_drop in *. rewrite length_take in Hn.
        split; [done|by constructor| |]; [cbn [taken_by sum_list_with] in *; fold (taken_by used) in *; lia|].
        rewrite Hu. lia.
    + by destruct c.
    + destruct IH as [-> (rest & Hc & T & U & C)]. apply take_cut in Hc as [Hc Hl]. split; [done|].
      exists rest. split_and!; [exact Hc|by rewrite length_app, Hl, T|rewrite Hu, length_app, Hl in *; lia|].
      destruct c; [by intros [_ Hi]%Forall_cons_1|by constructor].
  - specialize (IH (b :: l)). destruct (overflow_loop (b :: l) es) as [[[[[]|e| |] c] s] es']; [| |done|].
    + assert (s = b :: l /\ exists used, es = used ++ es' /\ (0 < taken_by used)%nat) as [-> (used & -> & T)].
      { destruct c.
        - destruct IH as [-> (u1 & m2 & u2 & -> & T)]. split; [done|]. eexists. split; [reflexivity|].
          rewrite taken_by_app. cbn [taken_by sum_list_with] in *. fold (taken_by u2) in *. lia.
        - destruct IH as [-> (used & [-> C T U])]. split; [done|]. exists used. split; [done|]. cbn [length] in T. lia. }
      split; [done|]. by exists [], msg, used.
    + by destruct c.
    + destruct IH as [-> (rest & Hc & T & U & C)]. split; [done|]. exists rest. split_and!; [done..|].
      by intros [Hi _]%Forall_cons_1.
Qed.
