(* ===== verification/Dispatch.v ===== *)
(** * Handing selection keys to workers

    [MemcarrotServer.read], [RequestHandlers.submit] and the hand-over in
    [WorkThread] ([nextKey], [waitForKey], [release] and the [finally] block of
    [run]), one label per access to a shared field.  The selector is one thread, each
    worker another; a run is any interleaving of their steps.  What a worker does with
    a key in between is [WorkThread.serve]; here it is its outcome. *)

From stdpp Require Import gmap.
From S2P Require Import Prelude.
From S2P Require Import WorkThread.

(** A [SelectionKey], by identity. *)
Abbreviation key := nat (only parsing).

(** ** State *)

(** Where a worker is in [run]. *)
Inductive WorkerPc : Type :=
  | Polling                          (* waitForKey: nextKey.get() is next *)
  | Idling                           (* it was null: Thread.interrupted() is next *)
  | Serving (k : key)
  | Releasing (k : key) (dies : bool)  (* finally: release(key) is next *)
  | Clearing (dies : bool)             (* nextKey.set(null) is next *)
  | Freeing (dies : bool)              (* busy = false is next *)
  | Gone.                            (* run has ended *)

(** [interrupted] is the thread's interrupt flag. *)
Record Worker := { pc : WorkerPc; nextKey : option key; busy : bool; interrupted : bool }.

(** Where the selector thread is: in [select], in [read] with a key that was valid, in
    [submit] about to look at the shutdown flag or at worker [i], or in [nextKey] of
    worker [i]. *)
Inductive SelectorPc : Type :=
  | Selecting
  | Checking (k : key)
  | Submitting (k : key)
  | Scanning (k : key) (i : nat)
  | Attaching (k : key) (i : nat)
  | Marking (k : key) (i : nat)
  | Swapping (k : key) (i : nat).

(** [inUse] is [attachment().inUse()]; a key without an attachment has no entry. *)
Record Pool := {
  workers : list Worker;
  inUse : gmap key bool;
  cancelled : gset key;
  selector : SelectorPc;
  shutdown : bool
}.

#[global] Instance WorkerPc_eq_dec : EqDecision WorkerPc.
Proof. solve_decision. Defined.
#[global] Instance Worker_eq_dec : EqDecision Worker.
Proof. solve_decision. Defined.
#[global] Instance SelectorPc_eq_dec : EqDecision SelectorPc.
Proof. solve_decision. Defined.

Definition new_worker : Worker := {|
  pc := Polling; nextKey := None; busy := false; interrupted := false |}.

(** [RequestHandlers.create(store, numThreads, bufferSize)], started. *)
Definition create (numThreads : nat) : Pool :=
  {| workers := replicate numThreads new_worker; inUse := ∅; cancelled := ∅;
     selector := Selecting; shutdown := false |}.

(** ** Updates *)

Definition set_selector (p : Pool) (s : SelectorPc) : Pool :=
  {| workers := workers p; inUse := inUse p; cancelled := cancelled p; selector := s;
     shutdown := shutdown p |}.
Definition set_worker (p : Pool) (i : nat) (w : Worker) : Pool :=
  {| workers := <[i := w]> (workers p); inUse := inUse p; cancelled := cancelled p;
     selector := selector p; shutdown := shutdown p |}.
Definition setInUse (p : Pool) (k : key) (b : bool) : Pool :=
  {| workers := workers p; inUse := <[k := b]> (inUse p); cancelled := cancelled p;
     selector := selector p; shutdown := shutdown p |}.
Definition cancel (p : Pool) (k : key) : Pool :=
  {| workers := workers p; inUse := inUse p; cancelled := {[k]} ∪ cancelled p;
     selector := selector p; shutdown := shutdown p |}.
Definition set_shutdown (p : Pool) : Pool :=
  {| workers := workers p; inUse := inUse p; cancelled := cancelled p;
     selector := selector p; shutdown := true |}.

(** ** Steps *)

(** Labels of the selector thread, and of worker [i]. *)
Inductive Label : Type :=
  | Read (k : key)          (* the action on a ready key: isValid, isReadable *)
  | IsInUse                 (* attachment().inUse() *)
  | IsShutdown              (* this.shutdown *)
  | IsBusy                  (* workers[i].isBusy(), and on to the next worker if so *)
  | Attach                  (* key.attach(new Attachment()) or att.setInUse(true) *)
  | MarkBusy                (* busy = true *)
  | CompareAndSet           (* nextKey.compareAndSet(null, key) *)
  | Shutdown                (* shutdown = true *)
  | Interrupt (i : nat)     (* and then workers[i].interrupt() *)
  | Poll (i : nat)          (* nextKey.get() *)
  | IsInterrupted (i : nat) (* Thread.interrupted() *)
  | Finish (i : nat) (o : Outcome)  (* the try block ends *)
  | Release (i : nat)
  | ClearNext (i : nat)
  | Free (i : nat).

(** The worker a label belongs to. *)
Definition actor (l : Label) : option nat :=
  match l with
  | Poll i | IsInterrupted i | Finish i _ | Release i | ClearNext i | Free i => Some i
  | _ => None
  end.

(** A cancelled key is skipped. *)
Definition select (p : Pool) (k : key) : option Pool :=
  match selector p with
  | Selecting => Some (if decide (k ∈ cancelled p) then p else set_selector p (Checking k))
  | _ => None
  end.

(** [read]: a key in use is left alone. *)
Definition read (p : Pool) : option Pool :=
  match selector p with
  | Checking k =>
      Some (set_selector p (if decide (inUse p !! k = Some true) then Selecting else Submitting k))
  | _ => None
  end.

(** The head of [submit]: nothing is handed over after [shutdown]. *)
Definition submit (p : Pool) : option Pool :=
  match selector p with
  | Submitting k => Some (set_selector p (if shutdown p then Selecting else Scanning k 0))
  | _ => None
  end.

(** The loop of [submit]; past the last worker [while (true)] starts over. *)
Definition isBusy (p : Pool) : option Pool :=
  match selector p with
  | Scanning k i =>
      match workers p !! i with
      | Some w => Some (set_selector p (if busy w then Scanning k (S i) else Attaching k i))
      | None => Some (set_selector p (Scanning k 0))
      end
  | _ => None
  end.

(** [WorkThread.nextKey]. *)
Definition attach (p : Pool) : option Pool :=
  match selector p with
  | Attaching k i => Some (set_selector (setInUse p k true) (Marking k i))
  | _ => None
  end.

Definition markBusy (p : Pool) : option Pool :=
  match selector p with
  | Marking k i =>
      match workers p !! i with
      | Some w => Some (set_selector (set_worker p i {| pc := pc w; nextKey := nextKey w; busy := true;
                             interrupted := interrupted w |})
                          (Swapping k i))
      | None => None
      end
  | _ => None
  end.

(** A failed swap spins. *)
Definition compareAndSet (p : Pool) : option Pool :=
  match selector p with
  | Swapping k i =>
      match workers p !! i with
      | Some w =>
          match nextKey w with
          | None => Some (set_selector (set_worker p i {| pc := pc w; nextKey := Some k; busy := busy w;
                               interrupted := interrupted w |})
                            Selecting)
          | Some _ => Some p
          end
      | None => None
      end
  | _ => None
  end.

(** The thread in [shutdown] interrupts the workers after it has set the flag. *)
Definition interrupt (p : Pool) (i : nat) (w : Worker) : option Pool :=
  if shutdown p
  then Some (set_worker p i {| pc := pc w; nextKey := nextKey w; busy := busy w; interrupted := true |})
  else None.

(** The steps of a worker. *)
Definition at_pc (p : Pool) (i : nat) (w : Worker) (c : WorkerPc) : Pool :=
  set_worker p i {| pc := c; nextKey := nextKey w; busy := busy w;
                    interrupted := interrupted w |}.

Definition poll (p : Pool) (i : nat) (w : Worker) : option Pool :=
  match pc w, nextKey w with
  | Polling, Some k => Some (at_pc p i w (Serving k))
  | Polling, None => Some (at_pc p i w Idling)
  | _, _ => None
  end.

(** [Thread.interrupted()] clears the flag. *)
Definition is_interrupted (p : Pool) (i : nat) (w : Worker) : option Pool :=
  match pc w with
  | Idling =>
      Some (set_worker p i {| pc := if interrupted w then Gone else Polling; nextKey := nextKey w;
                              busy := busy w; interrupted := false |})
  | _ => None
  end.

(** How the [try] block of [run] ends.  An exception that nothing catches leaves the
    loop after the [finally] block. *)
Definition finish (p : Pool) (i : nat) (w : Worker) (o : Outcome) : option Pool :=
  match pc w with
  | Serving k =>
      match o with
      | Released => Some (at_pc p i w (Releasing k false))
      | Closed | Abandoned => Some (at_pc (cancel p k) i w (Releasing k false))
      | Died _ => Some (at_pc p i w (Releasing k true))
      | Waiting | Exited => None
      end
  | _ => None
  end.

(** The [finally] block. *)
Definition release (p : Pool) (i : nat) (w : Worker) : option Pool :=
  match pc w with
  | Releasing k d => Some (at_pc (setInUse p k false) i w (Clearing d))
  | _ => None
  end.
Definition clear_next (p : Pool) (i : nat) (w : Worker) : option Pool :=
  match pc w with
  | Clearing d => Some (set_worker p i {| pc := Freeing d; nextKey := None; busy := busy w;
                              interrupted := interrupted w |})
  | _ => None
  end.
Definition free (p : Pool) (i : nat) (w : Worker) : option Pool :=
  match pc w with
  | Freeing d =>
      Some (set_worker p i {| pc := if d then Gone else Polling; nextKey := nextKey w;
                              busy := false; interrupted := interrupted w |})
  | _ => None
  end.

Definition exec (l : Label) (p : Pool) : option Pool :=
  let by_worker i f := match workers p !! i with Some w => f p i w | None => None end in
  match l with
  | Read k => select p k
  | IsInUse => read p
  | IsShutdown => submit p
  | IsBusy => isBusy p
  | Attach => attach p
  | MarkBusy => markBusy p
  | CompareAndSet => compareAndSet p
  | Shutdown => Some (set_shutdown p)
  | Interrupt i => by_worker i interrupt
  | Poll i => by_worker i poll
  | IsInterrupted i => by_worker i is_interrupted
  | Finish i o => by_worker i (fun p i w => finish p i w o)
  | Release i => by_worker i release
  | ClearNext i => by_worker i clear_next
  | Free i => by_worker i free
  end.

Definition step (p p' : Pool) : Prop := exists l, exec l p = Some p'.

(** A run: the labels taken, one after the other. *)
Fixpoint run (ls : list Label) (p : Pool) : option Pool :=
  match ls with
  | [] => Some p
  | l :: ls => exec l p ≫= run ls
  end.

Definition reachable (n : nat) (p : Pool) : Prop := exists ls, run ls (create n) = Some p.
