(* ===== verification/DispatchCorrect.v ===== *)
(** * The dispatch of selection keys: its invariant and what follows from it

    No two workers hold a key, a key a worker holds is marked in use, and the selector
    hands a key only to a worker with an empty slot; so the swap of [nextKey] never
    fails, and [submit] returns if some worker is free. *)

From stdpp Require Import gmap.
From S2P Require Import Prelude.
From S2P Require Import WorkThread.
From S2P Require Import Dispatch.
#[local] Open Scope nat_scope.

(** ** The invariant *)

(** The worker runs no request. *)
Definition resting (w : Worker) : Prop := pc w = Polling \/ pc w = Idling \/ pc w = Gone.

(** The key worker [w] was handed and has not released. *)
Definition held (w : Worker) : option key :=
  match pc w with
  | Polling | Idling | Gone => nextKey w
  | Serving k | Releasing k _ => Some k
  | Clearing _ | Freeing _ => None
  end.

Definition worker_ok (w : Worker) : Prop :=
  match pc w with
  | Polling | Idling | Gone => busy w = false -> nextKey w = None
  | Serving k | Releasing k _ => nextKey w = Some k /\ busy w = true
  | Clearing _ => busy w = true
  | Freeing _ => busy w = true /\ nextKey w = None
  end.

Definition idle (p : Pool) (i : nat) : Prop :=
  exists w, workers p !! i = Some w /\ busy w = false.
Definition unheld (p : Pool) (k : key) : Prop :=
  forall i w, workers p !! i = Some w -> held w <> Some k.

Definition selector_ok (p : Pool) : Prop :=
  match selector p with
  | Selecting | Checking _ => True
  | Submitting k | Scanning k _ => inUse p !! k <> Some true
  | Attaching k i => inUse p !! k <> Some true /\ idle p i
  | Marking k i => inUse p !! k = Some true /\ unheld p k /\ idle p i
  | Swapping k i =>
      inUse p !! k = Some true /\ unheld p k /\
      exists w, workers p !! i = Some w /\ resting w /\
                nextKey w = None /\ busy w = true
  end.

Record pool_ok (p : Pool) : Prop := {
  ok_workers : forall i w, workers p !! i = Some w -> worker_ok w;
  ok_in_use : forall i w k, workers p !! i = Some w -> held w = Some k -> inUse p !! k = Some true;
  ok_unique : forall i j wi wj k, workers p !! i = Some wi -> workers p !! j = Some wj ->
                held wi = Some k -> held wj = Some k -> i = j;
  ok_selector : selector_ok p
}.

(** ** Frames *)

Lemma lookup_set_worker (p : Pool) (i j : nat) (w w0 wj : Worker) :
  workers p !! i = Some w0 ->
  workers (set_worker p i w) !! j = Some wj ->
  (j = i /\ wj = w) \/ (j <> i /\ workers p !! j = Some wj).
Proof.
  intros Hi. cbn. destruct (decide (j = i)) as [-> |Hj].
  - rewrite list_lookup_insert_eq by (eapply lookup_lt_Some; eauto). intros [= ->]. by left.
  - rewrite list_lookup_insert_ne by done. by right.
Qed.

Lemma lookup_set_worker_eq (p : Pool) (i : nat) (w w0 : Worker) :
  workers p !! i = Some w0 -> workers (set_worker p i w) !! i = Some w.
Proof. intros Hi. cbn. apply list_lookup_insert_eq. eapply lookup_lt_Some; eauto. Qed.

(** Worker [i] takes a step that holds no new key, stays free if it was, and does not
    leave its place while the selector waits to fill its slot. *)
Record quiet_step (w w' : Worker) : Prop := {
  quiet_ok : worker_ok w';
  quiet_held : held w' = held w \/ held w' = None;
  quiet_idle : busy w = false -> busy w' = false;
  quiet_slot : resting w -> nextKey w = None ->
    resting w' /\ nextKey w' = None /\ busy w' = busy w
}.

Lemma quiet_step_ok (p : Pool) (i : nat) (w w' : Worker) :
  pool_ok p -> workers p !! i = Some w -> quiet_step w w' -> pool_ok (set_worker p i w').
Proof.
  intros [Hw Hu Hq Hs] Hi [Qok Qh Qi Qs].
  assert (Hh : forall j wj k, workers (set_worker p i w') !! j = Some wj -> held wj = Some k ->
    exists w0, workers p !! j = Some w0 /\ held w0 = Some k).
  { intros j wj k [[-> ->]|[_ Hj]]%(lookup_set_worker _ _ _ _ _ _ Hi) Hk; [|eauto].
    exists w. destruct Qh; split; congruence. }
  assert (Hunheld : forall k, unheld p k -> unheld (set_worker p i w') k).
  { intros k Hk j wj Hj Hheld. destruct (Hh _ _ _ Hj Hheld) as (w0 & ? & ?). by eapply Hk. }
  assert (Hidle : forall j, idle p j -> idle (set_worker p i w') j).
  { intros j (wj & Hj & Hb). destruct (decide (j = i)) as [-> |Hji].
    - exists w'. split; [by eapply lookup_set_worker_eq|]. apply Qi. congruence.
    - exists wj. cbn. by rewrite list_lookup_insert_ne. }
  split.
  - intros j wj [[-> ->]|[_ Hj]]%(lookup_set_worker _ _ _ _ _ _ Hi); eauto.
  - intros j wj k Hj Hk. destruct (Hh _ _ _ Hj Hk) as (w0 & ? & ?). cbn. eauto.
  - intros j1 j2 w1 w2 k H1 H2 K1 K2.
    destruct (Hh _ _ _ H1 K1) as (? & ? & ?), (Hh _ _ _ H2 K2) as (? & ? & ?). eauto.
  - unfold selector_ok in *. cbn [selector set_worker inUse].
    destruct (selector p) as [| | | |k j|k j|k j]; try done.
    + destruct Hs. auto.
    + destruct Hs as (? & ? & ?). auto.
    + destruct Hs as (? & ? & wj & Hj & Hpc & Hn & Hb). split; [done|]. split; [auto|].
      destruct (decide (j = i)) as [-> |Hji].
      * exists w'. split; [by eapply lookup_set_worker_eq|].
        assert (wj = w) as -> by congruence. destruct (Qs Hpc Hn) as (? & ? & Hbusy).
        rewrite Hbusy. auto.
      * exists wj. cbn. by rewrite list_lookup_insert_ne.
Qed.

(** A step of a worker that leaves the marks of the keys. *)
Lemma pool_ok_cancel (p : Pool) (k : key) : pool_ok p -> pool_ok (cancel p k).
Proof. intros [? ? ? Hs]. split; eauto. Qed.

(** ** Steps of a worker *)

Ltac quiet Hok :=
  pose proof (ok_workers _ Hok _ _ ltac:(eassumption)) as Hwok; unfold worker_ok in Hwok;
  eapply quiet_step_ok; [eassumption..|];
  split; unfold worker_ok, held, resting; simpl in *;
  try match goal with E : pc _ = _ |- _ => rewrite E in * end; simpl in *;
  try solve [intuition congruence].

Lemma poll_ok (p p' : Pool) (i : nat) (w : Worker) :
  pool_ok p -> workers p !! i = Some w -> poll p i w = Some p' -> pool_ok p'.
Proof.
  intros Hok Hi. unfold poll. destruct (pc w) eqn:Epc; try done.
  destruct (nextKey w) as [k|] eqn:En; intros [= <-]; unfold at_pc; quiet Hok;
    destruct (busy w); intuition congruence.
Qed.

Lemma is_interrupted_ok (p p' : Pool) (i : nat) (w : Worker) :
  pool_ok p -> workers p !! i = Some w -> is_interrupted p i w = Some p' -> pool_ok p'.
Proof.
  intros Hok Hi. unfold is_interrupted. destruct (pc w) eqn:Epc; try done.
  intros [= <-]. quiet Hok; destruct (interrupted w); intuition congruence.
Qed.

Lemma interrupt_ok (p p' : Pool) (i : nat) (w : Worker) :
  pool_ok p -> workers p !! i = Some w -> interrupt p i w = Some p' -> pool_ok p'.
Proof.
  intros Hok Hi. unfold interrupt. destruct (shutdown p); [|done]. intros [= <-].
  quiet Hok.
Qed.

Lemma finish_ok (p p' : Pool) (i : nat) (w : Worker) (o : Outcome) :
  pool_ok p -> workers p !! i = Some w -> finish p i w o = Some p' -> pool_ok p'.
Proof.
  intros Hok Hi. unfold finish, at_pc. destruct (pc w) as [| |k| | | |] eqn:Epc; try done.
  destruct o; try done; intros [= <-].
  - quiet Hok.
  - apply (pool_ok_cancel _ k) in Hok. quiet Hok.
  - apply (pool_ok_cancel _ k) in Hok. quiet Hok.
  - quiet Hok.
Qed.

Lemma clear_next_ok (p p' : Pool) (i : nat) (w : Worker) :
  pool_ok p -> workers p !! i = Some w -> clear_next p i w = Some p' -> pool_ok p'.
Proof.
  intros Hok Hi. unfold clear_next. destruct (pc w) eqn:Epc; try done.
  intros [= <-]. quiet Hok.
Qed.

Lemma free_ok (p p' : Pool) (i : nat) (w : Worker) :
  pool_ok p -> workers p !! i = Some w -> free p i w = Some p' -> pool_ok p'.
Proof.
  intros Hok Hi. unfold free. destruct (pc w) as [| | | | |d|] eqn:Epc; try done.
  intros [= <-]. quiet Hok; destruct d; intuition congruence.
Qed.

(** [release] clears the mark of the key only this worker held. *)
Lemma release_ok (p p' : Pool) (i : nat) (w : Worker) :
  pool_ok p -> workers p !! i = Some w -> release p i w = Some p' -> pool_ok p'.
Proof.
  intros Hok Hi. unfold release. destruct (pc w) as [| | |k d| | |] eqn:Epc; try done.
  intros [= <-]. unfold at_pc.
  assert (Hk : held w = Some k) by (unfold held; by rewrite Epc).
  assert (Hpool : pool_ok (set_worker p i {| pc := Clearing d; nextKey := nextKey w; busy := busy w;
    interrupted := interrupted w |})).
  { quiet Hok. }
  destruct Hpool as [Hw Hu Hq Hs]. split; cbn -[lookup insert] in *; [done| |done|].
  - intros j wj k' Hj Hk'. destruct (decide (k' = k)) as [-> |Hne].
    + exfalso. destruct (lookup_set_worker p i j _ _ _ Hi Hj) as [[-> ->]|[Hji Hj']]; [done|].
      exact (Hji (ok_unique _ Hok _ _ _ _ _ Hj' Hi Hk' Hk)).
    + rewrite lookup_insert_ne by done. eauto.
  - assert (Hne : forall k', inUse p !! k' <> Some true -> <[k:=false]> (inUse p) !! k' <> Some true).
    { intros k' ?. destruct (decide (k' = k)) as [-> |]; [by rewrite lookup_insert_eq|].
      by rewrite lookup_insert_ne. }
    assert (Hin : forall k', inUse p !! k' = Some true -> unheld p k' ->
      <[k:=false]> (inUse p) !! k' = Some true).
    { intros k' ? Hun. rewrite lookup_insert_ne; [done|]. intros <-. by eapply Hun. }
    pose proof (ok_selector _ Hok) as Hs0. unfold selector_ok in *. cbn -[lookup insert] in *.
    destruct (selector p); try done; destruct_and?; split_and?; auto.
Qed.

(** ** Steps of the selector *)

Lemma pool_ok_selector (p : Pool) (s : SelectorPc) :
  pool_ok p -> selector_ok (set_selector p s) -> pool_ok (set_selector p s).
Proof. intros [? ? ? _] ?. split; eauto. Qed.

Lemma select_ok (p p' : Pool) (k : key) : pool_ok p -> select p k = Some p' -> pool_ok p'.
Proof.
  intros Hok. unfold select. destruct (selector p); try done. intros [= <-].
  case_decide; [done|]. by apply pool_ok_selector.
Qed.

Lemma read_ok (p p' : Pool) : pool_ok p -> read p = Some p' -> pool_ok p'.
Proof.
  intros Hok. unfold read. destruct (selector p); try done. intros [= <-].
  case_decide; by apply pool_ok_selector.
Qed.

Lemma submit_ok (p p' : Pool) : pool_ok p -> submit p = Some p' -> pool_ok p'.
Proof.
  intros Hok. pose proof (ok_selector _ Hok) as Hs. unfold submit, selector_ok in *.
  destruct (selector p); try done. intros [= <-]. destruct (shutdown p); by apply pool_ok_selector.
Qed.

Lemma isBusy_ok (p p' : Pool) : pool_ok p -> isBusy p = Some p' -> pool_ok p'.
Proof.
  intros Hok. pose proof (ok_selector _ Hok) as Hs. unfold isBusy, selector_ok in *.
  destruct (selector p) as [| | |k i| | |]; try done.
  destruct (workers p !! i) as [w|] eqn:Hi; intros [= <-]; apply pool_ok_selector; try done.
  destruct (busy w) eqn:Hb; [done|]. split; [done|]. by exists w.
Qed.

Lemma attach_ok (p p' : Pool) : pool_ok p -> attach p = Some p' -> pool_ok p'.
Proof.
  intros [Hw Hu Hq Hs]. unfold attach, selector_ok in *.
  destruct (selector p) as [| | | |k i| |]; try done. destruct Hs as [Hfree Hidle].
  intros [= <-]. split; cbn -[lookup insert]; [done| |done|].
  - intros j w k' Hj Hk. destruct (decide (k' = k)) as [-> |]; [by rewrite lookup_insert_eq|].
    rewrite lookup_insert_ne by done. eauto.
  - unfold selector_ok; cbn -[lookup insert]. split; [by rewrite lookup_insert_eq|]. split; [|done].
    intros j w Hj Hk. apply Hfree. eauto.
Qed.

(** A worker that is free has an empty slot and runs no request. *)
Lemma worker_idle (w : Worker) :
  worker_ok w -> busy w = false -> resting w /\ nextKey w = None /\ held w = None.
Proof. unfold worker_ok, held, resting. destruct (pc w); intuition congruence. Qed.

Lemma markBusy_ok (p p' : Pool) : pool_ok p -> markBusy p = Some p' -> pool_ok p'.
Proof.
  intros Hok. pose proof (ok_selector _ Hok) as Hs. unfold markBusy, selector_ok in Hs |- *.
  destruct (selector p) as [| | | | |k i|] eqn:Esel; try done.
  destruct Hs as (Hin & Hun & w & Hi & Hb). rewrite Hi. intros [= <-].
  destruct (worker_idle w (ok_workers _ Hok _ _ Hi) Hb) as (Hpc & Hn & Hh).
  set (w' := {| pc := pc w; nextKey := nextKey w; busy := true |}).
  assert (Hw' : held w' = None) by done.
  destruct Hok as [Hw Hu Hq _]. split.
  - intros j wj [[-> ->]|[_ Hj]]%(lookup_set_worker _ _ _ _ _ _ Hi); [|eauto].
    unfold worker_ok; simpl. destruct Hpc as [-> |[-> | ->]]; intros [=].
  - intros j wj k' [[-> ->]|[_ Hj]]%(lookup_set_worker _ _ _ _ _ _ Hi) ?; [congruence|]. cbn; eauto.
  - intros j1 j2 w1 w2 k' [[-> ->]|[_ Hj1]]%(lookup_set_worker _ _ _ _ _ _ Hi)
      [[-> ->]|[_ Hj2]]%(lookup_set_worker _ _ _ _ _ _ Hi) ? ?; try congruence. eauto.
  - split; [done|]. split.
    + intros j wj [[-> ->]|[_ Hj]]%(lookup_set_worker _ _ _ _ _ _ Hi); [congruence|eauto].
    + exists w'. split; [by eapply lookup_set_worker_eq|]. auto.
Qed.

Lemma compareAndSet_ok (p p' : Pool) : pool_ok p -> compareAndSet p = Some p' -> pool_ok p'.
Proof.
  intros Hok. pose proof (ok_selector _ Hok) as Hs. unfold compareAndSet, selector_ok in Hs |- *.
  destruct (selector p) as [| | | | | |k i] eqn:Esel; try done.
  destruct Hs as (Hin & Hun & w & Hi & Hpc & Hn & Hb). rewrite Hi, Hn. intros [= <-].
  set (w' := {| pc := pc w; nextKey := Some k; busy := busy w |}).
  assert (Hw' : held w' = Some k) by (unfold held; simpl; destruct Hpc as [-> |[-> | ->]]; done).
  destruct Hok as [Hw Hu Hq _]. split; [| | |done].
  - intros j wj [[-> ->]|[_ Hj]]%(lookup_set_worker _ _ _ _ _ _ Hi); [|eauto].
    unfold worker_ok; simpl. destruct Hpc as [-> |[-> | ->]]; congruence.
  - intros j wj k' [[-> ->]|[_ Hj]]%(lookup_set_worker _ _ _ _ _ _ Hi) ?; cbn; [congruence|eauto].
  - intros j1 j2 w1 w2 k' [[-> ->]|[_ Hj1]]%(lookup_set_worker _ _ _ _ _ _ Hi)
      [[-> ->]|[_ Hj2]]%(lookup_set_worker _ _ _ _ _ _ Hi) K1 K2; [done| | |eauto];
      exfalso; eapply Hun; [eassumption|congruence|eassumption|congruence].
Qed.

(** ** Runs *)

Lemma exec_ok (l : Label) (p p' : Pool) : pool_ok p -> exec l p = Some p' -> pool_ok p'.
Proof.
  intros Hok. destruct l as [k| | | | | | | |i|i|i|i o|i|i|i]; simpl;
    try (destruct (workers p !! i) as [w|] eqn:Hi; [|done]).
  - by apply select_ok.
  - by apply read_ok.
  - by apply submit_ok.
  - by apply isBusy_ok.
  - by apply attach_ok.
  - by apply markBusy_ok.
  - by apply compareAndSet_ok.
  - intros [= <-]. by destruct Hok.
  - by apply interrupt_ok.
  - by apply poll_ok.
  - by apply is_interrupted_ok.
  - by apply finish_ok.
  - by apply release_ok.
  - by apply clear_next_ok.
  - by apply free_ok.
Qed.

Lemma run_ok (ls : list Label) (p p' : Pool) : pool_ok p -> run ls p = Some p' -> pool_ok p'.
Proof.
  revert p; induction ls as [|l ls IH]; intros p Hok; simpl; [by intros [= <-]|].
  destruct (exec l p) as [q|] eqn:E; simpl; [|done]. eauto using exec_ok.
Qed.

Lemma create_ok (n : nat) : pool_ok (create n).
Proof.
  assert (Hn : forall i w, workers (create n) !! i = Some w -> w = new_worker).
  { intros i w [? ?]%lookup_replicate. done. }
  split; [| | |done].
  - intros i w ->%Hn. done.
  - intros i w k ->%Hn. done.
  - intros i j wi wj k ->%Hn. done.
Qed.

Lemma reachable_ok (n : nat) (p : Pool) : reachable n p -> pool_ok p.
Proof. intros [ls Hls]. eauto using run_ok, create_ok. Qed.

Lemma run_app (ls1 ls2 : list Label) (p : Pool) : run (ls1 ++ ls2) p = run ls1 p ≫= run ls2.
Proof.
  revert p; induction ls1 as [|l ls1 IH]; intros p; simpl; [done|].
  destruct (exec l p); simpl; auto.
Qed.

Lemma reachable_run (n : nat) (p p' : Pool) (ls : list Label) :
  reachable n p -> run ls p = Some p' -> reachable n p'.
Proof. intros [ls0 H0] H. exists (ls0 ++ ls). by rewrite run_app, H0. Qed.

(** ** What a step leaves alone *)

(** The labels of the selector thread. *)
Definition by_selector (l : Label) : bool :=
  match l with
  | Read _ | IsInUse | IsShutdown | IsBusy | Attach | MarkBusy | CompareAndSet => true
  | _ => false
  end.

(** Opens a step into its cases; what cannot happen is closed. *)
Ltac step_cases H :=
  repeat match type of H with
  | context [match ?x with _ => _ end] =>
      match type of x with
      | sumbool _ _ => destruct x
      | Decision _ => destruct x
      | _ => let E := fresh "E" in destruct x eqn:E
      end; simpl in H; try discriminate H
  end; injection H as <-.

Lemma worker_steps_leave_selector (l : Label) (p p' : Pool) :
  by_selector l = false -> exec l p = Some p' -> selector p' = selector p.
Proof.
  destruct l as [k| | | | | | | |i|i|i|i o|i|i|i]; simpl; try done; intros _ H;
    [by injection H as <-|..]; destruct (workers p !! i) as [w|]; try done;
    unfold poll, is_interrupted, interrupt, finish, release, clear_next, free in H;
    step_cases H; done.
Qed.

Lemma worker_steps_keep_idle (l : Label) (p p' : Pool) (j : nat) :
  pool_ok p -> by_selector l = false -> exec l p = Some p' -> idle p j -> idle p' j.
Proof.
  intros Hok Hl H (wj & Hj & Hb).
  assert (Hset : forall i w w' q, workers p !! i = Some w -> workers q = <[i := w']> (workers p) ->
    (busy w = false -> busy w' = false) -> idle q j).
  { intros i w w' q Hi Hq Hbusy. unfold idle. rewrite Hq. destruct (decide (j = i)) as [-> |Hji].
    - exists w'. rewrite list_lookup_insert_eq by (eapply lookup_lt_Some; eauto).
      split; [done|]. apply Hbusy. congruence.
    - exists wj. by rewrite list_lookup_insert_ne. }
  destruct l as [k| | | | | | | |i|i|i|i o|i|i|i]; simpl in *; try done;
    [injection H as <-; by exists wj|..]; destruct (workers p !! i) as [w|] eqn:Hi; try done;
    unfold poll, is_interrupted, interrupt, finish, release, clear_next, free in H;
    step_cases H; first [by exists wj | eapply Hset; [exact Hi|reflexivity|done]].
Qed.

(** ** [submit] hands the key over *)

(** The steps of the selector thread until the key is handed over, worker [j] being free. *)
Inductive pending (k : key) (j : nat) (p : Pool) : nat -> Prop :=
  | pending_scan i : selector p = Scanning k i -> i <= j -> idle p j -> pending k j p (j - i + 4)
  | pending_attach i : selector p = Attaching k i -> i <= j -> pending k j p 3
  | pending_mark i : selector p = Marking k i -> i <= j -> pending k j p 2
  | pending_swap i : selector p = Swapping k i -> i <= j -> pending k j p 1.

(** Worker [i] has been handed [k] and has not taken it yet. *)
Definition handed (k : key) (i : nat) (p : Pool) : Prop :=
  exists w, workers p !! i = Some w /\ nextKey w = Some k /\ resting w.

Lemma pending_worker_step (l : Label) (p p' : Pool) (k : key) (j n : nat) :
  pool_ok p -> by_selector l = false -> exec l p = Some p' -> pending k j p n -> pending k j p' n.
Proof.
  intros Hok Hl H Hp. pose proof (worker_steps_leave_selector _ _ _ Hl H) as Hs.
  destruct Hp; econstructor; rewrite ?Hs; eauto using worker_steps_keep_idle.
Qed.

Lemma pending_selector_step (l : Label) (p p' : Pool) (k : key) (j n : nat) :
  pool_ok p -> by_selector l = true -> exec l p = Some p' -> pending k j p n ->
  (exists m, m < n /\ pending k j p' m) \/
  (exists i, i <= j /\ handed k i p' /\ selector p' = Selecting).
Proof.
  intros Hok Hl H Hp. pose proof (ok_selector _ Hok) as Hs. unfold selector_ok in Hs.
  destruct Hp as [i Es Hij Hidle|i Es Hij|i Es Hij|i Es Hij];
    destruct l; simpl in *; try discriminate Hl; clear Hl;
    unfold select, read, submit, isBusy, attach, markBusy, compareAndSet in H; rewrite Es in *;
    try discriminate H.
  - left. destruct Hidle as (w & Hj & Hb).
    destruct (workers p !! i) as [wi|] eqn:Hi; injection H as <-; cycle 1.
    { apply lookup_ge_None in Hi. apply lookup_lt_Some in Hj. lia. }
    destruct (busy wi) eqn:Ebi.
    + assert (i <> j) by congruence. exists (j - S i + 4). split; [lia|].
      apply (pending_scan k j _ (S i)); [done|lia|]. by exists w.
    + exists 3. split; [lia|]. by apply (pending_attach k j _ i).
  - left. exists 2. injection H as <-. split; [lia|]. by apply (pending_mark k j _ i).
  - left. destruct Hs as (_ & _ & w & Hi & _). rewrite Hi in H. injection H as <-.
    exists 1. split; [lia|]. by apply (pending_swap k j _ i).
  - right. destruct Hs as (_ & _ & w & Hi & Hpc & Hn & _). rewrite Hi, Hn in H. injection H as <-.
    exists i. split; [done|]. split; [|done].
    eexists. split; [by eapply lookup_set_worker_eq|]. done.
Qed.

Lemma pending_handed (ls : list Label) (p p' : Pool) (k : key) (j n : nat) :
  pool_ok p -> pending k j p n -> run ls p = Some p' ->
  n <= length (List.filter by_selector ls) ->
  exists ls1 ls2 i q, ls = ls1 ++ ls2 /\ run ls1 p = Some q /\
    i <= j /\ handed k i q /\ selector q = Selecting.
Proof.
  revert p n; induction ls as [|l ls IH]; intros p n Hok Hp Hrun Hlen.
  { simpl in Hlen. destruct Hp; lia. }
  simpl in Hrun. destruct (exec l p) as [q|] eqn:E; simpl in Hrun; [|done].
  assert (Hcons : (exists m, m <= length (List.filter by_selector ls) /\ pending k j q m) ->
    exists ls1 ls2 i q, l :: ls = ls1 ++ ls2 /\ run ls1 p = Some q /\
    i <= j /\ handed k i q /\ selector q = Selecting).
  { intros (m & Hm & Hpm).
    destruct (IH q m (exec_ok _ _ _ Hok E) Hpm Hrun Hm) as (ls1 & ls2 & i & q' & -> & Hr & ?).
    exists (l :: ls1), ls2, i, q'. split; [done|]. split; [|done]. simpl. by rewrite E. }
  simpl in Hlen. destruct (by_selector l) eqn:El; simpl in Hlen.
  - destruct (pending_selector_step _ _ _ _ _ _ Hok El E Hp) as [(m & Hm & Hpm)|(i & Hi & Hq & Hs)].
    + apply Hcons. exists m. split; [lia|done].
    + exists [l], ls, i, q. split; [done|]. split; [simpl; by rewrite E|]. done.
  - apply Hcons. exists n. split; [done|]. by eapply pending_worker_step.
Qed.

(** ** A worker serves what it was handed *)

(** A worker with a full slot that has not taken the key is left alone by all others. *)
Lemma handed_worker_alone (l : Label) (p p' : Pool) (i : nat) (w : Worker) (k : key) :
  pool_ok p -> workers p !! i = Some w -> resting w -> nextKey w = Some k ->
  shutdown p = false -> actor l <> Some i -> exec l p = Some p' -> workers p' !! i = Some w.
Proof.
  intros Hok Hi Hpc Hn Hsd Hl H.
  pose proof (ok_selector _ Hok) as Hs. pose proof (ok_workers _ Hok _ _ Hi) as Hw.
  unfold selector_ok in Hs.
  assert (Hother : forall j w', i <> j -> <[j := w']> (workers p) !! i = Some w).
  { intros. by rewrite list_lookup_insert_ne. }
  destruct l as [k0| | | | | | | |j|j|j|j o|j|j|j]; simpl in *;
    try (destruct (workers p !! j) as [wj|]; [|done]);
    try (assert (Hij : i <> j) by congruence);
    unfold select, read, submit, isBusy, attach, markBusy, compareAndSet, poll, is_interrupted, interrupt, finish,
      release, clear_next, free in H;
    step_cases H; simpl; auto.
  - destruct Hs as (_ & _ & wi & Hi' & Hb). destruct (decide (i = i0)) as [-> |]; [|auto].
    assert (wi = w) as -> by congruence. destruct (worker_idle w Hw Hb) as (_ & ? & _). congruence.
  - destruct (decide (i = i0)) as [-> |]; [|auto]. congruence.
Qed.

(** The steps until a worker that was handed a key looks at its slot. *)
Definition steps_to_poll (w : Worker) : nat := match pc w with Idling => 2 | _ => 1 end.
Definition by_worker (i : nat) (l : Label) : bool := bool_decide (actor l = Some i).

Lemma exec_shutdown (l : Label) (p p' : Pool) :
  exec l p = Some p' -> shutdown p = true -> shutdown p' = true.
Proof.
  intros H Hsd. destruct l as [k0| | | | | | | |j|j|j|j o|j|j|j]; simpl in H;
    try (destruct (workers p !! j) as [wj|]; [|done]);
    unfold select, read, submit, isBusy, attach, markBusy, compareAndSet, poll, is_interrupted,
      interrupt, finish, release, clear_next, free in H;
    step_cases H; done.
Qed.

Lemma run_shutdown (ls : list Label) (p p' : Pool) :
  run ls p = Some p' -> shutdown p' = false -> shutdown p = false.
Proof.
  revert p; induction ls as [|l ls IH]; intros p; simpl; [by intros [= <-]|].
  destruct (exec l p) as [q|] eqn:E; simpl; [|done]. intros Hr Hsd. specialize (IH q Hr Hsd).
  destruct (shutdown p) eqn:Ep; [|done]. by rewrite (exec_shutdown _ _ _ E Ep) in IH.
Qed.

(** Before [shutdown] nothing is interrupted. *)
Definition calm (p : Pool) : Prop :=
  shutdown p = false -> forall i w, workers p !! i = Some w -> interrupted w = false.

Lemma exec_calm (l : Label) (p p' : Pool) : exec l p = Some p' -> calm p -> calm p'.
Proof.
  intros H Hc Hsd'.
  assert (Hsd : shutdown p = false).
  { destruct (shutdown p) eqn:Ep; [|done]. by rewrite (exec_shutdown _ _ _ H Ep) in Hsd'. }
  specialize (Hc Hsd). intros i w'.
  assert (Hset : forall j w0 w1, workers p !! j = Some w0 -> interrupted w1 = interrupted w0 \/ interrupted w1 = false ->
    <[j := w1]> (workers p) !! i = Some w' -> interrupted w' = false).
  { intros j w0 w1 Hj Hi. destruct (decide (i = j)) as [-> |].
    - rewrite list_lookup_insert_eq by (by eapply lookup_lt_Some). intros [= <-].
      destruct Hi as [-> | ->]; eauto.
    - rewrite list_lookup_insert_ne by done. apply Hc. }
  destruct l as [k0| | | | | | | |j|j|j|j o|j|j|j]; simpl in H;
    try (destruct (workers p !! j) as [wj|] eqn:Hj; [|done]);
    unfold select, read, submit, isBusy, attach, markBusy, compareAndSet, poll, is_interrupted,
      interrupt, finish, release, clear_next, free in H;
    step_cases H; simpl; first [congruence | apply Hc | eapply Hset; [eassumption|simpl; auto] ].
Qed.

Lemma run_calm (ls : list Label) (p p' : Pool) : run ls p = Some p' -> calm p -> calm p'.
Proof.
  revert p; induction ls as [|l ls IH]; intros p; simpl; [by intros [= <-]|].
  destruct (exec l p) as [q|] eqn:E; simpl; [|done]. eauto using exec_calm.
Qed.

Lemma reachable_calm (n : nat) (p : Pool) : reachable n p -> calm p.
Proof.
  intros [ls H]. apply (run_calm _ _ _ H). intros _ i w [-> _]%lookup_replicate. done.
Qed.

Lemma handed_served (ls : list Label) (p p' : Pool) (i : nat) (w : Worker) (k : key) :
  pool_ok p -> calm p -> workers p !! i = Some w -> pc w = Polling \/ pc w = Idling ->
  nextKey w = Some k -> run ls p = Some p' -> shutdown p' = false ->
  steps_to_poll w <= length (List.filter (by_worker i) ls) ->
  exists ls1 ls2 q, ls = ls1 ++ Poll i :: ls2 /\ run (ls1 ++ [Poll i]) p = Some q /\
    exists w', workers q !! i = Some w' /\ pc w' = Serving k.
Proof.
  revert p w; induction ls as [|l ls IH]; intros p w Hok Hcalm Hi Hpc Hn Hrun Hsd Hlen.
  { unfold steps_to_poll in Hlen. simpl in Hlen. destruct Hpc as [E|E]; rewrite E in Hlen; lia. }
  simpl in Hrun. destruct (exec l p) as [q|] eqn:E; simpl in Hrun; [|done].
  pose proof (run_shutdown (l :: ls) p p' ltac:(simpl; by rewrite E) Hsd) as Hsdp.
  assert (Hcons : forall w1, workers q !! i = Some w1 -> pc w1 = Polling \/ pc w1 = Idling ->
    nextKey w1 = Some k -> steps_to_poll w1 <= length (List.filter (by_worker i) ls) ->
    exists ls1 ls2 q', l :: ls = ls1 ++ Poll i :: ls2 /\ run (ls1 ++ [Poll i]) p = Some q' /\
      exists w', workers q' !! i = Some w' /\ pc w' = Serving k).
  { intros w1 H1 Hpc1 Hn1 Hlen1.
    destruct (IH q w1 (exec_ok _ _ _ Hok E) (exec_calm _ _ _ E Hcalm) H1 Hpc1 Hn1 Hrun Hsd Hlen1)
      as (ls1 & ls2 & q' & -> & Hr & ?).
    exists (l :: ls1), ls2, q'. split; [done|]. split; [|done]. simpl. by rewrite E. }
  simpl in Hlen. unfold by_worker in Hlen at 1. case_bool_decide as Ha; simpl in Hlen.
  - destruct Hpc as [Hpc|Hpc]; unfold steps_to_poll in Hlen; rewrite Hpc in Hlen.
    + exists [], ls, q. assert (l = Poll i) as ->.
      { destruct l; simplify_eq/=; rewrite Hi in E; try done; exfalso;
          unfold is_interrupted, finish, release, clear_next, free in E; by rewrite Hpc in E. }
      split; [done|]. split; [cbn [run app]; by rewrite E|].
      simpl in E. rewrite Hi in E. unfold poll in E. rewrite Hpc, Hn in E. injection E as <-.
      eexists. split; [by eapply lookup_set_worker_eq|done].
    + assert (l = IsInterrupted i) as ->.
      { destruct l; simplify_eq/=; rewrite Hi in E; try done; exfalso;
          unfold poll, finish, release, clear_next, free in E; by rewrite Hpc in E. }
      simpl in E. rewrite Hi in E. unfold is_interrupted in E.
      rewrite Hpc, (Hcalm Hsdp i w Hi) in E. injection E as <-.
      eapply Hcons; [by eapply lookup_set_worker_eq|by left|done|]. unfold steps_to_poll; simpl. lia.
  - apply (Hcons w); try done.
    eapply (handed_worker_alone l p q i w k); eauto. unfold resting. tauto.
Qed.

(** ** A worker that has ended *)

Lemma gone_step (l : Label) (p p' : Pool) (i : nat) (w : Worker) :
  pool_ok p -> workers p !! i = Some w -> pc w = Gone -> exec l p = Some p' ->
  exists w', workers p' !! i = Some w' /\ pc w' = Gone /\
    (busy w = true -> busy w' = true) /\ (forall k, nextKey w = Some k -> nextKey w' = Some k).
Proof.
  intros Hok Hi Hpc H. destruct (decide (actor l = Some i)) as [Ha|Ha].
  { exfalso. destruct l; simplify_eq/=; rewrite Hi in H;
      unfold poll, is_interrupted, interrupt, finish, release, clear_next, free in H; by rewrite Hpc in H. }
  assert (Hsame : workers p' !! i = Some w -> exists w', workers p' !! i = Some w' /\ pc w' = Gone /\
    (busy w = true -> busy w' = true) /\ (forall k, nextKey w = Some k -> nextKey w' = Some k)) by eauto.
  assert (Hother : forall j w', i <> j -> <[j := w']> (workers p) !! i = Some w).
  { intros. by rewrite list_lookup_insert_ne. }
  destruct l as [k0| | | | | | | |j|j|j|j o|j|j|j]; simpl in H, Ha;
    try (destruct (workers p !! j) as [wj|] eqn:Hj; [|done]);
    try (assert (Hij : i <> j) by congruence);
    unfold select, read, submit, isBusy, attach, markBusy, compareAndSet, poll, is_interrupted, interrupt, finish,
      release, clear_next, free in H;
    step_cases H; simpl in *; auto.
  - destruct (decide (i = i0)) as [-> |]; [|auto]. simplify_eq.
    eexists. split; [by eapply list_lookup_insert_eq, lookup_lt_Some|]. auto.
  - destruct (decide (i = i0)) as [-> |]; [|auto]. simplify_eq.
    eexists. split; [by eapply list_lookup_insert_eq, lookup_lt_Some|].
    split; [done|]. split; [done|]. simpl. congruence.
  - destruct (decide (i = j)) as [-> |]; [|auto]. simplify_eq.
    eexists. split; [by eapply list_lookup_insert_eq, lookup_lt_Some|]. auto.
Qed.

Lemma gone_forever (ls : list Label) (p p' : Pool) (i : nat) (w : Worker) :
  pool_ok p -> workers p !! i = Some w -> pc w = Gone -> run ls p = Some p' ->
  exists w', workers p' !! i = Some w' /\ pc w' = Gone /\
    (busy w = true -> busy w' = true) /\ (forall k, nextKey w = Some k -> nextKey w' = Some k).
Proof.
  revert p w; induction ls as [|l ls IH]; intros p w Hok Hi Hpc H; simpl in H.
  { injection H as <-. eauto. }
  destruct (exec l p) as [q|] eqn:E; simpl in H; [|done].
  destruct (gone_step _ _ _ _ _ Hok Hi Hpc E) as (w1 & H1 & Hpc1 & Hb & Hn).
  destruct (IH q w1 (exec_ok _ _ _ Hok E) H1 Hpc1 H) as (w2 & ? & ? & ? & ?). eauto 10.
Qed.

(** The number of workers does not change. *)
Lemma exec_workers_length (l : Label) (p p' : Pool) :
  exec l p = Some p' -> length (workers p') = length (workers p).
Proof.
  intros H. destruct l as [k0| | | | | | | |j|j|j|j o|j|j|j]; simpl in H;
    try (destruct (workers p !! j) as [wj|]; [|done]);
    unfold select, read, submit, isBusy, attach, markBusy, compareAndSet, poll, is_interrupted, interrupt, finish,
      release, clear_next, free in H;
    step_cases H; simpl; rewrite ?length_insert; done.
Qed.

(** All workers have ended with a full slot. *)
Definition all_gone (p : Pool) : Prop :=
  forall j w, workers p !! j = Some w -> pc w = Gone /\ busy w = true.

Lemma all_gone_step (l : Label) (p p' : Pool) (k : key) (i : nat) :
  pool_ok p -> all_gone p -> selector p = Scanning k i -> exec l p = Some p' ->
  all_gone p' /\ exists i', selector p' = Scanning k i'.
Proof.
  intros Hok Hall Hs H. split.
  - intros j w' Hj.
    assert (is_Some (workers p !! j)) as [w Hw].
    { apply lookup_lt_is_Some. rewrite <-(exec_workers_length _ _ _ H). by eapply lookup_lt_Some. }
    destruct (Hall j w Hw) as [Hpc Hb].
    destruct (gone_step _ _ _ _ _ Hok Hw Hpc H) as (w2 & ? & ? & ? & _). simplify_eq. auto.
  - destruct (by_selector l) eqn:El.
    + destruct l; try discriminate El; simpl in H;
        unfold select, read, submit, isBusy, attach, markBusy, compareAndSet in H; rewrite Hs in H;
        try discriminate H.
      destruct (workers p !! i) as [w|] eqn:Hi; injection H as <-; simpl; [|eauto].
      destruct (Hall i w Hi) as [_ ->]. eauto.
    + rewrite (worker_steps_leave_selector _ _ _ El H). eauto.
Qed.

Lemma all_gone_forever (ls : list Label) (p p' : Pool) (k : key) (i : nat) :
  pool_ok p -> all_gone p -> selector p = Scanning k i -> run ls p = Some p' ->
  exists i', selector p' = Scanning k i'.
Proof.
  revert p i; induction ls as [|l ls IH]; intros p i Hok Hall Hs H; simpl in H.
  { injection H as <-. eauto. }
  destruct (exec l p) as [q|] eqn:E; simpl in H; [|done].
  destruct (all_gone_step _ _ _ _ _ Hok Hall Hs E) as [Hq [i' Hi']].
  eauto using exec_ok.
Qed.
