(* ===== verification/Client.v ===== *)
(** * [SimpleClient.java]: the requests

    The bytes each method of the client puts into its buffer before the write
    loop.  [Request] names a call of one of the data methods, [encode] its bytes:
    the canonical requests of the protocol, against which the server's parser is
    proved. *)

From S2P Require Import Prelude.
From S2P Require Import Memory.
From S2P Require Import Java.
From S2P Require Import Utils.
From S2P Require Import Command.
From S2P Require Import CommandParse.

Definition SPACE : bytes := [SP].

(** The keys separated by single spaces:
    [for (i...) { buf.put(keys[i]); if (i < numKeys - 1) buf.put(SPACE[0]); }] *)
Fixpoint put_keys (keys : list bytes) : bytes :=
  match keys with
  | [] => []
  | [k] => k
  | k :: keys => k ++ SPACE ++ put_keys keys
  end.

Definition client_get (keys : list bytes) : bytes := str "get" ++ SPACE ++ put_keys keys ++ CRLF.
Definition client_gets (keys : list bytes) : bytes := str "gets" ++ SPACE ++ put_keys keys ++ CRLF.
Definition client_gat (expire : Z) (keys : list bytes) : bytes :=
  str "gat" ++ SPACE ++ Long_toString expire ++ SPACE ++ put_keys keys ++ CRLF.
Definition client_gats (expire : Z) (keys : list bytes) : bytes :=
  str "gats" ++ SPACE ++ Long_toString expire ++ SPACE ++ put_keys keys ++ CRLF.

(** [ SPACE noreply], when asked for. *)
Definition put_noreply (noreply : bool) : bytes := if noreply then SPACE ++ NOREPLY else [].

(** The generic store command; [cas] is an [OptionalLong]. *)
Definition client_store (cmd key value : bytes) (flags expire : Z) (noreply : bool)
    (cas : option Z) : bytes :=
  cmd ++ SPACE ++ key ++ SPACE ++ Long_toString flags ++ SPACE ++ Long_toString expire
    ++ SPACE ++ Long_toString (zlen value)
    ++ (match cas with Some c => SPACE ++ Long_toString c | None => [] end)
    ++ put_noreply noreply ++ CRLF ++ value ++ CRLF.

Definition client_set key value flags expire noreply : bytes :=
  client_store (str "set") key value flags expire noreply None.
Definition client_add key value flags expire noreply : bytes :=
  client_store (str "add") key value flags expire noreply None.
Definition client_replace key value flags expire noreply : bytes :=
  client_store (str "replace") key value flags expire noreply None.
Definition client_append key value flags expire noreply : bytes :=
  client_store (str "append") key value flags expire noreply None.
Definition client_prepend key value flags expire noreply : bytes :=
  client_store (str "prepend") key value flags expire noreply None.
Definition client_cas key value flags expire noreply cas : bytes :=
  client_store (str "cas") key value flags expire noreply (Some cas).

Definition client_delete (key : bytes) (noreply : bool) : bytes :=
  str "delete" ++ SPACE ++ key ++ put_noreply noreply ++ CRLF.
Definition client_touch (key : bytes) (expire : Z) (noreply : bool) : bytes :=
  str "touch" ++ SPACE ++ key ++ SPACE ++ Long_toString expire ++ put_noreply noreply ++ CRLF.
Definition client_incr (key : bytes) (value : Z) (noreply : bool) : bytes :=
  str "incr" ++ SPACE ++ key ++ SPACE ++ Long_toString value ++ put_noreply noreply ++ CRLF.
Definition client_decr (key : bytes) (value : Z) (noreply : bool) : bytes :=
  str "decr" ++ SPACE ++ key ++ SPACE ++ Long_toString value ++ put_noreply noreply ++ CRLF.

Definition client_shutdown : bytes := str "shutdown" ++ CRLF.

(** ** Requests *)

Inductive Request : Type :=
  | RStore (v : StorageVerb) (key value : bytes) (flags expire : Z) (noreply : bool) (cas : Z)
  | RGet (v : RetrievalVerb) (expire : Z) (keys : list bytes)
  | RIncr (key : bytes) (value : Z) (noreply : bool)
  | RDecr (key : bytes) (value : Z) (noreply : bool)
  | RTouch (key : bytes) (expire : Z) (noreply : bool)
  | RDelete (key : bytes) (noreply : bool).

Definition encode (r : Request) : bytes :=
  match r with
  | RStore SET k v f e n _ => client_set k v f e n
  | RStore ADD k v f e n _ => client_add k v f e n
  | RStore REPLACE k v f e n _ => client_replace k v f e n
  | RStore APPEND k v f e n _ => client_append k v f e n
  | RStore PREPEND k v f e n _ => client_prepend k v f e n
  | RStore CAS k v f e n c => client_cas k v f e n c
  | RGet GET _ ks => client_get ks
  | RGet GETS _ ks => client_gets ks
  | RGet GAT e ks => client_gat e ks
  | RGet GATS e ks => client_gats e ks
  | RIncr k v n => client_incr k v n
  | RDecr k v n => client_decr k v n
  | RTouch k e n => client_touch k e n
  | RDelete k n => client_delete k n
  end.

(** A key the text protocol can carry. *)
Definition key_ok (k : bytes) : Prop := k <> [] /\ Forall plain k.

(** The requests the protocol can express: well-formed keys, unsigned 32-bit
    flags, [long] numbers, a value whose length is an [int]. *)
Definition request_ok (r : Request) : Prop :=
  match r with
  | RStore _ k v f e _ c =>
      key_ok k /\ 0 <= f <= 4294967295 /\ in_long e /\ in_long c /\ zlen v <= INT_MAX
  | RGet _ e ks => ks <> [] /\ Forall key_ok ks /\ in_long e
  | RIncr k v _ | RDecr k v _ => key_ok k /\ in_long v
  | RTouch k e _ => key_ok k /\ in_long e
  | RDelete k _ => key_ok k
  end.

#[export] Instance plain_dec c : Decision (plain c).
Proof. unfold plain. apply _. Defined.
#[export] Instance key_ok_dec k : Decision (key_ok k).
Proof. unfold key_ok. apply _. Defined.
