(* ===== verification/ClientReply.v ===== *)
(** * [SimpleClient.java]: reading responses

    After a request the client reads the channel into its buffer until one of the
    [get...Response] methods recognises a response.  The channel is the byte stream
    the server sends and the number of bytes each [read] finds there; the buffer is
    what has been read since [clear], with its limit.  The methods look at the whole
    buffer each time. *)

From S2P Require Import Prelude.
From S2P Require Import Memory.
From S2P Require Import Java.
From S2P Require Import CarrotCache.
From S2P Require Import Client.
From S2P Require Import Utils.

Inductive ResponseCode : Type :=
  | R_DELETED | R_EXISTS | R_NOT_FOUND | R_NOT_STORED | R_STORED | R_TOUCHED | R_SAVED | R_OK
  | R_ERROR | R_CLIENT_ERROR | R_SERVER_ERROR.

(** [cas] is [null] when the response line has none. *)
Record GetResult := { g_key : bytes; g_value : bytes; g_flags : Z; g_cas : option Z }.

(** [incr] and [decr] return an [Object]. *)
Inductive Counter : Type :=
  | Code (c : ResponseCode)
  | Number (n : Z).

(** [buf], between [clear] and the next request: the bytes up to [position], and
    [limit]. *)
Record Buf := { got : bytes; limit : Z }.
Definition CAPACITY : Z := 16 * 1024 * 1024.
Definition clear : Buf := {| got := []; limit := CAPACITY |}.

(** What a response method says of the buffer: read on ([null]), possibly with the
    limit changed, or an answer, or an exception. *)
Inductive Verdict (A : Type) : Type :=
  | Again (b : Buf)
  | Answer (a : A)
  | Throws (e : exn).
Arguments Again {A} b.
Arguments Answer {A} a.
Arguments Throws {A} e.

(** [buf.get(i)] below the limit. *)
Definition byte_at (l : bytes) (i : nat) : ascii := nth i l NUL.

Section Responses.
Context `{CarrotUtils}.

(** [compareTo(buf, END.length, END, 0, END.length) == 0], the buffer's bytes from
    its position. *)
Definition END : bytes := str "END" ++ CRLF.
Definition is_END (l : bytes) : bool := compareTo (take 5 l) END =? 0.

Definition starts_with (s : bytes) (p : string) : bool :=
  bool_decide (take (length (str p)) s = str p).

Definition getStorageResponse (buf : Buf) : Verdict ResponseCode :=
  let pos := zlen (got buf) in
  if pos =? 8 then
    if byte_at (got buf) 0 =c? "S"%char then Answer R_STORED
    else if byte_at (got buf) 0 =c? "E"%char then Answer R_EXISTS
    else Again buf
  else if pos =? 11 then
    if byte_at (got buf) 4 =c? "F"%char then Answer R_NOT_FOUND else Again buf
  else if (pos =? 12) && (byte_at (got buf) 4 =c? "S"%char) then Answer R_NOT_STORED
  else if pos =? 12 then Throws (RuntimeException (got buf))
  else if 0 <? pos then
    let s := got buf in
    if starts_with s "CLIENT_ERROR" then Answer R_CLIENT_ERROR
    else if starts_with s "ERROR" then Answer R_ERROR
    else if starts_with s "SERVER_ERROR" then Answer R_SERVER_ERROR
    else Throws (RuntimeException s)
  else Again buf.

(** [getTouchResponse] and [getDeleteResponse] go by the length only. *)
Definition by_length (nine : ResponseCode) (buf : Buf) : Verdict ResponseCode :=
  let pos := zlen (got buf) in
  if pos =? 9 then Answer nine
  else if pos =? 11 then Answer R_NOT_FOUND
  else if 9 <? pos then Throws (RuntimeException (got buf))
  else Again buf.
Definition getTouchResponse : Buf -> Verdict ResponseCode := by_length R_TOUCHED.
Definition getDeleteResponse : Buf -> Verdict ResponseCode := by_length R_DELETED.

Definition getIncrDecrResponse (buf : Buf) : Verdict Counter :=
  let pos := zlen (got buf) in
  if pos =? 0 then Again buf
  else if negb (byte_at (got buf) (Z.to_nat (pos - 1)) =c? LF) then Again buf
  else if (pos =? 11) && (byte_at (got buf) 0 =c? "N"%char) then Answer (Code R_NOT_FOUND)
  else if byte_at (got buf) 0 =c? "C"%char then Answer (Code R_CLIENT_ERROR)
  else if pos - 2 <? 0 then Throws (NegativeArraySizeException (pos - 2))
  else match parseLong (take (Z.to_nat (pos - 2)) (got buf)) with
       | Some n => Answer (Number n)
       | None => Throws NumberFormatException
       end.

(** ** Retrieval responses *)

(** [s.split(" ")]: no empty strings at the end. *)
Fixpoint split_space (s : bytes) : list bytes :=
  match s with
  | [] => [[]]
  | c :: s =>
      if c =c? SP then [] :: split_space s
      else match split_space s with
           | w :: ws => (c :: w) :: ws
           | [] => [[c]]
           end
  end.
Fixpoint drop_empty (ws : list bytes) : list bytes :=
  match ws with
  | [] :: ws => drop_empty ws
  | _ => ws
  end.
Definition java_split (s : bytes) : list bytes :=
  match split_space s with
  | [w] => [w]
  | ws => rev (drop_empty (rev ws))
  end.

Definition word (ws : list bytes) (i : nat) : result bytes :=
  match ws !! i with Some w => Ok w | None => Throw ArrayIndexOutOfBoundsException end.
Definition parse_int (s : bytes) : result Z :=
  match parseInt s with Some v => Ok v | None => Throw NumberFormatException end.
Definition parse_long (s : bytes) : result Z :=
  match parseLong s with Some v => Ok v | None => Throw NumberFormatException end.

(** The loop [// search \r\n]: how far [newPos] is from [pos]. *)
Fixpoint crlf_end (l : bytes) : nat :=
  match l with
  | a :: ((b :: _) as l') => if (a =c? CR) && (b =c? LF) then 2 else Datatypes.S (crlf_end l')
  | _ => 1
  end.

(** [parseLine] on the bytes between position and limit: [None] at the end, or an
    item and the bytes after it. *)
Definition parseLine (l : bytes) : result (option (GetResult * bytes)) :=
  if zlen l =? 5 then
    if is_END l then Ok None else Throw (RuntimeException (str "malformed response"))
  else
    let n := crlf_end l in
    if Z.of_nat n - 2 <? 0 then Throw (NegativeArraySizeException (Z.of_nat n - 2))
    else
      let splits := java_split (take (n - 2) l) in
      let* key := word splits 1 in
      let* s := word splits 2 in
      let* flags := parse_int s in
      let* cas := (if decide (length splits = 5%nat)
                   then let* s := word splits 4 in let* c := parse_long s in Ok (Some c)
                   else Ok None) in
      let* s := word splits 3 in
      let* valueSize := parse_int s in
      if valueSize <? 0 then Throw (NegativeArraySizeException valueSize)
      else
        let rest := drop n l in
        if zlen rest <? valueSize + 2 then Throw BufferUnderflowException
        else
          let size := Z.to_nat valueSize in
          Ok (Some ({| g_key := key; g_value := take size rest; g_flags := flags; g_cas := cas |},
                    drop (size + 2) rest)).

(** The loop over [parseLine]; every item takes two bytes or more, so the length of
    the buffer is fuel enough. *)
Fixpoint parseLines (fuel : nat) (l : bytes) : result (list GetResult) :=
  match fuel with
  | O => OutOfFuel
  | Datatypes.S f =>
      let* one := parseLine l in
      match one with
      | None => Ok []
      | Some (one, l) => let* rs := parseLines f l in Ok (one :: rs)
      end
  end.

Definition getRetrievalResponse (buf : Buf) : Verdict (list GetResult) :=
  let pos := zlen (got buf) in
  if pos <? 5 then Again buf
  else if pos =? 5 then
    (* flip; compare; position(pos): the limit stays at 5 *)
    if is_END (got buf) then Answer [] else Again {| got := got buf; limit := pos |}
  else if negb (is_END (drop (Z.to_nat (pos - 5)) (got buf))) then Again buf
  else
    match parseLines (length (got buf) + 1) (got buf) with
    | Ok rs => Answer rs
    | Throw e => Throws e
    | SystemExit | OutOfFuel => Again buf
    end.

(** ** The read loop *)

(** [channel.read(buf)] when [n] bytes of [stream] have arrived: what is there and
    fits. *)
Definition read_into (n : nat) (stream : bytes) (buf : Buf) : Buf * bytes :=
  let n := Nat.min n (Z.to_nat (limit buf - zlen (got buf))) in
  ({| got := got buf ++ take n stream; limit := limit buf |}, drop n stream).

(** [do { channel.read(buf); } while ((response = get...(buf)) == null);] for as
    many reads as [arrivals] tells of; [Again] is a client that is still reading. *)
Fixpoint receive {A} (respond : Buf -> Verdict A) (arrivals : list nat) (stream : bytes) (buf : Buf) :
    Verdict A :=
  match arrivals with
  | [] => Again buf
  | n :: arrivals =>
      let '(buf, stream) := read_into n stream buf in
      match respond buf with
      | Again buf => receive respond arrivals stream buf
      | v => v
      end
  end.

(** ** [save] and [bgsave]

    They put their command behind what the buffer holds: they do not clear it first.
    [BufferOverflowException] if it does not fit below the limit. *)
Definition put_command (name : bytes) (buf : Buf) : result bytes :=
  let b := got buf ++ name ++ CRLF in
  if limit buf <? zlen b then Throw BufferOverflowException else Ok b.
Definition client_save : Buf -> result bytes := put_command (str "save").
Definition client_bgsave : Buf -> result bytes := put_command (str "bgsave").

(** [while (buf.position() == 0) channel.read(buf);], then the length decides. *)
Definition getLengthResponse (n : Z) (c : ResponseCode) (buf : Buf) : Verdict ResponseCode :=
  let pos := zlen (got buf) in
  if pos =? 0 then Again buf
  else if pos =? n then Answer c
  else if pos =? 14 then Answer R_SERVER_ERROR
  else Throws (RuntimeException (str "something wrong")).
Definition getSaveResponse : Buf -> Verdict ResponseCode := getLengthResponse 7 R_SAVED.
Definition getBgsaveResponse : Buf -> Verdict ResponseCode := getLengthResponse 4 R_OK.

End Responses.
