(* ===== verification/Protocol.v ===== *)
(** * The protocol: what a request means

    The abstract specification of the server, with no memory, buffers or
    parsing in it: a request transforms the store and has a reply.  The
    refinement theorems state that the worker thread implements it. *)

From S2P Require Import Prelude.
From S2P Require Import Memory.
From S2P Require Import Java.
From S2P Require Import CarrotCache.
From S2P Require Import Command.
From S2P Require Import Client.
From S2P Require Import World.
From S2P Require Import Execute.

(** The outcome of a request: the bytes delivered, the exception that ended it if
    one escaped, and the store. *)
Record Reply (S : Type) := { r_bytes : bytes; r_exn : option exn; r_store : S }.
Arguments r_bytes {S} _.
Arguments r_exn {S} _.
Arguments r_store {S} _.
Arguments Build_Reply {S} _ _ _.

Section Protocol.
Context {S item : Type}.
Context `{CarrotUtils} `{Memcached S item}.
(** [rec_render] of the writer, and the size of the output buffer. *)
Variable render : item -> bytes -> bool -> bytes.
Variable limit : Z.

Definition unless (noreply : bool) (l : bytes) : bytes := if noreply then [] else l.

Definition stored_text (r : OpResult) : bytes :=
  if decide (r = NOT_STORED) then c_NOT_STORED else c_STORED.
Definition cas_text (r : OpResult) : bytes :=
  match r with
  | EXISTS => c_EXISTS
  | NOT_FOUND => c_NOT_FOUND
  | NOT_STORED => c_NOT_STORED
  | _ => c_STORED
  end.

Definition store_op (v : StorageVerb) (s : S) (key val : bytes) (f e c : Z) : OpResult * S :=
  match v with
  | SET => mc_set s key val f e
  | ADD => mc_add s key val f e
  | REPLACE => mc_replace s key val f e
  | APPEND => mc_append s key val f e
  | PREPEND => mc_prepend s key val f e
  | CAS => mc_cas s key val f e c
  end.

Definition fetch_op (v : RetrievalVerb) (e : Z) (s : S) (key : bytes) : option item * S :=
  match v with
  | GET => mc_get s key
  | GETS => mc_gets s key
  | GAT => mc_gat s key e
  | GATS => mc_gats s key e
  end.

(** The items of the keys found, in the order of the request, and the final
    [END]; an item that the output buffer cannot hold ends it. *)
Fixpoint gather (fetch : S -> bytes -> option item * S) (withCAS : bool) (keys : list bytes)
    (s : S) : Reply S :=
  match keys with
  | [] => Build_Reply c_END None s
  | k :: keys =>
      let '(r, s) := fetch s k in
      match r with
      | None => gather fetch withCAS keys s
      | Some i =>
          let b := render i k withCAS in
          if limit <? zlen b + 5 then Build_Reply [] (Some BufferOverflowException) s
          else let r := gather fetch withCAS keys s in
               Build_Reply (b ++ r_bytes r) (r_exn r) (r_store r)
      end
  end.

(** The answer to an exception of [incr] or [decr]; [None] when it escapes. *)
Definition arith_error (e : exn) : option bytes :=
  match e with
  | NumberFormatException => Some NUMBER_FORMAT_ERROR
  | IllegalArgumentException msg | IllegalFormatException msg | UnsupportedCommand msg =>
      Some (CLIENT_ERROR ++ msg ++ CRLF)
  | _ => None
  end.

Definition arith (r : exn + Z) (noreply : bool) (s : S) : Reply S :=
  match r with
  | inr v =>
      Build_Reply (unless noreply (if v <? 0 then c_NOT_FOUND else longToStrDirect v ++ CRLF)) None s
  | inl e =>
      match arith_error e with
      | Some msg => Build_Reply (unless noreply msg) None s
      | None => Build_Reply [] (Some e) s
      end
  end.

Definition respond (r : Request) (s : S) : Reply S :=
  match r with
  | RStore v key val f e nr c =>
      let '(o, s) := store_op v s key val (to_int f) e c in
      Build_Reply (unless nr (match v with CAS => cas_text o | _ => stored_text o end)) None s
  | RGet v e keys =>
      gather (fetch_op v e) (r_isCAS (new_RetrievalCommand v)) keys s
  | RIncr key v nr => let '(r, s) := mc_incr s key v in arith r nr s
  | RDecr key v nr => let '(r, s) := mc_decr s key v in arith r nr s
  | RTouch key e nr =>
      let '(t, s) := mc_touch s key e in
      Build_Reply (unless nr (if t <? 0 then c_NOT_FOUND else c_TOUCHED)) None s
  | RDelete key nr =>
      let '(o, s) := mc_delete s key in
      Build_Reply (unless nr (if decide (o = DELETED) then c_DELETED else c_NOT_FOUND)) None s
  end.

(** A pipeline of requests; an escaped exception ends it. *)
Fixpoint respond_all (rs : list Request) (s : S) : Reply S :=
  match rs with
  | [] => Build_Reply [] None s
  | r :: rs =>
      let a := respond r s in
      match r_exn a with
      | Some _ => a
      | None => let b := respond_all rs (r_store a) in
                Build_Reply (r_bytes a ++ r_bytes b) (r_exn b) (r_store b)
      end
  end.

(** The output buffer holds what a counter command answers: digits, or the text of
    an exception, both of which come from the store.  (A retrieval flushes when it
    needs to, and every other reply is at most 12 bytes long.) *)
Definition reply_fits (r : Request) (s : S) : Prop :=
  match r with
  | RIncr _ _ _ | RDecr _ _ _ => zlen (r_bytes (respond r s)) <= limit
  | _ => True
  end.

Fixpoint replies_fit (rs : list Request) (s : S) : Prop :=
  match rs with
  | [] => True
  | r :: rs => reply_fits r s /\
      (r_exn (respond r s) = None -> replies_fit rs (r_store (respond r s)))
  end.

End Protocol.

(** The requests of [rs] whose bytes are all among the first [n] of the stream. *)
Fixpoint complete (n : Z) (rs : list Request) : list Request :=
  match rs with
  | [] => []
  | r :: rs => if zlen (encode r) <=? n then r :: complete (n - zlen (encode r)) rs else []
  end.
