(* ===== verification/ParseCorrect.v ===== *)
(** * The parser accepts what the client sends

    For every well-formed request: [CommandParser.parse] on a buffer whose first
    [n] bytes are a prefix or an extension of the request's bytes returns [null]
    exactly while the request is incomplete, and otherwise the command with the
    fields the client passed and the exact number of bytes consumed. *)

From S2P Require Import Prelude.
From S2P Require Import Memory.
From S2P Require Import Java.
From S2P Require Import CarrotCache.
From S2P Require Import Utils.
From S2P Require Import Command.
From S2P Require Import CommandParse.
From S2P Require Import CommandParser.
From S2P Require Import Client.

(** ** What a request should parse to *)

(** Addresses of the keys of a retrieval command, the first at [p]. *)
Fixpoint key_addrs (p : Z) (keys : list bytes) : list Z :=
  match keys with
  | [] => []
  | k :: keys => p :: key_addrs (p + zlen k + 1) keys
  end.

Definition verb_name (v : StorageVerb) : bytes :=
  match v with
  | SET => str "set" | ADD => str "add" | REPLACE => str "replace"
  | APPEND => str "append" | PREPEND => str "prepend" | CAS => str "cas"
  end.

(** The line of a storage command after its name, up to the line end. *)
Definition store_line (v : StorageVerb) (key : bytes) (flags expire len : Z) (cas : Z)
    (noreply : bool) : bytes :=
  key ++ SP :: Long_toString flags ++ SP :: Long_toString expire ++ SP :: Long_toString len
    ++ (match v with CAS => SP :: Long_toString cas | _ => [] end) ++ put_noreply noreply.

(** The command a request at address [p] denotes. *)
Definition command_of (r : Request) (p : Z) : MemcachedCommand :=
  match r with
  | RStore v k val f e nr c =>
      let a := p + zlen (verb_name v) + 1 in
      let line := store_line v k f e (zlen val) c nr in
      StorageCommand v {|
        keyPtr := a; keySize := zlen k; valPtr := a + zlen line + 2; valSize := zlen val;
        flags := f; exptime := e; cas := match v with CAS => c | _ => 0 end; value := 0;
        noreply := nr; isCAS := isCAS (new_StorageCommand v);
        consumed := zlen line + 2 + zlen val + 2 |}
  | RGet v e ks =>
      let t := r_isTouch (new_RetrievalCommand v) in
      let hd := if t then zlen (Long_toString e) + 1 else 0 in
      let name := match v with GET | GAT => 3 | _ => 4 end in
      RetrievalCommand v {|
        r_exptime := if t then e else 0; r_isCAS := r_isCAS (new_RetrievalCommand v);
        r_isTouch := t; r_keys := key_addrs (p + name + 1 + hd) ks; r_keySizes := zlen <$> ks;
        r_consumed := hd + zlen (put_keys ks) + 2 |}
  | RIncr k v nr | RDecr k v nr =>
      (match r with RIncr _ _ _ => INCR | _ => DECR end) {|
        keyPtr := p + 5; keySize := zlen k; valPtr := 0; valSize := 0; flags := 0;
        exptime := 0; cas := 0; value := v; noreply := nr; isCAS := false;
        consumed := zlen k + 1 + zlen (Long_toString v) + zlen (put_noreply nr) + 2 |}
  | RTouch k e nr =>
      TOUCH {|
        keyPtr := p + 6; keySize := zlen k; valPtr := 0; valSize := 0; flags := 0;
        exptime := e; cas := 0; value := 0; noreply := nr; isCAS := false;
        consumed := zlen k + 1 + zlen (Long_toString e) + zlen (put_noreply nr) + 2 |}
  | RDelete k nr =>
      DELETE {|
        keyPtr := p + 7; keySize := zlen k; valPtr := 0; valSize := 0; flags := 0;
        exptime := 0; cas := 0; value := 0; noreply := nr; isCAS := false;
        consumed := zlen k + zlen (put_noreply nr) + 2 |}
  end.

(** ** Tokens *)

Definition token (t : bytes) : Prop := t <> [] /\ Forall plain t.

Lemma key_token k : key_ok k -> token k.
Proof. done. Qed.
Lemma num_token v : token (Long_toString v).
Proof.
  split; [apply Long_toString_ne|]. eapply Forall_impl; [|apply Long_toString_chars].
  intros c Hc%num_char_plain. unfold plain. tauto.
Qed.
Lemma noreply_token : token NOREPLY.
Proof. split; [done|]. by repeat (constructor; [split; done|]). Qed.
#[export] Hint Resolve key_token num_token noreply_token : mc.

Lemma token_pos t : token t -> 0 < zlen t.
Proof. intros [? _]. by apply zlen_pos. Qed.

Lemma token_hd t k : token t -> exists c t', t ++ k = c :: t' ++ k /\ t = c :: t' /\ c <> SP.
Proof.
  intros [Hne Hp]. destruct t as [|c t]; [done|].
  inversion Hp as [|? ? [Hc _] _]; subst. by exists c, t.
Qed.

(** ** Driving the scanners *)

Section Correct.
Context {mem : Type} `{UnsafeAccess mem} `{CarrotUtilsLaws}.
Implicit Types (m : mem) (l k : bytes).

Lemma tokEnd m p n t c k :
  view m p n (t ++ c :: k) -> token t -> sep c -> 0 <= n ->
  nextTokenEnd m p n = if zlen t <? n then zlen t else -1.
Proof. intros V [_ Ht]. by apply (nextTokenEnd_view m p n t c k). Qed.

Lemma tokStart m p n t k :
  view m p n (SP :: t ++ k) -> token t -> 0 <= n ->
  nextTokenStart m p n = if 1 <? n then 1 else -1.
Proof.
  intros V Ht. destruct (token_hd t k Ht) as (c & t' & E & _ & Hc). rewrite E in V.
  by apply (nextTokenStart_space m p n c (t' ++ k)).
Qed.

Lemma getLong_num m p n v k len :
  view m p n (Long_toString v ++ k) -> zlen (Long_toString v) <= n -> in_long v ->
  len = zlen (Long_toString v) -> getLong m p len = Ok v.
Proof.
  intros V Hn Hv ->. apply view_app in V as [V _]. unfold getLong.
  rewrite (bytes_at_view m p n) by done. by rewrite strToLong_print.
Qed.

Lemma skip_crlf_view msg m p n e k :
  view m (p + e) (n - e) (CR :: LF :: k) -> 0 <= e <= n ->
  skip_crlf msg m p n e = if n - e <? 2 then Ok None else Ok (Some (e + 2)).
Proof.
  intros V He. apply view_cons in V as [V1 V]. apply view_cons in V as [V2 _].
  unfold skip_crlf. repeat zcase; [done|].
  rewrite V1 by lia. replace (p + (e + 1)) with (p + e + 1) by lia.
  rewrite V2 by lia. cbn. do 2 f_equal. lia.
Qed.

Lemma is_cmd_bytes m p len s t :
  bytes_at m p len = str s -> is_cmd m p len t = bool_decide (str s = str t).
Proof.
  intros E. unfold is_cmd. rewrite E.
  destruct (Z.eqb_spec (compareTo (str s) (str t)) 0) as [C|C]; rewrite compareTo_eq in C;
    [by rewrite bool_decide_true | by rewrite bool_decide_false].
Qed.

Lemma view_line_end m p n l k :
  view m p n (l ++ CRLF ++ k) -> view m p n (l ++ CR :: LF :: k).
Proof. done. Qed.

(** [// check noreply] and the line end, in one go. *)
Lemma parse_tail_view msg m p n e nr k :
  view m (p + e) (n - e) (put_noreply nr ++ CR :: LF :: k) -> 0 <= e <= n ->
  parse_tail msg m p n e =
    if n - e <? zlen (put_noreply nr) + 2 then Ok None
    else Ok (Some (nr, e + zlen (put_noreply nr) + 2)).
Proof.
  intros V He. unfold parse_tail. destruct nr; cbn [put_noreply app SPACE] in *.
  - change (zlen (SP :: NOREPLY)) with 8.
    rewrite (tokStart _ _ _ NOREPLY (CR :: LF :: k)) by (try done; auto with mc; lia).
    destruct (Z.ltb_spec 1 (n - e)); cbn [Z.ltb Z.compare]; [|by zcase].
    apply view_cons in V as [_ V].
    assert (Hn : toByte m (p + (1 + e)) = "n"%char).
    { apply view_cons in V as [V _]. rewrite <- V by lia. f_equal. lia. }
    rewrite Hn, eqb_char_refl. cbn [andb].
    destruct (Z.leb_spec 9 (n - (1 + e))); [|by zcase].
    replace (p + (1 + e)) with (p + e + 1) by lia. apply view_app in V as [V1 V2].
    change 7 with (zlen NOREPLY) at 1. rewrite (bytes_at_view _ _ (n - e - 1)) by (try done; change (zlen NOREPLY) with 7; lia).
    rewrite (proj2 (compareTo_eq NOREPLY NOREPLY) eq_refl). cbn [Z.eqb].
    rewrite (skip_crlf_view _ _ _ _ _ k).
    + change (zlen NOREPLY) with 7 in *. repeat zcase. cbn. do 3 f_equal. lia.
    + change (zlen NOREPLY) with 7 in *.
      replace (p + (1 + e + 7)) with (p + e + 1 + 7) by lia.
      by replace (n - (1 + e + 7)) with (n - e - 1 - 7) by lia.
    + lia.
  - change (zlen []) with 0.
    rewrite (nextTokenStart_here _ _ _ CR (LF :: k)) by (done || lia).
    destruct (Z.ltb_spec 0 (n - e)); cbn [Z.ltb Z.compare]; [|by zcase].
    rewrite Z.add_0_l. pose proof V as V'. apply view_cons in V' as [Hc _].
    rewrite Hc by lia. cbn [andb Ascii.eqb Bool.eqb CR].
    rewrite (skip_crlf_view _ _ _ _ _ k) by (done || lia).
    repeat zcase; cbn; [done|]. do 3 f_equal. lia.
Qed.

(** The scanner lemmas up to equal addresses, as the parse methods use them. *)
Lemma tokEnd_at m p n p' n' t c k :
  view m p n (t ++ c :: k) -> p' = p -> n' = n -> token t -> sep c -> 0 <= n ->
  nextTokenEnd m p' n' = if zlen t <? n then zlen t else -1.
Proof. intros V -> ->. by apply tokEnd with (k := k). Qed.

Lemma tokStart_at m p n p' n' t k :
  view m p n (SP :: t ++ k) -> p' = p -> n' = n -> token t -> 0 <= n ->
  nextTokenStart m p' n' = if 1 <? n then 1 else -1.
Proof. intros V -> ->. by apply tokStart with (k := k). Qed.

Lemma view_at m p n p' n' l : view m p n l -> p' = p -> n' = n -> view m p' n' l.
Proof. by intros V -> ->. Qed.

Lemma tail_sep nr k : exists c k', put_noreply nr ++ CR :: k = c :: k' /\ sep c.
Proof.
  destruct nr; cbn [put_noreply SPACE app];
    [exists SP, (NOREPLY ++ CR :: k); split; [done | by left]
    | exists CR, k; split; [done | by right]].
Qed.

(** [view] of a token and what follows it, split at the token. *)
Lemma view_tok m p n t k :
  view m p n (t ++ k) -> view m (p + zlen t) (n - zlen t) k.
Proof. intros V. by apply view_app in V as [_ V]. Qed.
Lemma view_sp m p n c k : view m p n (c :: k) -> view m (p + 1) (n - 1) k.
Proof. intros V. by apply view_cons in V as [_ V]. Qed.

End Correct.

(** [side] discharges the side conditions of the scanner lemmas; [short] closes
    the branch where the request is incomplete, [record_eq] the one where it is
    complete; [step_end] and [step_start] run one scanner. *)
Ltac side :=
  try assumption; try (by left); try (by right);
  try solve [auto with mc]; try zlia.
Ltac view_at V := eapply view_at; [exact V | lia | lia].
Ltac short := cbn; rewrite (proj2 (Z.ltb_lt _ _)) by zlia; reflexivity.
Ltac record_eq := do 2 f_equal; f_equal; zlia.
Ltac step_end V t c :=
  rewrite (tokEnd_at _ _ _ _ _ t c _ V) by side;
  lazymatch goal with |- context [zlen t <? ?n] => destruct (Z.ltb_spec (zlen t) n) end;
  [|try short];
  try (destruct (Z.leb_spec (zlen t) 0); [exfalso; pose proof (token_pos t ltac:(side)); lia|]).
Ltac step_start V t :=
  rewrite (tokStart_at _ _ _ _ _ t _ V) by side;
  lazymatch goal with |- context [1 <? ?n] => destruct (Z.ltb_spec 1 n) end;
  [cbn [Z.leb Z.compare Z.eqb Z.ltb Pos.eqb throwIfNotEquals rbind]|try short].

Section Commands.
Context {mem : Type} `{UnsafeAccess mem} `{CarrotUtilsLaws}.
Implicit Types (m : mem) (l k : bytes).

Lemma DELETE_parse_view this m p n key nr k :
  view m p n (key ++ put_noreply nr ++ CR :: LF :: k) -> key_ok key -> 0 <= n ->
  DELETE_parse this m p n =
    if n <? zlen key + zlen (put_noreply nr) + 2 then Ok None
    else Ok (Some {|
      keyPtr := p; keySize := zlen key; valPtr := valPtr this; valSize := valSize this;
      flags := flags this; exptime := exptime this; cas := cas this; value := value this;
      noreply := nr; isCAS := isCAS this;
      consumed := zlen key + zlen (put_noreply nr) + 2 |}).
Proof.
  intros V Hk Hn. pose proof (view_tok _ _ _ _ _ V) as V1.
  destruct (tail_sep nr (LF :: k)) as (c & k' & E & Hc). rewrite E in V.
  unfold DELETE_parse. step_end V key c.
  rewrite (parse_tail_view _ _ _ _ _ nr k) by (rewrite ?Z.add_0_r; side).
  repeat zcase; cbn [rbind]; [done|]. record_eq.
Qed.

(** Reading the number of which the whole is in view. *)
Lemma getLong_at m p n p' v k len :
  view m p n (Long_toString v ++ k) -> p' = p -> zlen (Long_toString v) <= n -> in_long v ->
  len = zlen (Long_toString v) -> getLong m p' len = Ok v.
Proof. intros V ->. by apply (getLong_num m p n v k). Qed.

Lemma INCR_parse_view this m p n key v nr k :
  view m p n (key ++ SP :: Long_toString v ++ put_noreply nr ++ CR :: LF :: k) ->
  key_ok key -> in_long v -> 0 <= n ->
  let len := zlen key + 1 + zlen (Long_toString v) + zlen (put_noreply nr) + 2 in
  INCR_parse this m p n =
    if n <? len then Ok None
    else Ok (Some {|
      keyPtr := p; keySize := zlen key; valPtr := valPtr this; valSize := valSize this;
      flags := flags this; exptime := exptime this; cas := cas this; value := v;
      noreply := nr; isCAS := isCAS this; consumed := len |}).
Proof.
  intros V Hk Hv Hn len. subst len.
  pose proof (view_tok _ _ _ _ _ V) as V1. pose proof (view_sp _ _ _ _ _ V1) as V2.
  pose proof (view_tok _ _ _ _ _ V2) as V3. pose proof (zlen_toString_pos v).
  destruct (tail_sep nr (LF :: k)) as (c & k' & E & Hc).
  unfold INCR_parse. step_end V key SP. step_start V1 (Long_toString v).
  rewrite E in V2. step_end V2 (Long_toString v) c.
  rewrite (getLong_at _ _ _ _ v _ _ V2) by side. cbn [rbind].
  rewrite (parse_tail_view _ _ _ _ _ nr k) by (first [lia | view_at V3]).
  repeat zcase; cbn [rbind]; [done|]. cbn [catch_nfe]. record_eq.
Qed.

Lemma TOUCH_parse_view this m p n key v nr k :
  view m p n (key ++ SP :: Long_toString v ++ put_noreply nr ++ CR :: LF :: k) ->
  key_ok key -> in_long v -> 0 <= n ->
  let len := zlen key + 1 + zlen (Long_toString v) + zlen (put_noreply nr) + 2 in
  TOUCH_parse this m p n =
    if n <? len then Ok None
    else Ok (Some {|
      keyPtr := p; keySize := zlen key; valPtr := valPtr this; valSize := valSize this;
      flags := flags this; exptime := v; cas := cas this; value := value this;
      noreply := nr; isCAS := isCAS this; consumed := len |}).
Proof.
  intros V Hk Hv Hn len. subst len.
  pose proof (view_tok _ _ _ _ _ V) as V1. pose proof (view_sp _ _ _ _ _ V1) as V2.
  pose proof (view_tok _ _ _ _ _ V2) as V3. pose proof (zlen_toString_pos v).
  destruct (tail_sep nr (LF :: k)) as (c & k' & E & Hc).
  unfold TOUCH_parse. step_end V key SP. step_start V1 (Long_toString v).
  rewrite E in V2. step_end V2 (Long_toString v) c.
  rewrite (getLong_at _ _ _ _ v _ _ V2) by side. cbn [rbind].
  rewrite (parse_tail_view _ _ _ _ _ nr k) by (first [lia | view_at V3]).
  repeat zcase; cbn [rbind]; [done|]. cbn [catch_nfe]. record_eq.
Qed.

(** The first token of a storage command is scanned even when it is incomplete:
    the code then reads the space before the buffer, and gives up one step later. *)
Lemma tokStart_back m p n key k :
  view m (p - 1) (n + 1) (SP :: key ++ k) -> token key -> 0 < n ->
  nextTokenStart m (p + -1) (n - -1) = 1.
Proof.
  intros V Hk Hn. rewrite (tokStart_at m (p - 1) (n + 1) _ _ key k V) by side. by zcase.
Qed.

Lemma number_field_view {A} m p n e v c k msg (kont : Z -> Z -> result (option A)) r :
  view m (p + e) (n - e) (SP :: Long_toString v ++ c :: k) -> sep c -> in_long v -> 0 <= e <= n ->
  (let e' := e + 1 + zlen (Long_toString v) in e' < n -> kont v e' = r) ->
  (n <= e + 1 + zlen (Long_toString v) -> r = Ok None) ->
  number_field msg m p n e kont = r.
Proof.
  intros V Hc Hv He Hk Hr. pose proof (view_sp _ _ _ _ _ V) as V2.
  pose proof (zlen_toString_pos v). unfold number_field. cbv zeta in *.
  rewrite (tokStart_at _ _ _ _ _ (Long_toString v) _ V) by side.
  destruct (Z.ltb_spec 1 (n - e));
    cbn [Z.leb Z.compare Z.eqb Z.ltb Pos.eqb throwIfNotEquals rbind]; [|symmetry; apply Hr; lia].
  rewrite (tokEnd_at _ _ _ _ _ (Long_toString v) c _ V2) by side.
  destruct (Z.ltb_spec (zlen (Long_toString v)) (n - e - 1)); [|symmetry; apply Hr; lia].
  destruct (Z.leb_spec (zlen (Long_toString v)) 0); [lia|].
  rewrite (getLong_at _ _ _ _ v _ _ V2) by side. cbn [rbind].
  rewrite <- Hk by lia. f_equal. lia.
Qed.

Lemma catch_nfe_ok {A} (r r' : result A) e :
  r = r' -> r' <> Throw NumberFormatException -> catch_nfe r e = r'.
Proof. intros -> Hr. by destruct r' as [|[]| |]. Qed.

Lemma storage_finish_view this m p n ks f e val c end_ nr k :
  view m (p + end_) (n - end_) (put_noreply nr ++ CR :: LF :: val ++ k) -> 0 <= end_ <= n ->
  let end' := end_ + zlen (put_noreply nr) + 2 in
  storage_finish this m p n ks f e (zlen val) c end_ =
    if n <? end' + zlen val + 2 then Ok None
    else Ok (Some {|
      keyPtr := p; keySize := ks; valPtr := p + end'; valSize := zlen val; flags := f;
      exptime := e; cas := c; value := value this; noreply := nr; isCAS := isCAS this;
      consumed := end' + zlen val + 2 |}).
Proof.
  intros V He end'. subst end'. unfold storage_finish.
  rewrite (parse_tail_view _ _ _ _ _ nr (val ++ k)) by done.
  destruct (Z.ltb_spec (n - end_) (zlen (put_noreply nr) + 2)); cbn [rbind]; [by zcase|].
  repeat zcase; [done|]. record_eq.
Qed.

(** What can follow the length field starts with a separator. *)
Lemma store_tail_sep v c nr k :
  exists x k', (match v with CAS => SP :: Long_toString c | _ => [] end) ++ put_noreply nr
    ++ CR :: k = x :: k' /\ sep x.
Proof.
  destruct v; cbn [app]; try apply tail_sep.
  eexists _, _. split; [reflexivity | by left].
Qed.

Lemma in_long_small z : 0 <= z <= 4294967295 -> in_long z.
Proof. unfold in_long. lia. Qed.

Lemma StorageCommand_parse_view v m p n key f e val c nr k :
  view m (p - 1) (n + 1) (SP :: store_line v key f e (zlen val) c nr ++ CR :: LF :: val ++ k) ->
  key_ok key -> 0 <= f <= 4294967295 -> in_long e -> in_long c -> zlen val <= INT_MAX -> 0 < n ->
  let len := zlen (store_line v key f e (zlen val) c nr) in
  StorageCommand_parse (new_StorageCommand v) m p n =
    if n <? len + 2 + zlen val + 2 then Ok None
    else Ok (Some {|
      keyPtr := p; keySize := zlen key; valPtr := p + len + 2; valSize := zlen val;
      flags := f; exptime := e; cas := match v with CAS => c | _ => 0 end; value := 0;
      noreply := nr; isCAS := isCAS (new_StorageCommand v); consumed := len + 2 + zlen val + 2 |}).
Proof.
  intros V Hk Hf He Hc Hval Hn len.
  assert (Hlen : len = zlen key + 1 + zlen (Long_toString f) + 1 + zlen (Long_toString e) + 1
    + zlen (Long_toString (zlen val))
    + zlen (match v with CAS => SP :: Long_toString c | _ => [] end) + zlen (put_noreply nr))
    by (subst len; unfold store_line; zlia).
  clearbody len. unfold store_line in V. repeat (rewrite <- app_assoc in V; cbn [app] in V).
  destruct (store_tail_sep v c nr (LF :: val ++ k)) as (x & k' & E & Hx).
  unfold StorageCommand_parse.
  apply catch_nfe_ok; [cbv zeta | by destruct (_ <? _)].
  pose proof (view_sp _ _ _ _ _ V) as V0.
  replace (p - 1 + 1) with p in V0 by lia. replace (n + 1 - 1) with n in V0 by lia.
  pose proof (view_tok _ _ _ _ _ V0) as V1.
  pose proof (view_tok _ _ _ _ _ (view_sp _ _ _ _ _ V1)) as V2.
  pose proof (view_tok _ _ _ _ _ (view_sp _ _ _ _ _ V2)) as V3.
  pose proof (view_tok _ _ _ _ _ (view_sp _ _ _ _ _ V3)) as V4.
  pose proof (zlen_nonneg val). pose proof (zlen_nonneg (put_noreply nr)).
  pose proof (zlen_nonneg (match v with CAS => SP :: Long_toString c | _ => [] end)).
  rewrite Z.add_0_r, Z.sub_0_r, (tokEnd_at _ _ _ _ _ key SP _ V0) by side.
  destruct (Z.ltb_spec (zlen key) n).
  2:{ unfold number_field. rewrite (tokStart_back m p n key _ V) by side. cbn.
      rewrite (tokEnd_at _ _ _ _ _ key SP _ V0) by side.
      rewrite (proj2 (Z.ltb_ge _ _)) by lia. short. }
  cbv iota. eapply number_field_view; [view_at V1|by left|by apply in_long_small|zlia|intros e1 He1|intros; short].
  rewrite Z.gtb_ltb, (proj2 (Z.ltb_ge 4294967295 f)), (proj2 (Z.ltb_ge f 0)) by lia. cbn [orb].
  eapply number_field_view; [view_at V2|by left|done|zlia|intros e2 He2|intros; short].
  rewrite E in V3.
  eapply number_field_view; [view_at V3|done|apply in_long_small; unfold INT_MAX in *; lia|zlia|
    intros e3 He3|intros; short].
  rewrite Z.gtb_ltb, (proj2 (Z.ltb_ge INT_MAX (zlen val))), (proj2 (Z.ltb_ge (zlen val) 0)) by lia.
  cbn [orb]. rewrite to_int_id by (unfold in_int; lia).
    pose proof (zlen_nonneg key). subst e1 e2 e3.
  destruct (decide (v = CAS)) as [->|Hv].
  - cbn [app] in V4. destruct (tail_sep nr (LF :: val ++ k)) as (y & k2 & E2 & Hy).
    pose proof (view_tok _ _ _ _ _ (view_sp _ _ _ _ _ V4)) as V5. rewrite E2 in V4.
    pose proof (zlen_toString_pos c). rewrite zlen_cons in Hlen. cbn [isCAS new_StorageCommand new_Abstract].
    eapply number_field_view; [view_at V4|done|done|zlia|intros e4 He4|intros; short].
    subst e4. rewrite (storage_finish_view _ _ _ _ _ _ _ _ _ _ nr k) by first [view_at V5 | zlia].
    repeat zcase; [done|]. record_eq.
  - replace (isCAS _) with false by (by destruct v).
    assert (Hm : (match v with CAS => SP :: Long_toString c | _ => [] end) = []) by (by destruct v).
    rewrite Hm in *. cbn [app] in V4. change (zlen []) with 0 in *.
    rewrite (storage_finish_view _ _ _ _ _ _ _ _ _ _ nr k) by first [view_at V4 | zlia].
    replace (cas (new_StorageCommand v)) with 0 by (by destruct v).
    replace (match v with CAS => c | _ => 0 end) with 0 by (by destruct v).
    replace (isCAS _) with false by (by destruct v).
    replace (value _) with 0 by (by destruct v).
    repeat zcase; [done|]. record_eq.
Qed.

End Commands.

(** ** Retrieval commands *)

(** The rest of a list of tokens, each with the space before it. *)
Definition more (ts : list bytes) : bytes :=
  match ts with [] => [] | _ => SP :: put_keys ts end.

Lemma put_keys_cons t ts : put_keys (t :: ts) = t ++ more ts.
Proof. destruct ts; [by rewrite app_nil_r | done]. Qed.
Lemma more_cons t ts : more (t :: ts) = SP :: t ++ more ts.
Proof. unfold more at 1. by rewrite put_keys_cons. Qed.

Lemma more_sep ts k : exists c k', more ts ++ CR :: k = c :: k' /\ sep c.
Proof.
  destruct ts; [exists CR, k; split; [done | by right]|].
  eexists SP, _. split; [reflexivity | by left].
Qed.

Section Keys.
Context {mem : Type} `{UnsafeAccess mem} `{CarrotUtilsLaws}.
Implicit Types (m : mem) (l k : bytes) (ts : list bytes).

Lemma countKeys_more m p n k ts fuel count e :
  view m (p + e) (n - e) (more ts ++ CR :: LF :: k) -> Forall token ts -> 0 <= e < n ->
  n - e < Z.of_nat fuel ->
  countKeys fuel m p n count e =
    if e + zlen (more ts) <? n then count + zlen ts else -1.
Proof.
  revert fuel count e. induction ts as [|t ts IH]; intros fuel count e V Ht He Hf;
    (destruct fuel as [|fuel]; [lia|]); cbn [countKeys].
  - cbn [more app] in V. apply view_cons in V as [Hc _]. rewrite Hc by lia. cbn.
    repeat zcase. zlia.
  - rewrite more_cons in *. cbn [app] in V. rewrite <- app_assoc in V.
    inversion Ht as [|? ? Ht1 Ht2]; subst.
    pose proof V as Vc. apply view_cons in Vc as [Hc V2]. rewrite Hc by lia.
    destruct (more_sep ts (LF :: k)) as (c & k' & E & Hsep).
    pose proof (token_pos t Ht1). pose proof (zlen_nonneg (more ts)).
    rewrite (proj2 (Z.ltb_lt e n)) by lia. cbn [negb andb Ascii.eqb Bool.eqb SP CR].
    rewrite (tokStart_at _ _ _ _ _ t _ V) by side. rewrite E in V2.
    destruct (Z.ltb_spec 1 (n - e)); cbn [Z.ltb Z.compare]; [|repeat zcase; done].
    rewrite (tokEnd_at _ _ _ _ _ t c _ V2) by side.
    destruct (Z.ltb_spec (zlen t) (n - e - 1)); cbn [Z.ltb Z.compare]; [|repeat zcase; done].
    do 2 zcase. rewrite <- E in V2. apply view_tok in V2.
    rewrite IH by (try done; try lia; view_at V2).
    rewrite !zlen_cons, zlen_app. repeat zcase; lia.
Qed.

Lemma calculateNumberOfKeys_view m p n k ts :
  view m p n (put_keys ts ++ CR :: LF :: k) -> Forall token ts -> ts <> [] -> 0 < n ->
  calculateNumberOfKeys m p n = if zlen (put_keys ts) <? n then zlen ts else -1.
Proof.
  intros V Ht Hne Hn. destruct ts as [|t ts]; [done|]. clear Hne.
  rewrite put_keys_cons in *. rewrite <- app_assoc in V.
  inversion Ht as [|? ? Ht1 Ht2]; subst.
  destruct (more_sep ts (LF :: k)) as (c & k' & E & Hsep).
  destruct (token_hd t (more ts ++ CR :: LF :: k) Ht1) as (x & t' & E1 & -> & Hx).
  unfold calculateNumberOfKeys. rewrite Nat.add_comm. cbn [Nat.add countKeys].
  pose proof (zlen_nonneg (more ts)). pose proof (token_pos _ Ht1).
  assert (Hcr : x <> CR) by (destruct Ht1 as [_ F]; inversion F as [|? ? [_ ?]]; done).
  rewrite Z.add_0_r, Z.sub_0_r. pose proof V as Vx. apply view_cons in Vx as [Hc _].
  rewrite Hc, (proj2 (eqb_char_false x CR) Hcr), (proj2 (Z.ltb_lt 0 n)) by lia. cbn [negb andb].
  rewrite (nextTokenStart_here m p n x _ V) by (done || lia).
  rewrite (proj2 (Z.ltb_lt 0 n)) by lia. cbn [Z.ltb Z.compare]. rewrite E in V.
  rewrite (tokEnd_at _ _ _ _ _ (x :: t') c _ V) by side.
  destruct (Z.ltb_spec (zlen (x :: t')) n); cbn [Z.ltb Z.compare];
    [|by rewrite zlen_app, (proj2 (Z.ltb_ge _ _)) by lia].
  do 2 zcase. rewrite <- E in V. apply view_tok in V.
  rewrite (countKeys_more m p n k ts) by (try done; try zlia; first [view_at V | lia]).
  rewrite zlen_app. repeat zcase; zlia.
Qed.

Lemma readKeys_more m p n k ts first e :
  view m (p + e) (n - e) (more ts ++ CR :: LF :: k) -> Forall token ts ->
  0 <= e -> e + zlen (more ts) < n ->
  readKeys (length ts) first m p n e =
    Ok (Some (key_addrs (p + e + 1) ts, zlen <$> ts, e + zlen (more ts))).
Proof.
  revert first e. induction ts as [|t ts IH]; intros first e V Ht He Hn; cbn [length readKeys].
  - cbn. do 4 f_equal. zlia.
  - rewrite more_cons in *. cbn [app] in V. rewrite <- app_assoc in V.
    inversion Ht as [|? ? Ht1 Ht2]; subst.
    destruct (more_sep ts (LF :: k)) as (c & k' & E & Hsep).
    pose proof (token_pos t Ht1). pose proof (zlen_nonneg (more ts)). zlen_norm.
    pose proof (view_sp _ _ _ _ _ V) as V2.
    rewrite (tokStart_at _ _ _ _ _ t _ V) by side.
    rewrite (proj2 (Z.ltb_lt 1 (n - e))) by lia. cbn [Z.ltb Z.compare throwIfNotEquals Z.eqb Pos.eqb].
    replace (rbind (if first then Ok tt else Ok tt)) with (rbind (A := unit) (B := option (list Z * list Z * Z)) (Ok tt))
      by (by destruct first). cbn [rbind].
    rewrite E in V2. rewrite (tokEnd_at _ _ _ _ _ t c _ V2) by side.
    rewrite (proj2 (Z.ltb_lt (zlen t) (n - e - 1))), (proj2 (Z.ltb_ge (zlen t) 0)) by lia.
    unfold throwIfEquals. rewrite (proj2 (Z.eqb_neq (zlen t) 0)) by lia. cbn [rbind].
    rewrite <- E in V2. apply view_tok in V2.
    rewrite IH by (try done; try lia; view_at V2). cbn [rbind key_addrs fmap list_fmap].
    do 3 f_equal; [f_equal|lia]; f_equal; try lia. f_equal. lia.
Qed.

Lemma readKeys_first m p n k t ts :
  view m p n (put_keys (t :: ts) ++ CR :: LF :: k) -> Forall token (t :: ts) ->
  zlen (put_keys (t :: ts)) < n ->
  readKeys (length (t :: ts)) true m p n 0 =
    Ok (Some (key_addrs p (t :: ts), zlen <$> t :: ts, zlen (put_keys (t :: ts)))).
Proof.
  rewrite put_keys_cons. intros V Ht Hn. rewrite <- app_assoc in V.
  inversion Ht as [|? ? Ht1 Ht2]; subst. cbn [length readKeys].
  destruct (more_sep ts (LF :: k)) as (c & k' & E & Hsep).
  destruct (token_hd t (more ts ++ CR :: LF :: k) Ht1) as (x & t' & _ & -> & Hx).
  pose proof (token_pos _ Ht1). pose proof (zlen_nonneg (more ts)).
  rewrite zlen_app in *. rewrite Z.add_0_r, Z.sub_0_r.
  rewrite (nextTokenStart_here m p n x _ V) by (done || lia).
  rewrite (proj2 (Z.ltb_lt 0 n)) by lia. cbn [Z.ltb Z.compare rbind]. rewrite E in V.
  rewrite (tokEnd_at _ _ _ _ _ (x :: t') c _ V) by side.
  rewrite (proj2 (Z.ltb_lt (zlen (x :: t')) n)), (proj2 (Z.ltb_ge (zlen (x :: t')) 0)) by lia.
  unfold throwIfEquals. rewrite (proj2 (Z.eqb_neq (zlen (x :: t')) 0)) by lia. cbn [rbind].
  rewrite <- E in V. apply view_tok in V.
  rewrite (readKeys_more m p n k ts) by (try done; try lia; view_at V).
  cbn [rbind key_addrs fmap list_fmap].
  do 3 f_equal. all: try zlia. all: f_equal; try zlia. all: f_equal; zlia.
Qed.

(** The arguments of a retrieval command as one list of tokens. *)
Definition retrieval_tokens (v : RetrievalVerb) (e : Z) (ks : list bytes) : list bytes :=
  if r_isTouch (new_RetrievalCommand v) then Long_toString e :: ks else ks.

(** A token list is in view and the whole of it has arrived: the line end decides. *)
Lemma skip_crlf_keys m p n k ts :
  view m p n (put_keys ts ++ CR :: LF :: k) -> zlen (put_keys ts) < n ->
  skip_crlf crlf_expected_raw m p n (zlen (put_keys ts)) =
    if n <? zlen (put_keys ts) + 2 then Ok None else Ok (Some (zlen (put_keys ts) + 2)).
Proof.
  intros V Hn. apply view_tok in V.
  rewrite (skip_crlf_view _ _ _ _ _ k V) by zlia. by repeat zcase.
Qed.

Lemma RetrievalCommand_parse_view v m p n e ks k :
  view m p n (put_keys (retrieval_tokens v e ks) ++ CR :: LF :: k) ->
  Forall key_ok ks -> ks <> [] -> in_long e -> 0 < n ->
  let len := zlen (put_keys (retrieval_tokens v e ks)) in
  let t := r_isTouch (new_RetrievalCommand v) in
  RetrievalCommand_parse (new_RetrievalCommand v) m p n =
    if n <? len + 2 then Ok None
    else Ok (Some {|
      r_exptime := if t then e else 0; r_isCAS := r_isCAS (new_RetrievalCommand v); r_isTouch := t;
      r_keys := key_addrs (p + if t then zlen (Long_toString e) + 1 else 0) ks;
      r_keySizes := zlen <$> ks; r_consumed := len + 2 |}).
Proof.
  intros V Hks Hne He Hn len t. subst len t.
  assert (Ht : Forall token (retrieval_tokens v e ks)).
  { unfold retrieval_tokens. destruct (r_isTouch _); [constructor; [apply num_token|]|]; done. }
  assert (Hts : retrieval_tokens v e ks <> []) by (unfold retrieval_tokens; by destruct (r_isTouch _)).
  unfold RetrievalCommand_parse. apply catch_nfe_ok; [|by destruct (_ <? _)].
  rewrite (calculateNumberOfKeys_view m p n k _ V Ht Hts Hn).
  destruct (Z.ltb_spec (zlen (put_keys (retrieval_tokens v e ks))) n) as [Hlen|Hlen];
    [|cbn; by rewrite (proj2 (Z.ltb_lt _ _)) by lia].
  rewrite (proj2 (Z.ltb_ge (zlen (retrieval_tokens v e ks)) 0)) by apply zlen_nonneg.
  pose proof (skip_crlf_keys m p n k _ V Hlen) as Hcr.
  destruct ks as [|t ts]; [done|]. inversion Hks as [|? ? Hk1 Hk2]; subst.
  unfold retrieval_tokens in *. destruct (r_isTouch (new_RetrievalCommand v)).
  - rewrite put_keys_cons in V, Hcr, Hlen |- *. rewrite <- app_assoc in V.
    destruct (token_hd (Long_toString e) (more (t :: ts) ++ CR :: LF :: k) (num_token e))
      as (x & e' & _ & Ee & Hx).
    destruct (more_sep (t :: ts) (LF :: k)) as (c & k' & E & Hsep).
    pose proof (zlen_toString_pos e). pose proof (zlen_nonneg (more (t :: ts))).
    unfold new_array. rewrite zlen_cons, zlen_app in *. pose proof (zlen_nonneg (t :: ts)).
    rewrite (proj2 (Z.ltb_ge _ _)) by lia. cbn [rbind].
    rewrite Z.add_0_r, Z.sub_0_r. pose proof V as Vx. rewrite Ee in Vx. cbn [app] in Vx.
    rewrite (nextTokenStart_here m p n x _ Vx) by (done || lia).
    rewrite (proj2 (Z.ltb_lt 0 n)) by lia. cbn [Z.ltb Z.compare]. pose proof V as Vn. rewrite E in V.
    rewrite Z.add_0_r, Z.sub_0_r, (tokEnd_at _ _ _ _ _ (Long_toString e) c _ V) by side.
    rewrite (proj2 (Z.ltb_lt (zlen (Long_toString e)) n)), (proj2 (Z.ltb_ge (zlen (Long_toString e)) 0)) by lia.
    unfold throwIfEquals. rewrite (proj2 (Z.eqb_neq (zlen (Long_toString e)) 0)) by lia. cbn [rbind].
    rewrite (getLong_at _ _ _ _ e _ _ Vn) by (lia || done). cbn [rbind].
    apply view_tok in Vn. rewrite Z.add_0_r.
    replace (Z.to_nat (1 + zlen (t :: ts) - 1)) with (length (t :: ts)) by (unfold zlen; lia).
    rewrite (readKeys_more m p n k (t :: ts)) by (try done; try lia; view_at Vn). cbn [rbind].
    rewrite Hcr. zcase; cbn [rbind]; [by repeat zcase|].
    do 2 f_equal. f_equal; try lia.
    f_equal. lia.
  - cbn [new_array]. unfold new_array.
    rewrite (proj2 (Z.ltb_ge _ _)) by apply zlen_nonneg. cbn [rbind].
    rewrite to_nat_zlen, (readKeys_first m p n k t ts V Ht Hlen). cbn [rbind].
    rewrite Hcr. zcase; cbn [rbind]; [done|]. rewrite Z.add_0_r. by destruct v.
Qed.

End Keys.

(** ** The parser *)

Section Parser.
Context {mem : Type} `{UnsafeAccess mem} `{CarrotUtilsLaws}.
Implicit Types (m : mem) (l k : bytes).

(** The command name has arrived with the space after it, and a byte follows. *)
Lemma parse_name m p n name cmd arg :
  view m p n (name ++ SP :: arg) -> token name -> 3 <= zlen name ->
  (exists x a', arg = x :: a' /\ x <> SP) ->
  (bytes_at m p (zlen name) = name -> newCommand m p (zlen name) = Ok cmd) ->
  parse m p n =
    if n <=? zlen name + 1 then Ok None
    else parse_command cmd m (p + zlen name + 1) (n - 1 - zlen name).
Proof.
  intros V Hname Hl (x & a' & -> & Hx) Hcmd. unfold parse.
  destruct (Z.ltb_spec n 3); [by zcase|].
  destruct (token_hd name (SP :: x :: a') Hname) as (y & nm & En & _ & Hy).
  rewrite (nextTokenStart_here m p n y (nm ++ SP :: x :: a')) by (by rewrite <- ?En || done || lia).
  rewrite (proj2 (Z.ltb_lt 0 n)) by lia. cbn [Z.ltb Z.compare].
  rewrite (tokEnd_at m p n _ _ name SP _ V) by side.
  destruct (Z.ltb_spec (zlen name) n); cbn [Z.ltb Z.compare]; [|by zcase].
  rewrite (proj2 (Z.ltb_ge (zlen name) 0)) by lia. rewrite Z.sub_0_r.
  apply view_app in V as [Vn V]. rewrite Hcmd by (apply (bytes_at_view m p n); [done | lia]).
  cbn [rbind].
  rewrite (nextTokenStart_space _ _ _ x a') by (done || lia).
  destruct (Z.ltb_spec 1 (n - zlen name)); cbn; by zcase.
Qed.

(** Which class each name selects. *)
Definition command_class : list (string * MemcachedCommand) :=
  [("get", RetrievalCommand GET (new_RetrievalCommand GET));
   ("gets", RetrievalCommand GETS (new_RetrievalCommand GETS));
   ("gat", RetrievalCommand GAT (new_RetrievalCommand GAT));
   ("gats", RetrievalCommand GATS (new_RetrievalCommand GATS));
   ("set", StorageCommand SET (new_StorageCommand SET));
   ("add", StorageCommand ADD (new_StorageCommand ADD));
   ("replace", StorageCommand REPLACE (new_StorageCommand REPLACE));
   ("append", StorageCommand APPEND (new_StorageCommand APPEND));
   ("prepend", StorageCommand PREPEND (new_StorageCommand PREPEND));
   ("cas", StorageCommand CAS (new_StorageCommand CAS));
   ("incr", INCR (new_Abstract false));
   ("decr", DECR (new_Abstract false));
   ("touch", TOUCH (new_Abstract false));
   ("delete", DELETE (new_Abstract false));
   ("flush_all", FLUSH_ALL {| f_noreply := false; f_consumed := 0; f_delay := 0 |});
   ("stats", STATS); ("version", VERSION); ("quit", QUIT); ("shutdown", SHUTDOWN);
   ("save", SAVE); ("bgsave", BGSAVE)]%string.

Lemma newCommand_class m p name cmd :
  In (name, cmd) command_class -> bytes_at m p (zlen (str name)) = str name ->
  newCommand m p (zlen (str name)) = Ok cmd.
Proof.
  intros Hin E. unfold newCommand.
  repeat match goal with
  | |- context [is_cmd m p (zlen (str name)) ?t] => rewrite (is_cmd_bytes _ _ _ name t E)
  end.
  unfold command_class in Hin. cbn [In] in Hin.
  repeat (destruct Hin as [Hin|Hin]; [injection Hin as <- <-; reflexivity|]). done.
Qed.

(** The arguments of a request: what follows its name and the space. *)
Definition request_name (r : Request) : string :=
  match r with
  | RStore SET _ _ _ _ _ _ => "set" | RStore ADD _ _ _ _ _ _ => "add"
  | RStore REPLACE _ _ _ _ _ _ => "replace" | RStore APPEND _ _ _ _ _ _ => "append"
  | RStore PREPEND _ _ _ _ _ _ => "prepend" | RStore CAS _ _ _ _ _ _ => "cas"
  | RGet GET _ _ => "get" | RGet GETS _ _ => "gets" | RGet GAT _ _ => "gat"
  | RGet GATS _ _ => "gats"
  | RIncr _ _ _ => "incr" | RDecr _ _ _ => "decr" | RTouch _ _ _ => "touch"
  | RDelete _ _ => "delete"
  end%string.

Definition request_args (r : Request) : bytes :=
  match r with
  | RStore v k val f e nr c => store_line v k f e (zlen val) c nr ++ CR :: LF :: val ++ CRLF
  | RGet v e ks => put_keys (retrieval_tokens v e ks) ++ CR :: LF :: []
  | RIncr k v nr | RDecr k v nr | RTouch k v nr =>
      k ++ SP :: Long_toString v ++ put_noreply nr ++ CR :: LF :: []
  | RDelete k nr => k ++ put_noreply nr ++ CR :: LF :: []
  end.

Lemma encode_split r :
  (match r with RGet _ _ ks => ks <> [] | _ => True end) ->
  encode r = str (request_name r) ++ SP :: request_args r.
Proof.
  intros Hr.
  destruct r as [[]|[] e ks| | | |]; cbn [encode request_name request_args];
    unfold client_set, client_add, client_replace, client_append, client_prepend, client_cas,
      client_store, client_get, client_gets, client_gat, client_gats, client_incr, client_decr,
      client_touch, client_delete, store_line, retrieval_tokens, SPACE;
    repeat (rewrite <- !app_assoc; cbn [app]); try reflexivity;
    cbn [r_isTouch new_RetrievalCommand new_GETS new_GAT new_GATS];
    rewrite ?put_keys_cons; try reflexivity;
    (destruct ks as [|t ts]; [done|]); unfold more; repeat (rewrite <- !app_assoc; cbn [app]); reflexivity.
Qed.

Lemma request_class r : exists cmd, In (request_name r, cmd) command_class.
Proof. destruct r as [[]|[]| | | |]; eexists; cbn; tauto. Qed.

Lemma request_name_token r : token (str (request_name r)) /\ 3 <= zlen (str (request_name r)).
Proof.
  destruct r as [[]|[]| | | |]; cbn; repeat split; try done;
    by repeat (constructor; [split; done|]).
Qed.

Lemma request_args_hd r :
  request_ok r -> exists x a, request_args r = x :: a /\ x <> SP.
Proof.
  assert (T : forall t k, token t -> exists x a, t ++ k = x :: a /\ x <> SP).
  { intros t k Ht. destruct (token_hd t k Ht) as (x & t' & E & _ & Hx). by eauto. }
  destruct r as [v key val f e nr c|v e ks|key val nr|key val nr|key e nr|key nr];
    cbn [request_ok request_args]; intros Hr.
  - unfold store_line. rewrite <- app_assoc. apply T, key_token, Hr.
  - destruct Hr as (Hne & Hks & _). unfold retrieval_tokens.
    destruct (r_isTouch _).
    + rewrite put_keys_cons, <- app_assoc. apply T, num_token.
    + destruct ks as [|t ts]; [done|]. inversion Hks; subst.
      rewrite put_keys_cons, <- app_assoc. by apply T.
  - apply T, key_token, Hr.
  - apply T, key_token, Hr.
  - apply T, key_token, Hr.
  - apply T, key_token, Hr.
Qed.

Lemma lift_if {A B} (f : A -> B) (b : bool) a :
  lift f (if b then Ok None else Ok (Some a)) = if b then Ok None else Ok (Some (f a)).
Proof. by destruct b. Qed.

(** Both sides test whether the same number of bytes has arrived. *)
Ltac same_if :=
  match goal with
  | |- (if ?a <? ?b then _ else _) = (if ?a <? ?c then _ else _) =>
      replace c with b by zlia; destruct (a <? b); [reflexivity|]
  end.

(** The command selected by the name, run on the arguments. *)
Lemma parse_request_args r cmd m p n :
  request_ok r -> In (request_name r, cmd) command_class ->
  let len := zlen (str (request_name r)) in
  view m (p + len) (n + 1) (SP :: request_args r) -> 0 < n ->
  parse_command cmd m (p + len + 1) n =
    if n <? zlen (request_args r) then Ok None else Ok (Some (command_of r p)).
Proof.
  intros Hr Hin len V Hn.
  assert (V1 : view m (p + len + 1) n (request_args r)).
  { apply view_sp in V. eapply view_at; [exact V|lia|lia]. }
  assert (V0 : view m (p + len + 1 - 1) (n + 1) (SP :: request_args r)).
  { eapply view_at; [exact V|lia|lia]. }
  clear V. revert V1 V0 Hin. subst len.
  destruct r as [v key val f e nr c|v e ks|key val nr|key val nr|key e nr|key nr];
    cbn [request_ok request_args command_of] in *; intros V1 V0 Hin.
  - destruct Hr as (Hk & Hf & He & Hc & Hv).
    assert (cmd = StorageCommand v (new_StorageCommand v)) as ->
      by (destruct v; cbn [In request_name command_class] in Hin; intuition congruence).
    replace (str (request_name _)) with (verb_name v) in * by (by destruct v).
    cbn [parse_command]. rewrite (StorageCommand_parse_view v m _ n key f e val c nr CRLF) by done.
    rewrite lift_if. by same_if.
  - destruct Hr as (Hne & Hks & He).
    assert (cmd = RetrievalCommand v (new_RetrievalCommand v)) as ->
      by (destruct v; cbn [In request_name command_class] in Hin; intuition congruence).
    replace (zlen (str (request_name _))) with (match v with GET | GAT => 3 | _ => 4 end) in *
      by (by destruct v).
    cbn [parse_command]. rewrite (RetrievalCommand_parse_view v m _ n e ks []) by done.
    rewrite lift_if. same_if. do 3 f_equal. f_equal.
    unfold retrieval_tokens. destruct ks as [|t ts]; [done|].
    destruct (r_isTouch _); rewrite ?(put_keys_cons (Long_toString e)); unfold more; zlia.
  - destruct Hr as (Hk & Hv). assert (cmd = INCR (new_Abstract false)) as ->
      by (cbn [In request_name command_class] in Hin; intuition congruence). cbn [request_name] in *.
    cbn [parse_command]. rewrite (INCR_parse_view _ m _ n key val nr []) by (done || lia).
    rewrite lift_if. same_if. do 3 f_equal. f_equal. change (zlen (str "incr")) with 4. lia.
  - destruct Hr as (Hk & Hv). assert (cmd = DECR (new_Abstract false)) as ->
      by (cbn [In request_name command_class] in Hin; intuition congruence). cbn [request_name] in *.
    cbn [parse_command]. rewrite (INCR_parse_view _ m _ n key val nr []) by (done || lia).
    rewrite lift_if. same_if. do 3 f_equal. f_equal. change (zlen (str "decr")) with 4. lia.
  - destruct Hr as (Hk & Hv). assert (cmd = TOUCH (new_Abstract false)) as ->
      by (cbn [In request_name command_class] in Hin; intuition congruence). cbn [request_name] in *.
    cbn [parse_command]. rewrite (TOUCH_parse_view _ m _ n key e nr []) by (done || lia).
    rewrite lift_if. same_if. do 3 f_equal. f_equal. change (zlen (str "touch")) with 5. lia.
  - assert (cmd = DELETE (new_Abstract false)) as ->
      by (cbn [In request_name command_class] in Hin; intuition congruence). cbn [request_name] in *.
    cbn [parse_command]. rewrite (DELETE_parse_view _ m _ n key nr []) by (done || lia).
    rewrite lift_if. same_if. do 3 f_equal. f_equal. change (zlen (str "delete")) with 6. lia.
Qed.

(** The specification of the parser on the requests of the protocol. *)
Lemma parse_encode r m p n :
  request_ok r -> view m p n (encode r) ->
  parse m p n = if n <? zlen (encode r) then Ok None else Ok (Some (command_of r p)).
Proof.
  intros Hr V. destruct (request_class r) as [cmd Hin].
  destruct (request_name_token r) as [Ht Hl].
  destruct (request_args_hd r Hr) as (x & a & Ea & Hx).
  rewrite encode_split in * by (destruct r; cbn in Hr; tauto).
  rewrite (parse_name m p n (str (request_name r)) cmd (request_args r)); [|done..| |].
  - destruct (Z.leb_spec n (zlen (str (request_name r)) + 1)).
    + by rewrite Ea, (proj2 (Z.ltb_lt _ _)) by zlia.
    + rewrite (parse_request_args r cmd m p) by
        (try done; try lia; apply view_tok in V; view_at V).
      replace (n - 1 - zlen (str (request_name r)) <? zlen (request_args r))
        with (n <? zlen (str (request_name r) ++ SP :: request_args r)); [done|].
      zlen_norm. repeat zcase; done.
  - by exists x, a.
  - intros E. by apply newCommand_class.
Qed.

End Parser.
