(* ===== verification/ParseSafety.v ===== *)
(** * The parser on arbitrary input

    Whatever the bytes of the buffer are, a command the parser returns points
    into the buffer only, and its [inputConsumed] is positive and at most one
    byte more than what was there (the byte of the separator the request did not
    have).  The internal-error branch of [CommandProcessor] is dead code. *)

From S2P Require Import Prelude.
From S2P Require Import Memory.
From S2P Require Import Java.
From S2P Require Import CarrotCache.
From S2P Require Import Utils.
From S2P Require Import Command.
From S2P Require Import CommandParse.
From S2P Require Import CommandParser.

(** Peel one test, bind or early return off a successful parse. *)
Ltac peel1 H :=
  lazymatch type of H with
  | (if ?b then _ else _) = Ok (Some _) => destruct b eqn:?; try discriminate H
  | rbind ?r _ = Ok (Some _) => destruct r eqn:?; cbn [rbind] in H; try discriminate H
  | (match ?x with _ => _ end) = Ok (Some _) => destruct x eqn:?; try discriminate H
  end.
Ltac peel_if H :=
  lazymatch type of H with
  | (if ?b then _ else _) = Ok (Some _) => destruct b eqn:?; try discriminate H
  end.
Ltac zbool :=
  repeat match goal with
  | H : (_ <=? _) = true |- _ => apply Z.leb_le in H
  | H : (_ <=? _) = false |- _ => apply Z.leb_gt in H
  | H : (_ <? _) = true |- _ => apply Z.ltb_lt in H
  | H : (_ <? _) = false |- _ => apply Z.ltb_ge in H
  | H : (_ =? _) = true |- _ => apply Z.eqb_eq in H
  | H : (_ =? _) = false |- _ => apply Z.eqb_neq in H
  | H : (_ >? _) = _ |- _ => rewrite Z.gtb_ltb in H
  | H : (_ >=? _) = _ |- _ => rewrite Z.geb_leb in H
  | H : _ && _ = true |- _ => apply andb_true_iff in H as [? ?]
  | H : _ || _ = false |- _ => apply orb_false_iff in H as [? ?]
  | H : negb _ = true |- _ => apply negb_true_iff in H
  | H : negb _ = false |- _ => apply negb_false_iff in H
  end.

Section Safety.
Context {mem : Type} `{UnsafeAccess mem} `{CarrotUtils}.
Implicit Types (m : mem) (p n e : Z).

Lemma catch_nfe_some {A} (r : result (option A)) x msg :
  catch_nfe r (IllegalFormatException msg) = Ok (Some x) -> r = Ok (Some x).
Proof. by destruct r as [|[]| |]. Qed.

Lemma skip_crlf_inv msg m p n e e' :
  skip_crlf msg m p n e = Ok (Some e') -> e' = e + 2 /\ e' <= n.
Proof.
  unfold skip_crlf. intros E. repeat peel1 E. injection E as <-. zbool. lia.
Qed.

Lemma parse_tail_inv msg m p n e nr e' :
  parse_tail msg m p n e = Ok (Some (nr, e')) -> 0 <= e <= n -> e + 2 <= e' <= n.
Proof.
  unfold parse_tail. intros E He.
  pose proof (nextTokenStart_lt m (p + e) (n - e)).
  set (s := nextTokenStart m (p + e) (n - e)) in *.
  assert (F : forall nr0 e0,
    (let* r := skip_crlf msg m p n e0 in
     Ok (match r with Some e => Some (nr0, e) | None => None end)) = Ok (Some (nr, e')) ->
    e0 + 2 <= e' <= n).
  { intros nr0 e0 E0. destruct (skip_crlf msg m p n e0) as [[e1|]| | |] eqn:E1; try discriminate E0.
    injection E0 as -> <-. apply skip_crlf_inv in E1. lia. }
  repeat peel_if E; apply F in E; zbool; lia.
Qed.

(** A field that was read: the continuation ran on some offset past it. *)
Lemma number_field_inv {A} msg m p n e (kont : Z -> Z -> result (option A)) x :
  number_field msg m p n e kont = Ok (Some x) -> -1 <= e <= n ->
  exists v e', e + 1 < e' < n /\ kont v e' = Ok (Some x) /\
    nextTokenStart m (p + e) (n - e) = 1 /\
    0 < nextTokenEnd m (p + (1 + e)) (n - (1 + e)).
Proof.
  unfold number_field. intros E He.
  destruct (Z.leb_spec (nextTokenStart m (p + e) (n - e)) 0); [discriminate E|].
  unfold throwIfNotEquals in E. peel1 E.
  destruct (Z.eqb_spec (nextTokenStart m (p + e) (n - e)) 1) as [E1|]; [|done].
  pose proof (nextTokenStart_lt m (p + e) (n - e)). rewrite E1 in *.
  pose proof (nextTokenEnd_lt m (p + (1 + e)) (n - (1 + e))).
  do 2 peel1 E. zbool. eexists _, _. split; [|split; [exact E|]]; lia.
Qed.

Lemma storage_finish_inv this m p n ks f ex vs c e r :
  storage_finish this m p n ks f ex vs c e = Ok (Some r) -> 0 <= e <= n ->
  keyPtr r = p /\ keySize r = ks /\ valSize r = vs /\ p + e + 2 <= valPtr r /\
  valPtr r + vs + 2 <= p + n /\ consumed r = valPtr r - p + vs + 2.
Proof.
  unfold storage_finish. intros E He. peel1 E. peel1 E.
  match goal with p : bool * Z |- _ => destruct p end.
  peel1 E. injection E as <-. cbn.
  match goal with Ht : parse_tail _ _ _ _ _ = _ |- _ => apply parse_tail_inv in Ht end; [|done].
  zbool. lia.
Qed.

(** What a parsed storage command looks like, the buffer starting at a token. *)
Lemma StorageCommand_parse_inv this m p n r :
  StorageCommand_parse this m p n = Ok (Some r) -> toByte m p <> SP -> 0 < n ->
  keyPtr r = p /\ 0 < keySize r /\ p + keySize r < valPtr r /\ 0 <= valSize r /\
  valPtr r + valSize r + 2 <= p + n /\ consumed r = valPtr r - p + valSize r + 2.
Proof.
  unfold StorageCommand_parse. intros E%catch_nfe_some Hp Hn. rewrite Z.add_0_r, Z.sub_0_r in E.
  pose proof (nextTokenEnd_lt m p n (Z.lt_le_incl _ _ Hn)) as Hend.
  destruct (number_field_inv _ _ _ _ _ _ _ E ltac:(lia)) as (f & e1 & B1 & E1 & Hs & He). clear E.
  assert (Hpos : 0 < nextTokenEnd m p n).
  { destruct Hend as [Hm1|]; [|destruct (decide (nextTokenEnd m p n = 0)) as [Hz|]; [|lia]].
    - rewrite Hm1 in He. change (1 + -1) with 0 in He. rewrite Z.add_0_r, Z.sub_0_r in He. lia.
    - rewrite Hz, Z.add_0_r, Z.sub_0_r in Hs.
      destruct (nextTokenStart_spec m p n ltac:(lia)) as [[? _]|(_ & _ & A)]; [lia|].
      exfalso. apply Hp. rewrite <- (Z.add_0_r p). apply A. lia. }
  peel1 E1. apply number_field_inv in E1 as (ex & e2 & B2 & E2 & _); [|lia].
  apply number_field_inv in E2 as (vs & e3 & B3 & E3 & _); [|lia].
  peel1 E3. zbool.
  assert (F : forall c e, e3 <= e < n ->
    storage_finish this m p n (nextTokenEnd m p n) f ex (to_int vs) c e = Ok (Some r) ->
    keyPtr r = p /\ 0 < keySize r /\ p + keySize r < valPtr r /\ 0 <= valSize r /\
    valPtr r + valSize r + 2 <= p + n /\ consumed r = valPtr r - p + valSize r + 2).
  { intros c e He' Ef. apply storage_finish_inv in Ef as (? & ? & Hv & ?); [|lia].
    assert (in_int vs) by (unfold in_int, INT_MAX in *; lia).
    rewrite to_int_id in * by done. lia. }
  peel_if E3; [|by apply F in E3; [|lia]].
  apply number_field_inv in E3 as (c & e4 & B4 & E4 & _); [|lia].
  by apply F in E4; [|lia].
Qed.

(** The single-key commands. *)
Lemma INCR_parse_inv this m p n r :
  INCR_parse this m p n = Ok (Some r) -> 0 <= n ->
  keyPtr r = p /\ 0 < keySize r /\ keySize r + 2 <= consumed r <= n.
Proof.
  unfold INCR_parse. intros E%catch_nfe_some Hn.
  pose proof (nextTokenEnd_lt m p n Hn).
  rewrite !Z.add_0_r, !Z.sub_0_r in E. peel_if E. zbool.
  pose proof (nextTokenStart_lt m (p + nextTokenEnd m p n) (n - nextTokenEnd m p n)).
  peel_if E. peel1 E. zbool.
  set (s := nextTokenStart m (p + nextTokenEnd m p n) (n - nextTokenEnd m p n)) in *.
  pose proof (nextTokenEnd_lt m (p + (s + nextTokenEnd m p n)) (n - (s + nextTokenEnd m p n))).
  peel_if E. peel1 E. peel1 E. zbool.
  match goal with Ht : parse_tail _ _ _ _ _ = Ok ?o |- _ => destruct o as [[nr e]|]; [|discriminate E] end.
  injection E as <-. cbn.
  match goal with Ht : parse_tail _ _ _ _ _ = _ |- _ => apply parse_tail_inv in Ht; [|lia] end. lia.
Qed.

Lemma TOUCH_parse_inv this m p n r :
  TOUCH_parse this m p n = Ok (Some r) -> 0 <= n ->
  keyPtr r = p /\ 0 < keySize r /\ keySize r + 2 <= consumed r <= n.
Proof.
  unfold TOUCH_parse. intros E%catch_nfe_some Hn.
  pose proof (nextTokenEnd_lt m p n Hn).
  rewrite !Z.add_0_r, !Z.sub_0_r in E. peel_if E. zbool.
  pose proof (nextTokenStart_lt m (p + nextTokenEnd m p n) (n - nextTokenEnd m p n)).
  peel_if E. peel1 E. zbool.
  set (s := nextTokenStart m (p + nextTokenEnd m p n) (n - nextTokenEnd m p n)) in *.
  pose proof (nextTokenEnd_lt m (p + (s + nextTokenEnd m p n)) (n - (s + nextTokenEnd m p n))).
  peel_if E. peel1 E. peel1 E. zbool.
  match goal with Ht : parse_tail _ _ _ _ _ = Ok ?o |- _ => destruct o as [[nr e]|]; [|discriminate E] end.
  injection E as <-. cbn.
  match goal with Ht : parse_tail _ _ _ _ _ = _ |- _ => apply parse_tail_inv in Ht; [|lia] end. lia.
Qed.

Lemma DELETE_parse_inv this m p n r :
  DELETE_parse this m p n = Ok (Some r) -> 0 <= n ->
  keyPtr r = p /\ 0 < keySize r /\ keySize r + 2 <= consumed r <= n.
Proof.
  unfold DELETE_parse. intros E Hn. pose proof (nextTokenEnd_lt m p n Hn).
  rewrite !Z.add_0_r, !Z.sub_0_r in E. peel_if E. zbool. peel1 E.
  match goal with Ht : parse_tail _ _ _ _ _ = Ok ?o |- _ => destruct o as [[nr e]|]; [|discriminate E] end.
  injection E as <-. cbn.
  match goal with Ht : parse_tail _ _ _ _ _ = _ |- _ => apply parse_tail_inv in Ht; [|lia] end. lia.
Qed.

(** Every key read lies in the buffer, before the final offset. *)
Lemma readKeys_inv todo first m p n e ks ss e' :
  readKeys todo first m p n e = Ok (Some (ks, ss, e')) -> 0 <= e <= n ->
  e <= e' <= n /\ length ks = todo /\
  Forall2 (fun k s => p <= k /\ 0 < s /\ k + s <= p + e') ks ss.
Proof.
  revert first e ks ss e'. induction todo as [|todo IH]; intros first e ks ss e' E He; cbn [readKeys] in E.
  - injection E as <- <- <-. repeat split; [lia..|]. constructor.
  - pose proof (nextTokenStart_lt m (p + e) (n - e)).
    set (s := nextTokenStart m (p + e) (n - e)) in *.
    peel_if E. peel1 E. zbool.
    pose proof (nextTokenEnd_lt m (p + (s + e)) (n - (s + e))).
    peel_if E. unfold throwIfEquals in E. peel1 E.
    match goal with Ht : (if _ then _ else _) = Ok _ |- _ => destruct (Z.eqb_spec (nextTokenEnd m (p + (s + e)) (n - (s + e))) 0); [discriminate Ht|] end.
    zbool. peel1 E.
    match goal with Ht : readKeys _ _ _ _ _ _ = Ok ?o |- _ => destruct o as [[[ks' ss'] e2]|]; [|discriminate E]; apply IH in Ht as (? & ? & F); [|lia] end.
    injection E as <- <- <-. split; [lia|]. split; [cbn; lia|]. constructor; [lia|done].
Qed.

Lemma RetrievalCommand_parse_inv this m p n r :
  RetrievalCommand_parse this m p n = Ok (Some r) -> 0 < n ->
  2 <= r_consumed r <= n /\ length (r_keys r) = length (r_keySizes r) /\
  Forall2 (fun k s => p <= k /\ 0 < s /\ k + s + 2 <= p + n) (r_keys r) (r_keySizes r).
Proof.
  unfold RetrievalCommand_parse. intros E%catch_nfe_some Hn.
  peel_if E. peel1 E.
  set (c := Z.to_nat _) in E.
  assert (F : forall ex e, 0 <= e <= n ->
    (let* r0 := readKeys c true m p n e in
      match r0 with
      | None => Ok None
      | Some (keys, keySizes, end_) =>
          let* e0 := skip_crlf crlf_expected_raw m p n end_ in
          Ok (match e0 with
              | None => None
              | Some end_ => Some {|
                  r_exptime := ex; r_isCAS := r_isCAS this; r_isTouch := r_isTouch this;
                  r_keys := keys; r_keySizes := keySizes; r_consumed := end_ |}
              end)
      end) = Ok (Some r) ->
    2 <= r_consumed r <= n /\ length (r_keys r) = length (r_keySizes r) /\
    Forall2 (fun k s => p <= k /\ 0 < s /\ k + s + 2 <= p + n) (r_keys r) (r_keySizes r)).
  { clear E. intros ex e He E. do 2 peel1 E.
    match goal with q : _ * _ * _ |- _ => destruct q as [[ks ss] e1] end.
    match goal with Ht : readKeys _ _ _ _ _ _ = _ |- _ => apply readKeys_inv in Ht as (? & ? & F2); [|lia] end.
    peel1 E.
    match goal with Ht : skip_crlf _ _ _ _ _ = Ok ?o |- _ => destruct o as [e2|]; [|discriminate E]; apply skip_crlf_inv in Ht end.
    injection E as <-. cbn. split; [lia|]. split; [by eapply Forall2_length|].
    eapply Forall2_impl; [|exact F2]. cbn. lia. }
  peel_if E; [|by apply F in E; [|lia]].
  rewrite !Z.add_0_r, !Z.sub_0_r in E.
  pose proof (nextTokenStart_lt m p n). peel_if E. zbool.
  set (s := nextTokenStart m p n) in *.
  pose proof (nextTokenEnd_lt m (p + s) (n - s)).
  peel_if E. peel1 E. peel1 E. zbool. apply F in E; [done|]. lia.
Qed.

Lemma FLUSH_ALL_parse_inv m p n r :
  FLUSH_ALL_parse m p n = Ok (Some r) -> 0 < n -> 1 <= f_consumed r <= n.
Proof.
  unfold FLUSH_ALL_parse. intros E%catch_nfe_some Hn.
  pose proof (nextTokenEnd_lt m p n).
  assert (F : forall nr d e, 0 <= e ->
    (let* e0 := skip_crlf crlf_expected_raw m p n e in
     Ok (match e0 with
         | None => None
         | Some end_ => Some {| f_noreply := nr;
             f_consumed := (if e =? 0 then -1 else 0) + end_; f_delay := d |}
         end)) = Ok (Some r) -> 1 <= f_consumed r <= n).
  { clear E. intros nr d e He E. peel1 E.
    match goal with Ht : skip_crlf _ _ _ _ _ = Ok ?o |- _ =>
      destruct o; [|discriminate E]; apply skip_crlf_inv in Ht end.
    injection E as <-. cbn. destruct (e =? 0); lia. }
  peel_if E; zbool.
  - rewrite !Z.add_0_r in E. set (e := nextTokenEnd m p n) in *.
    pose proof (nextTokenStart_lt m (p + e) (n - e)).
    set (s := nextTokenStart m (p + e) (n - e)) in *.
    set (s' := if 0 <? s then s + e else s) in *.
    assert (0 < s' \/ s' <= 0) by lia.
    repeat first [apply F in E; [exact E|]; zbool; lia
      | match type of E with (if ?b then _ else _) = _ => destruct b eqn:?; try discriminate E end
      | peel1 E].
  - peel_if E. zbool. eapply F; [|exact E]. lia.
Qed.

(** ** All commands *)

(** The object the parser creates: its class's [commandLength] counts one byte
    more than the name, and its [parse] leaves the class as it is. *)
Definition named (cmd : MemcachedCommand) (len : Z) : Prop :=
  match cmd with
  | STATS => len = 5 | VERSION => len = 7 | QUIT => len = 4 | SHUTDOWN => len = 8
  | SAVE | BGSAVE => True
  | _ => commandLength cmd = len + 1
  end.

Lemma newCommand_named m p len cmd : newCommand m p len = Ok cmd -> named cmd len.
Proof.
  unfold newCommand. intros E.
  repeat match type of E with
  | (if ?b then _ else _) = _ => destruct b eqn:?; try discriminate E
  end; injection E as <-; zbool; subst; cbn; lia.
Qed.

Lemma lift_inv {A B} (f : A -> B) r b :
  lift f r = Ok (Some b) -> exists a, r = Ok (Some a) /\ b = f a.
Proof. destruct r as [[a|]| | |]; intros [= <-]. by exists a. Qed.

Ltac zgoal :=
  repeat match goal with
  | |- context [?a <? ?b] => rewrite (proj2 (Z.ltb_lt a b)) by lia
  | |- context [?a <=? ?b] => rewrite (proj2 (Z.leb_le a b)) by lia
  end; cbn.

Lemma retrieval_safe ks ss p b n :
  Forall2 (fun k s => p <= k /\ 0 < s /\ k + s + 2 <= p + n) ks ss -> 0 <= b < p ->
  retrieval_isMemorySafe ks ss b (p + n - b) = true.
Proof.
  induction 1 as [|k s ks ss Hk _ IH]; intros Hb; [done|]. cbn.
  zgoal. by apply IH.
Qed.

Lemma consumed_pos c len : 0 < c -> 0 < len -> 0 < abstract_inputConsumed c len <= c + len.
Proof. intros. unfold abstract_inputConsumed. zcase. lia. Qed.

(** A command object run on the [n] bytes after its name and separator. *)
Lemma parse_command_safe cmd cmd' len m b p n :
  named cmd len -> 3 <= len -> parse_command cmd m p n = Ok (Some cmd') ->
  0 <= b < p -> 0 < n -> toByte m p <> SP ->
  isMemorySafe cmd' b (p + n - b) = true /\ 0 < inputConsumed cmd' <= len + 1 + n.
Proof.
  intros Hl Hlen E Hb Hn Hp.
  assert (A : forall c, keyPtr c = p /\ 0 < keySize c /\ keySize c + 2 <= consumed c <= n ->
    abstract_isMemorySafe false c b (p + n - b) = true /\
    0 < abstract_inputConsumed (consumed c) (len + 1) <= len + 1 + n).
  { intros c (Hk & ? & ?). unfold abstract_isMemorySafe.
    pose proof (consumed_pos (consumed c) (len + 1)). zgoal. lia. }
  destruct cmd as [v c|v c|c|c|c|c|c| | | | | |]; cbn [parse_command] in E.
  1-7: apply lift_inv in E as (r & E & ->).
  - apply StorageCommand_parse_inv in E as (Hk & ? & ? & ? & ? & Hc); [|done..].
    assert (Hl' : commandLength (StorageCommand v r) = len + 1) by (destruct v; exact Hl).
    cbn [isMemorySafe inputConsumed]. rewrite Hl'. unfold abstract_isMemorySafe. rewrite Hk.
    pose proof (consumed_pos (consumed r) (len + 1)). zgoal. lia.
  - apply RetrievalCommand_parse_inv in E as (? & _ & F); [|done..].
    assert (Hl' : commandLength (RetrievalCommand v r) = len + 1) by (destruct v; exact Hl).
    cbn [isMemorySafe inputConsumed]. rewrite Hl'.
    pose proof (consumed_pos (r_consumed r) (len + 1)). split; [by apply retrieval_safe|lia].
  - apply INCR_parse_inv in E; [|lia]. cbn [named commandLength] in Hl.
    cbn [isMemorySafe inputConsumed commandLength]. rewrite Hl. by apply A.
  - apply INCR_parse_inv in E; [|lia]. cbn [named commandLength] in Hl.
    cbn [isMemorySafe inputConsumed commandLength]. rewrite Hl. by apply A.
  - apply TOUCH_parse_inv in E; [|lia]. cbn [named commandLength] in Hl.
    cbn [isMemorySafe inputConsumed commandLength]. rewrite Hl. by apply A.
  - apply DELETE_parse_inv in E; [|lia]. cbn [named commandLength] in Hl.
    cbn [isMemorySafe inputConsumed commandLength]. rewrite Hl. by apply A.
  - apply FLUSH_ALL_parse_inv in E; [|lia]. cbn [named commandLength] in Hl.
    cbn [isMemorySafe inputConsumed commandLength]. split; [done|]. lia.
  - destruct (STATS_parse m p n) as [[]| | |] eqn:Es; try discriminate E. injection E as <-.
    unfold STATS_parse in Es.
    destruct (Z.ltb_spec n 2); [discriminate Es|].
    destruct (Z.gtb_spec n 2); [discriminate Es|].
    cbn [named] in Hl. cbn [isMemorySafe inputConsumed]. split; [done|]. lia.
  - unfold VERSION_parse in E. destruct (Z.eqb_spec n 2); [|done].
    injection E as <-. cbn in *. lia.
  - unfold QUIT_parse in E. destruct (Z.eqb_spec n 2); [|done].
    injection E as <-. cbn in *. lia.
  - unfold SHUTDOWN_parse in E. destruct (Z.eqb_spec n 2); [|done].
    injection E as <-. cbn in *. lia.
  - done.
  - done.
Qed.

(** A command the parser returns: the dispatched object and what it was run on. *)
Lemma parse_some m b n cmd :
  parse m b n = Ok (Some cmd) ->
  exists cmd0 len start,
    newCommand m b len = Ok cmd0 /\ named cmd0 len /\ 3 <= len /\ 0 <= start <= 1 /\
    0 < n - start - len /\ toByte m (b + len + start) <> SP /\
    (start = 0 -> toByte m (b + len) = CR) /\
    parse_command cmd0 m (b + len + start) (n - start - len) = Ok (Some cmd).
Proof.
  unfold parse. intros E.
  destruct (Z.ltb_spec n 3); [discriminate|].
  pose proof (nextTokenStart_lt m b n) as Hs.
  destruct (Z.ltb_spec 0 (nextTokenStart m b n)); [discriminate|].
  destruct (Z.ltb_spec (nextTokenStart m b n) 0); [discriminate|].
  assert (nextTokenStart m b n = 0) as E0 by lia. rewrite E0, Z.add_0_r, !Z.sub_0_r in E.
  destruct (nextTokenEnd_spec m b n ltac:(lia)) as [[Hm _]|(He & Hsep & _)];
    [rewrite Hm in E; discriminate E|].
  set (len := nextTokenEnd m b n) in *.
  destruct (Z.ltb_spec len 0); [discriminate|].
  destruct (newCommand m b len) as [cmd0| | |] eqn:Ec; cbn [rbind] in E; try discriminate.
  pose proof (newCommand_named _ _ _ _ Ec) as Hn.
  assert (3 <= len).
  { unfold newCommand in Ec. repeat match type of Ec with
    | (if ?a =? ?b then _ else _) = _ => destruct (Z.eqb_spec a b); [lia|]
    end. discriminate Ec. }
  destruct (nextTokenStart_spec m (b + len) (n - len) ltac:(lia)) as [[Hm _]|(Hst & Hsp & Hall)];
    [rewrite Hm in E; discriminate E|].
  set (start := nextTokenStart m (b + len) (n - len)) in *.
  destruct (Z.eqb_spec start (-1)); [discriminate|].
  destruct (Z.ltb_spec 1 start); [discriminate|].
  exists cmd0, len, start. split_and!; try done; try lia.
  intros Hz. rewrite Hz, Z.add_0_r in Hsp. destruct Hsep; done.
Qed.

Lemma parse_safe m b n cmd :
  parse m b n = Ok (Some cmd) -> 0 <= b ->
  isMemorySafe cmd b n = true /\ 0 < inputConsumed cmd <= n + 1.
Proof.
  intros (cmd0 & len & start & _ & Hn & Hlen & Hs & Hpos & Hsp & _ & E)%parse_some Hb.
  pose proof (parse_command_safe cmd0 cmd len m b (b + len + start) (n - start - len)) as P.
  replace (b + len + start + (n - start - len) - b) with n in P by lia.
  destruct P as [P1 P2]; try done; try lia. split; [done|]. lia.
Qed.

End Safety.
