(* ===== verification/ExecuteCorrect.v ===== *)
(** * The [execute] methods implement the protocol

    For the command of a well-formed request that is in memory, [execute] leaves
    the store and delivers the bytes that [Protocol.respond] says, writing only to
    the output buffer.  "Delivered" counts what a retrieval command flushed and
    what is left in the output buffer. *)

From S2P Require Import Prelude.
From S2P Require Import Memory.
From S2P Require Import Java.
From S2P Require Import CarrotCache.
From S2P Require Import Utils.
From S2P Require Import Command.
From S2P Require Import CommandParse.
From S2P Require Import Client.
From S2P Require Import ParseCorrect.
From S2P Require Import World.
From S2P Require Import Execute.
From S2P Require Import Protocol.

Section ExecuteCorrect.
Context {mem S item : Type}.
Context `{UnsafeAccessLaws mem} `{CarrotUtilsLaws} `{Memcached S item} `{RecordWriter mem item}.

#[local] Abbreviation MS := (M mem S).
#[local] Abbreviation world := (World mem S).

Variable version : option bytes.
Variable consume : Z -> MS unit.
(** The output buffer. *)
Variables out size : Z.

(** The contract of an [OutputConsumer]: it sends what is in the buffer. *)
Definition consumes : Prop :=
  forall n w, 0 <= n <= size -> consume n w = (Ok tt, add_sent (bytes_at (w_mem w) out n) w).

(** From [w] with [k] bytes pending to [w'] with [n]: [l] was delivered. *)
Record delivered (w w' : world) (k n : Z) (l : bytes) (s : S) : Prop := {
  d_store : w_store w' = s;
  d_input : w_input w' = w_input w;
  d_last : w_last w' = w_last w;
  d_off : same_off (w_mem w) (w_mem w') out size;
  d_bytes : w_sent w' ++ bytes_at (w_mem w') out n = w_sent w ++ bytes_at (w_mem w) out k ++ l
}.

Lemma delivered_trans w1 w2 w3 k1 k2 k3 l1 l2 s2 s3 :
  delivered w1 w2 k1 k2 l1 s2 -> delivered w2 w3 k2 k3 l2 s3 ->
  delivered w1 w3 k1 k3 (l1 ++ l2) s3.
Proof.
  intros [A1 A2 A3 A4 A5] [B1 B2 B3 B4 B5]. split; try congruence.
  - by eapply same_off_trans.
  - rewrite B5, (app_assoc (w_sent w2)), A5. by rewrite <- !app_assoc.
Qed.

Lemma delivered_trans0 w1 w2 w3 k1 k2 k3 l s2 s3 :
  delivered w1 w2 k1 k2 [] s2 -> delivered w2 w3 k2 k3 l s3 -> delivered w1 w3 k1 k3 l s3.
Proof. intros A B. exact (delivered_trans _ _ _ _ _ _ _ _ _ _ A B). Qed.

Lemma bytes_at_0 (m : mem) p : bytes_at m p 0 = [].
Proof. done. Qed.

Lemma bytes_at_1 (m : mem) p : bytes_at m p 1 = [toByte m p].
Proof. rewrite <- (Z.add_0_r p) at 2. reflexivity. Qed.

(** A change of the store alone. *)
Lemma delivered_store w k s : delivered w (set_store s w) k k [] s.
Proof. split; try done. by rewrite app_nil_r. Qed.

(** Bytes added after the pending ones. *)
Lemma delivered_copy w k l n :
  0 <= k -> k + zlen l <= size -> n = k + zlen l ->
  delivered w (set_mem (copyBytes (w_mem w) l (out + k)) w) k n l (w_store w).
Proof.
  intros Hk Hl ->. split; try done; cbn.
  - eapply same_off_widen; [apply copyBytes_off|lia|lia].
  - f_equal. rewrite bytes_at_app by zlia. f_equal; [|apply bytes_at_copyBytes].
    apply bytes_at_same. eapply same_off_on; [apply copyBytes_off|lia].
Qed.

Lemma delivered_write w l :
  zlen l <= size ->
  delivered w (set_mem (copyBytes (w_mem w) l out) w) 0 (zlen l) l (w_store w).
Proof.
  intros Hl. pose proof (delivered_copy w 0 l (zlen l)) as D.
  rewrite Z.add_0_r in D. apply D; zlia.
Qed.

(** [c] does what the reply [a] says, [k] bytes being pending before it.  Nothing
    is left pending when an exception escapes. *)
Definition executed (c : MS Z) (w : world) (k : Z) (a : Reply S) : Prop :=
  exists r w', c w = (r, w') /\
  match r_exn a with
  | None => exists n, r = Ok n /\ 0 <= n <= size /\ delivered w w' k n (r_bytes a) (r_store a)
  | Some e => r = Throw e /\ delivered w w' k 0 (r_bytes a) (r_store a)
  end.

Definition done_with (l : bytes) (s : S) : Reply S := Build_Reply l None s.

Lemma executed_step c c' w w' k k' l s a :
  c w = c' w' -> delivered w w' k k' l s -> executed c' w' k' a ->
  executed c w k (Build_Reply (l ++ r_bytes a) (r_exn a) (r_store a)).
Proof.
  intros E D (r & w2 & E' & X). exists r, w2. cbn. split; [congruence|].
  destruct (r_exn a); [destruct X as [? X] | destruct X as (n & ? & ? & X); exists n; split; [done|]];
    (split; [done|]); by eapply delivered_trans.
Qed.

Lemma executed_step0 c c' w w' k k' s a :
  c w = c' w' -> delivered w w' k k' [] s -> executed c' w' k' a -> executed c w k a.
Proof. intros E D X. destruct a. exact (executed_step _ _ _ _ _ _ _ _ _ E D X). Qed.

Lemma try_catch_executed c h w k a :
  executed c w k a -> match r_exn a with Some e => h e = None | None => True end ->
  executed (try_catch c h) w k a.
Proof.
  intros (r & w' & E & X) Hh. exists r, w'. split; [|done]. unfold try_catch. rewrite E.
  destruct (r_exn a); [destruct X as [-> _]; by rewrite Hh | by destruct X as (n & -> & _)].
Qed.

Lemma try_catch_handled c h c' w w' k k' e s a :
  c w = (Throw e, w') -> h e = Some c' -> delivered w w' k k' [] s -> executed c' w' k' a ->
  executed (try_catch c h) w k a.
Proof.
  intros E Eh D X. eapply executed_step0; [|exact D|exact X].
  unfold try_catch. by rewrite E, Eh.
Qed.

(** *** Replies *)

Lemma write_executed l w n :
  n = zlen l -> n <= size -> executed (letM _ := write l out in ret n) w 0 (done_with l (w_store w)).
Proof.
  intros -> Hn. exists (Ok (zlen l)), (set_mem (copyBytes (w_mem w) l out) w).
  split; [done|]. exists (zlen l). split_and!; [done|zlia|done|]. by apply delivered_write.
Qed.

Lemma reply_executed l n w :
  n = zlen l -> n <= size -> executed (reply l n out) w 0 (done_with l (w_store w)).
Proof.
  intros -> Hn. unfold reply. rewrite to_nat_zlen, firstn_all. by apply write_executed.
Qed.

Lemma silent_executed w : 0 <= size -> executed (ret 0) w 0 (done_with [] (w_store w)).
Proof.
  intros. exists (Ok 0), w. split; [done|]. exists 0. split_and!; try done; apply delivered_store.
Qed.

(** [if (!noreply) {...}; return 0;] *)
Lemma unless_executed nr c l w s :
  0 <= size -> (nr = false -> executed c w 0 (done_with l s)) -> s = w_store w ->
  executed (if negb nr then c else ret 0) w 0 (done_with (unless nr l) s).
Proof. intros Hs Hc ->. destruct nr; [by apply silent_executed | by apply Hc]. Qed.

Lemma call_executed {A} (f : S -> A * S) (c : A -> MS Z) w k a :
  executed (c (f (w_store w)).1) (set_store (f (w_store w)).2 w) k a ->
  executed (letM r := call f in c r) w k a.
Proof.
  intros X. eapply executed_step0; [|apply delivered_store|exact X].
  unfold bindM, call. by destruct (f (w_store w)).
Qed.

Lemma read_executed p n (c : bytes -> MS Z) w k a :
  executed (c (bytes_at (w_mem w) p n)) w k a -> executed (letM r := read p n in c r) w k a.
Proof. done. Qed.

(** ** Retrieval *)

(** The [n] bytes at [p] are not in the output buffer. *)
Definition apart (p n : Z) : Prop := p + n <= out \/ out + size <= p.

(** [m] holds [k] at [p], away from the output buffer. *)
Definition holds (m : mem) (p : Z) (k : bytes) : Prop :=
  bytes_at m p (zlen k) = k /\ apart p (zlen k).

Lemma holds_off m m' p k : same_off m m' out size -> holds m p k -> holds m' p k.
Proof.
  intros Ho [E A]. split; [|done]. rewrite <- E at 2. apply bytes_at_same.
  eapply same_off_on; [exact Ho|]. destruct A; lia.
Qed.

Section Retrieval.
Context `{!RecordWriterLaws mem item}.
Hypothesis consume_ok : consumes.
Hypothesis size_ok : 5 <= size.
Variable fetch : S -> bytes -> option item * S.
Hypothesis fetch_again : forall s k, fetch (fetch s k).2 k = fetch s k.
Variable withCAS : bool.

#[local] Abbreviation retrieve_from := (retrieve consume).
#[local] Abbreviation gathered := (gather rec_render size fetch withCAS).
#[local] Abbreviation text i key := (rec_render i key withCAS).

(** The world after the lookup of a key. *)
Definition looked_up (w : world) (key : bytes) : world := set_store (fetch (w_store w) key).2 w.

Lemma looked_up_delivered w key k : delivered w (looked_up w key) k k [] (w_store (looked_up w key)).
Proof. apply delivered_store. Qed.

(** A key that is not there. *)
Lemma retrieve_miss f a keys w k key :
  holds (w_mem w) a key -> (fetch (w_store w) key).1 = None ->
  retrieve_from (Datatypes.S f) fetch withCAS ((a, zlen key) :: keys) out size k w =
    retrieve_from f fetch withCAS keys out size k (looked_up w key).
Proof.
  intros [Hk _] E. cbn [retrieve]. unfold bindM at 1, read, read_mem. rewrite Hk.
  unfold bindM at 1, call, looked_up. destruct (fetch (w_store w) key) as [o s].
  cbn in E. by subst o.
Qed.

(** A key that is there. *)
Lemma retrieve_hit f a keys w k key i :
  holds (w_mem w) a key -> (fetch (w_store w) key).1 = Some i ->
  retrieve_from (Datatypes.S f) fetch withCAS ((a, zlen key) :: keys) out size k w =
    let w1 := looked_up w key in
    let w2 := set_mem (rec_write (w_mem w) i key (out + k) (size - k) withCAS).1 w1 in
    if zlen (text i key) >? size - k - 5 then
      if k >? 0
      then (letM _ := consume k in
            retrieve_from f fetch withCAS ((a, zlen key) :: keys) out size 0) w2
      else (Throw BufferOverflowException, w2)
    else retrieve_from f fetch withCAS keys out size (k + zlen (text i key)) w2.
Proof.
  intros [Hk _] E. cbn [retrieve]. unfold bindM at 1, read, read_mem. rewrite Hk.
  unfold bindM at 1, call, looked_up. destruct (fetch (w_store w) key) as [o s].
  cbn in E |- *. subst o. unfold bindM at 1, on_mem. cbn [w_mem set_store].
  pose proof (rec_write_size (w_mem w) i key (out + k) (size - k) withCAS) as Hs.
  destruct (rec_write _ _ _ _ _ _) as [m' n]. cbn in Hs |- *. subst n.
  destruct (_ >? size - k - 5); [|done]. by destruct (k >? 0).
Qed.

(** A write past the pending bytes delivers nothing yet. *)
Lemma delivered_scratch w m k :
  0 <= k <= size -> same_off (w_mem w) m (out + k) (Z.max 0 (size - k)) ->
  delivered w (set_mem m w) k k [] (w_store w).
Proof.
  intros Hk Ho. split; try done; cbn.
  - eapply same_off_widen; [exact Ho|lia|lia].
  - rewrite app_nil_r. f_equal. apply bytes_at_same. eapply same_off_on; [exact Ho|lia].
Qed.

Lemma delivered_flush w k : delivered w (add_sent (bytes_at (w_mem w) out k) w) k 0 [] (w_store w).
Proof. split; try done. cbn. by rewrite bytes_at_0, !app_nil_r. Qed.

Lemma executed_done w k a l :
  r_exn a = None -> r_bytes a = l -> r_store a = w_store w -> 0 <= k -> k + zlen l <= size ->
  executed (letM _ := write l (out + k) in ret (k + zlen l)) w k a.
Proof.
  intros E1 E2 E3 Hk Hl. exists (Ok (k + zlen l)), (set_mem (copyBytes (w_mem w) l (out + k)) w).
  split; [done|]. rewrite E1, E2, E3. exists (k + zlen l). split; [done|]. split; [zlia|].
  by apply delivered_copy.
Qed.

(** An item that fits behind the pending bytes, in a world like [w]. *)
Lemma retrieve_fit f a keys w k key i s r :
  holds (w_mem w) a key -> fetch (w_store w) key = (Some i, s) ->
  0 <= k -> k + zlen (text i key) + 5 <= size ->
  (forall w', same_off (w_mem w) (w_mem w') out size -> w_store w' = s ->
    executed (retrieve_from f fetch withCAS keys out size (k + zlen (text i key)))
      w' (k + zlen (text i key)) r) ->
  executed (retrieve_from (Datatypes.S f) fetch withCAS ((a, zlen key) :: keys) out size k) w k
    (Build_Reply (text i key ++ r_bytes r) (r_exn r) (r_store r)).
Proof.
  intros Ha Ef Hk Hfit X.
  set (w1 := looked_up w key).
  assert (Es : w_store w1 = s) by (unfold w1, looked_up; by rewrite Ef).
  pose proof (delivered_copy w1 k (text i key) (k + zlen (text i key))) as D.
  eapply executed_step; [| |apply X].
  - rewrite (retrieve_hit f a keys w k key i) by (done || by rewrite Ef). cbv zeta.
    rewrite rec_write_fits by lia. cbn [fst]. zcase. reflexivity.
  - eapply delivered_trans0; [apply looked_up_delivered|]. apply D; zlia.
  - apply (D ltac:(lia) ltac:(lia) eq_refl).
  - exact Es.
Qed.

(** An item that does not fit behind the pending bytes: they are sent, and the key
    is looked up again. *)
Lemma retrieve_flush f a keys w k key i s r :
  holds (w_mem w) a key -> fetch (w_store w) key = (Some i, s) ->
  0 < k -> k + 5 <= size -> size < k + zlen (text i key) + 5 ->
  (forall w', same_off (w_mem w) (w_mem w') out size -> fetch (w_store w') key = (Some i, s) ->
    executed (retrieve_from f fetch withCAS ((a, zlen key) :: keys) out size 0) w' 0 r) ->
  executed (retrieve_from (Datatypes.S f) fetch withCAS ((a, zlen key) :: keys) out size k) w k r.
Proof.
  intros Ha Ef Hk Hk5 Hbig X.
  set (w1 := looked_up w key).
  set (m2 := (rec_write (w_mem w) i key (out + k) (size - k) withCAS).1).
  assert (Ho : same_off (w_mem w) m2 (out + k) (Z.max 0 (size - k))) by apply rec_write_off.
  apply (executed_step0 _ (retrieve_from f fetch withCAS ((a, zlen key) :: keys) out size 0)
    w (add_sent (bytes_at m2 out k) (set_mem m2 w1)) k 0 (w_store w1)); [| |apply X].
  - rewrite (retrieve_hit f a keys w k key i) by (done || by rewrite Ef). cbv zeta.
    do 2 zcase. unfold bindM. rewrite consume_ok by lia. reflexivity.
  - eapply delivered_trans0; [apply looked_up_delivered|].
    eapply delivered_trans0; [apply (delivered_scratch w1 m2 k); [lia|done]|].
    exact (delivered_flush (set_mem m2 w1) k).
  - cbn. eapply same_off_widen; [exact Ho|lia|lia].
  - cbn. rewrite fetch_again. exact Ef.
Qed.

(** An item that the empty buffer cannot hold. *)
Lemma retrieve_overflow f a keys w key i s :
  holds (w_mem w) a key -> fetch (w_store w) key = (Some i, s) ->
  size < zlen (text i key) + 5 ->
  executed (retrieve_from (Datatypes.S f) fetch withCAS ((a, zlen key) :: keys) out size 0) w 0
    (Build_Reply [] (Some BufferOverflowException) s).
Proof.
  intros Ha Ef Hbig. eexists _, _. split.
  - rewrite (retrieve_hit f a keys w 0 key i) by (done || by rewrite Ef). cbv zeta.
    do 2 zcase. reflexivity.
  - split; [done|]. cbn [r_bytes r_store].
    eapply delivered_trans0; [apply looked_up_delivered|].
    replace s with (w_store (looked_up w key)) by (unfold looked_up; by rewrite Ef).
    apply delivered_scratch; [lia|]. apply rec_write_off.
Qed.

Lemma retrieve_gather ks : forall keys f w k,
  Forall2 (fun (a : Z * Z) key => a.2 = zlen key /\ holds (w_mem w) a.1 key) keys ks ->
  (2 * length keys + 1 <= f)%nat -> 0 <= k -> k + 5 <= size ->
  executed (retrieve_from f fetch withCAS keys out size k) w k (gathered ks (w_store w)).
Proof.
  induction ks as [|key ks IH]; intros keys f w k F Hf Hk Hk5; (destruct f as [|f]; [lia|]).
  { apply Forall2_nil_inv_r in F as ->. by apply (executed_done w k). }
  apply Forall2_cons_inv_r in F as ([a n] & keys' & [En Ha] & F' & ->).
  cbn in En, Ha. subst n. cbn [length] in Hf. cbn [gather].
  assert (Next : forall f' w' k', (2 * length keys' + 1 <= f')%nat ->
    same_off (w_mem w) (w_mem w') out size -> 0 <= k' -> k' + 5 <= size ->
    executed (retrieve_from f' fetch withCAS keys' out size k') w' k' (gathered ks (w_store w'))).
  { intros f' w' k' Hf' Ho ??. apply IH; try done. eapply Forall2_impl; [|exact F'].
    intros [a' n'] key' [E' A']. split; [done|]. by eapply holds_off. }
  destruct (fetch (w_store w) key) as [[i|] s] eqn:Ef.
  2:{ assert (w_store (looked_up w key) = s) as <- by (unfold looked_up; by rewrite Ef).
      eapply executed_step0; [apply retrieve_miss; [done|by rewrite Ef]|apply looked_up_delivered|].
      apply Next; [lia|apply same_off_refl|done..]. }
  assert (Fits : forall f' w' k', (2 * length keys' + 1 <= f')%nat ->
    same_off (w_mem w) (w_mem w') out size -> fetch (w_store w') key = (Some i, s) ->
    0 <= k' -> k' + zlen (text i key) + 5 <= size ->
    executed (retrieve_from (Datatypes.S f') fetch withCAS ((a, zlen key) :: keys') out size k') w' k'
      (let r := gathered ks s in Build_Reply (text i key ++ r_bytes r) (r_exn r) (r_store r))).
  { intros f' w' k' Hf' Ho Ef' ??. eapply retrieve_fit; try done; [by eapply holds_off|].
    intros w2 Ho2 <-. apply Next; try done; [|zlia..]. by eapply same_off_trans. }
  destruct (Z.ltb_spec size (zlen (text i key) + 5)) as [Hbig|Hsmall].
  - destruct (decide (k = 0)) as [->|]; [by apply retrieve_overflow with i|].
    eapply retrieve_flush; [done..|lia|done|zlia|]. intros w' Ho Ef'.
    destruct f as [|f]; [lia|]. apply retrieve_overflow with i; try done. by eapply holds_off.
  - destruct (decide (k + zlen (text i key) + 5 <= size)).
    + apply Fits; try done; lia.
    + eapply retrieve_flush; [done..|zlia|done|zlia|]. intros w' Ho Ef'.
      destruct f as [|f]; [lia|]. apply Fits; try done; lia.
Qed.

End Retrieval.

(** ** Single-key commands *)

Section SingleKey.
Hypothesis size_ok : 44 <= size.

Lemma CAS_execute_ok c w key val :
  bytes_at (w_mem w) (keyPtr c) (keySize c) = key ->
  bytes_at (w_mem w) (valPtr c) (valSize c) = val ->
  executed (CAS_execute c out) w 0
    (let '(o, s) := mc_cas (w_store w) key val (to_int (flags c)) (exptime c) (cas c) in
     done_with (unless (noreply c) (cas_text o)) s).
Proof.
  intros Ek Ev. unfold CAS_execute. apply read_executed, read_executed. rewrite Ek, Ev.
  apply call_executed. destruct (mc_cas _ _ _ _ _ _) as [o s]. cbn [fst snd].
  apply unless_executed; [lia| |done]. intros _.
  destruct o; (eapply (reply_executed _ _ (set_store s w)); [done|cbn; lia]).
Qed.

Lemma storage_execute_ok op c w key val :
  bytes_at (w_mem w) (keyPtr c) (keySize c) = key ->
  bytes_at (w_mem w) (valPtr c) (valSize c) = val ->
  executed (storage_execute op c out) w 0
    (let '(o, s) := op (w_store w) key val (to_int (flags c)) (exptime c) in
     done_with (unless (noreply c) (stored_text o)) s).
Proof.
  intros Ek Ev. unfold storage_execute. apply read_executed, read_executed. rewrite Ek, Ev.
  apply call_executed. destruct (op _ _ _ _ _) as [o s]. cbn [fst snd].
  apply unless_executed; [lia| |done]. intros _. unfold stored_text.
  destruct (decide (o = NOT_STORED)); (eapply (reply_executed _ _ (set_store s w)); [done|cbn; lia]).
Qed.

Lemma StorageCommand_execute_ok v c w key val :
  bytes_at (w_mem w) (keyPtr c) (keySize c) = key ->
  bytes_at (w_mem w) (valPtr c) (valSize c) = val ->
  executed (StorageCommand_execute v c out) w 0
    (let '(o, s) := store_op v (w_store w) key val (to_int (flags c)) (exptime c) (cas c) in
     done_with (unless (noreply c) (match v with CAS => cas_text o | _ => stored_text o end)) s).
Proof.
  intros Ek Ev. destruct v; by (eapply storage_execute_ok || eapply CAS_execute_ok).
Qed.

Lemma TOUCH_execute_ok c w key :
  bytes_at (w_mem w) (keyPtr c) (keySize c) = key ->
  executed (TOUCH_execute c out) w 0
    (let '(t, s) := mc_touch (w_store w) key (exptime c) in
     done_with (unless (noreply c) (if t <? 0 then c_NOT_FOUND else c_TOUCHED)) s).
Proof.
  intros Ek. unfold TOUCH_execute. apply read_executed. rewrite Ek.
  apply call_executed. destruct (mc_touch _ _ _) as [t s]. cbn [fst snd].
  apply unless_executed; [lia| |done]. intros _.
  repeat zcase; (eapply (reply_executed _ _ (set_store s w)); [done|cbn; lia]).
Qed.

Lemma DELETE_execute_ok c w key :
  bytes_at (w_mem w) (keyPtr c) (keySize c) = key ->
  executed (DELETE_execute c out) w 0
    (let '(o, s) := mc_delete (w_store w) key in
     done_with (unless (noreply c) (if decide (o = DELETED) then c_DELETED else c_NOT_FOUND)) s).
Proof.
  intros Ek. unfold DELETE_execute. apply read_executed. rewrite Ek.
  apply call_executed. destruct (mc_delete _ _) as [o s]. cbn [fst snd].
  apply unless_executed; [lia| |done]. intros _.
  destruct (decide _); (eapply (reply_executed _ _ (set_store s w)); [done|cbn; lia]).
Qed.

End SingleKey.

(** One byte more. *)
Lemma delivered_put w k c :
  0 <= k < size -> delivered w (set_mem (putByte (w_mem w) (out + k) c) w) k (k + 1) [c] (w_store w).
Proof.
  intros Hk. split; try done; cbn.
  - eapply same_off_widen; [apply putByte_off|lia|lia].
  - f_equal. rewrite bytes_at_app by lia. f_equal.
    + apply bytes_at_same. eapply same_off_on; [apply putByte_off|lia].
    + by rewrite bytes_at_1, toByte_putByte, Z.eqb_refl.
Qed.

(** The digits, then the line end byte by byte. *)
Lemma number_executed l w :
  zlen l + 2 <= size ->
  executed (letM _ := write l out in letM _ := crlf (out + zlen l) in ret (zlen l + 2)) w 0
    (done_with (l ++ CRLF) (w_store w)).
Proof.
  intros Hl. pose proof (zlen_nonneg l).
  pose proof (delivered_write w l ltac:(lia)) as D1.
  set (w1 := set_mem _ w) in D1.
  pose proof (delivered_put w1 (zlen l) CR ltac:(lia)) as D2. set (w2 := set_mem _ w1) in D2.
  pose proof (delivered_put w2 (zlen l + 1) LF ltac:(lia)) as D3. set (w3 := set_mem _ w2) in D3.
  exists (Ok (zlen l + 2)), w3. split.
  - unfold bindM, write, crlf, put_byte, on_mem, ret, w3, w2, w1. cbn.
    by rewrite Z.add_assoc.
  - exists (zlen l + 2). split; [done|]. split; [lia|].
    replace (zlen l + 2) with (zlen l + 1 + 1) by lia. change CRLF with ([CR] ++ [LF]).
    eapply delivered_trans; [exact D1|]. by eapply delivered_trans.
Qed.

(** [INCR.execute] and [DECR.execute], on every branch. *)
Lemma arith_execute_ok op c w key :
  bytes_at (w_mem w) (keyPtr c) (keySize c) = key -> 11 <= size ->
  let a := (let '(r, s) := op (w_store w) key (value c) in arith r (noreply c) s) in
  zlen (r_bytes a) <= size ->
  executed (arith_execute op c out) w 0 a.
Proof.
  intros Ek Hsize. unfold arith_execute.
  destruct (op (w_store w) key (value c)) as [[e|v] s] eqn:Eop; cbn zeta; intros Hfit.
  - assert (Ans : forall msg, zlen (unless (noreply c) msg) <= size ->
      executed (if negb (noreply c) then letM _ := write msg out in ret (zlen msg) else ret 0)
        (set_store s w) 0 (done_with (unless (noreply c) msg) s)).
    { intros msg Hm. apply unless_executed; [lia| |done]. intros E. rewrite E in Hm.
      by apply (write_executed msg (set_store s w)). }
    assert (Thrown : (letM key := read (keyPtr c) (keySize c) in
       letM r := call (fun s => op s key (value c)) in
       letM result := (match r with inl e => throw e | inr v => ret v end) in
       if negb (noreply c) then
         if result >=? 0 then
           let s := longToStrDirect result in
           let size := zlen s in
           letM _ := write s out in
           letM _ := crlf (out + size) in
           ret (size + 2)
         else reply c_NOT_FOUND 11 out
       else ret 0) w = (Throw e, set_store s w)).
    { unfold bindM at 1, read, read_mem. rewrite Ek. unfold bindM at 1, call. rewrite Eop. done. }
    destruct e; cbn [arith arith_error] in *;
      (eapply try_catch_handled;
        [exact Thrown|reflexivity|apply delivered_store|by apply Ans])
      || (eexists _, _; split;
        [unfold try_catch; rewrite Thrown; reflexivity|split; [done|apply delivered_store]]).
  - apply try_catch_executed; [|done]. apply read_executed, call_executed. rewrite Ek, Eop.
    cbn [fst snd arith] in *. change (letM result := ret v in ?k) with k.
    eapply unless_executed; [lia| |done]. intros E. rewrite E in Hfit. cbn [unless r_bytes] in Hfit.
    repeat zcase.
    + by apply (reply_executed _ _ (set_store s w)).
    + apply (number_executed _ (set_store s w)). zlia.
Qed.

(** ** The command of a request *)

(** A piece of a region that holds [a ++ k ++ b]. *)
Lemma holds_piece m p l a k b :
  view m p (zlen l) l -> apart p (zlen l) -> l = a ++ k ++ b -> holds m (p + zlen a) k.
Proof.
  intros V A ->. apply view_app in V as [_ V]. apply view_app in V as [V _]. split.
  - apply (bytes_at_view _ _ (zlen (a ++ k ++ b) - zlen a)); [done|zlia].
  - unfold apart in *. zlen_norm. pose proof (zlen_nonneg a). pose proof (zlen_nonneg k).
    pose proof (zlen_nonneg b). lia.
Qed.

Lemma holds_keys m ks : forall p l a b,
  view m p (zlen l) l -> apart p (zlen l) -> l = a ++ put_keys ks ++ b ->
  Forall2 (fun (q : Z * Z) key => q.2 = zlen key /\ holds m q.1 key)
    (zip (key_addrs (p + zlen a) ks) (zlen <$> ks)) ks.
Proof.
  induction ks as [|k ks IH]; intros p l a b V A El; [constructor|].
  cbn [key_addrs fmap list_fmap zip]. destruct ks as [|k' ks].
  - constructor; [split; [done|by eapply holds_piece]|constructor].
  - cbn [put_keys] in El. constructor.
    + split; [done|]. eapply (holds_piece m p l a k); [done..|].
      rewrite El. by rewrite <- !app_assoc.
    + specialize (IH p l (a ++ k ++ SPACE) b V A).
      replace (p + zlen a + zlen k + 1) with (p + zlen (a ++ k ++ SPACE))
        by (unfold SPACE; zlia).
      apply IH. rewrite El. by rewrite <- !app_assoc.
Qed.

Context `{!RecordWriterLaws mem item, !MemcachedRetryLaws S item}.
Hypothesis consume_ok : consumes.
Hypothesis size_ok : 44 <= size.

Lemma length_key_addrs p ks : length (key_addrs p ks) = length ks.
Proof. revert p. induction ks as [|k ks IH]; intros p; cbn; [done|]. by rewrite IH. Qed.

Lemma execute_respond r p w :
  request_ok r -> view (w_mem w) p (zlen (encode r)) (encode r) -> apart p (zlen (encode r)) ->
  reply_fits rec_render size r (w_store w) ->
  executed (execute version consume (command_of r p) out size) w 0
    (respond rec_render size r (w_store w)).
Proof.
  intros Hr V A Hfit. pose proof V as V0.
  rewrite encode_split in V, A by (destruct r; cbn in Hr; tauto).
  assert (K : forall k a b, encode r = a ++ k ++ b -> holds (w_mem w) (p + zlen a) k).
  { intros k a b E. eapply holds_piece; [exact V0| |exact E].
    by rewrite encode_split by (destruct r; cbn in Hr; tauto). }
  rewrite encode_split in K by (destruct r; cbn in Hr; tauto).
  destruct r as [v key val f e nr c|v e ks|key val nr|key val nr|key e nr|key nr];
    cbn [request_ok respond command_of execute request_args reply_fits] in *.
  - set (line := store_line v key f e (zlen val) c nr) in *.
    assert (En : str (request_name (RStore v key val f e nr c)) = verb_name v) by (by destruct v).
    rewrite En in K.
    destruct (K key (verb_name v ++ [SP]) (drop (length key) line ++ CR :: LF :: val ++ CRLF))
      as [Kk _].
    { unfold line, store_line. rewrite drop_app_length. by rewrite <- !app_assoc. }
    destruct (K val (verb_name v ++ [SP] ++ line ++ CRLF) CRLF) as [Kv _].
    { by rewrite <- !app_assoc. }
    replace (p + zlen (verb_name v ++ [SP])) with (p + zlen (verb_name v) + 1) in Kk by zlia.
    replace (p + zlen (verb_name v ++ [SP] ++ line ++ CRLF))
      with (p + zlen (verb_name v) + 1 + zlen line + 2) in Kv by zlia.
    lazymatch goal with |- executed (StorageCommand_execute v ?c out) _ _ _ =>
      pose proof (StorageCommand_execute_ok size_ok v c w key val Kk Kv) as X end.
    cbn [flags exptime cas noreply] in X. destruct v; exact X.
  - destruct Hr as (Hne & Hks & He). set (t := r_isTouch (new_RetrievalCommand v)) in *.
    set (hd := if t then Long_toString e ++ SPACE else []).
    set (name := str (request_name (RGet v e ks))) in *.
    unfold RetrievalCommand_execute.
    assert (F : Forall2 (fun (q : Z * Z) key => q.2 = zlen key /\ holds (w_mem w) q.1 key)
      (zip (key_addrs (p + zlen (name ++ [SP] ++ hd)) ks) (zlen <$> ks)) ks).
    { eapply (holds_keys _ _ _ _ _ CRLF); [exact V|exact A|].
      unfold retrieval_tokens, hd. fold t. rewrite <- !app_assoc. do 2 f_equal.
      destruct t; [|done]. destruct ks as [|k ks]; [done|]. 
      change (put_keys (Long_toString e :: k :: ks)) with (Long_toString e ++ SPACE ++ put_keys (k :: ks)).
      by rewrite <- !app_assoc. }
    assert (R : forall fetch, (forall s k, fetch (fetch s k).2 k = fetch s k) ->
      forall cas q, q = p + zlen (name ++ [SP] ++ hd) ->
      executed (retrieve consume (2 * length (zip (key_addrs q ks) (zlen <$> ks)) + 1) fetch cas
        (zip (key_addrs q ks) (zlen <$> ks)) out size 0) w 0
        (gather rec_render size fetch cas ks (w_store w))).
    { intros fetch Ha cas q ->. apply retrieve_gather; try done; lia. }
    destruct v; apply R; try (intros; apply mc_get_again || apply mc_gets_again
      || apply mc_gat_again || apply mc_gats_again);
      unfold hd, t, name, SPACE; cbn; zlia.
  - destruct Hr as [Hk Hv].
    destruct (K key (str "incr" ++ [SP]) (SP :: Long_toString val ++ put_noreply nr ++ CRLF))
      as [Kk _]; [by rewrite <- !app_assoc|].
    unfold INCR_execute. eapply arith_execute_ok; [exact Kk|lia|exact Hfit].
  - destruct Hr as [Hk Hv].
    destruct (K key (str "decr" ++ [SP]) (SP :: Long_toString val ++ put_noreply nr ++ CRLF))
      as [Kk _]; [by rewrite <- !app_assoc|].
    unfold DECR_execute. eapply arith_execute_ok; [exact Kk|lia|exact Hfit].
  - destruct (K key (str "touch" ++ [SP]) (SP :: Long_toString e ++ put_noreply nr ++ CRLF))
      as [Kk _]; [by rewrite <- !app_assoc|].
    by eapply TOUCH_execute_ok.
  - destruct (K key (str "delete" ++ [SP]) (put_noreply nr ++ CRLF))
      as [Kk _]; [by rewrite <- !app_assoc|].
    by eapply DELETE_execute_ok.
Qed.

End ExecuteCorrect.
