(* ===== verification/ProcessCorrect.v ===== *)
(** * [CommandProcessor.process]

    What one call does, on every outcome of the parser: an incomplete request
    changes nothing, a malformed one is answered with its error text, and a
    well-formed one is executed - the pointer check in between never fails. *)

From S2P Require Import Prelude.
From S2P Require Import Memory.
From S2P Require Import Java.
From S2P Require Import CarrotCache.
From S2P Require Import Utils.
From S2P Require Import Command.
From S2P Require Import CommandParse.
From S2P Require Import CommandParser.
From S2P Require Import Client.
From S2P Require Import ParseCorrect.
From S2P Require Import ParseSafety.
From S2P Require Import World.
From S2P Require Import Execute.
From S2P Require Import Protocol.
From S2P Require Import ExecuteCorrect.
From S2P Require Import CommandProcessor.

Section ProcessCorrect.
Context {mem S item : Type}.
Context `{UnsafeAccessLaws mem} `{CarrotUtilsLaws} `{Memcached S item} `{RecordWriter mem item}.

#[local] Abbreviation MS := (M mem S).
#[local] Abbreviation world := (World mem S).

Variable version : option bytes.
Variable consume : Z -> MS unit.
Variables out size : Z.

#[local] Abbreviation process := (process version consume).

(** The parser's three outcomes. *)
Lemma process_incomplete p n w :
  parse (w_mem w) p n = Ok None -> process p n out size w = (Ok (-1), set_last None w).
Proof. intros E. unfold CommandProcessor.process, try_catch, bindM, read_mem, record_last. cbn. by rewrite E. Qed.

Lemma process_throw p n w e :
  parse (w_mem w) p n = Throw e ->
  process p n out size w =
    match process_handler out e with
    | Some h => h (set_last None w)
    | None => (Throw e, set_last None w)
    end.
Proof.
  intros E. unfold CommandProcessor.process, try_catch, bindM, read_mem, record_last. cbn.
  by rewrite E.
Qed.

(** A parsed command is executed: the test of [isMemorySafe] is always passed. *)
Lemma process_some p n w cmd :
  parse (w_mem w) p n = Ok (Some cmd) -> 0 <= p ->
  process p n out size w =
    try_catch (execute version consume cmd out size) (process_handler out) (set_last (Some cmd) w).
Proof.
  intros E Hp. destruct (parse_safe _ _ _ _ E Hp) as [Hs _].
  unfold CommandProcessor.process, try_catch, bindM, read_mem, record_last. cbn.
  rewrite E. cbn. rewrite Hs. done.
Qed.

(** [answer] writes the text and returns its length. *)
Lemma answer_eq msg (w : world) :
  answer msg out w = (Ok (zlen msg), set_mem (copyBytes (w_mem w) msg out) w).
Proof. done. Qed.

(** The exceptions that escape from a request are none the processor catches. *)
Lemma gather_exn render limit (fetch : S -> bytes -> option item * S) b ks s :
  r_exn (gather render limit fetch b ks s) = None \/
  r_exn (gather render limit fetch b ks s) = Some BufferOverflowException.
Proof.
  revert s. induction ks as [|k ks IH]; intros s; cbn; [by left|].
  destruct (fetch s k) as [[i|] s']; [|apply IH].
  destruct (limit <? _); [by right | apply IH].
Qed.

Lemma arith_uncaught r nr (s : S) e : r_exn (arith r nr s) = Some e -> process_handler (mem:=mem) (S:=S) out e = None.
Proof.
  unfold arith. destruct r as [e'|]; [|done].
  destruct (arith_error e') eqn:E; [done|]. intros [= <-]. by destruct e'.
Qed.

Lemma respond_uncaught render limit r s e :
  r_exn (respond render limit r s) = Some e -> process_handler (mem:=mem) (S:=S) out e = None.
Proof.
  destruct r; cbn [respond].
  - by destruct (store_op _ _ _ _ _ _ _).
  - match goal with |- context [gather ?a ?b ?c ?d ?f ?g] =>
      destruct (gather_exn a b c d f g) as [-> | ->] end; [done|]. by intros [= <-].
  - destruct (mc_incr _ _ _). apply arith_uncaught.
  - destruct (mc_decr _ _ _). apply arith_uncaught.
  - by destruct (mc_touch _ _ _).
  - by destruct (mc_delete _ _).
Qed.

Context `{!RecordWriterLaws mem item, !MemcachedRetryLaws S item}.
Hypothesis consume_ok : consumes consume out size.
Hypothesis size_ok : 44 <= size.

(** A complete request at [p], whatever follows it in the buffer: the processor
    records its command and does what the protocol says. *)
Lemma process_respond r p n w :
  request_ok r -> 0 <= p -> zlen (encode r) <= n ->
  view (w_mem w) p n (encode r) -> apart out size p (zlen (encode r)) ->
  reply_fits rec_render size r (w_store w) ->
  executed out size (fun _ => process p n out size w)
    (set_last (Some (command_of r p)) w) 0 (respond rec_render size r (w_store w)).
Proof.
  intros Hr Hp Hn V A Hfit.
  pose proof (parse_encode r (w_mem w) p n Hr V) as E. rewrite (proj2 (Z.ltb_ge _ _)) in E by done.
  assert (X : executed out size
    (try_catch (execute version consume (command_of r p) out size) (process_handler out))
    (set_last (Some (command_of r p)) w) 0 (respond rec_render size r (w_store w))).
  { apply try_catch_executed; [|destruct (r_exn _) eqn:Ex; [by eapply respond_uncaught|done]].
    apply (execute_respond version consume out size consume_ok size_ok r p
      (set_last (Some (command_of r p)) w)); try done. by eapply view_mono. }
  destruct X as (res & w' & Ex & X). exists res, w'. split; [|exact X].
  rewrite <- Ex. by apply process_some.
Qed.

(** A request of which only [n] bytes have arrived. *)
Lemma process_partial r p n w :
  request_ok r -> n < zlen (encode r) -> view (w_mem w) p n (encode r) ->
  process p n out size w = (Ok (-1), set_last None w).
Proof.
  intros Hr Hn V. apply process_incomplete.
  rewrite (parse_encode r) by done. by rewrite (proj2 (Z.ltb_lt _ _)).
Qed.

End ProcessCorrect.
