(* ===== verification/Stream.v ===== *)
(** * Streams of requests

    The byte stream a client produces when it pipelines requests, which requests
    a prefix of it completes, and how the replies of a pipeline compose. *)

From S2P Require Import Prelude.
From S2P Require Import Memory.
From S2P Require Import Java.
From S2P Require Import CarrotCache.
From S2P Require Import Utils.
From S2P Require Import Command.
From S2P Require Import CommandParse.
From S2P Require Import Client.
From S2P Require Import ParseCorrect.
From S2P Require Import World.
From S2P Require Import Execute.
From S2P Require Import Protocol.

Definition stream (rs : list Request) : bytes := concat (encode <$> rs).

(** ** Lengths *)

Lemma encode_pos r : request_ok r -> 5 < zlen (encode r).
Proof.
  intros Hr. rewrite encode_split by (destruct r; cbn in Hr; tauto).
  destruct (request_name_token r) as [_ Hn].
  assert (2 < zlen (request_args r)).
  { assert (T : forall t l, token t -> 2 <= zlen l -> 2 < zlen (t ++ l)).
    { intros t l Ht Hl. pose proof (token_pos t Ht). zlia. }
    destruct r as [v key val f e nr c|v e ks|key val nr|key val nr|key e nr|key nr];
      cbn [request_args request_ok] in *;
      try (apply T; [by apply key_token; tauto|]; zlia).
    - unfold store_line. rewrite <- app_assoc. apply T; [apply key_token; tauto|]. zlia.
    - unfold retrieval_tokens. destruct Hr as (Hne & Hks & _).
      destruct (r_isTouch _).
      + rewrite put_keys_cons, <- app_assoc. apply T; [apply num_token|]. zlia.
      + destruct ks as [|t ts]; [done|]. inversion Hks; subst.
        rewrite put_keys_cons, <- app_assoc. apply T; [by apply key_token|zlia]. }
  zlia.
Qed.

Lemma stream_cons r rs : stream (r :: rs) = encode r ++ stream rs.
Proof. done. Qed.
Lemma stream_app rs1 rs2 : stream (rs1 ++ rs2) = stream rs1 ++ stream rs2.
Proof. unfold stream. by rewrite fmap_app, concat_app. Qed.

(** ** [complete] *)

Lemma complete_cons_lt n r rs : n < zlen (encode r) -> complete n (r :: rs) = [].
Proof. intros. cbn. by rewrite (proj2 (Z.leb_gt _ _)). Qed.
Lemma complete_cons_le n r rs :
  zlen (encode r) <= n -> complete n (r :: rs) = r :: complete (n - zlen (encode r)) rs.
Proof. intros. cbn. by rewrite (proj2 (Z.leb_le _ _)). Qed.

Lemma complete_app n rs1 rs2 :
  zlen (stream rs1) <= n -> complete n (rs1 ++ rs2) = rs1 ++ complete (n - zlen (stream rs1)) rs2.
Proof.
  revert n. induction rs1 as [|r rs1 IH]; intros n Hn; cbn [app].
  - by rewrite Z.sub_0_r.
  - rewrite stream_cons, zlen_app in *. pose proof (zlen_nonneg (stream rs1)).
    rewrite complete_cons_le by lia. rewrite IH by lia. do 2 f_equal. f_equal. lia.
Qed.

(** What is completed, and what is left. *)
Lemma complete_split n rs :
  0 <= n -> exists rs2, rs = complete n rs ++ rs2 /\ zlen (stream (complete n rs)) <= n /\
    complete (n - zlen (stream (complete n rs))) rs2 = [].
Proof.
  revert n. induction rs as [|r rs IH]; intros n Hn.
  - by exists [].
  - destruct (Z.le_gt_cases (zlen (encode r)) n).
    + rewrite complete_cons_le by done.
      destruct (IH (n - zlen (encode r))) as (rs2 & E1 & E2 & E3); [lia|].
      exists rs2. cbn [app]. rewrite stream_cons, zlen_app. split_and!; [by rewrite <- E1|lia|].
      rewrite <- E3. f_equal. lia.
    + exists (r :: rs). rewrite !complete_cons_lt by done. split_and!; try done.
      rewrite complete_cons_lt; [done|]. change (zlen (stream [])) with 0; lia.
Qed.

Lemma complete_mono n n' rs : n <= n' -> exists k, complete n' rs = complete n rs ++ k.
Proof.
  revert n n'. induction rs as [|r rs IH]; intros n n' Hn; [by exists []|].
  destruct (Z.le_gt_cases (zlen (encode r)) n).
  - rewrite !complete_cons_le by lia.
    destruct (IH (n - zlen (encode r)) (n' - zlen (encode r))) as [k ->]; [lia|]. by exists k.
  - rewrite (complete_cons_lt n) by done. by eexists.
Qed.

(** No request is empty. *)
Lemma stream_nil rs : Forall request_ok rs -> zlen (stream rs) = 0 -> rs = [].
Proof.
  intros F E. destruct F as [|r rs Hr F]; [done|]. rewrite stream_cons, zlen_app in E.
  pose proof (encode_pos r Hr). pose proof (zlen_nonneg (stream rs)). lia.
Qed.

(** Everything is completed by a stream that has arrived in full. *)
Lemma complete_all rs : complete (zlen (stream rs)) rs = rs.
Proof.
  pose proof (complete_app (zlen (stream rs)) rs []) as E. rewrite app_nil_r in E.
  rewrite E by lia. cbn. apply app_nil_r.
Qed.

(** The bytes of an incomplete request are less than a buffer. *)
Lemma complete_nil_lt n rs limit :
  complete n rs = [] -> Forall (fun r => zlen (encode r) <= limit) rs ->
  n <= zlen (stream rs) -> 0 < limit -> n < limit.
Proof.
  intros E F Hn Hl. destruct rs as [|r rs]; [change (zlen (stream [])) with 0 in Hn; lia|].
  inversion F; subst. destruct (Z.le_gt_cases (zlen (encode r)) n); [|lia].
  by rewrite complete_cons_le in E.
Qed.

Lemma complete_Forall (P : Request -> Prop) n rs : Forall P rs -> Forall P (complete n rs).
Proof.
  intros F. revert n. induction F as [|r rs Hr F IH]; intros n; cbn; [done|].
  destruct (_ <=? n); [by constructor|done].
Qed.

(** ** Replies of a pipeline *)

Section Replies.
Context {S item : Type}.
Context `{CarrotUtils} `{Memcached S item}.
Variable render : item -> bytes -> bool -> bytes.
Variable limit : Z.

#[local] Abbreviation respond_all := (respond_all render limit).

(** All replies fit their buffer and no exception escapes. *)
Definition all_answered (rs : list Request) (s : S) : Prop :=
  replies_fit render limit rs s /\ r_exn (respond_all rs s) = None.

Lemma all_answered_cons r rs s :
  all_answered (r :: rs) s <->
  reply_fits render limit r s /\ r_exn (respond render limit r s) = None /\
  all_answered rs (r_store (respond render limit r s)).
Proof.
  unfold all_answered. cbn [Protocol.respond_all replies_fit].
  destruct (r_exn (respond render limit r s)) as [e|] eqn:E; cbn [r_exn].
  - rewrite E. split; [intros [_ ?]; congruence | intros (_ & ? & _); congruence].
  - split; [intros [[? X] ?]; auto | intros (? & _ & ? & ?); auto].
Qed.

Lemma respond_all_cons r rs s :
  r_exn (respond render limit r s) = None ->
  respond_all (r :: rs) s =
    (let a := respond render limit r s in let b := respond_all rs (r_store a) in
     Build_Reply (r_bytes a ++ r_bytes b) (r_exn b) (r_store b)).
Proof. intros E. cbn [Protocol.respond_all]. by rewrite E. Qed.

Lemma all_answered_app rs1 rs2 s :
  all_answered (rs1 ++ rs2) s <->
  all_answered rs1 s /\ all_answered rs2 (r_store (respond_all rs1 s)).
Proof.
  revert s. induction rs1 as [|r rs1 IH]; intros s; cbn [app].
  - unfold all_answered at 2. cbn. tauto.
  - rewrite !all_answered_cons, IH. split.
    + intros (? & E & ? & ?). rewrite respond_all_cons by done. done.
    + intros [(? & E & ?) X]. rewrite respond_all_cons in X by done. done.
Qed.

Lemma respond_all_app rs1 rs2 s :
  r_exn (respond_all rs1 s) = None ->
  r_bytes (respond_all (rs1 ++ rs2) s) =
    r_bytes (respond_all rs1 s) ++ r_bytes (respond_all rs2 (r_store (respond_all rs1 s))) /\
  r_exn (respond_all (rs1 ++ rs2) s) = r_exn (respond_all rs2 (r_store (respond_all rs1 s))) /\
  r_store (respond_all (rs1 ++ rs2) s) = r_store (respond_all rs2 (r_store (respond_all rs1 s))).
Proof.
  revert s. induction rs1 as [|r rs1 IH]; intros s E; cbn [app]; [done|].
  destruct (r_exn (respond render limit r s)) as [e|] eqn:Er.
  - exfalso. cbn [Protocol.respond_all] in E. rewrite Er in E. congruence.
  - rewrite !respond_all_cons in * by done. cbn [r_exn r_bytes r_store] in *.
    destruct (IH _ E) as (-> & -> & ->). by rewrite app_assoc.
Qed.

End Replies.
