(* ===== verification/Network.v ===== *)
(** * Network events

    What the events of a connection carry, and what one [channel.read] does with
    them. *)

From S2P Require Import Prelude.
From S2P Require Import Memory.
From S2P Require Import Java.
From S2P Require Import CarrotCache.
From S2P Require Import Command.
From S2P Require Import World.
From S2P Require Import Execute.
From S2P Require Import WorkThread.

(** A connection on which bytes arrive and nothing fails. *)
Definition quiet (e : Event) : Prop := match e with Data _ | Idle => True | _ => False end.
Definition event_data (e : Event) : bytes := match e with Data l => l | _ => [] end.
Definition data (es : list Event) : bytes := concat (event_data <$> es).

Section Read.
Context {mem S : Type} `{UnsafeAccess mem}.
Variables in_ptr bufferSize : Z.

(** A read of [l] takes a prefix of it, and makes progress. *)
Lemma channel_read_split N l es (w : World mem S) :
  0 <= N < bufferSize ->
  exists l1 l2 es', channel_read in_ptr bufferSize N l es w =
      (Ok (zlen l1), set_mem (copyBytes (w_mem w) l1 (in_ptr + N)) (set_input es' w)) /\
    l = l1 ++ l2 /\ zlen l1 <= bufferSize - N /\ data es' = l2 ++ data es /\
    (Forall quiet es -> Forall quiet es') /\
    (events_size es' < events_size (Data l :: es))%nat.
Proof.
  intros HN. set (n := Z.min (zlen l) (bufferSize - N)). pose proof (zlen_nonneg l).
  set (l1 := take (Z.to_nat n) l). set (l2 := drop (Z.to_nat n) l).
  assert (El : l = l1 ++ l2) by (unfold l1, l2; by rewrite take_drop).
  assert (Hl1 : zlen l1 = n) by (unfold l1, zlen; rewrite length_take; unfold n, zlen in *; lia).
  assert (Hl : zlen l = n + zlen l2) by (rewrite El at 1; rewrite zlen_app; lia).
  exists l1, l2, (match l2 with [] => es | _ => Data l2 :: es end).
  split; [by rewrite Hl1|]. split; [done|]. split; [lia|].
  destruct l2 as [|x l2'] eqn:E2; (split; [done|split; [first [done | intros; by constructor]|]]);
    unfold events_size; cbn [sum_list_with event_size]; [lia|].
  assert (0 < n) by (unfold n in *; rewrite zlen_cons in Hl; pose proof (zlen_nonneg l2'); lia).
  unfold zlen in Hl. cbn [length] in *. lia.
Qed.

End Read.
