(* ===== verification/Termination.v ===== *)
(** * The worker always comes back

    On any input whatsoever - any bytes, cut and mixed with errors in any way -
    serving a channel ends: the loops of the parser, of the retrieval commands, of
    the batch and of the reads all stop within the fuel the model gives them. *)

From S2P Require Import Prelude.
From S2P Require Import Memory.
From S2P Require Import Java.
From S2P Require Import CarrotCache.
From S2P Require Import Utils.
From S2P Require Import Command.
From S2P Require Import CommandParse.
From S2P Require Import CommandParser.
From S2P Require Import ParseSafety.
From S2P Require Import World.
From S2P Require Import Execute.
From S2P Require Import CommandProcessor.
From S2P Require Import WorkThread.
From S2P Require Import Network.

(** ** Results *)

(** The computation ended. *)
Definition ended {A} (r : result A) : Prop := r <> OutOfFuel.

Lemma ended_rbind {A B} (r : result A) (f : A -> result B) :
  ended r -> (forall a, ended (f a)) -> ended (rbind r f).
Proof. destruct r; cbn; auto; done. Qed.
Lemma ended_catch {A} (r : result A) e : ended r -> ended (catch_nfe r e).
Proof. by destruct r as [|[]| |]. Qed.
Lemma ended_ok {A} (a : A) : ended (Ok a).
Proof. done. Qed.
Lemma ended_throw {A} e : ended (@Throw A e).
Proof. done. Qed.

Create HintDb ended.
#[export] Hint Resolve ended_ok ended_throw ended_catch : ended.

(** Walk through the tests and binds of a parser. *)
Ltac ends :=
  repeat first
    [ progress (auto with ended)
    | apply ended_rbind; [|intros]
    | match goal with |- ended (match ?x with _ => _ end) => destruct x end
    | apply ended_catch ].

Section ParseEnds.
Context {mem : Type} `{UnsafeAccess mem} `{CarrotUtils}.
Implicit Types (m : mem).

Lemma getLong_ended m p n : ended (getLong m p n).
Proof. unfold getLong. ends. Qed.
Lemma throwIfNotEquals_ended n v msg : ended (throwIfNotEquals n v msg).
Proof. unfold throwIfNotEquals. ends. Qed.
Lemma throwIfEquals_ended n v msg : ended (throwIfEquals n v msg).
Proof. unfold throwIfEquals. ends. Qed.
Lemma skip_crlf_ended msg m p n e : ended (skip_crlf msg m p n e).
Proof. unfold skip_crlf. ends. Qed.
#[local] Hint Resolve getLong_ended throwIfNotEquals_ended throwIfEquals_ended skip_crlf_ended : ended.

Lemma parse_tail_ended msg m p n e : ended (parse_tail msg m p n e).
Proof. unfold parse_tail. ends. Qed.
#[local] Hint Resolve parse_tail_ended : ended.

Lemma number_field_ended {A} msg m p n e (k : Z -> Z -> result (option A)) :
  (forall v e, ended (k v e)) -> ended (number_field msg m p n e k).
Proof. intros. unfold number_field. ends. Qed.

Lemma storage_finish_ended this m p n ks f ex vs c e :
  ended (storage_finish this m p n ks f ex vs c e).
Proof. unfold storage_finish. ends. Qed.
#[local] Hint Resolve storage_finish_ended : ended.

Lemma StorageCommand_parse_ended this m p n : ended (StorageCommand_parse this m p n).
Proof.
  unfold StorageCommand_parse.
  repeat first [progress ends | apply number_field_ended; intros].
Qed.
Lemma INCR_parse_ended this m p n : ended (INCR_parse this m p n).
Proof. unfold INCR_parse. ends. Qed.
Lemma TOUCH_parse_ended this m p n : ended (TOUCH_parse this m p n).
Proof. unfold TOUCH_parse. ends. Qed.
Lemma DELETE_parse_ended this m p n : ended (DELETE_parse this m p n).
Proof. unfold DELETE_parse. ends. Qed.

Lemma readKeys_ended todo first m p n e : ended (readKeys todo first m p n e).
Proof. revert first e. induction todo; intros; cbn [readKeys]; ends. Qed.
Lemma new_array_ended n : ended (new_array n).
Proof. unfold new_array. ends. Qed.
#[local] Hint Resolve readKeys_ended new_array_ended : ended.
Lemma RetrievalCommand_parse_ended this m p n : ended (RetrievalCommand_parse this m p n).
Proof. unfold RetrievalCommand_parse. cbv zeta. ends. Qed.
Lemma FLUSH_ALL_parse_ended m p n : ended (FLUSH_ALL_parse m p n).
Proof. unfold FLUSH_ALL_parse. ends. Qed.
Lemma STATS_parse_ended m p n : ended (STATS_parse m p n).
Proof. unfold STATS_parse. ends. Qed.
Lemma lift_ended {A B} (f : A -> B) r : ended r -> ended (lift f r).
Proof. intros. unfold lift. ends. Qed.
#[local] Hint Resolve StorageCommand_parse_ended INCR_parse_ended TOUCH_parse_ended
  DELETE_parse_ended RetrievalCommand_parse_ended FLUSH_ALL_parse_ended STATS_parse_ended
  lift_ended : ended.

Lemma parse_command_ended cmd m p n : ended (parse_command cmd m p n).
Proof. destruct cmd; cbn [parse_command]; ends. Qed.
Lemma newCommand_ended m p n : ended (newCommand m p n).
Proof. unfold newCommand. ends. Qed.
#[local] Hint Resolve parse_command_ended newCommand_ended : ended.

Lemma parse_ended m p n : ended (parse m p n).
Proof. unfold parse. ends. Qed.

End ParseEnds.

(** The key count does not depend on the fuel, once there is a round per byte. *)
Lemma countKeys_fuel {mem} `{UnsafeAccess mem} (m : mem) p n f f' count e :
  0 <= e -> n - e < Z.of_nat f -> n - e < Z.of_nat f' ->
  countKeys f m p n count e = countKeys f' m p n count e.
Proof.
  revert f' count e. induction f as [|f IH]; intros [|f'] count e He Hf Hf'; cbn [countKeys].
  - done.
  - rewrite (proj2 (Z.ltb_ge e n)) by lia. by rewrite andb_false_r.
  - rewrite (proj2 (Z.ltb_ge e n)) by lia. by rewrite andb_false_r.
  - destruct (Z.ltb_spec e n); [|by rewrite andb_false_r].
    destruct (negb _); [cbn [andb]|done].
    pose proof (nextTokenStart_lt m (p + e) (n - e)).
    destruct (Z.ltb_spec (nextTokenStart m (p + e) (n - e)) 0); [done|].
    set (s := nextTokenStart m (p + e) (n - e) + e) in *.
    pose proof (nextTokenEnd_lt m (p + s) (n - s)).
    destruct (Z.ltb_spec (nextTokenEnd m (p + s) (n - s)) 0); [done|].
    destruct (Z.eqb_spec (nextTokenEnd m (p + s) (n - s) + s) s); [done|].
    apply IH; lia.
Qed.

(** ** Effects *)

Section Tame.
Context {mem S : Type}.
#[local] Abbreviation world := (World mem S).

(** The computation ends, and neither reads the socket nor changes the record of
    the last command. *)
Definition tame {A} (c : M mem S A) : Prop :=
  forall w, ended (c w).1 /\ w_last (c w).2 = w_last w /\ w_input (c w).2 = w_input w.

Lemma tame_bind {A B} (c : M mem S A) (f : A -> M mem S B) :
  tame c -> (forall a, tame (f a)) -> tame (bindM c f).
Proof.
  intros Hc Hf w. unfold bindM. destruct (Hc w) as (E & L & I).
  destruct (c w) as [[a|e| |] w']; cbn in *; try done.
  destruct (Hf a w') as (? & ? & ?). split; [done|]. split; congruence.
Qed.
Lemma tame_ret {A} (a : A) : tame (ret a).
Proof. done. Qed.
Lemma tame_throw {A} e : tame (@throw mem S A e).
Proof. done. Qed.
Lemma tame_exit {A} : tame (@exit mem S A).
Proof. done. Qed.
Lemma tame_lift {A} (r : result A) : ended r -> tame (lift_result (mem:=mem) (S:=S) r).
Proof. by intros Hr w. Qed.
Lemma tame_call {A} (f : S -> A * S) : tame (call (mem:=mem) f).
Proof. intros w. unfold call. by destruct (f (w_store w)). Qed.
Lemma tame_on_mem {A} (f : mem -> mem * A) : tame (on_mem (S:=S) f).
Proof. intros w. unfold on_mem. by destruct (f (w_mem w)). Qed.
Lemma tame_read_mem {A} (f : mem -> A) : tame (read_mem (S:=S) f).
Proof. done. Qed.
Lemma tame_send l : tame (send (mem:=mem) (S:=S) l).
Proof. done. Qed.
Lemma tame_try {A} (c : M mem S A) h :
  tame c -> (forall e k, h e = Some k -> tame k) -> tame (try_catch c h).
Proof.
  intros Hc Hh w. unfold try_catch. destruct (Hc w) as (E & L & I).
  destruct (c w) as [[a|e| |] w']; cbn in *; try done.
  destruct (h e) as [k|] eqn:Ek; [|done].
  destruct (Hh e k Ek w') as (? & ? & ?). split; [done|]. split; congruence.
Qed.

End Tame.

Create HintDb tame.
#[export] Hint Resolve tame_ret tame_throw tame_exit tame_call tame_on_mem tame_read_mem
  tame_send : tame.

Ltac tames :=
  repeat first
    [ progress (auto with tame)
    | apply tame_bind; [|intros]
    | match goal with |- tame (match ?x with _ => _ end) => destruct x end ].

Section Effects.
Context {mem S item : Type}.
Context `{UnsafeAccess mem} `{CarrotUtils} `{Memcached S item} `{RecordWriter mem item}.
Variable version : option bytes.

#[local] Abbreviation MS := (M mem S).

Lemma tame_write l p : tame (write l p : MS unit).
Proof. apply tame_on_mem. Qed.
Lemma tame_put_byte c p : tame (put_byte c p : MS unit).
Proof. apply tame_on_mem. Qed.
Lemma tame_read p n : tame (read p n : MS bytes).
Proof. apply tame_read_mem. Qed.
#[local] Hint Resolve tame_write tame_put_byte tame_read : tame.

Section Commands.
Variable consume : Z -> MS unit.
Hypothesis consume_tame : forall n, tame (consume n).
#[local] Hint Resolve consume_tame : tame.

Lemma tame_reply l n out : tame (reply l n out : MS Z).
Proof. unfold reply. tames. Qed.
#[local] Hint Resolve tame_reply : tame.

(** Two rounds per key: a key is looked up again at most once, because it is then
    the first in an empty buffer. *)
Lemma tame_retrieve fetch b keys : forall f out size k,
  (2 * length keys + (if decide (0 < k)%Z then 1 else 0) <= f)%nat -> (1 <= f)%nat ->
  tame (retrieve consume f fetch b keys out size k).
Proof.
  induction keys as [|[a n] keys IH]; intros f out size k Hf Hf1;
    (destruct f as [|f]; [lia|]); cbn [retrieve]; [by tames|].
  cbn [length] in Hf.
  assert (Next : forall f' k', (2 * length keys + 1 <= f')%nat ->
    tame (retrieve consume f' fetch b keys out size k')).
  { intros f' k' Hf'. apply IH; [|lia]. destruct (decide (0 < k')); lia. }
  apply tame_bind; [tames|intros key]. apply tame_bind; [tames|intros [i|]].
  2:{ apply Next. destruct (decide (0 < k)); lia. }
  apply tame_bind; [tames|intros sz]. destruct (sz >? size - k - 5).
  2:{ apply Next. destruct (decide (0 < k)); lia. }
  destruct (Z.gtb_spec k 0); [|tames]. rewrite decide_True in Hf by lia.
  apply tame_bind; [tames|intros _].
  (* the second look at the key *)
  destruct f as [|f]; [lia|]. cbn [retrieve].
  apply tame_bind; [tames|intros key']. apply tame_bind; [tames|intros [i'|]].
  2:{ apply Next. lia. }
  apply tame_bind; [tames|intros sz']. destruct (sz' >? size - 0 - 5).
  - cbn. tames.
  - apply Next. lia.
Qed.

Lemma tame_stats out : forall l off, tame (stats_loop l out off : MS Z).
Proof.
  fix IH 1. intros [|name [|value l]] off; cbn [stats_loop]; tames.
Qed.
#[local] Hint Resolve tame_stats : tame.

Lemma tame_arith op c out : tame (arith_execute op c out : MS Z).
Proof.
  unfold arith_execute. apply tame_try.
  - unfold crlf. tames.
  - intros e k. unfold arith_handler. destruct e; intros [= <-]; tames.
Qed.

Lemma tame_storage op c out : tame (storage_execute op c out : MS Z).
Proof. unfold storage_execute, stored_reply. tames. Qed.

Lemma tame_execute cmd out size : tame (execute version consume cmd out size).
Proof.
  destruct cmd as [v c|v c|c|c|c|c|c| | | | | |]; cbn [execute].
  - destruct v; try apply tame_storage. cbn [StorageCommand_execute]. unfold CAS_execute. tames.
  - assert (R : forall f, tame (retrieval_execute consume f c out size)).
    { intros f. unfold retrieval_execute. apply tame_retrieve; [|lia]. rewrite decide_False by lia. lia. }
    destruct v; apply R.
  - apply tame_arith.
  - apply tame_arith.
  - unfold TOUCH_execute. tames.
  - unfold DELETE_execute. tames.
  - unfold FLUSH_ALL_execute, ok. tames.
  - unfold STATS_execute. tames.
  - unfold VERSION_execute. tames.
  - unfold QUIT_execute. tames.
  - unfold SHUTDOWN_execute. tames.
  - unfold SAVE_execute. tames.
  - unfold BGSAVE_execute. tames.
Qed.

(** [process] ends; when it reports a response, the command it recorded consumed
    input. *)
Lemma process_ended p n out size w :
  0 <= p ->
  ended (process version consume p n out size w).1 /\
  w_input (process version consume p n out size w).2 = w_input w /\
  forall c, w_last (process version consume p n out size w).2 = Some c -> 0 < inputConsumed c.
Proof.
  intros Hp.
  assert (Hh : forall e k, process_handler out e = Some k -> tame (k : MS Z)).
  { intros e k. unfold process_handler, answer. destruct e; intros [= <-]; tames. }
  set (rest := letM r := read_mem (fun m => parse m p n) in
     letM cmd := lift_result r in
     match cmd with
     | None => ret (-1)
     | Some cmd =>
         letM _ := record_last (Some cmd) in
         let safe := isMemorySafe cmd p n in
         if negb safe then answer INTERNAL_ERROR out
         else execute version consume cmd out size
     end : MS Z).
  assert (E : process version consume p n out size w
    = try_catch rest (process_handler out) (set_last None w)) by reflexivity.
  destruct (parse (w_mem w) p n) as [[cmd|]|e| |] eqn:Ep.
  - assert (R : tame (if negb (isMemorySafe cmd p n) then answer INTERNAL_ERROR out
      else execute version consume cmd out size)).
    { unfold answer. pose proof (tame_execute cmd out size). tames. }
    destruct (tame_try _ (process_handler out) R Hh (set_last (Some cmd) w)) as (T1 & T2 & T3).
    replace (process version consume p n out size w)
      with (try_catch (if negb (isMemorySafe cmd p n) then answer INTERNAL_ERROR out
        else execute version consume cmd out size) (process_handler out) (set_last (Some cmd) w)).
    + split; [done|]. split; [done|]. rewrite T2. intros c [= <-]. by apply (parse_safe _ _ _ _ Ep).
    + rewrite E. unfold try_catch, rest, bindM, read_mem. cbn. by rewrite Ep.
  - rewrite E. unfold try_catch, rest, bindM, read_mem. cbn. by rewrite Ep.
  - assert (E2 : process version consume p n out size w =
      match process_handler out e with
      | Some h => h (set_last None w) | None => (Throw e, set_last None w) end).
    { rewrite E. unfold try_catch, rest, bindM, read_mem. cbn. by rewrite Ep. }
    rewrite E2. destruct (process_handler out e) as [h|] eqn:Eh; [|done].
    destruct (Hh e h Eh (set_last None w)) as (? & Hl & ?). split; [done|]. split; [done|].
    rewrite Hl. done.
  - rewrite E. unfold try_catch, rest, bindM, read_mem. cbn. by rewrite Ep.
  - exfalso. by apply (parse_ended (w_mem w) p n).
Qed.

End Commands.

End Effects.

(** ** The worker *)

Section WorkerEnds.
Context {mem S item : Type}.
Context `{UnsafeAccess mem} `{CarrotUtils} `{Memcached S item} `{RecordWriter mem item}.
Variable version : option bytes.
Variables in_ptr out_ptr bufferSize : Z.
Hypothesis in_pos : 0 <= in_ptr.
Hypothesis size_pos : 0 < bufferSize.

#[local] Abbreviation MS := (M mem S).
#[local] Abbreviation batch := (batch version in_ptr out_ptr bufferSize).
#[local] Abbreviation serve_loop := (serve_loop version in_ptr out_ptr bufferSize).
#[local] Abbreviation size_of w := (events_size (w_input w)).

Lemma tame_write_all l : tame (write_all l : MS unit).
Proof. apply tame_send. Qed.
Lemma tame_write_anyway l : tame (write_anyway l : MS bool).
Proof. unfold write_anyway, at_once. tames. Qed.
#[local] Hint Resolve tame_write_all tame_write_anyway : tame.

Lemma tame_write_out n : tame (write_out out_ptr bufferSize n : MS unit).
Proof. unfold write_out, read. tames. Qed.

Lemma tame_put_and_write msg : tame (put_and_write out_ptr bufferSize msg : MS unit).
Proof. unfold put_and_write, write. pose proof tame_write_out. tames. Qed.

Lemma tame_put_and_write_anyway msg : tame (put_and_write_anyway out_ptr bufferSize msg : MS bool).
Proof. unfold put_and_write_anyway, write, read. tames. Qed.

Lemma tame_overflow_clause : tame (overflow_clause out_ptr bufferSize : MS Outcome).
Proof. unfold overflow_clause. pose proof tame_put_and_write_anyway. tames. Qed.

(** What the batch promises of its result: it ended without reading, and an
    incomplete request begins inside the buffer. *)
Definition batch_result (c N : Z) (w : World mem S) (r : result BatchEnd * World mem S) : Prop :=
  ended r.1 /\ w_input r.2 = w_input w /\ forall c', r.1 = Ok (Incomplete c') -> c <= c' < N.

Lemma batch_ended : forall f c N (w : World mem S),
  0 <= c -> N - c < Z.of_nat f -> (0 < f)%nat -> batch_result c N w (batch f c N w).
Proof.
  induction f as [|f IH]; intros c N w Hc Hf Hf0; cbn [WorkThread.batch]; [lia|].
  destruct (Z.ltb_spec c N) as [HcN|]; [|done].
  destruct (process_ended version (consume out_ptr bufferSize) tame_write_out
    (in_ptr + c) (N - c) out_ptr bufferSize w ltac:(lia)) as (Pe & Pi & Pc).
  unfold bindM at 1.
  destruct (process version _ _ _ _ _ w) as [[n|e| |] w1]; cbn [fst snd] in *; [|by split..|done].
  destruct (Z.ltb_spec n 0); [split; [done|]; split; [done|]; intros c' [= <-]; lia|].
  assert (Tw : tame (if 0 <? n then write_out out_ptr bufferSize n else ret tt : MS unit)).
  { pose proof tame_write_out. tames. }
  destruct (Tw w1) as (We & Wl & Wi). unfold bindM at 1.
  destruct ((if 0 <? n then write_out out_ptr bufferSize n else ret tt) w1) as [[[]|e| |] w2];
    cbn [fst snd] in *; [|split; [done|]; split; [cbn; congruence|done]..|done].
  unfold bindM at 1, get_last. rewrite <- Wl in Pc.
  destruct (w_last w2) as [cmd|]; [|split; [done|]; split; [cbn; congruence|done]].
  specialize (Pc cmd eq_refl).
  assert (Next : batch_result c N w (batch f (c + inputConsumed cmd) N w2)).
  { destruct (IH (c + inputConsumed cmd) N w2) as (? & ? & Hi); [lia..|].
    split; [done|]. split; [congruence|]. intros c' E. specialize (Hi c' E). lia. }
  destruct cmd; try exact Next. split; [done|]. split; [cbn; congruence|done].
Qed.

(** What the reads promise: an end, and an event used if there was room and one
    was there. *)
Definition reads_result (N : Z) (w : World mem S) (r : result Outcome * World mem S) : Prop :=
  ended r.1 /\ (size_of r.2 <= size_of w)%nat /\
  (N < bufferSize -> w_input w <> [] -> (size_of r.2 < size_of w)%nat).

Lemma reads_fewer N w r : ended r.1 -> (size_of r.2 < size_of w)%nat -> reads_result N w r.
Proof. intros. split; [done|]. split; [lia|done]. Qed.

Lemma events_size_cons e es : (events_size es < events_size (e :: es))%nat.
Proof. unfold events_size. cbn [sum_list_with]. destruct e; cbn [event_size]; lia. Qed.

Lemma serve_loop_ended : forall f N (w : World mem S),
  0 <= N <= bufferSize -> (size_of w < f)%nat -> reads_result N w (serve_loop f N N w).
Proof.
  induction f as [|f IH]; intros N w HN Hf; [lia|]. cbn [WorkThread.serve_loop].
  destruct (Z.eqb_spec N bufferSize) as [HNb|HNb].
  { unfold bindM. destruct (tame_put_and_write INPUT_TOO_LARGE w) as (We & _ & Wi).
    destruct (put_and_write _ _ _ w) as [[[]|e| |] w2]; cbn [fst snd] in *; try done;
      (split; [done|]; cbn; rewrite Wi; split; [done|lia]). }
  assert (Less : forall w1 N', (size_of w1 < size_of w)%nat -> 0 <= N' <= bufferSize ->
    reads_result N w (serve_loop f N' N' w1)).
  { intros w1 N' Hlt HN'. destruct (IH N' w1 HN' ltac:(lia)) as (? & ? & _).
    apply reads_fewer; [done|lia]. }
  unfold bindM at 1, get_input. destruct (w_input w) as [|e es] eqn:Ein.
  { split; [done|]. split; [done|]. by rewrite Ein. }
  pose proof (events_size_cons e es) as He. rewrite <- Ein in He, Hf, Less.
  destruct e as [l| | | |]; try (apply reads_fewer; [done|exact He]).
  2:{ unfold bindM at 1, put_input. apply Less; [exact He|lia]. }
  destruct (channel_read_split in_ptr bufferSize N l es w ltac:(lia))
    as (l1 & l2 & es' & Er & _ & Hl1 & _ & _ & Hes).
  unfold bindM at 1. rewrite Er. rewrite <- Ein in Hes. pose proof (zlen_nonneg l1).
  set (w1 := set_mem _ _).
  assert (Hlt : (size_of w1 < size_of w)%nat) by exact Hes. clearbody w1.
  destruct (Z.eqb_spec (zlen l1) 0); [by apply Less|].
  pose proof (batch_ended (Z.to_nat (N + zlen l1) + 1) 0 (N + zlen l1) w1
    ltac:(lia) ltac:(lia) ltac:(lia)) as (Be & Bi & Bc).
  unfold bindM at 1.
  destruct (batch _ 0 _ w1) as [[[|c'|]|e| |] w2]; cbn [fst snd] in *; try done;
    try (apply reads_fewer; [done|]; cbn; rewrite Bi; exact Hlt).
  specialize (Bc c' eq_refl). destruct (Z.ltb_spec 0 c').
  - unfold bindM at 1, on_mem. apply Less; [|lia]. cbn. by rewrite Bi.
  - apply Less; [|lia]. by rewrite Bi.
Qed.

(** Serving a selected channel returns an outcome. *)
Lemma serve_ended (w : World mem S) :
  exists o w', serve version in_ptr out_ptr bufferSize w = (Ok o, w') /\
    (size_of w' <= size_of w)%nat /\ (w_input w <> [] -> (size_of w' < size_of w)%nat).
Proof.
  destruct (serve_loop_ended (size_of w + 1) 0 w ltac:(lia) ltac:(lia)) as (E & L & Lt).
  unfold serve, try_catch.
  destruct (serve_loop (size_of w + 1) 0 0 w) as [[o|e| |] w']; cbn [fst snd] in *; try done.
  - exists o, w'. split; [done|]. split; [done|]. auto.
  - destruct (serve_handler out_ptr bufferSize e) as [h|] eqn:Eh.
    2:{ exists (Died e), w'. split; [done|]. split; [done|]. auto. }
    assert (T : tame h).
    { unfold serve_handler in Eh. pose proof tame_overflow_clause.
      destruct e; try discriminate Eh; injection Eh as <-; tames. }
    destruct (T w') as (He & _ & Hi).
    destruct (h w') as [[o|e'| |] w2]; cbn [fst snd] in *; try done;
      (eexists _, w2; split; [done|]; rewrite Hi; split; [done|auto]).
  - exists Exited, w'. split; [done|]. split; [done|]. auto.
Qed.

(** A connection that runs out of events has an outcome. *)
Lemma connection_ended : forall f (w : World mem S),
  (size_of w < f)%nat ->
  exists o w', connection version in_ptr out_ptr bufferSize f w = (Ok o, w').
Proof.
  induction f as [|f IH]; intros w Hf; [lia|]. cbn [connection].
  unfold bindM at 1, get_input. destruct (w_input w) as [|e es] eqn:Ein; [by eexists _, _|].
  destruct (serve_ended w) as (o & w' & E & _ & Lt). rewrite Ein in Lt. 
  unfold bindM at 1. rewrite E. specialize (Lt ltac:(done)).
  destruct o; try by eexists _, _. apply IH. lia.
Qed.

End WorkerEnds.
