(* ===== verification/ServeCorrect.v ===== *)
(** * The worker thread implements the protocol

    However a pipeline of requests is cut into network reads, the connection
    sends exactly the replies of the requests that are complete, in order, and
    leaves the store they leave. *)

From S2P Require Import Prelude.
From S2P Require Import Memory.
From S2P Require Import Java.
From S2P Require Import CarrotCache.
From S2P Require Import Utils.
From S2P Require Import Command.
From S2P Require Import CommandParse.
From S2P Require Import CommandParser.
From S2P Require Import Client.
From S2P Require Import ParseCorrect.
From S2P Require Import World.
From S2P Require Import Execute.
From S2P Require Import Protocol.
From S2P Require Import ExecuteCorrect.
From S2P Require Import CommandProcessor.
From S2P Require Import ProcessCorrect.
From S2P Require Import Stream.
From S2P Require Import WorkThread.
From S2P Require Import Network.

(** The parser's command knows the length of the request it was parsed from. *)
Lemma inputConsumed_command_of r p :
  request_ok r -> inputConsumed (command_of r p) = zlen (encode r).
Proof.
  intros Hr. rewrite encode_split by (destruct r; cbn in Hr; tauto).
  destruct r as [v key val f e nr c|v e ks|key val nr|key val nr|key e nr|key nr];
    cbn [inputConsumed command_of request_args].
  - cbn [consumed]. unfold abstract_inputConsumed. zcase.
    destruct v; cbn [commandLength request_name verb_name]; zlen_norm; zstr; zlia.
  - cbn [r_consumed]. pose proof (zlen_nonneg (put_keys ks)).
    pose proof (zlen_nonneg (Long_toString e)). unfold abstract_inputConsumed, retrieval_tokens.
    destruct Hr as (Hne & _ & _). destruct ks as [|k ks]; [done|].
    destruct v; cbn [r_isTouch new_RetrievalCommand new_GETS new_GAT new_GATS commandLength request_name];
      rewrite ?(put_keys_cons (Long_toString e)); unfold more; cbn [app]; zcase; zlen_norm; zstr; zlia.
  - cbn [consumed commandLength request_name]. unfold abstract_inputConsumed. zcase. zlen_norm. zstr. zlia.
  - cbn [consumed commandLength request_name]. unfold abstract_inputConsumed. zcase. zlen_norm. zstr. zlia.
  - cbn [consumed commandLength request_name]. unfold abstract_inputConsumed. zcase. zlen_norm. zstr. zlia.
  - cbn [consumed commandLength request_name]. unfold abstract_inputConsumed. zcase. zlen_norm. zstr. zlia.
Qed.

Lemma command_of_not_quit r p : command_of r p <> QUIT.
Proof. by destruct r. Qed.

Section ServeCorrect.
Context {mem S item : Type}.
Context `{UnsafeAccessLaws mem} `{CarrotUtilsLaws} `{Memcached S item} `{RecordWriter mem item}.
Context `{!RecordWriterLaws mem item, !MemcachedRetryLaws S item}.

#[local] Abbreviation world := (World mem S).

Variable version : option bytes.
Variables in_ptr out_ptr bufferSize : Z.
Hypothesis in_pos : 0 <= in_ptr.
Hypothesis size_ok : 44 <= bufferSize.
Hypothesis buffers_apart : in_ptr + bufferSize <= out_ptr \/ out_ptr + bufferSize <= in_ptr.

#[local] Abbreviation batch := (batch version in_ptr out_ptr bufferSize).
#[local] Abbreviation serve_loop := (serve_loop version in_ptr out_ptr bufferSize).
#[local] Abbreviation respond := (respond rec_render bufferSize).
#[local] Abbreviation respond_all := (respond_all rec_render bufferSize).
#[local] Abbreviation all_answered := (all_answered rec_render bufferSize).

(** [ChannelOutputConsumer] keeps the contract of an output consumer. *)
Lemma write_out_ok n (w : world) :
  0 <= n <= bufferSize ->
  write_out out_ptr bufferSize n w = (Ok tt, add_sent (bytes_at (w_mem w) out_ptr n) w).
Proof.
  intros Hn. unfold write_out. rewrite (proj2 (Z.ltb_ge n 0)), (proj2 (Z.ltb_ge bufferSize n)) by lia.
  done.
Qed.

Lemma consume_ok : consumes (consume (mem:=mem) (S:=S) out_ptr bufferSize) out_ptr bufferSize.
Proof. intros n w Hn. by apply write_out_ok. Qed.

Lemma apart_in p n : in_ptr <= p -> p + n <= in_ptr + bufferSize -> apart out_ptr bufferSize p n.
Proof. unfold apart. lia. Qed.

(** From [w] to [w'], [l] was sent, and the output buffer is the only memory
    written. *)
Record served (w w' : world) (l : bytes) (s : S) : Prop := {
  s_store : w_store w' = s;
  s_input : w_input w' = w_input w;
  s_off : same_off (w_mem w) (w_mem w') out_ptr bufferSize;
  s_sent : w_sent w' = w_sent w ++ l
}.

Lemma served_refl w : served w w [] (w_store w).
Proof. split; try done. by rewrite app_nil_r. Qed.

(** [if (responseLength > 0) { out.limit(...); ... channel.write(out) }] after an
    executed command. *)
Lemma sent_response c w n w' l s :
  delivered out_ptr bufferSize (set_last c w) w' 0 n l s -> 0 <= n <= bufferSize ->
  exists w'', (if 0 <? n then write_out out_ptr bufferSize n else ret tt) w' = (Ok tt, w'') /\
    served w w'' l s /\ w_last w'' = c.
Proof.
  intros [D1 D2 D3 D4 D5] Hn. cbn in *. destruct (Z.ltb_spec 0 n).
  - eexists. split; [by apply write_out_ok|]. split; [|done]. by split.
  - replace n with 0 in D5 by lia. rewrite !bytes_at_0, app_nil_r in D5.
    exists w'. split; [done|]. split; [|done]. by split.
Qed.

(** The loop over the buffered requests. *)
Lemma batch_ok rs : forall f c N (w : world),
  0 <= c <= N -> N <= bufferSize -> (Z.to_nat (N - c) < f)%nat ->
  Forall request_ok rs -> view (w_mem w) (in_ptr + c) (N - c) (stream rs) ->
  N - c <= zlen (stream rs) ->
  all_answered (complete (N - c) rs) (w_store w) ->
  exists w', let a := respond_all (complete (N - c) rs) (w_store w) in
    let c' := c + zlen (stream (complete (N - c) rs)) in
    batch f c N w = (Ok (if c' =? N then Drained else Incomplete c'), w') /\
    served w w' (r_bytes a) (r_store a).
Proof.
  induction rs as [|r rs IH]; intros f c N w Hc HN Hf Hrs V HS Ha;
    (destruct f as [|f]; [lia|]); cbn [WorkThread.batch].
  - change (zlen (stream [])) with 0 in HS. cbn [complete].
    change (zlen (stream [])) with 0. cbn [respond_all].
    rewrite (proj2 (Z.ltb_ge c N)) by lia. rewrite (proj2 (Z.eqb_eq (c + 0) N)) by lia.
    exists w. split; [done|]. apply served_refl.
  - inversion Hrs as [|? ? Hr Hrs']; subst. rewrite stream_cons in V, HS.
    pose proof (encode_pos r Hr) as Hpos. apply view_app in V as [V1 V2].
    destruct (Z.le_gt_cases (zlen (encode r)) (N - c)) as [Hle|Hlt].
    + rewrite complete_cons_le in * by done.
      apply all_answered_cons in Ha as (Hfit & Hex & Ha).
      rewrite (proj2 (Z.ltb_lt c N)) by lia.
      destruct (process_respond version (consume out_ptr bufferSize) out_ptr bufferSize
        consume_ok size_ok r (in_ptr + c) (N - c) w Hr ltac:(lia) Hle V1
        ltac:(apply apart_in; lia) Hfit) as (res & w1 & Ep & X).
      rewrite Hex in X. destruct X as (n & -> & Hn & D).
      unfold bindM at 1. rewrite Ep. rewrite (proj2 (Z.ltb_ge n 0)) by lia.
      destruct (sent_response _ _ _ _ _ _ D Hn) as (w2 & Ew & Sv & Hl).
      unfold bindM at 1. rewrite Ew. unfold bindM at 1, get_last. rewrite Hl.
      rewrite inputConsumed_command_of by done.
      assert (Enext : forall k : M mem S BatchEnd,
        match Some (command_of r (in_ptr + c)) with
        | None | Some QUIT => ret CloseChannel
        | _ => k end = k) by (intros; by destruct r as [[]|[]| | | |]).
      rewrite Enext. clear Enext.
      destruct Sv as [S1 S2 S3 S4].
      destruct (IH f (c + zlen (encode r)) N w2) as (w3 & Eb & [T1 T2 T3 T4]); try done; try lia.
      * eapply view_same.
        -- replace (in_ptr + (c + zlen (encode r))) with (in_ptr + c + zlen (encode r)) by lia.
           replace (N - (c + zlen (encode r))) with (N - c - zlen (encode r)) by lia. exact V2.
        -- eapply same_off_on; [exact S3|]. lia.
      * rewrite zlen_app in HS. lia.
      * replace (N - (c + zlen (encode r))) with (N - c - zlen (encode r)) by lia.
        by rewrite S1.
      * replace (N - (c + zlen (encode r))) with (N - c - zlen (encode r)) in * by lia.
        rewrite S1 in *.
        exists w3. cbv zeta in *. rewrite stream_cons, zlen_app.
        rewrite respond_all_cons by done. cbn [r_bytes r_store]. rewrite Z.add_assoc.
        split; [exact Eb|]. split; [done|congruence|by eapply same_off_trans|].
        by rewrite T4, S4, app_assoc.
    + rewrite complete_cons_lt in * by done. change (zlen (stream [])) with 0.
      cbn [respond_all r_bytes r_store]. rewrite Z.add_0_r.
      destruct (Z.ltb_spec c N).
      * unfold bindM at 1.
        rewrite (process_partial version (consume out_ptr bufferSize) out_ptr bufferSize r) by done.
        cbn. rewrite (proj2 (Z.eqb_neq c N)) by lia.
        exists (set_last None w). split; [done|]. split; cbn; rewrite ?app_nil_r; done.
      * rewrite (proj2 (Z.eqb_eq c N)) by lia.
        exists w. split; [done|]. apply served_refl.
Qed.

(** ** One selection of the channel *)

(** [N] bytes are buffered; with what arrives, and [tail] after it, they are the
    stream of [rs].  [ready]: they are part of one incomplete request. *)
Record loaded (N : Z) (rs : list Request) (tail : bytes) (w : world) : Prop := {
  rd_ok : Forall request_ok rs;
  rd_fits : Forall (fun r => zlen (encode r) <= bufferSize) rs;
  rd_quiet : Forall quiet (w_input w);
  rd_stream : exists buf, zlen buf = N /\ stream rs = buf ++ data (w_input w) ++ tail /\
    view (w_mem w) in_ptr N buf;
  rd_answered : all_answered (complete (N + zlen (data (w_input w))) rs) (w_store w)
}.
Definition ready (N : Z) (rs : list Request) (tail : bytes) (w : world) : Prop :=
  loaded N rs tail w /\ complete N rs = [].

(** [c] answers the requests [rs1], the first of [rs]: those that arrive complete if
    it then waits; if it releases the channel, some input has been read, and what
    is left begins with a request. *)
Definition serves (N : Z) (rs : list Request) (tail : bytes) (w : world) (c : M mem S Outcome) : Prop :=
  exists o w' rs1 rs2, c w = (Ok o, w') /\ rs = rs1 ++ rs2 /\
    let a := respond_all rs1 (w_store w) in
    r_exn a = None /\ w_sent w' = w_sent w ++ r_bytes a /\ w_store w' = r_store a /\
    let left := N + zlen (data (w_input w)) - zlen (stream rs1) in
    0 <= left /\
    match o with
    | Released => ready 0 rs2 tail w' /\ left = zlen (data (w_input w')) /\
        (events_size (w_input w') < events_size (w_input w))%nat
    | Waiting => w_input w' = [] /\ complete left rs2 = []
    | _ => False
    end.

(** Some requests answered, then the rest. *)
Lemma serves_step N N2 rs rs1 rs2 tail w w2 c c2 :
  c w = c2 w2 -> rs = rs1 ++ rs2 ->
  let a := respond_all rs1 (w_store w) in
  r_exn a = None -> w_sent w2 = w_sent w ++ r_bytes a -> w_store w2 = r_store a ->
  N2 + zlen (data (w_input w2)) = N + zlen (data (w_input w)) - zlen (stream rs1) ->
  (events_size (w_input w2) <= events_size (w_input w))%nat ->
  serves N2 rs2 tail w2 c2 -> serves N rs tail w c.
Proof.
  intros E -> a Ha Hs Hst HN He (o & w' & rs3 & rs4 & E' & -> & X). cbv zeta in X.
  destruct X as (Hex & Hs' & Hst' & Hl & X).
  exists o, w', (rs1 ++ rs3), rs4. split; [congruence|]. split; [by rewrite app_assoc|].
  destruct (respond_all_app rec_render bufferSize rs1 rs3 (w_store w) Ha) as (Eb & Ee & Es).
  rewrite Hst in *. fold a in Eb, Ee, Es. cbv zeta. rewrite Eb, Ee, Es, stream_app, zlen_app.
  split; [done|]. split; [by rewrite Hs', Hs, app_assoc|]. split; [done|]. split; [lia|].
  replace (N + _ - (_ + zlen (stream rs3)))
    with (N2 + zlen (data (w_input w2)) - zlen (stream rs3)) by lia.
  destruct o; try done. destruct X as (? & ? & ?). split; [done|]. split; [done|]. lia.
Qed.

(** Nothing answered yet, one step taken. *)
Lemma serves_next N N2 rs tail w w2 c c2 :
  c w = c2 w2 -> w_sent w2 = w_sent w -> w_store w2 = w_store w ->
  N2 + zlen (data (w_input w2)) = N + zlen (data (w_input w)) ->
  (events_size (w_input w2) <= events_size (w_input w))%nat ->
  serves N2 rs tail w2 c2 -> serves N rs tail w c.
Proof.
  intros E Hs Hst HN He X. eapply (serves_step N N2 rs [] rs); try done.
  - cbn. by rewrite app_nil_r.
  - change (zlen (stream [])) with 0. lia.
Qed.

(** Less than a buffer is buffered. *)
Lemma ready_lt N rs tail w : ready N rs tail w -> 0 <= N < bufferSize.
Proof.
  intros [[_ Hf _ (buf & <- & E & _) _] Hs]. split; [apply zlen_nonneg|].
  eapply complete_nil_lt; [exact Hs|exact Hf| |lia]. rewrite E. zlia.
Qed.

(** A read appends to what is buffered. *)
Lemma channel_read_ok N rs tail l es (w : world) :
  loaded N rs tail w -> 0 <= N < bufferSize -> w_input w = Data l :: es ->
  exists n w1, channel_read in_ptr bufferSize N l es w = (Ok n, w1) /\
    loaded (N + n) rs tail w1 /\ 0 <= n <= bufferSize - N /\
    w_sent w1 = w_sent w /\ w_store w1 = w_store w /\
    (events_size (w_input w1) < events_size (w_input w))%nat /\
    N + n + zlen (data (w_input w1)) = N + zlen (data (w_input w)).
Proof.
  intros [Rok Rfits Rq (buf & Hb & Es & V) Ra] HN Ein. rewrite Ein in *.
  destruct (channel_read_split in_ptr bufferSize N l es w HN)
    as (l1 & l2 & es' & Er & El & Hl & Ed & Hq & He).
  inversion Rq as [|? ? _ Rq']; subst x l0.
  change (data (Data l :: es)) with (l ++ data es) in *. rewrite El, <- app_assoc, <- Ed in *.
  eexists _, _. split; [exact Er|]. split; [|cbn [w_input set_mem set_input]; split_and!; try done; zlia].
  split; cbn [w_input set_mem set_input w_mem w_store]; [done..|by apply Hq| |].
  - exists (buf ++ l1). split; [zlia|]. split; [by rewrite Es, Ed, <- !app_assoc|].
    subst N. apply view_append. exact V.
  - by rewrite zlen_app, Z.add_assoc in Ra.
Qed.

(** The buffered requests are answered; the beginning of the next is left. *)
Lemma batch_loaded N rs tail (w : world) :
  loaded N rs tail w -> N <= bufferSize ->
  exists rs1 rs2 w', let a := respond_all rs1 (w_store w) in
    let c := zlen (stream rs1) in
    batch (Z.to_nat N + 1) 0 N w = (Ok (if c =? N then Drained else Incomplete c), w') /\
    served w w' (r_bytes a) (r_store a) /\ r_exn a = None /\
    rs = rs1 ++ rs2 /\ 0 <= c <= N /\
    (exists buf, zlen buf = N - c /\ stream rs2 = buf ++ data (w_input w) ++ tail /\
      view (w_mem w) (in_ptr + c) (N - c) buf) /\
    complete (N - c) rs2 = [] /\
    all_answered (complete (N - c + zlen (data (w_input w))) rs2) (r_store a).
Proof.
  intros [Rok Rfits Rq (buf & Hb & Es & V) Ra] HN. pose proof (zlen_nonneg buf).
  destruct (complete_split N rs ltac:(lia)) as (rs2 & Ers & Hle & Hshort).
  set (rs1 := complete N rs) in *. set (c := zlen (stream rs1)) in *.
  pose proof (zlen_nonneg (stream rs1)) as Hc. fold c in Hc.
  pose proof (zlen_nonneg (data (w_input w))) as Hd.
  assert (Ra' : all_answered (rs1 ++ complete (N - c + zlen (data (w_input w))) rs2) (w_store w)).
  { replace (N - c + zlen (data (w_input w))) with (N + zlen (data (w_input w)) - c) by lia.
    rewrite <- complete_app by (fold c; lia). by rewrite <- Ers. }
  apply all_answered_app in Ra' as [Ra1 Ra2].
  assert (Vs : view (w_mem w) in_ptr N (stream rs)).
  { rewrite Es. apply view_app. split; [done|]. apply view_short. lia. }
  destruct (batch_ok rs (Z.to_nat N + 1) 0 N w) as (w' & E & Sv);
    rewrite ?Z.sub_0_r, ?Z.add_0_r; try done; try lia.
  { rewrite Es. zlia. }
  fold rs1 in E, Sv. rewrite !Z.sub_0_r in *. fold rs1 in E, Sv. fold c in E. rewrite Z.add_0_l in E.
  exists rs1, rs2, w'. cbv zeta. fold c. split; [exact E|]. split; [exact Sv|].
  split; [apply Ra1|]. split; [done|]. split; [lia|]. split; [|split; [done|exact Ra2]].
  assert (Eb : buf = stream rs1 ++ drop (length (stream rs1)) buf).
  { rewrite <- (take_drop (length (stream rs1)) buf) at 1. f_equal.
    rewrite Ers, stream_app in Es.
    apply (f_equal (take (length (stream rs1)))) in Es. rewrite take_app_length in Es.
    transitivity (take (length (stream rs1)) (buf ++ data (w_input w) ++ tail)); [|done].
    symmetry. apply take_app_le. unfold c, zlen in *. lia. }
  set (b2 := drop (length (stream rs1)) buf) in *.
  exists b2. assert (zlen b2 = N - c) by (rewrite Eb, zlen_app in Hb; fold c in Hb; lia).
  split; [done|]. split.
  - rewrite Ers, stream_app, Eb, <- app_assoc in Es. by apply app_inv_head in Es.
  - rewrite Eb in V. apply view_app in V as [_ V]. exact V.
Qed.

(** What is left, once it is at the front of the buffer. *)
Lemma rest_ready N c rs1 rs2 tail (w w' : world) a s m :
  loaded N (rs1 ++ rs2) tail w -> served w w' a s ->
  (exists buf, zlen buf = N - c /\ stream rs2 = buf ++ data (w_input w) ++ tail /\
      view (w_mem w) (in_ptr + c) (N - c) buf) ->
  complete (N - c) rs2 = [] -> all_answered (complete (N - c + zlen (data (w_input w))) rs2) s ->
  (forall buf, view (w_mem w) (in_ptr + c) (N - c) buf -> view m in_ptr (N - c) buf) ->
  ready (N - c) rs2 tail (set_mem m w').
Proof.
  intros [Rok Rfits Rq _ _] [S1 S2 S3 S4] (buf & Hb & Es & V) Hshort Ra Hm.
  apply Forall_app in Rok as [_ Rok]. apply Forall_app in Rfits as [_ Rfits].
  split; [|done]. split; cbn [w_input set_mem w_store w_mem]; rewrite ?S1, ?S2; try done.
  exists buf. by split_and!; [..|apply Hm].
Qed.

(** Moving it there. *)
Lemma compact_view N c (w w' : world) a s buf :
  served w w' a s -> N <= bufferSize -> 0 <= c <= N ->
  view (w_mem w) (in_ptr + c) (N - c) buf ->
  view (if 0 <? c then copyMem (w_mem w') (in_ptr + c) in_ptr (N - c) else w_mem w') in_ptr (N - c) buf.
Proof.
  intros [_ _ S3 _] HN Hc V.
  assert (V' : view (w_mem w') (in_ptr + c) (N - c) buf).
  { eapply view_same; [exact V|]. eapply same_off_on; [exact S3|]. lia. }
  destruct (Z.ltb_spec 0 c); [by apply view_copyMem|].
  assert (c = 0) as -> by lia. by rewrite Z.add_0_r in V'.
Qed.

Lemma loaded_ready N rs tail (w w' : world) :
  ready N rs tail w -> loaded N rs tail w' -> ready N rs tail w'.
Proof. intros [_ ?] ?. by split. Qed.

(** An event that carries nothing. *)
Lemma ready_skip N rs tail es e (w : world) :
  ready N rs tail w -> w_input w = e :: es -> event_data e = [] ->
  ready N rs tail (set_input es w).
Proof.
  intros [[Rok Rfits Rq (buf & Hb & Es & V) Ra] Hs] Ein Ed. rewrite Ein in *.
  change (data (e :: es)) with (event_data e ++ data es) in *. rewrite Ed in *.
  inversion Rq; subst. split; [|done]. split; cbn [w_input set_input w_mem w_store]; try done.
  by exists buf.
Qed.

(** One round of the loop after a read. *)
Definition after_read (f : nat) (in_pos inputSize num : Z) : M mem S Outcome :=
  if num =? 0 then serve_loop f in_pos inputSize
  else
    let in_pos := in_pos + num in
    let inputSize := inputSize + num in
    letM e := batch (Z.to_nat inputSize + 1) 0 inputSize in
    match e with
    | Drained => ret Released
    | CloseChannel => ret Closed
    | Incomplete consumed =>
        if 0 <? consumed then
          letM _ := on_mem (fun m =>
            (copyMem m (in_ptr + consumed) in_ptr (inputSize - consumed), tt)) in
          let inputSize := inputSize - consumed in
          serve_loop f inputSize inputSize
        else serve_loop f in_pos inputSize
    end.

Lemma set_mem_id (w : world) : set_mem (w_mem w) w = w.
Proof. by destruct w. Qed.

(** The requests are answered, and the loop ends or goes on with what is left. *)
Lemma after_read_ok f N n rs tail (w w1 : world) c :
  (forall N rs tail w, ready N rs tail w -> (events_size (w_input w) < f)%nat ->
    serves N rs tail w (serve_loop f N N)) ->
  c w = after_read f N N n w1 -> loaded (N + n) rs tail w1 -> 0 < n -> N + n <= bufferSize ->
  w_sent w1 = w_sent w -> w_store w1 = w_store w ->
  (events_size (w_input w1) < events_size (w_input w))%nat -> (events_size (w_input w1) < f)%nat ->
  N + n + zlen (data (w_input w1)) = N + zlen (data (w_input w)) ->
  serves N rs tail w c.
Proof.
  intros IH E R Hn HN Hs Hst He Hf Hd.
  destruct (batch_loaded _ _ _ _ R HN) as
    (rs1 & rs2 & w2 & Eb & Sv & Hex & -> & Hc & Hrest & Hshort & Ra).
  set (k := zlen (stream rs1)) in *. pose proof (zlen_nonneg (data (w_input w1))) as Hpos.
  pose proof Sv as [S1 S2 S3 S4]. rewrite Hst, Hs in *.
  unfold after_read in E. rewrite (proj2 (Z.eqb_neq n 0)) in E by lia. cbv zeta in E.
  unfold bindM at 1 in E. rewrite Eb in E.
  destruct (Z.eqb_spec k (N + n)) as [Hk|Hk].
  - exists Released, w2, rs1, rs2. split; [exact E|]. split; [done|].
    cbv zeta. fold k. split; [done|]. split; [done|]. split; [done|]. split; [lia|].
    rewrite S2. split; [|split; [lia|done]].
    rewrite <- (set_mem_id w2), <- (Z.sub_diag (N + n)). rewrite Hk in *.
    eapply rest_ready; try done. intros buf _. apply view_short. lia.
  - set (m := if 0 <? k then copyMem (w_mem w2) (in_ptr + k) in_ptr (N + n - k) else w_mem w2).
    assert (R2 : ready (N + n - k) rs2 tail (set_mem m w2)).
    { eapply rest_ready; try done. intros buf Vb. by eapply compact_view. }
    eapply (serves_step N (N + n - k) _ rs1 rs2 tail w (set_mem m w2)); [|done|done|..].
    6: apply IH; [exact R2|by cbn; rewrite S2].
    + rewrite E. unfold m. destruct (Z.ltb_spec 0 k); [done|].
      rewrite set_mem_id. assert (k = 0) as -> by lia. by rewrite Z.sub_0_r.
    + exact S4.
    + exact S1.
    + cbn [set_mem w_input]. rewrite S2. fold k. lia.
    + cbn [set_mem w_input]. rewrite S2. lia.
Qed.

(** The loop by the next event, the buffer not being full. *)
Lemma serve_loop_eq f N (w : world) :
  0 <= N < bufferSize ->
  serve_loop (Datatypes.S f) N N w =
    match w_input w with
    | [] => (Ok Waiting, w)
    | EndOfStream :: es | TimedOut :: es => (Ok Closed, set_input es w)
    | ReadError msg :: es => (Throw (IOException msg), set_input es w)
    | Idle :: es => serve_loop f N N (set_input es w)
    | Data l :: es => (letM num := channel_read in_ptr bufferSize N l es in after_read f N N num) w
    end.
Proof.
  intros HN. cbn [WorkThread.serve_loop]. rewrite (proj2 (Z.eqb_neq N bufferSize)) by lia.
  unfold bindM at 1, get_input. by destruct (w_input w) as [|[]].
Qed.

Lemma serve_loop_ok : forall f N rs tail (w : world),
  ready N rs tail w -> (events_size (w_input w) < f)%nat ->
  serves N rs tail w (serve_loop f N N).
Proof.
  induction f as [|f IH]; intros N rs tail w R Hf; [lia|].
  pose proof (ready_lt _ _ _ _ R) as HN.
  pose proof (serve_loop_eq f N w HN) as L.
  destruct (w_input w) as [|[l| | | |] es] eqn:Ein.
  - exists Waiting, w, [], rs. split; [exact L|]. split; [done|].
    rewrite Ein. cbn. split; [done|]. split; [by rewrite app_nil_r|]. split; [done|].
    change (zlen []) with 0. split; [lia|]. split; [done|]. rewrite Z.add_0_r, Z.sub_0_r. apply R.
  - destruct R as [R Rs].
    destruct (channel_read_ok N rs tail l es w R HN Ein) as
      (n & w1 & Er & R1 & Hn & Hs1 & Hst1 & He1 & Hd1).
    assert (L' : serve_loop (Datatypes.S f) N N w = after_read f N N n w1).
    { rewrite L. unfold bindM at 1. by rewrite Er. }
    destruct (Z.eqb_spec n 0) as [->|Hn0].
    + unfold after_read in L'. rewrite Z.eqb_refl in L'.
      eapply serves_next; [exact L'|done|done| |lia|].
      2:{ apply IH; [|rewrite Ein in He1; lia]. rewrite Z.add_0_r in R1. by split. }
      lia.
    + eapply (after_read_ok f N n rs tail w w1); try done; rewrite Ein in *; lia.
  - eapply serves_next; [exact L|done|done| | |apply IH]; cbn [set_input w_input]; rewrite ?Ein.
    + done.
    + unfold events_size; cbn [sum_list_with event_size]; lia.
    + by eapply ready_skip.
    + unfold events_size in *; rewrite ?Ein in Hf; cbn [sum_list_with event_size] in *; lia.
  - destruct R as [[_ _ Rq _ _] _]. rewrite Ein in Rq. by inversion Rq.
  - destruct R as [[_ _ Rq _ _] _]. rewrite Ein in Rq. by inversion Rq.
  - destruct R as [[_ _ Rq _ _] _]. rewrite Ein in Rq. by inversion Rq.
Qed.

(** ** A connection *)

Lemma serve_ok rs tail (w : world) :
  ready 0 rs tail w -> serves 0 rs tail w (serve version in_ptr out_ptr bufferSize).
Proof.
  intros R. destruct (serve_loop_ok (events_size (w_input w) + 1) 0 rs tail w R ltac:(lia))
    as (o & w' & rs1 & rs2 & E & X).
  exists o, w', rs1, rs2. split; [|exact X]. unfold serve, try_catch. by rewrite E.
Qed.

Lemma connection_ok : forall f rs tail (w : world),
  ready 0 rs tail w -> (events_size (w_input w) < f)%nat ->
  exists o w', let a := respond_all (complete (zlen (data (w_input w))) rs) (w_store w) in
    connection version in_ptr out_ptr bufferSize f w = (Ok o, w') /\
    (o = Released \/ o = Waiting) /\ w_input w' = [] /\
    w_sent w' = w_sent w ++ r_bytes a /\ w_store w' = r_store a.
Proof.
  induction f as [|f IH]; intros rs tail w R Hf; [lia|]. cbn [connection].
  unfold bindM at 1, get_input.
  destruct (decide (w_input w = [])) as [Ein|Ein].
  { exists Released, w. rewrite Ein. destruct R as [_ Hs]. change (zlen (data [])) with 0.
    rewrite Hs. cbn. rewrite app_nil_r. split; [done|]. split; [by left|]. done. }
  destruct (serve_ok rs tail w R) as (o & w1 & rs1 & rs2 & E & -> & Hex & Hs & Hst & Hl & X).
  assert (L : match w_input w with [] => ret Released | _ :: _ =>
      letM o := serve version in_ptr out_ptr bufferSize in
      match o with Released => connection version in_ptr out_ptr bufferSize f | _ => ret o end end w =
    match o with Released => connection version in_ptr out_ptr bufferSize f | _ => ret o end w1).
  { destruct (w_input w); [done|]. unfold bindM at 1. by rewrite E. }
  rewrite L. rewrite Z.add_0_l in *.
  rewrite complete_app by lia.
  destruct (respond_all_app rec_render bufferSize rs1
    (complete (zlen (data (w_input w)) - zlen (stream rs1)) rs2) (w_store w) Hex) as (Eb & _ & Es).
  cbv zeta. rewrite Eb, Es, <- Hst.
  destruct o; try done.
  - destruct X as (R2 & Hleft & He). rewrite Hleft.
    destruct (IH rs2 tail w1 R2 ltac:(lia)) as (o & w2 & E2 & Ho & Hi & Hs2 & Hst2).
    exists o, w2. split; [exact E2|]. split; [done|]. split; [done|]. split; [|done].
    by rewrite Hs2, Hs, app_assoc.
  - destruct X as (Hi & Hc). rewrite Hc. cbn. rewrite app_nil_r.
    exists Waiting, w1. split; [done|]. split; [by right|]. done.
Qed.

(** The start of a connection: the events carry a prefix of the stream. *)
Lemma ready_start rs tail (w : world) :
  Forall request_ok rs -> Forall (fun r => zlen (encode r) <= bufferSize) rs ->
  Forall quiet (w_input w) -> stream rs = data (w_input w) ++ tail ->
  all_answered (complete (zlen (data (w_input w))) rs) (w_store w) ->
  ready 0 rs tail w.
Proof.
  intros Hok Hfit Hq Es Ha. split.
  - split; try done. exists []. split; [done|]. split; [done|]. apply view_nil.
  - destruct Hok as [|r rs Hr]; [done|]. apply complete_cons_lt. pose proof (encode_pos r Hr). lia.
Qed.

End ServeCorrect.
