(* ===== verification/ServeErrors.v ===== *)
(** * What the worker does when something is wrong

    Requests or items that no buffer can hold, unknown commands, and the request
    that ends the thread. *)

From S2P Require Import Prelude.
From S2P Require Import Memory.
From S2P Require Import Java.
From S2P Require Import CarrotCache.
From S2P Require Import Utils.
From S2P Require Import Command.
From S2P Require Import CommandParse.
From S2P Require Import CommandParser.
From S2P Require Import Client.
From S2P Require Import ParseCorrect.
From S2P Require Import World.
From S2P Require Import Execute.
From S2P Require Import Protocol.
From S2P Require Import ExecuteCorrect.
From S2P Require Import CommandProcessor.
From S2P Require Import ProcessCorrect.
From S2P Require Import Stream.
From S2P Require Import WorkThread.
From S2P Require Import Network.
From S2P Require Import ServeCorrect.

Section ServeErrors.
Context {mem S item : Type}.
Context `{UnsafeAccessLaws mem} `{CarrotUtilsLaws} `{Memcached S item} `{RecordWriter mem item}.

#[local] Abbreviation world := (World mem S).

Variable version : option bytes.
Variables in_ptr out_ptr bufferSize : Z.
Hypothesis in_pos : 0 <= in_ptr.
Hypothesis size_ok : 128 <= bufferSize.

#[local] Abbreviation serve := (serve version in_ptr out_ptr bufferSize).
#[local] Abbreviation batch := (batch version in_ptr out_ptr bufferSize).
#[local] Abbreviation serve_loop := (serve_loop version in_ptr out_ptr bufferSize).

(** The world in which [l] has been read at the front of the buffer. *)
Definition received (l : bytes) (es : list Event) (w : world) : world :=
  set_mem (copyBytes (w_mem w) l in_ptr) (set_input es w).

(** A first read that fits. *)
Lemma serve_read f l es (w : world) :
  w_input w = Data l :: es -> l <> [] -> zlen l <= bufferSize ->
  serve_loop (Datatypes.S f) 0 0 w =
    after_read version in_ptr out_ptr bufferSize f 0 0 (zlen l) (received l es w).
Proof.
  intros Ein Hl Hsize. rewrite serve_loop_eq by lia. rewrite Ein. unfold bindM, channel_read.
  rewrite Z.min_l by lia. rewrite to_nat_zlen, drop_all, firstn_all. cbn.
  unfold received. by rewrite Z.add_0_r.
Qed.

Lemma messages_fit : zlen INPUT_TOO_LARGE <= 128 /\ zlen OUTPUT_TOO_LARGE <= 128.
Proof. split; vm_compute; discriminate. Qed.

(** Sending a fixed message. *)
Lemma put_and_write_ok msg (w : world) :
  zlen msg <= bufferSize ->
  put_and_write out_ptr bufferSize msg w =
    (Ok tt, add_sent msg (set_mem (copyBytes (w_mem w) msg out_ptr) w)).
Proof.
  intros Hm. unfold put_and_write. rewrite (proj2 (Z.ltb_ge _ _)) by done.
  unfold bindM, write, on_mem. rewrite write_out_ok by zlia.
  cbn [w_mem set_mem]. by rewrite bytes_at_copyBytes.
Qed.

Lemma put_and_write_anyway_ok msg (w : world) :
  zlen msg <= bufferSize ->
  put_and_write_anyway out_ptr bufferSize msg w =
    (Ok false, add_sent msg (set_mem (copyBytes (w_mem w) msg out_ptr) w)).
Proof.
  intros Hm. unfold put_and_write_anyway. rewrite (proj2 (Z.ltb_ge _ _)) by done.
  unfold bindM, write, on_mem, read, read_mem. cbn [w_mem set_mem]. by rewrite bytes_at_copyBytes.
Qed.

Lemma serve_released o (w w' : world) :
  serve_loop (events_size (w_input w) + 1) 0 0 w = (Ok o, w') -> serve w = (Ok o, w').
Proof. intros E. unfold WorkThread.serve, try_catch. by rewrite E. Qed.

(** *** A request that the buffer cannot hold *)

Lemma serve_oversize r l l2 tail es (w : world) :
  request_ok r -> encode r = l ++ tail -> zlen l = bufferSize -> tail <> [] ->
  w_input w = Data (l ++ l2) :: es ->
  exists w', serve w = (Ok Closed, w') /\ w_sent w' = w_sent w ++ INPUT_TOO_LARGE /\
    w_store w' = w_store w.
Proof.
  intros Hr El Hl Ht Ein. assert (0 < zlen tail) by (by apply zlen_pos).
  assert (Hlt : bufferSize < zlen (encode r)) by (rewrite El, zlen_app; lia).
  set (w1 := set_mem (copyBytes (w_mem w) l in_ptr)
    (set_input (match l2 with [] => es | _ => Data l2 :: es end) w)).
  assert (V : view (w_mem w1) in_ptr bufferSize (encode r)).
  { rewrite El. apply view_app. split; [|apply view_short; lia].
    cbn. apply view_copyBytes. }
  assert (E : serve_loop (events_size (w_input w) + 1) 0 0 w =
    serve_loop (events_size (w_input w)) bufferSize bufferSize (set_last None w1)).
  { rewrite Nat.add_1_r. rewrite serve_loop_eq by lia. rewrite Ein at 1.
    unfold bindM, channel_read. rewrite zlen_app, Z.sub_0_r, Z.min_r by zlia.
    rewrite <- Hl, to_nat_zlen, take_app_length, drop_app_length, Hl. cbn -[WorkThread.serve_loop].
    rewrite Z.add_0_r. fold w1. unfold after_read. rewrite (proj2 (Z.eqb_neq bufferSize 0)) by lia.
    rewrite Z.add_0_l. replace (Z.to_nat bufferSize + 1)%nat with (Datatypes.S (Z.to_nat bufferSize)) by lia.
    cbn [WorkThread.batch]. rewrite (proj2 (Z.ltb_lt 0 bufferSize)) by lia.
    rewrite Z.add_0_r, Z.sub_0_r. unfold bindM.
    rewrite (process_partial version (consume out_ptr bufferSize) out_ptr bufferSize r in_ptr
      bufferSize w1 Hr Hlt V). done. }
  assert (Hf : exists f, events_size (w_input w) = Datatypes.S f).
  { rewrite Ein. by eexists. }
  destruct Hf as [f Hf]. rewrite Hf in E at 2. cbn [WorkThread.serve_loop] in E.
  rewrite Z.eqb_refl in E. unfold bindM in E. rewrite put_and_write_ok in E by (pose proof messages_fit; lia).
  eexists. split; [apply serve_released; exact E|]. done.
Qed.

(** *** Requests the parser rejects *)

Definition command_names : list string := fst <$> command_class.

Lemma newCommand_unknown m p t :
  bytes_at m p (zlen t) = t -> Forall (fun name => t <> str name) command_names ->
  newCommand m p (zlen t) = Throw (UnsupportedCommand t).
Proof.
  intros Et F.
  assert (A : forall name, In name command_names -> is_cmd m p (zlen t) name = false).
  { intros name Hin. unfold is_cmd. rewrite Et. apply Z.eqb_neq. intros C%compareTo_eq.
    by apply (proj1 (List.Forall_forall _ _) F name Hin). }
  unfold newCommand. rewrite Et.
  repeat match goal with
  | |- context [is_cmd m p (zlen t) ?name] => rewrite (A name) by (cbn; tauto)
  end.
  by repeat match goal with |- context [if ?b then _ else _] => destruct b end.
Qed.

(** The first token of the buffer names no command. *)
Lemma parse_unknown m p n t c k :
  view m p n (t ++ c :: k) -> token t -> sep c -> zlen t < n -> 3 <= n ->
  Forall (fun name => t <> str name) command_names ->
  parse m p n = Throw (UnsupportedCommand t).
Proof.
  intros V Ht Hc Hn Hn3 F. unfold parse. rewrite (proj2 (Z.ltb_ge n 3)) by lia.
  destruct (token_hd t (c :: k) Ht) as (y & t' & E & _ & Hy). pose proof V as V0.
  rewrite E in V0. rewrite (nextTokenStart_here m p n y (t' ++ c :: k)) by (done || lia).
  rewrite (proj2 (Z.ltb_lt 0 n)) by lia. cbn [Z.ltb Z.compare].
  rewrite Z.add_0_r, !Z.sub_0_r. rewrite (tokEnd m p n t c k) by (done || lia).
  rewrite (proj2 (Z.ltb_lt (zlen t) n)) by lia. pose proof (zlen_nonneg t).
  rewrite (proj2 (Z.ltb_ge (zlen t) 0)) by lia.
  apply view_app in V as [V _].
  rewrite (newCommand_unknown m p t); [done|by apply (bytes_at_view m p n); [|lia]|done].
Qed.

(** [ERROR] is the answer, and the connection is closed. *)
Lemma serve_unknown t c k es (w : world) :
  token t -> sep c -> Forall (fun name => t <> str name) command_names ->
  w_input w = Data (t ++ c :: k) :: es -> 3 <= zlen (t ++ c :: k) <= bufferSize ->
  exists w', serve w = (Ok Closed, w') /\ w_sent w' = w_sent w ++ ERROR /\ w_store w' = w_store w.
Proof.
  intros Ht Hc F Ein Hsize. set (l := t ++ c :: k) in *.
  set (w1 := received l es w).
  assert (V : view (w_mem w1) in_ptr (zlen l) l) by apply view_copyBytes.
  assert (Ep : parse (w_mem w1) in_ptr (zlen l) = Throw (UnsupportedCommand t)).
  { eapply parse_unknown; try done; [unfold l; zlia|lia]. }
  set (w2 := set_mem (copyBytes (w_mem w1) ERROR out_ptr) (set_last None w1)).
  assert (E : process version (consume out_ptr bufferSize) in_ptr (zlen l) out_ptr bufferSize w1
    = (Ok 7, w2)).
  { rewrite (process_throw _ _ _ _ _ _ _ _ Ep). reflexivity. }
  exists (add_sent (bytes_at (w_mem w2) out_ptr 7) w2). split.
  - apply serve_released. rewrite Nat.add_1_r, (serve_read _ _ _ _ Ein) by first [lia | by destruct t].
    fold w1. unfold after_read. rewrite (proj2 (Z.eqb_neq (zlen l) 0)) by lia.
    rewrite Z.add_0_l, Nat.add_1_r. cbn [WorkThread.batch].
    rewrite (proj2 (Z.ltb_lt 0 (zlen l))) by lia. rewrite Z.add_0_r, Z.sub_0_r.
    unfold bindM. rewrite E. cbn [Z.ltb Z.compare]. by rewrite write_out_ok by lia.
  - cbn. split; [|done]. do 2 f_equal. apply (bytes_at_copyBytes _ ERROR).
Qed.

(** A name at the end of the line: the arguments are read from the line end on. *)
Lemma parse_bare m p n name cmd k :
  In (name, cmd) command_class -> view m p n (str name ++ CRLF ++ k) ->
  zlen (str name) < n -> token (str name) -> 3 <= n ->
  parse m p n = parse_command cmd m (p + zlen (str name)) (n - zlen (str name)).
Proof.
  intros Hin V Hn Ht Hn3. unfold parse. rewrite (proj2 (Z.ltb_ge n 3)) by lia.
  destruct (token_hd (str name) (CRLF ++ k) Ht) as (y & t' & E & _ & Hy). pose proof V as V0.
  rewrite E in V0. rewrite (nextTokenStart_here m p n y (t' ++ CRLF ++ k)) by (done || lia).
  rewrite (proj2 (Z.ltb_lt 0 n)) by lia. cbn [Z.ltb Z.compare].
  rewrite Z.add_0_r, !Z.sub_0_r.
  rewrite (tokEnd m p n (str name) CR (LF :: k)) by first [done | lia | by right].
  rewrite (proj2 (Z.ltb_lt (zlen (str name)) n)) by lia. pose proof (zlen_nonneg (str name)).
  rewrite (proj2 (Z.ltb_ge (zlen (str name)) 0)) by lia.
  apply view_app in V as [V V'].
  rewrite (newCommand_class m p name cmd Hin) by (by apply (bytes_at_view m p n); [|lia]).
  cbn [rbind].
  rewrite (nextTokenStart_here _ _ _ CR (LF :: k)) by (done || lia).
  rewrite (proj2 (Z.ltb_lt 0 _)) by lia. cbn [Z.ltb Z.eqb Z.compare Z.opp].
  by rewrite Z.add_0_r, Z.sub_0_r.
Qed.

(** [get] without a key: an empty retrieval, which claims one byte more than the
    request has. *)
Lemma parse_bare_get m p n k :
  view m p n (str "get" ++ CRLF ++ k) -> 5 <= n ->
  exists c, parse m p n = Ok (Some (RetrievalCommand GET c)) /\ r_keys c = [] /\
    inputConsumed (RetrievalCommand GET c) = 6.
Proof.
  intros V Hn. pose proof V as V0. apply view_app in V0 as [_ V0].
  change (zlen (str "get")) with 3 in V0.
  pose proof V0 as V1. apply view_cons in V1 as [V1 _].
  rewrite (parse_bare m p n "get" (RetrievalCommand GET (new_RetrievalCommand GET)) k);
    [|cbn; tauto|exact V|change (zlen (str "get")) with 3; lia| |lia].
  2:{ split; [done|]. by repeat (constructor; [by split|]). }
  change (zlen (str "get")) with 3. cbn [parse_command]. unfold RetrievalCommand_parse.
  assert (Ec : calculateNumberOfKeys m (p + 3) (n - 3) = 0).
  { unfold calculateNumberOfKeys. rewrite Nat.add_1_r. cbn [countKeys].
    by rewrite Z.add_0_r, V1 by lia. }
  rewrite Ec. cbn [Z.ltb Z.compare r_isTouch new_RetrievalCommand new_array rbind Z.to_nat readKeys].
  change (Z.to_nat 0) with 0%nat. cbn [readKeys rbind].
  rewrite (skip_crlf_view _ m (p + 3) (n - 3) 0 k);
    [|rewrite Z.add_0_r, Z.sub_0_r; exact V0|lia].
  rewrite (proj2 (Z.ltb_ge (n - 3 - 0) 2)) by lia. cbn. eexists. by split.
Qed.

(** [quit] closes the connection without an answer. *)
Lemma serve_quit es (w : world) :
  w_input w = Data (str "quit" ++ CRLF) :: es ->
  exists w', serve w = (Ok Closed, w') /\ w_sent w' = w_sent w /\ w_store w' = w_store w.
Proof.
  intros Ein. set (l := str "quit" ++ CRLF) in *. set (w1 := received l es w).
  assert (V : view (w_mem w1) in_ptr 6 l) by apply view_copyBytes.
  assert (Ep : parse (w_mem w1) in_ptr 6 = Ok (Some QUIT)).
  { rewrite (parse_bare _ _ _ "quit" QUIT []); [reflexivity|cbn; tauto|exact V|done| |lia].
    split; [done|]. by repeat (constructor; [by split|]). }
  exists (set_last (Some QUIT) w1). split; [|done].
  apply serve_released. rewrite Nat.add_1_r, (serve_read _ _ _ _ Ein) by first [done | change (zlen l) with 6; lia].
  change (zlen l) with 6. fold w1. unfold after_read. cbn [Z.eqb]. rewrite Z.add_0_l.
  rewrite Nat.add_1_r. generalize (Z.to_nat 6). intros f. cbn [WorkThread.batch Z.ltb Z.compare].
  rewrite Z.add_0_r, Z.sub_0_r. unfold bindM.
  by rewrite (process_some _ _ _ _ _ _ _ _ Ep in_pos).
Qed.

(** [gat] without arguments: the number of keys becomes -1, and the array of that
    size cannot be made.  Nothing catches the exception. *)
Lemma serve_bare_gat v es (w : world) :
  v = GAT \/ v = GATS ->
  w_input w = Data (str (match v with GAT => "gat" | _ => "gats" end) ++ CRLF) :: es ->
  exists w', serve w = (Ok (Died (NegativeArraySizeException (-1))), w') /\
    w_sent w' = w_sent w /\ w_store w' = w_store w.
Proof.
  intros Hv Ein. set (name := match v with GAT => "gat"%string | _ => "gats"%string end) in *.
  set (l := str name ++ CRLF) in *. set (w1 := received l es w).
  assert (Hl : 5 <= zlen l <= 6) by (unfold l, name; destruct Hv as [-> | ->]; vm_compute; split; discriminate).
  assert (V : view (w_mem w1) in_ptr (zlen l) l) by apply view_copyBytes.
  assert (Hz : zlen l = zlen (str name) + 2) by (unfold l; zlia).
  assert (Ep : parse (w_mem w1) in_ptr (zlen l) = Throw (NegativeArraySizeException (-1))).
  { rewrite (parse_bare _ _ _ name (RetrievalCommand v (new_RetrievalCommand v)) []);
      [|destruct Hv as [-> | ->]; cbn; tauto|exact V|lia| |lia].
    2:{ destruct Hv as [-> | ->]; (split; [done|]); by repeat (constructor; [by split|]). }
    replace (zlen l - zlen (str name)) with 2 by lia. apply view_app in V as [_ V].
    apply view_cons in V as [V _]. cbn [parse_command]. unfold RetrievalCommand_parse.
    assert (Ec : calculateNumberOfKeys (w_mem w1) (in_ptr + zlen (str name)) 2 = 0).
    { unfold calculateNumberOfKeys. rewrite Nat.add_1_r. cbn [countKeys].
      by rewrite Z.add_0_r, V by lia. }
    rewrite Ec. by destruct Hv as [-> | ->]. }
  exists (set_last None w1). split; [|done].
  assert (E : serve_loop (events_size (w_input w) + 1) 0 0 w =
    (Throw (NegativeArraySizeException (-1)), set_last None w1)).
  { rewrite Nat.add_1_r, (serve_read _ _ _ _ Ein) by (try lia; by destruct Hv as [-> | ->]).
    fold w1. unfold after_read. rewrite (proj2 (Z.eqb_neq (zlen l) 0)) by lia.
    rewrite Z.add_0_l, Nat.add_1_r. cbn [WorkThread.batch].
    rewrite (proj2 (Z.ltb_lt 0 (zlen l))) by lia. rewrite Z.add_0_r, Z.sub_0_r.
    unfold bindM. by rewrite (process_throw _ _ _ _ _ _ _ _ Ep). }
  unfold WorkThread.serve, try_catch. by rewrite E.
Qed.

(** *** An item that the buffer cannot hold *)

Hypothesis buffers_apart : in_ptr + bufferSize <= out_ptr \/ out_ptr + bufferSize <= in_ptr.

Context `{!RecordWriterLaws mem item, !MemcachedRetryLaws S item}.

Lemma batch_throw r n f e (w : world) :
  request_ok r -> zlen (encode r) <= n -> n <= bufferSize ->
  view (w_mem w) in_ptr n (encode r) ->
  reply_fits rec_render bufferSize r (w_store w) ->
  let a := respond rec_render bufferSize r (w_store w) in
  r_exn a = Some e ->
  exists w', batch (Datatypes.S f) 0 n w = (Throw e, w') /\
    w_sent w' = w_sent w ++ r_bytes a /\ w_store w' = r_store a /\ w_input w' = w_input w.
Proof.
  intros Hr Hle Hn V Hfit a Ha. pose proof (encode_pos r Hr).
  destruct (process_respond version (consume out_ptr bufferSize) out_ptr bufferSize
    (consume_ok out_ptr bufferSize)
    ltac:(lia) r in_ptr n w Hr in_pos Hle V) as (res & w1 & Ep & X); [unfold apart; lia|done|].
  fold a in X. rewrite Ha in X. destruct X as [-> [D1 D2 D3 D4 D5]].
  exists w1. cbn [WorkThread.batch]. rewrite (proj2 (Z.ltb_lt 0 n)) by lia.
  rewrite Z.add_0_r, Z.sub_0_r. unfold bindM. rewrite Ep.
  split; [done|]. rewrite !bytes_at_0, app_nil_r in D5. done.
Qed.

(** The connection is kept, and whatever followed the request in the buffer is
    dropped unanswered. *)
Lemma serve_overflow r more es (w : world) :
  request_ok r -> w_input w = Data (encode r ++ more) :: es ->
  zlen (encode r ++ more) <= bufferSize ->
  reply_fits rec_render bufferSize r (w_store w) ->
  let a := respond rec_render bufferSize r (w_store w) in
  r_exn a = Some BufferOverflowException ->
  exists w', serve w = (Ok Released, w') /\
    w_sent w' = w_sent w ++ r_bytes a ++ OUTPUT_TOO_LARGE /\ w_store w' = r_store a /\
    w_input w' = es.
Proof.
  intros Hr Ein Hsize Hfit a Ha. pose proof (encode_pos r Hr) as Hp.
  set (w1 := received (encode r ++ more) es w).
  assert (V : view (w_mem w1) in_ptr (zlen (encode r ++ more)) (encode r)).
  { pose proof (view_copyBytes (w_mem w) (encode r ++ more) in_ptr (zlen (encode r ++ more))) as V.
    by apply view_app in V as [V _]. }
  destruct (batch_throw r (zlen (encode r ++ more)) (Z.to_nat (zlen (encode r ++ more)))
    BufferOverflowException w1) as (w2 & Eb & Hs & Hst & Hi); [done|zlia|done..|].
  assert (E : serve_loop (events_size (w_input w) + 1) 0 0 w = (Throw BufferOverflowException, w2)).
  { rewrite Nat.add_1_r, (serve_read _ _ _ _ Ein) by (try done; by destruct (encode r)).
    fold w1. unfold after_read. rewrite (proj2 (Z.eqb_neq _ 0)) by zlia.
    rewrite Z.add_0_l, Nat.add_1_r. unfold bindM. by rewrite Eb. }
  unfold WorkThread.serve, try_catch. rewrite E. cbn [serve_handler]. unfold overflow_clause, bindM.
  rewrite put_and_write_anyway_ok by (pose proof messages_fit; lia).
  eexists. split; [done|]. cbn. rewrite Hs, Hst, Hi. by rewrite <- app_assoc.
Qed.

End ServeErrors.
