(* ===== verification/ServerCommands.v ===== *)
(** * [stats], [version] and [flush_all]

    What the server commands put in the output buffer, and what they do to the
    store. *)

From S2P Require Import Prelude.
From S2P Require Import Memory.
From S2P Require Import Java.
From S2P Require Import CarrotCache.
From S2P Require Import Utils.
From S2P Require Import Command.
From S2P Require Import CommandParse.
From S2P Require Import Client.
From S2P Require Import World.
From S2P Require Import Execute.
From S2P Require Import Protocol.
From S2P Require Import ExecuteCorrect.

(** Sizes of literals. *)
Ltac sz := rewrite ?zlen_CRLF; zstr; zlia.

Section ServerCommands.
Context {mem S item : Type}.
Context `{UnsafeAccessLaws mem} `{CarrotUtils} `{Memcached S item} `{RecordWriter mem item}.

#[local] Abbreviation MS := (M mem S).
#[local] Abbreviation world := (World mem S).
Variables out size : Z.
#[local] Abbreviation executed := (executed out size).

(** Bytes written behind the pending ones. *)
Lemma write_then (c : MS Z) l w k a p :
  p = out + k -> 0 <= k -> k + zlen l <= size ->
  executed c (set_mem (copyBytes (w_mem w) l p) w) (k + zlen l) a ->
  executed (letM _ := write l p in c) w k (Build_Reply (l ++ r_bytes a) (r_exn a) (r_store a)).
Proof.
  intros -> Hk Hl X. eapply executed_step; [|apply delivered_copy; [done|exact Hl|done]|exact X].
  reflexivity.
Qed.

Lemma put_then (c : MS Z) x w k a p :
  p = out + k -> 0 <= k < size ->
  executed c (set_mem (putByte (w_mem w) p x) w) (k + 1) a ->
  executed (letM _ := put_byte x p in c) w k (Build_Reply ([x] ++ r_bytes a) (r_exn a) (r_store a)).
Proof.
  intros -> Hk X. eapply executed_step; [|apply delivered_put; exact Hk|exact X].
  reflexivity.
Qed.

Lemma ret_done (w : world) k n : n = k -> 0 <= k <= size -> executed (ret n) w k (done_with [] (w_store w)).
Proof.
  intros -> Hk. exists (Ok k), w. split; [done|]. exists k. split; [done|]. split; [done|].
  split; cbn; rewrite ?app_nil_r; done.
Qed.

(** ** [stats] *)

(** [stats()] as the list the store returns. *)
Definition flatten (l : list (bytes * bytes)) : list bytes := concat ((fun p => [p.1; p.2]) <$> l).

Definition stat_line (p : bytes * bytes) : bytes :=
  str "STAT " ++ p.1 ++ [SP] ++ p.2 ++ CRLF.
Definition stats_text (l : list (bytes * bytes)) : bytes := concat (stat_line <$> l) ++ c_END.

Lemma stats_text_cons p l : stats_text (p :: l) = stat_line p ++ stats_text l.
Proof. unfold stats_text. cbn. by rewrite <- app_assoc. Qed.

Lemma stats_loop_ok l : forall (w : world) k,
  0 <= k -> k + zlen (stats_text l) <= size ->
  executed (stats_loop (flatten l) out k) w k (done_with (stats_text l) (w_store w)).
Proof.
  induction l as [|[name value] l IH]; intros w k Hk Hs.
  - change (stats_text []) with (c_END ++ []) in *. cbn [flatten fmap list_fmap concat stats_loop].
    change (zlen (c_END ++ [])) with 5 in Hs.
    apply (write_then _ _ w k (done_with [] (w_store w))); [done|done|exact Hs|].
    apply (ret_done (set_mem _ w)); [done|]. change (zlen c_END) with 5. lia.
  - change (flatten ((name, value) :: l)) with (name :: value :: flatten l). cbn [stats_loop].
    rewrite stats_text_cons in *. unfold stat_line in *. cbn [fst snd] in *.
    rewrite <- !app_assoc in *. rewrite !zlen_app in Hs.
    change (zlen (str "STAT ")) with 5 in Hs. change (zlen [SP]) with 1 in Hs.
    change (zlen CRLF) with 2 in Hs.
    pose proof (zlen_nonneg name). pose proof (zlen_nonneg value). pose proof (zlen_nonneg (stats_text l)).
    set (t5 := stats_text l) in *. set (t4 := CRLF ++ t5). set (t3 := value ++ t4).
    set (t2 := [SP] ++ t3). set (t1 := name ++ t2).
    apply (write_then _ _ w k (done_with t1 (w_store w))); [done|done|sz|].
    apply (write_then _ _ _ _ (done_with t2 (w_store w))); [sz|sz|sz|].
    apply (put_then _ _ _ _ (done_with t3 (w_store w))); [sz|sz|].
    apply (write_then _ _ _ _ (done_with t4 (w_store w))); [sz|sz|sz|].
    apply (write_then _ _ _ _ (done_with t5 (w_store w))); [sz|sz|sz|].
    replace (k + zlen (str "STAT ") + zlen name + 1 + zlen value + zlen CRLF)
      with (k + 5 + zlen name + 1 + zlen value + 2) by (sz).
    lazymatch goal with |- executed _ ?w' ?k' _ =>
      exact (IH w' k' ltac:(lia) ltac:(lia)) end.
Qed.

(** An odd list ends in the middle of a line. *)
Lemma stats_loop_odd l x k (w : world) :
  (stats_loop (mem:=mem) (S:=S) (flatten l ++ [x]) out k w).1 = Throw NoSuchElementException.
Proof.
  revert k w. induction l as [|[name value] l IH]; intros k w; [done|].
  change (flatten ((name, value) :: l) ++ [x]) with (name :: value :: (flatten l ++ [x])).
  cbn [stats_loop]. unfold bindM at 1 2 3 4 5, write, put_byte, on_mem. apply IH.
Qed.

(** ** [version] and [flush_all] *)

Lemma VERSION_execute_ok version (w : world) :
  let v := default (str "unknown") version in
  10 + zlen v <= size ->
  executed (VERSION_execute version out) w 0
    (done_with (str "VERSION " ++ v ++ CRLF) (w_store w)).
Proof.
  intros v Hs. pose proof (zlen_nonneg v). unfold VERSION_execute. fold v.
  change (str "VERSION " ++ v ++ CRLF) with (str "VERSION " ++ v ++ CRLF ++ []).
  apply (write_then _ _ w 0 (done_with (v ++ CRLF ++ []) (w_store w))); [lia|lia|sz|].
  apply (write_then _ _ _ _ (done_with (CRLF ++ []) (w_store w))); [sz|sz|sz|].
  apply (write_then _ _ _ _ (done_with [] (w_store w))); [sz|sz|sz|].
  lazymatch goal with |- executed _ ?w' _ _ => apply (ret_done w'); sz end.
Qed.

Lemma FLUSH_ALL_execute_ok c (w : world) :
  4 <= size ->
  executed (FLUSH_ALL_execute c out) w 0
    (done_with (unless (f_noreply c) c_OK) (mc_flushAll (w_store w) (f_delay c))).
Proof.
  intros Hs. unfold FLUSH_ALL_execute.
  apply (call_executed out size (fun s => (tt, mc_flushAll s (f_delay c)))). cbn [fst snd].
  set (s := mc_flushAll (w_store w) (f_delay c)). set (w1 := set_store s w).
  apply (unless_executed out size _ _ _ w1); [lia| |done]. intros _.
  eapply (executed_step0 out size _ (letM _ := put_byte "O"%char out in
    letM _ := put_byte "K"%char (out + 1) in letM _ := put_byte CR (out + 2) in
    letM _ := put_byte LF (out + 3) in ret 4) w1 w1 0 0 s);
    [reflexivity|split; cbn; rewrite ?app_nil_r; done|].
  change (done_with c_OK s) with (done_with (["O"%char] ++ ["K"%char] ++ [CR] ++ [LF] ++ []) s).
  apply (put_then _ _ _ _ (done_with (["K"%char] ++ [CR] ++ [LF] ++ []) s)); [lia|lia|].
  apply (put_then _ _ _ _ (done_with ([CR] ++ [LF] ++ []) s)); [lia|lia|].
  apply (put_then _ _ _ _ (done_with ([LF] ++ []) s)); [lia|lia|].
  apply (put_then _ _ _ _ (done_with [] s)); [lia|lia|].
  lazymatch goal with |- executed _ ?w' _ _ => apply (ret_done w'); lia end.
Qed.

End ServerCommands.
