(* ===== verification/Footprint.v ===== *)
(** * Where the worker writes

    A unary program logic for the code of the worker: [keeps D c Q E] says that
    [c], from any state, changes no byte outside the set of addresses [D], that the
    values it returns satisfy [Q] and the exceptions it throws satisfy [E].  The
    rules are those of the monad; with them the writes of every [execute] are shown
    to stay inside the output buffer, and those of the reads inside the input
    buffer.

    Several replies are written without a look at the size of the buffer
    ([STATS.execute], [VERSION.execute], the messages of exceptions): [texts_fit]
    is what has to hold of those texts, and [stats_loop_writes] what happens to the
    memory behind the buffer when it does not. *)

From S2P Require Import Prelude.
From S2P Require Import Memory.
From S2P Require Import Java.
From S2P Require Import CarrotCache.
From S2P Require Import Utils.
From S2P Require Import Command.
From S2P Require Import CommandParse.
From S2P Require Import CommandParser.
From S2P Require Import World.
From S2P Require Import Execute.
From S2P Require Import CommandProcessor.
From S2P Require Import WorkThread.
From S2P Require Import ServerCommands.

(** ** The messages of the parser *)

(** The message of an [IllegalFormatException] is at most 41 bytes long. *)
Definition short_exn (e : exn) : Prop :=
  match e with
  | UnsupportedCommand _ => True
  | IllegalFormatException msg => zlen msg <= 41
  | _ => True
  end.
Definition short {A} (r : result A) : Prop := match r with Throw e => short_exn e | _ => True end.

Lemma short_rbind {A B} (r : result A) (f : A -> result B) :
  short r -> (forall a, short (f a)) -> short (rbind r f).
Proof. destruct r; cbn; auto. Qed.
Lemma short_catch {A} (r : result A) e : short r -> short_exn e -> short (catch_nfe r e).
Proof. by destruct r as [|[]| |]. Qed.

Create HintDb short.
#[export] Hint Extern 1 (short (Ok _)) => exact I : short.
#[export] Hint Extern 1 (short (Throw _)) =>
  first [exact I | cbn [short short_exn]; vm_compute; discriminate] : short.
#[export] Hint Extern 1 (short_exn _) =>
  first [exact I | cbn [short_exn]; vm_compute; discriminate] : short.

(** Walk through the tests and binds of a parser. *)
Ltac shorts :=
  repeat first
    [ progress (auto with short)
    | apply short_rbind; [|intros]
    | match goal with |- short (match ?x with _ => _ end) => destruct x end
    | apply short_catch ].

Section ParserMessages.
Context {mem : Type} `{UnsafeAccess mem} `{CarrotUtils}.
Implicit Types (m : mem).

Lemma getLong_short m p n : short (getLong m p n).
Proof. unfold getLong. shorts. Qed.
Lemma throwIfNotEquals_short n v msg : zlen msg <= 41 -> short (throwIfNotEquals n v msg).
Proof. intros. unfold throwIfNotEquals. shorts. Qed.
Lemma throwIfEquals_short n v msg : zlen msg <= 41 -> short (throwIfEquals n v msg).
Proof. intros. unfold throwIfEquals. shorts. Qed.
Lemma skip_crlf_short msg m p n e : zlen msg <= 41 -> short (skip_crlf msg m p n e).
Proof. intros. unfold skip_crlf. shorts. Qed.
#[local] Hint Resolve getLong_short throwIfNotEquals_short throwIfEquals_short skip_crlf_short : short.
#[local] Hint Extern 1 (zlen _ <= 41) => vm_compute; discriminate : short.

Lemma parse_tail_short msg m p n e : zlen msg <= 41 -> short (parse_tail msg m p n e).
Proof. intros. unfold parse_tail. shorts. Qed.
#[local] Hint Resolve parse_tail_short : short.

Lemma number_field_short {A} msg m p n e (k : Z -> Z -> result (option A)) :
  zlen msg <= 41 -> (forall v e, short (k v e)) -> short (number_field msg m p n e k).
Proof. intros. unfold number_field. shorts. Qed.

Lemma storage_finish_short this m p n ks f ex vs c e :
  short (storage_finish this m p n ks f ex vs c e).
Proof. unfold storage_finish. shorts. Qed.
#[local] Hint Resolve storage_finish_short : short.

(** The one message with a number in it. *)
Lemma illegal_size_short v :
  short_exn (IllegalFormatException (str "illegal value size: " ++ Long_toString v)).
Proof.
  cbn [short_exn]. rewrite zlen_app. pose proof (Long_toString_short v).
  change (zlen (str "illegal value size: ")) with 20. lia.
Qed.
#[local] Hint Extern 1 (short (Throw (IllegalFormatException (_ ++ _)))) =>
  apply illegal_size_short : short.

Lemma StorageCommand_parse_short this m p n : short (StorageCommand_parse this m p n).
Proof.
  unfold StorageCommand_parse.
  repeat first [progress shorts | apply number_field_short; [auto with short|intros]].
Qed.
Lemma INCR_parse_short this m p n : short (INCR_parse this m p n).
Proof. unfold INCR_parse. shorts. Qed.
Lemma TOUCH_parse_short this m p n : short (TOUCH_parse this m p n).
Proof. unfold TOUCH_parse. shorts. Qed.
Lemma DELETE_parse_short this m p n : short (DELETE_parse this m p n).
Proof. unfold DELETE_parse. shorts. Qed.
Lemma readKeys_short todo first m p n e : short (readKeys todo first m p n e).
Proof. revert first e. induction todo; intros; cbn [readKeys]; shorts. Qed.
Lemma new_array_short n : short (new_array n).
Proof. unfold new_array. shorts. Qed.
#[local] Hint Resolve readKeys_short new_array_short : short.
Lemma RetrievalCommand_parse_short this m p n : short (RetrievalCommand_parse this m p n).
Proof. unfold RetrievalCommand_parse. cbv zeta. shorts. Qed.
Lemma FLUSH_ALL_parse_short m p n : short (FLUSH_ALL_parse m p n).
Proof. unfold FLUSH_ALL_parse. shorts. Qed.
Lemma STATS_parse_short m p n : short (STATS_parse m p n).
Proof. unfold STATS_parse. shorts. Qed.
Lemma lift_short {A B} (f : A -> B) r : short r -> short (lift f r).
Proof. intros. unfold lift. shorts. Qed.
#[local] Hint Resolve StorageCommand_parse_short INCR_parse_short TOUCH_parse_short
  DELETE_parse_short RetrievalCommand_parse_short FLUSH_ALL_parse_short STATS_parse_short
  lift_short : short.

Lemma parse_command_short cmd m p n : short (parse_command cmd m p n).
Proof. destruct cmd; cbn [parse_command]; shorts. Qed.
Lemma newCommand_short m p n : short (newCommand m p n).
Proof. unfold newCommand. shorts. Qed.
#[local] Hint Resolve parse_command_short newCommand_short : short.

Lemma parse_short m p n : short (parse m p n).
Proof. unfold parse. shorts. Qed.

End ParserMessages.

(** ** The logic *)

Section Keeps.
Context {mem S : Type} `{UnsafeAccessLaws mem}.
Variable D : Z -> Prop.

(** The memories agree outside [D]. *)
Definition same_out (m m' : mem) : Prop := forall q, ~ D q -> toByte m' q = toByte m q.
(** The [n] bytes from [p] are in [D]. *)
Definition within (p n : Z) : Prop := forall q, p <= q < p + n -> D q.

Definition keeps {A} (c : M mem S A) (Q : A -> Prop) (E : exn -> Prop) : Prop :=
  forall w, same_out (w_mem w) (w_mem (c w).2) /\
    match (c w).1 with Ok a => Q a | Throw e => E e | _ => True end.

Lemma same_out_refl m : same_out m m.
Proof. by intros q _. Qed.
Lemma same_out_trans m1 m2 m3 : same_out m1 m2 -> same_out m2 m3 -> same_out m1 m3.
Proof. intros A B q Hq. rewrite B by done. by apply A. Qed.
Lemma same_off_out m m' p n : same_off m m' p n -> within p n -> same_out m m'.
Proof.
  intros S1 W q Hq. apply S1. destruct (decide (p <= q < p + n)) as [Hi|]; [|lia].
  by destruct Hq; apply W.
Qed.

Lemma within_sub p n p' n' : within p n -> p <= p' -> p' + n' <= p + n -> within p' n'.
Proof. intros W Hp Hn q Hq. apply W. lia. Qed.

Lemma keeps_weaken {A} (c : M mem S A) (Q Q' : A -> Prop) (E E' : exn -> Prop) :
  keeps c Q E -> (forall a, Q a -> Q' a) -> (forall e, E e -> E' e) -> keeps c Q' E'.
Proof. intros K HQ HE w. destruct (K w) as [S1 R]. split; [done|]. destruct (c w).1; auto. Qed.

Lemma keeps_bind {A B} (c : M mem S A) (f : A -> M mem S B) Q R E :
  keeps c Q E -> (forall a, Q a -> keeps (f a) R E) -> keeps (bindM c f) R E.
Proof.
  intros Kc Kf w. unfold bindM. destruct (Kc w) as [S1 R1].
  destruct (c w) as [[a|e| |] w']; cbn [fst snd] in *; try done.
  destruct (Kf a R1 w') as [S2 R2]. split; [by eapply same_out_trans | done].
Qed.
(** The common case: nothing is needed of the value. *)
Lemma keeps_step {A B} (c : M mem S A) (f : A -> M mem S B) R E :
  keeps c (fun _ => True) E -> (forall a, keeps (f a) R E) -> keeps (bindM c f) R E.
Proof. intros Kc Kf. apply (keeps_bind _ _ (fun _ => True)); auto. Qed.

Lemma keeps_try {A} (c : M mem S A) h Q E E' :
  keeps c Q E ->
  (forall e, E e -> match h e with Some k => keeps k Q E' | None => E' e end) ->
  keeps (try_catch c h) Q E'.
Proof.
  intros Kc Kh w. unfold try_catch. destruct (Kc w) as [S1 R1].
  destruct (c w) as [[a|e| |] w']; cbn [fst snd] in *; try done.
  specialize (Kh e R1). destruct (h e) as [k|]; [|done].
  destruct (Kh w') as [S2 R2]. split; [by eapply same_out_trans | done].
Qed.

Lemma keeps_ret {A} (a : A) (Q : A -> Prop) E : Q a -> keeps (ret a) Q E.
Proof. intros Ha w. split; [apply same_out_refl | done]. Qed.
Lemma keeps_throw {A} e (Q : A -> Prop) (E : exn -> Prop) : E e -> keeps (throw e) Q E.
Proof. intros He w. split; [apply same_out_refl | done]. Qed.
Lemma keeps_exit {A} (Q : A -> Prop) E : keeps exit Q E.
Proof. intros w. split; [apply same_out_refl | done]. Qed.
Lemma keeps_fuel {A} (Q : A -> Prop) E : keeps (lift_result OutOfFuel) Q E.
Proof. intros w. split; [apply same_out_refl | done]. Qed.
Lemma keeps_call {A} (f : S -> A * S) (Q : A -> Prop) E :
  (forall s, Q (f s).1) -> keeps (call f) Q E.
Proof.
  intros HQ w. unfold call. specialize (HQ (w_store w)). destruct (f (w_store w)).
  split; [apply same_out_refl | done].
Qed.
Lemma keeps_on_mem {A} (f : mem -> mem * A) p n (Q : A -> Prop) E :
  within p n -> (forall m, same_off m (f m).1 p n /\ Q (f m).2) -> keeps (on_mem f) Q E.
Proof.
  intros W HQ w. unfold on_mem. destruct (HQ (w_mem w)) as [S1 R1].
  destruct (f (w_mem w)). split; [by eapply same_off_out | done].
Qed.
Lemma keeps_read_mem {A} (f : mem -> A) (Q : A -> Prop) E :
  (forall m, Q (f m)) -> keeps (read_mem f) Q E.
Proof. intros HQ w. split; [apply same_out_refl | apply HQ]. Qed.
Lemma keeps_quiet {A} (c : M mem S A) E :
  (forall w, exists a, (c w).1 = Ok a) -> (forall w, w_mem (c w).2 = w_mem w) ->
  keeps c (fun _ => True) E.
Proof. intros R1 M1 w. rewrite M1. destruct (R1 w) as [a ->]. split; [apply same_out_refl | done]. Qed.

Lemma keeps_write l p E : within p (zlen l) -> keeps (write l p) (fun _ => True) E.
Proof.
  intros W. apply (keeps_on_mem _ p (zlen l)); [done|]. intros m. split; [apply copyBytes_off|done].
Qed.
Lemma keeps_put_byte c p E : within p 1 -> keeps (put_byte c p) (fun _ => True) E.
Proof.
  intros W. apply (keeps_on_mem _ p 1); [done|]. intros m. split; [apply putByte_off|done].
Qed.
Lemma keeps_read p n E : keeps (read p n) (fun _ => True) E.
Proof. by apply keeps_read_mem. Qed.
Lemma keeps_send l E : keeps (send l) (fun _ => True) E.
Proof. apply keeps_quiet; [by eexists|done]. Qed.
Lemma keeps_get_input E : keeps get_input (fun _ => True) E.
Proof. apply keeps_quiet; [by eexists|done]. Qed.
Lemma keeps_put_input es E : keeps (put_input es) (fun _ => True) E.
Proof. apply keeps_quiet; [by eexists|done]. Qed.
Lemma keeps_record_last c E : keeps (record_last c) (fun _ => True) E.
Proof. apply keeps_quiet; [by eexists|done]. Qed.
Lemma keeps_get_last E : keeps get_last (fun _ => True) E.
Proof. apply keeps_quiet; [by eexists|done]. Qed.

End Keeps.

Create HintDb keeps.
#[export] Hint Resolve keeps_exit keeps_fuel keeps_read keeps_send keeps_get_input
  keeps_put_input keeps_record_last keeps_get_last : keeps.
#[export] Hint Extern 1 (keeps _ (call _) (fun _ => True) _) => by apply keeps_call : keeps.
#[export] Hint Extern 2 (keeps _ (read_mem _) (fun _ => True) _) => by apply keeps_read_mem : keeps.
#[export] Hint Extern 2 (keeps _ (ret _) (fun _ => True) _) => by apply keeps_ret : keeps.

(** Walk through code whose values do not matter. *)
Ltac keep :=
  repeat first
    [ progress (auto with keeps)
    | apply keeps_step; [|intros]
    | match goal with |- keeps _ (match ?x with _ => _ end) _ _ => destruct x end ].

(** ** The texts that are not measured *)

(** What [STATS.execute] writes for a list of statistics. *)
Fixpoint stats_size (stats : list bytes) : Z :=
  match stats with
  | name :: value :: stats => 8 + zlen name + zlen value + stats_size stats
  | _ => 5
  end.

(** Room for the error line with the message of an exception. *)
Definition message_fits (size : Z) (e : exn) : Prop :=
  match e with
  | IllegalArgumentException msg | IllegalFormatException msg | UnsupportedCommand msg =>
      15 + zlen msg <= size
  | _ => True
  end.

(** Room for the reply of a counter, [\r\n] included. *)
Definition counter_fits `{CarrotUtils} (size : Z) (r : exn + Z) : Prop :=
  match r with inl e => message_fits size e | inr v => zlen (longToStrDirect v) + 2 <= size end.

(** The replies of the store that the code copies into an output buffer of [size]
    bytes without comparing sizes fit. *)
Record texts_fit {S item} `{CarrotUtils} `{Memcached S item} (version : option bytes) (size : Z) : Prop := {
  fits_fixed : 56 <= size;
  fits_version : 10 + zlen (default (str "unknown") version) <= size;
  fits_stats : forall s, stats_size (mc_stats s) <= size;
  fits_shutdown : forall s msg, (mc_shutdown s).1 = Some msg -> 15 + zlen msg <= size;
  fits_incr : forall s k v, counter_fits size (mc_incr s k v).1;
  fits_decr : forall s k v, counter_fits size (mc_decr s k v).1
}.

Lemma stats_size_min l : 5 <= stats_size l.
Proof.
  revert l. fix IH 1. intros [|name [|value l]]; [done..|]. cbn [stats_size].
  specialize (IH l). zlia.
Qed.

(** The size of a message of literals and texts. *)
Ltac room :=
  unfold c_END, CLIENT_ERROR, SERVER_ERROR, NUMBER_FORMAT_ERROR, INTERNAL_ERROR, ERROR;
  rewrite ?zlen_app, ?zlen_CRLF; zstr; zlia.

Section Footprints.
Context {mem S item : Type}.
Context `{UnsafeAccessLaws mem} `{CarrotUtils} `{Memcached S item} `{RecordWriter mem item}.
Context `{!RecordWriterLaws mem item}.
Variable D : Z -> Prop.

#[local] Abbreviation MS := (M mem S).
#[local] Abbreviation any := (fun _ => True).

Section Commands.
Variable version : option bytes.
Variable consume : Z -> MS unit.
Variables out size : Z.
Hypothesis consume_keeps : forall n, keeps D (consume n) any short_exn.
Hypothesis out_in : within D out size.
Hypothesis size_ok : 56 <= size.
#[local] Hint Resolve consume_keeps : keeps.

(** Bytes at an offset of the output buffer. *)
Lemma out_within p n : out <= p -> p + n <= out + size -> within D p n.
Proof. intros. by eapply within_sub. Qed.

Lemma keeps_write_out l p E :
  out <= p -> p + zlen l <= out + size -> keeps D (write l p : MS unit) any E.
Proof. intros. apply keeps_write, out_within; lia. Qed.
Lemma keeps_put_out c p E :
  out <= p -> p + 1 <= out + size -> keeps D (put_byte c p : MS unit) any E.
Proof. intros. apply keeps_put_byte, out_within; lia. Qed.
#[local] Hint Extern 1 (keeps D (write ?l _) _ _) =>
  apply keeps_write_out; [zlia|room] : keeps.
#[local] Hint Extern 1 (keeps D (put_byte _ _) _ _) => apply keeps_put_out; zlia : keeps.

(** The literal replies, none of which has more than 34 bytes. *)
Lemma keeps_reply l n E : zlen l <= size -> keeps D (reply l n out : MS Z) any E.
Proof.
  intros Hl. unfold reply. apply keeps_step; [|auto with keeps].
  apply keeps_write_out; [lia|]. unfold zlen in *. rewrite length_take. lia.
Qed.
#[local] Hint Extern 1 (keeps D (reply ?l _ out) _ _) =>
  apply keeps_reply; change (zlen l) with (ltac:(let n := eval vm_compute in (zlen l) in exact n)); lia : keeps.

Lemma keeps_storage op c E : keeps D (storage_execute op c out : MS Z) any E.
Proof. unfold storage_execute, stored_reply. keep. Qed.
Lemma keeps_CAS c E : keeps D (CAS_execute c out : MS Z) any E.
Proof. unfold CAS_execute. keep. Qed.
Lemma keeps_TOUCH c E : keeps D (TOUCH_execute c out : MS Z) any E.
Proof. unfold TOUCH_execute. keep. Qed.
Lemma keeps_DELETE c E : keeps D (DELETE_execute c out : MS Z) any E.
Proof. unfold DELETE_execute. keep. Qed.
Lemma keeps_FLUSH_ALL c E : keeps D (FLUSH_ALL_execute c out : MS Z) any E.
Proof. unfold FLUSH_ALL_execute, ok. keep. Qed.

(** *** Retrieval *)

(** [k] bytes are pending and leave room for the end line. *)
Lemma keeps_retrieve fetch b : forall f keys k,
  0 <= k <= size - 5 ->
  keeps D (retrieve consume f fetch b keys out size k : MS Z) any short_exn.
Proof.
  induction f as [|f IH]; intros keys k Hk; cbn [retrieve]; [auto with keeps|].
  destruct keys as [|[a n] keys].
  { apply keeps_step; [|auto with keeps]. apply keeps_write_out; [lia|].
    change (zlen c_END) with 5. lia. }
  apply keeps_step; [auto with keeps|intros key].
  apply keeps_step; [auto with keeps|intros [r|]; [|by apply IH]].
  apply (keeps_bind _ _ _ (fun sz => 0 <= sz)).
  - apply (keeps_on_mem _ _ (out + k) (size - k)); [apply out_within; lia|].
    intros m. rewrite rec_write_size. split; [|zlia].
    eapply same_off_widen; [apply rec_write_off|lia|lia].
  - intros sz Hsz. destruct (Z.gtb_spec sz (size - k - 5)); [|apply IH; lia].
    destruct (k >? 0); [|by apply keeps_throw].
    apply keeps_step; [auto with keeps|intros _]. apply IH. lia.
Qed.

(** *** Counters *)

Lemma keeps_arith op c E :
  (forall s k v, counter_fits size (op s k v).1) ->
  (forall e, match e with
    | NumberFormatException | IllegalArgumentException _ | IllegalFormatException _
    | UnsupportedCommand _ => True | _ => E e end) ->
  keeps D (arith_execute op c out : MS Z) any E.
Proof.
  intros Hop HE. unfold arith_execute. apply (keeps_try _ _ _ _ (message_fits size)).
  - apply keeps_step; [auto with keeps|intros key].
    apply (keeps_bind _ _ _ (counter_fits size)).
    { apply keeps_call. intros s. apply Hop. }
    intros r Hr. apply (keeps_bind _ _ _ (fun v => zlen (longToStrDirect v) + 2 <= size)).
    { destruct r; [by apply keeps_throw|by apply keeps_ret]. }
    intros v' Hv'. destruct (negb (noreply c)); [|auto with keeps].
    destruct (Z.geb_spec v' 0); [|auto with keeps]. cbv zeta.
    unfold crlf. keep.
  - intros e He. specialize (HE e).
    destruct e; cbn [arith_handler message_fits] in *; try done; keep.
Qed.

(** *** Server commands *)

Lemma keeps_stats E : E NoSuchElementException -> forall l k,
  0 <= k -> k + stats_size l <= size -> keeps D (stats_loop l out k : MS Z) any E.
Proof.
  intros HE. fix IH 1. intros [|name [|value l]] k Hk Hs; cbn [stats_loop stats_size] in *.
  - keep.
  - by apply keeps_throw.
  - cbv zeta. pose proof (stats_size_min l).
    change (zlen (str "STAT ")) with 5. change (zlen CRLF) with 2.
    do 5 (apply keeps_step; [auto with keeps|intros _]). apply IH; zlia.
Qed.

Hypothesis texts : texts_fit (S:=S) version size.

Lemma keeps_execute cmd : keeps D (execute version consume cmd out size) any short_exn.
Proof.
  destruct cmd as [v c|v c|c|c|c|c|c| | | | | |]; cbn [execute].
  - destruct v; [apply keeps_storage..|apply keeps_CAS].
  - destruct v; apply keeps_retrieve; lia.
  - apply keeps_arith; [apply (fits_incr _ _ texts)|by intros []].
  - apply keeps_arith; [apply (fits_decr _ _ texts)|by intros []].
  - apply keeps_TOUCH.
  - apply keeps_DELETE.
  - apply keeps_FLUSH_ALL.
  - apply (keeps_bind _ _ _ (fun l => stats_size l <= size)).
    + apply keeps_call. apply (fits_stats _ _ texts).
    + intros l Hl. apply keeps_stats; [done|lia|lia].
  - pose proof (fits_version _ _ texts) as Hv. unfold VERSION_execute. cbv zeta. keep.
  - unfold QUIT_execute. keep.
  - apply (keeps_bind _ _ _ (fun r => forall e, r = Some e -> 15 + zlen e <= size)).
    + apply keeps_call. apply (fits_shutdown _ _ texts).
    + intros [e|] He; [|auto with keeps]. specialize (He e eq_refl). cbv zeta. keep.
  - unfold SAVE_execute. keep.
  - unfold BGSAVE_execute. keep.
Qed.

Lemma keeps_process p n : keeps D (process version consume p n out size) any any.
Proof.
  apply (keeps_try _ _ _ _ short_exn).
  - apply keeps_step; [auto with keeps|intros _].
    apply (keeps_bind _ _ _ short); [apply keeps_read_mem; intros m; apply parse_short|intros r Hr].
    apply (keeps_bind _ _ _ any).
    { intros w. split; [apply same_out_refl|]. by destruct r. }
    intros [cmd|] _; [|auto with keeps]. apply keeps_step; [auto with keeps|intros _].
    cbv zeta. destruct (negb _); [unfold answer; keep|apply keeps_execute].
  - intros e He. destruct e; cbn [process_handler short_exn] in *; try done; unfold answer; keep.
Qed.

End Commands.

(** *** The worker *)

Section Worker.
Variable version : option bytes.
Variables in_ptr out_ptr bufferSize : Z.
Hypothesis in_in : within D in_ptr bufferSize.
Hypothesis out_in : within D out_ptr bufferSize.
Hypothesis texts : texts_fit (S:=S) version bufferSize.

#[local] Abbreviation batch := (batch version in_ptr out_ptr bufferSize).
#[local] Abbreviation serve_loop := (serve_loop version in_ptr out_ptr bufferSize).

Lemma keeps_send_out n (E : exn -> Prop) :
  E (IllegalArgumentException []) -> keeps D (write_out out_ptr bufferSize n : MS unit) any E.
Proof. intros HE. unfold write_out, write_all, at_once. destruct (_ || _); [by apply keeps_throw|keep]. Qed.

(** The messages of the worker's own are compared with the capacity. *)
Lemma keeps_put_and_write msg : keeps D (put_and_write out_ptr bufferSize msg : MS unit) any any.
Proof.
  unfold put_and_write. destruct (Z.ltb_spec bufferSize (zlen msg)); [by apply keeps_throw|].
  apply keeps_step; [apply keeps_write; eapply within_sub; [exact out_in|lia..]|].
  intros _. by apply keeps_send_out.
Qed.
Lemma keeps_put_and_write_anyway msg :
  keeps D (put_and_write_anyway out_ptr bufferSize msg : MS bool) any any.
Proof.
  unfold put_and_write_anyway. destruct (Z.ltb_spec bufferSize (zlen msg)); [by apply keeps_throw|].
  apply keeps_step; [apply keeps_write; eapply within_sub; [exact out_in|lia..]|].
  unfold write_anyway, at_once. intros _. keep.
Qed.
#[local] Hint Resolve keeps_put_and_write keeps_put_and_write_anyway : keeps.
#[local] Hint Extern 1 (keeps D (write_out _ _ _) _ _) => by apply keeps_send_out : keeps.

(** An incomplete request begins before the end of the input. *)
Lemma keeps_batch : forall f c N,
  keeps D (batch f c N : MS BatchEnd)
    (fun e => match e with Incomplete c' => c' < N | _ => True end) any.
Proof.
  induction f as [|f IH]; intros c N; cbn [WorkThread.batch]; [auto with keeps|].
  destruct (Z.ltb_spec c N); [|by apply keeps_ret].
  apply keeps_step.
  - apply keeps_process; [intros k; by apply keeps_send_out|done|apply texts|done].
  - intros n. destruct (n <? 0); [by apply keeps_ret|].
    apply keeps_step; [keep|intros _]. apply keeps_step; [auto with keeps|intros cmd].
    cbv zeta. destruct cmd as [[]|]; try apply IH; by apply keeps_ret.
Qed.

Lemma keeps_channel_read pos l es :
  0 <= pos <= bufferSize ->
  keeps D (channel_read in_ptr bufferSize pos l es : MS Z)
    (fun n => 0 <= n <= bufferSize - pos) any.
Proof.
  intros Hpos. unfold channel_read. cbv zeta. pose proof (zlen_nonneg l).
  apply keeps_step; [auto with keeps|intros _].
  apply keeps_step; [|intros _; apply keeps_ret; lia].
  apply keeps_write. eapply within_sub; [exact in_in|lia|].
  unfold zlen in *. rewrite length_take. lia.
Qed.

Lemma keeps_serve_loop : forall f N,
  0 <= N <= bufferSize -> keeps D (serve_loop f N N : MS Outcome) any any.
Proof.
  induction f as [|f IH]; intros N HN; cbn [WorkThread.serve_loop]; [auto with keeps|].
  destruct (N =? bufferSize); [keep|].
  apply keeps_step; [auto with keeps|intros [|[l| | | |msg] es]]; [auto with keeps| | | | |];
    try (apply keeps_step; [auto with keeps|intros _]); [|by apply IH|auto with keeps..|by apply keeps_throw].
  eapply keeps_bind; [by apply keeps_channel_read|]. intros n Hn. cbv beta in Hn.
  destruct (n =? 0); [by apply IH|]. cbv zeta.
  eapply keeps_bind; [apply keeps_batch|]. intros [|c|] He; [auto with keeps| |auto with keeps].
  destruct (Z.ltb_spec 0 c); [|apply IH; lia].
  apply keeps_step; [|intros _; apply IH; lia].
  apply (keeps_on_mem _ _ in_ptr (N + n - c)); [eapply within_sub; [exact in_in|lia..]|].
  intros m. split; [apply copyMem_off|done].
Qed.

Lemma keeps_serve : keeps D (serve version in_ptr out_ptr bufferSize : MS Outcome) any any.
Proof.
  intros w. unfold serve. pose proof (fits_fixed _ _ texts).
  assert (K : keeps D (try_catch (serve_loop (events_size (w_input w) + 1) 0 0)
    (serve_handler out_ptr bufferSize) : MS Outcome) any any).
  { apply (keeps_try _ _ _ _ any); [apply keeps_serve_loop; lia|].
    intros e _. destruct e; cbn [serve_handler]; try done; unfold overflow_clause; keep. }
  destruct (K w) as [S1 _]. by destruct (try_catch _ _ w) as [[] w'].
Qed.

Lemma keeps_connection : forall f,
  keeps D (connection version in_ptr out_ptr bufferSize f : MS Outcome) any any.
Proof.
  induction f as [|f IH]; cbn [connection]; [auto with keeps|].
  apply keeps_step; [auto with keeps|intros [|e es]]; [auto with keeps|].
  apply keeps_step; [apply keeps_serve|intros []; auto with keeps].
Qed.

End Worker.
End Footprints.
