(* ===== verification/Piecemeal.v ===== *)
(** * The worker on a channel that takes bytes piecemeal, fails or blocks

    The code of the worker on the channel of [Writes] against the same code on a channel that
    takes every response at once.  [follows c c'] says that [c'], on such a channel, does what
    [c] does - or stops before, in the middle of a response: a [write] throws, or the attempts
    are used up.  The rules are those of the monad. *)

From S2P Require Import Prelude.
From S2P Require Import Memory.
From S2P Require Import Java.
From S2P Require Import CarrotCache.
From S2P Require Import Command.
From S2P Require Import CommandParser.
From S2P Require Import World.
From S2P Require Import Execute.
From S2P Require Import CommandProcessor.
From S2P Require Import WorkThread.
From S2P Require Import Writes.

Section Follows.
Context {mem S : Type}.
#[local] Abbreviation world := (World mem S).
#[local] Abbreviation world' := (World mem (S * Socket)).

Definition socket (w : world') : Socket := (w_store w).2.

(** A run has stopped in the middle of a response, of which [s] is sent: a [write] threw, or
    the attempts are used up.  The run at once is in [w1]. *)
Definition stopped {A} (w : world) (ch : Socket) (w1 : world) (r' : result A) (w1' : world') : Prop :=
  exists l s rest,
    w_sent w1 = w_sent w ++ l /\ cut l s rest /\ w_sent w1' = w_sent w ++ s /\ cancelled (socket w1') = cancelled ch /\
    ((exists used msg, r' = Throw (IOException msg) /\ to_come ch = used ++ WriteFails msg :: to_come (socket w1') /\
        clean used /\ (length s <= taken_by used)%nat) \/
     (r' = OutOfFuel /\ to_come (socket w1') = [] /\ clean (to_come ch) /\ (useful (to_come ch) <= length s)%nat)).

(** How a run on a channel whose state was [ch] compares with the run at once, which went from
    [w] to [w1] and returned [r]. *)
Inductive ending {A} (w : world) (ch : Socket) : result A * world -> result A * world' -> Prop :=
  | Same r w1 ch1 l used :
      w_sent w1 = w_sent w ++ l -> spent (to_come ch) used (to_come ch1) (length l) ->
      cancelled ch1 = cancelled ch -> ending w ch (r, w1) (r, over w1 ch1)
  | Stopped r w1 r' w1' : stopped w ch w1 r' w1' -> ending w ch (r, w1) (r', w1').

Definition follows {A} (c : M mem S A) (c' : M mem (S * Socket) A) : Prop :=
  forall w ch, ending w ch (c w) (c' (over w ch)).

(** What is sent grows. *)
Lemma ending_grows {A} w ch (x : result A * world) x' : ending w ch x x' -> exists l, w_sent x.2 = w_sent w ++ l.
Proof. intros [r w1 ch1 l|r w1 r' w1' (l & s & rest & Hl & _)]; by exists l. Qed.

Lemma cut_more l s rest l2 : cut l s rest -> cut (l ++ l2) s (rest ++ l2).
Proof. intros [-> Hne]. split; [by rewrite app_assoc|]. by destruct rest. Qed.
Lemma cut_before l0 l s rest : cut l s rest -> cut (l0 ++ l) (l0 ++ s) rest.
Proof. intros [-> Hne]. split; [by rewrite app_assoc|done]. Qed.

(** The run at once goes on. *)
Lemma stopped_more {A} w ch w1 (r' : result A) w1' w2 l2 :
  stopped w ch w1 r' w1' -> w_sent w2 = w_sent w1 ++ l2 -> stopped w ch w2 r' w1'.
Proof.
  intros (l & s & rest & Hl & Hc & Hs) H2. exists (l ++ l2), s, (rest ++ l2).
  split; [by rewrite H2, Hl, <- app_assoc|]. split; [by apply cut_more|done].
Qed.

(** The outcome of a run that has stopped, at any type. *)
Definition passed {A B} (r : result A) : result B := match r with Throw e => Throw e | _ => OutOfFuel end.
Lemma stopped_passed {A B} w ch w1 (r' : result A) w1' :
  stopped w ch w1 r' w1' -> stopped w ch w1 (passed (B := B) r') w1'.
Proof.
  intros (l & s & rest & Hl & Hc & Hs & Hk & Hr). exists l, s, rest. split_and!; try done.
  destruct Hr as [(used & msg & -> & ?)|[-> ?]]; [left; by exists used, msg|by right].
Qed.

(** A run from where another one, which was the same, has come. *)
Lemma stopped_after {A} w ch w0 ch0 l0 used0 w1 (r' : result A) w1' :
  w_sent w0 = w_sent w ++ l0 -> spent (to_come ch) used0 (to_come ch0) (length l0) -> cancelled ch0 = cancelled ch ->
  stopped w0 ch0 w1 r' w1' -> stopped w ch w1 r' w1'.
Proof.
  intros Hl [E1 E2 E3 E4] Hc (l & s & rest & H1 & H2 & H3 & H4 & Hr).
  exists (l0 ++ l), (l0 ++ s), rest. split; [by rewrite H1, Hl, <- app_assoc|]. split; [by apply cut_before|].
  split; [by rewrite H3, Hl, <- app_assoc|]. split; [congruence|].
  destruct Hr as [(u2 & msg & -> & H5 & H6 & H7)|(-> & H5 & H6 & H7)]; [left|right].
  - exists (used0 ++ u2), msg. split; [done|]. split; [by rewrite E1, H5, app_assoc|]. split; [by apply Forall_app|].
    rewrite length_app, taken_by_app. lia.
  - split; [done|]. split; [done|]. split; [rewrite E1; by apply Forall_app|].
    rewrite E1, useful_app, length_app. lia.
Qed.

Lemma ending_after {A} w ch w1 ch1 l used (x : result A * world) x' :
  w_sent w1 = w_sent w ++ l -> spent (to_come ch) used (to_come ch1) (length l) -> cancelled ch1 = cancelled ch ->
  ending w1 ch1 x x' -> ending w ch x x'.
Proof.
  intros Hl Hs Hc [r2 w2 ch2 l2 u2 H1 H2 H3|r2 w2 r' w2' Hst]; [|by eapply Stopped, stopped_after].
  eapply Same; [by rewrite H1, Hl, <- app_assoc| |congruence]. rewrite length_app. by eapply spent_trans.
Qed.

Lemma sent_same (w : world) : exists l, w_sent w = w_sent w ++ l.
Proof. exists []. by rewrite app_nil_r. Qed.

(** How a run stops. *)
Lemma stopped_how {A} w ch w1 (r' : result A) w1' :
  stopped w ch w1 r' w1' -> (exists msg, r' = Throw (IOException msg)) \/ r' = OutOfFuel.
Proof. intros (l & s & rest & _ & _ & _ & _ & [(used & msg & -> & _)|[-> _]]); [left; by eexists|by right]. Qed.

Lemma stopped_ending {A B} w ch w1 (r' : result A) w1' (x : result B * world) :
  stopped w ch w1 r' w1' -> (exists l, w_sent x.2 = w_sent w1 ++ l) -> ending w ch x (passed r', w1').
Proof.
  intros Hs [l Hl]. destruct x as [r2 w2]. apply Stopped, stopped_passed. by eapply stopped_more.
Qed.

Lemma follows_bind {A B} (c : M mem S A) c' (f : A -> M mem S B) f' :
  follows c c' -> (forall a, follows (f a) (f' a)) -> follows (bindM c f) (bindM c' f').
Proof.
  intros Hc Hf w ch. unfold bindM. pose proof (Hc w ch) as E. inversion E as [r w1 ch1 l used H1 H2 H3|r w1 r' w1' Hs].
  - destruct r as [a|e| |]; [|by eapply Same..]. eapply ending_after; [done..|apply Hf].
  - assert (Hx : forall x', (passed r', w1') = x' -> ending w ch (match r with Ok a => f a w1 | Throw e => (Throw e, w1)
        | SystemExit => (SystemExit, w1) | OutOfFuel => (OutOfFuel, w1) end) x').
    { intros x' <-. eapply stopped_ending; [exact Hs|]. destruct r as [a|e| |]; [|apply sent_same..].
      apply (ending_grows _ ch _ _ (Hf a w1 ch)). }
    destruct (stopped_how _ _ _ _ _ Hs) as [[msg ->]| ->]; apply Hx; done.
Qed.

(** A [try] whose clauses do not catch [IOException]. *)
Lemma follows_try {A} (c : M mem S A) c' h h' :
  follows c c' -> (forall msg, h' (IOException msg) = None) ->
  (forall e, match h e, h' e with Some k, Some k' => follows k k' | None, None => True | _, _ => False end) ->
  follows (try_catch c h) (try_catch c' h').
Proof.
  intros Hc Hio Hh w ch. unfold try_catch. pose proof (Hc w ch) as E. inversion E as [r w1 ch1 l used H1 H2 H3|r w1 r' w1' Hs].
  - destruct r as [a|e| |]; try by eapply Same. specialize (Hh e).
    destruct (h e) as [k|], (h' e) as [k'|]; try done; [|by eapply Same].
    eapply ending_after; [done..|apply Hh].
  - assert (Hx : forall x', (passed r', w1') = x' -> ending w ch (match (r, w1) with
        | (Throw e, w') => match h e with Some h0 => h0 w' | None => (Throw e, w') end | r0 => r0 end) x').
    { intros x' <-. eapply stopped_ending; [exact Hs|]. destruct r as [a|e| |]; try apply sent_same.
      specialize (Hh e). destruct (h e) as [k|]; [|apply sent_same]. destruct (h' e) as [k'|]; [|done].
      apply (ending_grows _ ch _ _ (Hh w1 ch)). }
    destruct (stopped_how _ _ _ _ _ Hs) as [[msg ->]| ->]; [rewrite Hio|]; by apply Hx.
Qed.

(** Code that sends nothing. *)
Lemma follows_silent {A} (c : M mem S A) c' :
  (forall w ch, c' (over w ch) = ((c w).1, over (c w).2 ch)) -> (forall w, w_sent (c w).2 = w_sent w) -> follows c c'.
Proof.
  intros Hc Hs w ch. rewrite Hc. specialize (Hs w). destruct (c w) as [r w1]. cbn in *.
  eapply (Same _ _ _ _ ch []); [by rewrite app_nil_r|apply spent_nil|done].
Qed.

Lemma follows_ret {A} (a : A) : follows (ret a) (ret a).
Proof. by apply follows_silent. Qed.
Lemma follows_lift {A} (r : result A) : follows (lift_result r) (lift_result r).
Proof. by apply follows_silent. Qed.
Lemma follows_throw {A} e : follows (@throw mem S A e) (throw e).
Proof. by apply follows_silent. Qed.
Lemma follows_exit {A} : follows (@exit mem S A) exit.
Proof. by apply follows_silent. Qed.
Lemma follows_on_mem {A} (f : mem -> mem * A) : follows (on_mem f) (on_mem f).
Proof. apply follows_silent; intros w; unfold on_mem; cbn; by destruct (f (w_mem w)). Qed.
Lemma follows_read_mem {A} (f : mem -> A) : follows (read_mem f) (read_mem f).
Proof. by apply follows_silent. Qed.
Lemma follows_record_last c : follows (record_last c) (record_last c).
Proof. by apply follows_silent. Qed.
Lemma follows_get_last : follows get_last get_last.
Proof. by apply follows_silent. Qed.
Lemma follows_get_input : follows get_input get_input.
Proof. by apply follows_silent. Qed.
Lemma follows_put_input es : follows (put_input es) (put_input es).
Proof. by apply follows_silent. Qed.
Lemma follows_call {A} (f : S -> A * S) f' :
  (forall s ch, f' (s, ch) = beside (f s) ch) -> follows (call f) (call f').
Proof.
  intros Hf. apply follows_silent; intros w; [intros ch|]; unfold call, beside in *; cbn; [rewrite Hf|];
    by destruct (f (w_store w)).
Qed.

(** The one place where the runs part. *)
Lemma follows_write_all l : follows (write_all l) (write_all l).
Proof.
  intros w ch. cbn. unfold socket. cbn. pose proof (write_loop_spec l (to_come ch)) as Hl.
  destruct (write_loop l (to_come ch)) as [[[[]|e| |] s] es]; [| |done|].
  - destruct Hl as [-> (used & Hs)]. unfold after_writes, send. cbn. rewrite orb_false_r.
    apply (Same w ch (Ok tt) (add_sent l w) {| to_come := es; cancelled := cancelled ch |} l used); done.
  - destruct Hl as (used & msg & rest & -> & Hc & He & C & T).
    apply Stopped. exists l, s, rest. cbn. rewrite orb_false_r. split_and!; [done..|]. left. exists used, msg. split_and!; [done..|lia].
  - destruct Hl as [-> (rest & Hc & C & T & U)].
    apply Stopped. exists l, s, rest. cbn. rewrite orb_false_r. split_and!; [done..|]. by right.
Qed.

End Follows.

Create HintDb follows.
#[export] Hint Resolve follows_ret follows_lift follows_throw follows_exit follows_on_mem follows_read_mem
  follows_record_last follows_get_last follows_get_input follows_put_input follows_write_all : follows.
#[export] Hint Extern 2 (follows (call _) (call _)) => apply follows_call; reflexivity : follows.

(** Walk through code. *)
Ltac follow :=
  repeat first
    [ progress (auto with follows)
    | apply follows_bind; [|intros]
    | match goal with |- follows (match ?x with _ => _ end) _ => destruct x end ].

Section Commands.
Context {mem S item : Type}.
Context `{UnsafeAccess mem} `{CarrotUtils} `{Memcached S item} `{RecordWriter mem item}.
Variable version : option bytes.

Lemma follows_write l p : follows (write l p : M mem S unit) (write l p).
Proof. apply follows_on_mem. Qed.
Lemma follows_put_byte c p : follows (put_byte c p : M mem S unit) (put_byte c p).
Proof. apply follows_on_mem. Qed.
Lemma follows_read p n : follows (read p n : M mem S bytes) (read p n).
Proof. apply follows_read_mem. Qed.
#[local] Hint Resolve follows_write follows_put_byte follows_read : follows.

Variable consume : Z -> M mem S unit.
Variable consume' : Z -> M mem (S * Socket) unit.
Hypothesis consume_follows : forall n, follows (consume n) (consume' n).
#[local] Hint Resolve consume_follows : follows.

Lemma follows_reply l n out : follows (reply l n out : M mem S Z) (reply l n out).
Proof. unfold reply. follow. Qed.
#[local] Hint Resolve follows_reply : follows.

Lemma follows_retrieve fetch fetch' b out size :
  (forall s ch k, fetch' (s, ch) k = beside (fetch s k) ch) ->
  forall f keys k, follows (retrieve consume f fetch b keys out size k) (retrieve consume' f fetch' b keys out size k).
Proof.
  intros Hf. induction f as [|f IH]; intros keys k; cbn [retrieve]; [auto with follows|].
  destruct keys as [|[a n] keys]; [follow|].
  apply follows_bind; [auto with follows|intros key].
  apply follows_bind; [by apply follows_call|intros [i|]]; [|apply IH].
  follow; apply IH.
Qed.

Lemma follows_stats out : forall l off, follows (stats_loop l out off : M mem S Z) (stats_loop l out off).
Proof. fix IH 1. intros [|name [|v l]] off; cbn [stats_loop]; follow. Qed.
#[local] Hint Resolve follows_stats : follows.

Lemma follows_arith op op' c out :
  (forall s ch k n, op' (s, ch) k n = beside (op s k n) ch) ->
  follows (arith_execute op c out : M mem S Z) (arith_execute op' c out).
Proof.
  intros Hop. unfold arith_execute. apply follows_try; [|done|].
  - unfold crlf. apply follows_bind; [auto with follows|intros key].
    apply follows_bind; [by apply follows_call|intros r]. follow.
  - intros e. unfold arith_handler. destruct e; try done; follow.
Qed.

Lemma follows_storage op op' c out :
  (forall s ch k v f e, op' (s, ch) k v f e = beside (op s k v f e) ch) ->
  follows (storage_execute op c out : M mem S Z) (storage_execute op' c out).
Proof.
  intros Hop. unfold storage_execute, stored_reply. apply follows_bind; [auto with follows|intros key].
  apply follows_bind; [auto with follows|intros v]. apply follows_bind; [by apply follows_call|intros r]. follow.
Qed.

Lemma follows_execute cmd out size :
  follows (execute version consume cmd out size) (execute version consume' cmd out size).
Proof.
  destruct cmd as [v c|v c|c|c|c|c|c| | | | | |]; cbn [execute].
  - destruct v; try (by apply follows_storage). cbn [StorageCommand_execute]. unfold CAS_execute. follow.
  - destruct v; by apply follows_retrieve.
  - by apply follows_arith.
  - by apply follows_arith.
  - unfold TOUCH_execute. follow.
  - unfold DELETE_execute. follow.
  - unfold FLUSH_ALL_execute, ok. follow.
  - unfold STATS_execute. follow.
  - unfold VERSION_execute. follow.
  - unfold QUIT_execute. follow.
  - unfold SHUTDOWN_execute. follow.
  - unfold SAVE_execute. follow.
  - unfold BGSAVE_execute. follow.
Qed.

Lemma follows_process p n out size :
  follows (process version consume p n out size) (process version consume' p n out size).
Proof.
  apply follows_try; [|done|].
  - pose proof follows_execute. unfold answer. follow.
  - intros e. unfold answer. destruct e; cbn [process_handler]; try done; follow.
Qed.

End Commands.

(** ** The worker *)

Section Worker.
Context {mem S item : Type}.
Context `{UnsafeAccessLaws mem} `{CarrotUtils} `{Memcached S item} `{RecordWriter mem item}.
Variable version : option bytes.
Variables in_ptr out_ptr bufferSize : Z.
#[local] Abbreviation world := (World mem S).
#[local] Abbreviation world' := (World mem (S * Socket)).
#[local] Abbreviation batch := (batch version in_ptr out_ptr bufferSize).
#[local] Abbreviation serve_loop := (serve_loop version in_ptr out_ptr bufferSize).
#[local] Abbreviation serve := (serve version in_ptr out_ptr bufferSize).
#[local] Abbreviation connection := (connection version in_ptr out_ptr bufferSize).
#[local] Hint Resolve follows_write follows_read : follows.

Lemma follows_write_out n : follows (write_out out_ptr bufferSize n : M mem S unit) (write_out out_ptr bufferSize n).
Proof. unfold write_out. follow. Qed.
#[local] Hint Resolve follows_write_out : follows.
Lemma follows_put_and_write msg :
  follows (put_and_write out_ptr bufferSize msg : M mem S unit) (put_and_write out_ptr bufferSize msg).
Proof. unfold put_and_write. follow. Qed.
#[local] Hint Resolve follows_put_and_write : follows.

Lemma follows_batch f c N : follows (batch f c N : M mem S BatchEnd) (batch f c N).
Proof.
  revert c. induction f as [|f IH]; intros c; cbn [WorkThread.batch]; [auto with follows|].
  destruct (c <? N); [|auto with follows].
  apply follows_bind; [apply follows_process, follows_write_out|intros n]. cbv zeta. follow; apply IH.
Qed.
#[local] Hint Resolve follows_batch : follows.

Lemma follows_serve_loop f p N : follows (serve_loop f p N : M mem S Outcome) (serve_loop f p N).
Proof.
  revert p N. induction f as [|f IH]; intros p N; cbn [WorkThread.serve_loop]; unfold channel_read; cbv zeta;
    [auto with follows|]. follow; apply IH.
Qed.

(** How serving a key, or a connection, compares: it is the same; or a [write] threw in the
    middle of a response and the channel was closed; or the attempts are used up in the middle
    of one.  The clause that answers a result which is too large does otherwise after a
    [write] that threw: its key cancelled, it got through later or is still looping. *)
Inductive served (w : world) (ch : Socket) (r : result Outcome) (w1 : world) : result Outcome -> world' -> Prop :=
  | Served_same ch1 l used :
      w_sent w1 = w_sent w ++ l -> spent (to_come ch) used (to_come ch1) (length l) ->
      cancelled ch1 = cancelled ch -> served w ch r w1 r (over w1 ch1)
  | Served_closed w1' msg :
      stopped w ch w1 (Throw (IOException msg) : result Outcome) w1' -> served w ch r w1 (Ok Closed) w1'
  | Served_blocked w1' :
      stopped w ch w1 (OutOfFuel : result Outcome) w1' -> served w ch r w1 OutOfFuel w1'
  | Served_abandoned w1' s rest u1 msg u2 :
      w_sent w1 = w_sent w ++ s ++ rest -> w_sent w1' = w_sent w ++ s ->
      to_come ch = (u1 ++ WriteFails msg :: u2) ++ to_come (socket w1') -> (0 < taken_by u2)%nat ->
      cancelled (socket w1') = true -> served w ch r w1 (Ok Abandoned) w1'
  | Served_looping w1' s u more :
      w_sent w1 = w_sent w ++ s ++ u ++ more -> w_sent w1' = w_sent w ++ s ->
      u <> [] -> u `suffix_of` OUTPUT_TOO_LARGE -> to_come (socket w1') = [] -> ~ clean (to_come ch) -> (useful (to_come ch) <= length s)%nat ->
      cancelled (socket w1') = true -> served w ch r w1 OutOfFuel w1'.

Lemma served_grows w ch r w1 r' w1' : served w ch r w1 r' w1' -> exists l, w_sent w1 = w_sent w ++ l.
Proof.
  intros [ch1 l|w2 msg (l & ? & ? & ? & _)|w2 (l & ? & ? & ? & _)|w2 s rest|w2 s u more]; by eexists.
Qed.

Lemma served_after w ch w0 ch0 l0 used0 r w1 r' w1' :
  w_sent w0 = w_sent w ++ l0 -> spent (to_come ch) used0 (to_come ch0) (length l0) -> cancelled ch0 = cancelled ch ->
  served w0 ch0 r w1 r' w1' -> served w ch r w1 r' w1'.
Proof.
  intros Hl Hs Hc [ch1 l used G1 G2 G3|w3 msg Hst|w3 Hst|w3 s rest u1 msg u2 G1 G2 G3 G4 G5|w3 s u more G1 G2 G3 G4 G5 G6 G7 G8].
  - eapply Served_same; [by rewrite G1, Hl, <- app_assoc| |congruence]. rewrite length_app. by eapply spent_trans.
  - eapply Served_closed, stopped_after; [exact Hl|exact Hs|exact Hc|exact Hst].
  - eapply Served_blocked, stopped_after; [exact Hl|exact Hs|exact Hc|exact Hst].
  - destruct Hs as [E1 E2 E3 E4]. eapply (Served_abandoned _ _ _ _ _ (l0 ++ s) rest (used0 ++ u1));
      [by rewrite G1, Hl, <- !app_assoc|by rewrite G2, Hl, <- app_assoc| |done..].
    by rewrite E1, G3, <- !app_assoc.
  - destruct Hs as [E1 E2 E3 E4]. eapply (Served_looping _ _ _ _ _ (l0 ++ s) u more);
      [by rewrite G1, Hl, <- !app_assoc|by rewrite G2, Hl, <- app_assoc|done|done|done|..|done].
    + rewrite E1. unfold clean in *. rewrite Forall_app. by intros [_ ?].
    + rewrite E1, useful_app, length_app. lia.
Qed.

(** The clause for a result that is too large. *)
Lemma overflow_served (w : world) ch :
  let x := overflow_clause out_ptr bufferSize w in
  let x' := overflow_clause out_ptr bufferSize (over w ch) in
  served w ch x.1 x.2 x'.1 x'.2.
Proof.
  cbv zeta. unfold overflow_clause, put_and_write_anyway. destruct (bufferSize <? zlen OUTPUT_TOO_LARGE).
  { apply (Served_same _ _ _ _ ch [] []); [cbn; by rewrite app_nil_r|apply spent_nil|done]. }
  unfold bindM, write, on_mem, read, read_mem. cbn [w_mem over set_mem]. 
  rewrite bytes_at_copyBytes.
  set (w0 := set_mem (copyBytes (w_mem w) OUTPUT_TOO_LARGE out_ptr) w).
  change (set_mem (copyBytes (w_mem w) OUTPUT_TOO_LARGE out_ptr) (over w ch)) with (over w0 ch).
  cbn [write_anyway by_attempts w_store over snd]. remember OUTPUT_TOO_LARGE as l eqn:Hmsg.
  pose proof (overflow_loop_spec l (to_come ch)) as Hl.
  destruct (overflow_loop l (to_come ch)) as [[[[[]|e| |] c] s] es]; [| |done|].
  - destruct c; cbn [rbind ret fst snd].
    + destruct Hl as [-> (u1 & msg & u2 & E & T)].
      eapply (Served_abandoned _ _ _ _ _ l [] u1 msg u2); cbn; [by rewrite app_nil_r|done|done|done|apply orb_true_r].
    + destruct Hl as [-> (used & Hs)]. unfold after_writes. cbn. rewrite orb_false_r.
      by apply (Served_same w ch _ (add_sent l w0) {| to_come := es; cancelled := cancelled ch |} l used).
  - by destruct c.
  - cbn [rbind fst snd]. destruct Hl as [-> (rest & Hc & T & U & C)]. destruct c.
    + destruct Hc as [El Hne]. eapply (Served_looping _ _ _ _ _ s rest []); cbn; try done; [|exists s; by rewrite <- El, Hmsg|apply orb_true_r].
      by rewrite app_nil_r, <- El.
    + apply Served_blocked. exists l, s, rest. cbn. rewrite orb_false_r. split_and!; [done..|]. by right.
Qed.

(** What [serve] makes of what reaches the outermost clause. *)
Definition concluded (r : result Outcome) : result Outcome :=
  match r with Throw e => Ok (Died e) | SystemExit => Ok Exited | _ => r end.

Lemma serve_concluded {S'} `{Memcached S' item} `{!Channel mem S'} (w : World mem S') :
  WorkThread.serve version in_ptr out_ptr bufferSize w =
    let x := try_catch (WorkThread.serve_loop version in_ptr out_ptr bufferSize (events_size (w_input w) + 1) 0 0)
               (serve_handler out_ptr bufferSize) w in (concluded x.1, x.2).
Proof. unfold WorkThread.serve. cbv zeta. by destruct (try_catch _ _ w) as [[] w']. Qed.

Lemma served_concluded w ch r w1 r' w1' : served w ch r w1 r' w1' -> served w ch (concluded r) w1 (concluded r') w1'.
Proof.
  intros []; [by eapply Served_same|by eapply Served_closed|by eapply Served_blocked|by eapply Served_abandoned|
    by eapply Served_looping].
Qed.

Lemma handled_served (w : world) ch :
  let x := try_catch (serve_loop (events_size (w_input w) + 1) 0 0) (serve_handler out_ptr bufferSize) w in
  let x' := try_catch (serve_loop (events_size (w_input w) + 1) 0 0) (serve_handler out_ptr bufferSize) (over w ch) in
  served w ch x.1 x.2 x'.1 x'.2.
Proof.
  cbv zeta. unfold try_catch. pose proof (follows_serve_loop (events_size (w_input w) + 1) 0 0 w ch) as E.
  inversion E as [r w1 ch1 l used G1 G2 G3|r w1 r' w1' Hs].
  - destruct r as [o|e| |]; [by eapply Served_same| |by eapply Served_same..].
    destruct e; cbn [serve_handler]; try (by eapply Served_same).
    eapply served_after; [exact G1|exact G2|exact G3|apply overflow_served].
  - assert (exists l2, w_sent (match (r, w1) with
        | (Throw e, w') => match serve_handler out_ptr bufferSize e with Some h => h w' | None => (Throw e, w') end
        | r0 => r0 end).2 = w_sent w1 ++ l2) as [l2 Hl2].
    { destruct r as [o|e| |]; try apply sent_same. destruct e; cbn [serve_handler]; try apply sent_same.
      apply (served_grows _ _ _ _ _ _ (overflow_served w1 ch)). }
    eapply stopped_more in Hs; [|exact Hl2].
    destruct (stopped_how _ _ _ _ _ Hs) as [[msg ->]| ->]; [by eapply Served_closed|by apply Served_blocked].
Qed.

Lemma serve_served (w : world) ch :
  served w ch (serve w).1 (serve w).2 (serve (over w ch)).1 (serve (over w ch)).2.
Proof. rewrite !serve_concluded. apply served_concluded, handled_served. Qed.

Lemma connection_served f : forall (w : world) ch,
  served w ch (connection f w).1 (connection f w).2 (connection f (over w ch)).1 (connection f (over w ch)).2.
Proof.
  induction f as [|f IH]; intros w ch; cbn [WorkThread.connection].
  { apply (Served_same _ _ _ _ ch [] []); [cbn; by rewrite app_nil_r|apply spent_nil|done]. }
  unfold bindM, get_input. cbn [w_input over]. destruct (w_input w) as [|e es].
  { apply (Served_same _ _ _ _ ch [] []); [cbn; by rewrite app_nil_r|apply spent_nil|done]. }
  pose proof (serve_served w ch) as Hs.
  destruct (serve w) as [r w1], (serve (over w ch)) as [r' w1']. cbn [fst snd] in Hs.
  assert (Hg : exists l2, w_sent (match r with Ok a => (match a with Released => connection f | _ => ret a end) w1
      | Throw e => (Throw e, w1) | SystemExit => (SystemExit, w1) | OutOfFuel => (OutOfFuel, w1) end).2 = w_sent w1 ++ l2).
  { destruct r as [o|e0| |]; try apply sent_same. destruct o; try apply sent_same.
    apply (served_grows _ _ _ _ _ _ (IH w1 ch)). }
  destruct Hg as [l2 Hl2].
  inversion Hs as [ch1 l used G1 G2 G3|w2 msg Hst|w2 Hst|w2 s rest u1 msg u2 G1 G2 G3 G4 G5|w2 s u more G1 G2 G3 G4 G5 G6 G7 G8]; subst.
  - destruct r' as [o|e0| |]; try by eapply Served_same.
    destruct o; try by eapply Served_same. eapply served_after; [exact G1|exact G2|exact G3|apply IH].
  - eapply Served_closed, stopped_more; [exact Hst|exact Hl2].
  - eapply Served_blocked, stopped_more; [exact Hst|exact Hl2].
  - eapply (Served_abandoned _ _ _ _ _ s (rest ++ l2)); [|done..]. by rewrite Hl2, G1, <- !app_assoc.
  - eapply (Served_looping _ _ _ _ _ s u (more ++ l2)); [|done..]. by rewrite Hl2, G1, <- !app_assoc.
Qed.

End Worker.
