(* ===== verification/CommandTypes.v ===== *)
(** * The types of parsed commands

    [well_typed] is what the fields of a command object may hold: Java's widths, the ranges
    the protocol gives them, and the flags its class sets.  The constructors establish it and
    every [parse] method keeps it, whatever the input. *)

From S2P Require Import Prelude.
From S2P Require Import Memory.
From S2P Require Import Java.
From S2P Require Import CarrotCache.
From S2P Require Import Utils.
From S2P Require Import Command.
From S2P Require Import CommandParse.
From S2P Require Import CommandParser.
From S2P Require Import UtilsCorrect.
From S2P Require Import ParseCorrect.
From S2P Require Import ParseSafety.

Definition storage_typed (v : StorageVerb) (c : Abstract) : Prop :=
  isCAS c = bool_decide (v = CAS) /\ 0 <= flags c < 2 ^ 32 /\ in_long (exptime c) /\
  0 <= valSize c <= INT_MAX /\ in_long (cas c) /\ (v <> CAS -> cas c = 0).

Definition retrieval_typed (v : RetrievalVerb) (c : Retrieval) : Prop :=
  r_isCAS c = bool_decide (v = GETS \/ v = GATS) /\ r_isTouch c = bool_decide (v = GAT \/ v = GATS) /\
  length (r_keys c) = length (r_keySizes c) /\ in_long (r_exptime c) /\ (r_isTouch c = false -> r_exptime c = 0).

Definition well_typed (cmd : MemcachedCommand) : Prop :=
  match cmd with
  | StorageCommand v c => storage_typed v c
  | RetrievalCommand v c => retrieval_typed v c
  | INCR c | DECR c => isCAS c = false /\ in_long (value c)
  | TOUCH c => isCAS c = false /\ in_long (exptime c)
  | DELETE c => isCAS c = false
  | FLUSH_ALL c => 0 <= f_delay c <= INT_MAX
  | STATS | VERSION | QUIT | SHUTDOWN | SAVE | BGSAVE => True
  end.

Section Types.
Context {mem : Type} `{U : UnsafeAccess mem} `{C : CarrotUtils} {CL : CarrotUtilsLaws}.
Implicit Types (m : mem) (p n e : Z).

Lemma getLong_range m p len v : getLong m p len = Ok v -> in_long v.
Proof.
  unfold getLong. destruct (strToLongDirect _) as [v'|] eqn:E; [|done].
  intros [= <-]. by apply strToLong_range in E.
Qed.

(** A field that was read is a [long]. *)
Lemma number_field_range {A} msg m p n e (kont : Z -> Z -> result (option A)) x :
  number_field msg m p n e kont = Ok (Some x) -> exists v e', in_long v /\ kont v e' = Ok (Some x).
Proof.
  unfold number_field. intros E.
  destruct (_ <=? 0); [done|]. destruct (throwIfNotEquals _ _ _); try done. cbn [rbind] in E.
  destruct (_ <=? 0); [done|]. destruct (getLong _ _ _) as [v| | |] eqn:Ev; try done.
  eexists v, _. split; [by eapply getLong_range|exact E].
Qed.

Lemma storage_finish_fields this m p n ks f ex vs c e r :
  storage_finish this m p n ks f ex vs c e = Ok (Some r) ->
  flags r = f /\ exptime r = ex /\ valSize r = vs /\ cas r = c /\ isCAS r = isCAS this.
Proof.
  unfold storage_finish. intros E.
  destruct (parse_tail _ _ _ _ _) as [[[nr e']|]| | |]; try done. cbn [rbind] in E.
  destruct (_ >? _); [done|]. by injection E as <-.
Qed.

Lemma StorageCommand_parse_typed v this m p n r :
  StorageCommand_parse this m p n = Ok (Some r) -> storage_typed v this -> storage_typed v r.
Proof.
  unfold StorageCommand_parse. intros E%catch_nfe_some (Hc & _ & _ & _ & Hl & Hz).
  apply number_field_range in E as (f & e1 & _ & E).
  destruct (_ || _) eqn:Hf; [done|]. apply orb_false_iff in Hf as [Hf1 Hf2].
  apply number_field_range in E as (ex & e2 & Hex & E).
  apply number_field_range in E as (vs & e3 & _ & E).
  destruct (_ || _) eqn:Hv; [done|]. apply orb_false_iff in Hv as [Hv1 Hv2].
  rewrite Z.gtb_ltb, Z.ltb_ge in Hf1, Hv1. rewrite Z.ltb_ge in Hf2, Hv2.
  assert (Hi : to_int vs = vs) by (apply to_int_id; unfold in_int, INT_MAX in *; lia).
  rewrite Hi in E. unfold storage_typed.
  destruct (isCAS this) eqn:Hcas.
  - apply number_field_range in E as (c & e4 & Hcv & E).
    apply storage_finish_fields in E as (-> & -> & -> & -> & ->).
    rewrite Hcas, Hc. split_and!; try done; try lia.
    intros Hne. symmetry in Hc. by apply bool_decide_eq_true in Hc.
  - apply storage_finish_fields in E as (-> & -> & -> & -> & ->).
    rewrite Hcas, Hc. split_and!; try done; lia.
Qed.

(** A parsed offset past the line end leaves the object as it was but for one field. *)
Lemma INCR_parse_typed this m p n r :
  INCR_parse this m p n = Ok (Some r) -> isCAS r = isCAS this /\ in_long (value r).
Proof.
  unfold INCR_parse. intros E%catch_nfe_some.
  destruct (_ <=? 0); [done|]. destruct (_ <=? 0); [done|].
  destruct (throwIfNotEquals _ _ _); try done. cbn [rbind] in E.
  destruct (_ <=? 0); [done|]. destruct (getLong _ _ _) as [v| | |] eqn:Ev; try done. cbn [rbind] in E.
  destruct (parse_tail _ _ _ _ _) as [[[nr e']|]| | |]; try done. injection E as <-.
  split; [done|]. by eapply getLong_range.
Qed.

Lemma TOUCH_parse_typed this m p n r :
  TOUCH_parse this m p n = Ok (Some r) -> isCAS r = isCAS this /\ in_long (exptime r).
Proof.
  unfold TOUCH_parse. intros E%catch_nfe_some.
  destruct (_ <=? 0); [done|]. destruct (_ <=? 0); [done|].
  destruct (throwIfNotEquals _ _ _); try done. cbn [rbind] in E.
  destruct (_ <=? 0); [done|]. destruct (getLong _ _ _) as [v| | |] eqn:Ev; try done. cbn [rbind] in E.
  destruct (parse_tail _ _ _ _ _) as [[[nr e']|]| | |]; try done. injection E as <-.
  split; [done|]. by eapply getLong_range.
Qed.

Lemma DELETE_parse_typed this m p n r : DELETE_parse this m p n = Ok (Some r) -> isCAS r = isCAS this.
Proof.
  unfold DELETE_parse. intros E. destruct (_ <=? 0); [done|].
  destruct (parse_tail _ _ _ _ _) as [[[nr e']|]| | |]; try done. by injection E as <-.
Qed.

Lemma readKeys_lengths todo first m p n e ks ss e' :
  readKeys todo first m p n e = Ok (Some (ks, ss, e')) -> length ks = length ss.
Proof.
  revert first e ks ss e'. induction todo as [|todo IH]; intros first e ks ss e'; cbn [readKeys].
  - by intros [= <- <- <-].
  - intros E. destruct (_ <? 0); [done|].
    destruct (if first then _ else _); try done. cbn [rbind] in E.
    destruct (_ <? 0); [done|]. destruct (throwIfEquals _ _ _); try done. cbn [rbind] in E.
    destruct (readKeys todo _ _ _ _ _) as [[[[ks1 ss1] e1]|]| | |] eqn:Er; try done.
    injection E as <- <- <-. cbn. f_equal. by eapply IH.
Qed.

Lemma RetrievalCommand_parse_typed v this m p n r :
  RetrievalCommand_parse this m p n = Ok (Some r) -> retrieval_typed v this -> retrieval_typed v r.
Proof.
  unfold RetrievalCommand_parse. intros E%catch_nfe_some (Hc & Ht & _ & Hl & Hz).
  destruct (_ <? 0); [done|]. destruct (new_array _) eqn:Ha; try done. cbn [rbind] in E.
  assert (F : forall ex e0,
    (let* r := readKeys (Z.to_nat (if r_isTouch this then calculateNumberOfKeys m p n - 1
                                   else calculateNumberOfKeys m p n)) true m p n e0 in
     match r with
     | None => Ok None
     | Some (keys, keySizes, end_) =>
         let* e := skip_crlf crlf_expected_raw m p n end_ in
         Ok (match e with
             | None => None
             | Some end_ => Some {| r_exptime := ex; r_isCAS := r_isCAS this; r_isTouch := r_isTouch this;
                                    r_keys := keys; r_keySizes := keySizes; r_consumed := end_ |}
             end)
     end) = Ok (Some r) ->
    in_long ex -> (r_isTouch this = false -> ex = 0) -> retrieval_typed v r).
  { clear E. intros ex e0 E0 Hex Hnt.
    destruct (readKeys _ _ _ _ _ _) as [[[[ks ss] e1]|]| | |] eqn:Er; try done. cbn [rbind] in E0.
    destruct (skip_crlf _ _ _ _ _) as [[e2|]| | |]; try done. injection E0 as <-.
    split_and!; try done. by eapply readKeys_lengths. }
  destruct (r_isTouch this) eqn:Htouch.
  - destruct (_ <? 0); [done|]. destruct (_ <? 0); [done|].
    destruct (throwIfEquals _ _ _); try done. cbn [rbind] in E.
    destruct (getLong _ _ _) as [ex| | |] eqn:Ev; try done. cbn [rbind] in E.
    eapply F; [exact E|by eapply getLong_range|done].
  - eapply F; [exact E|done|]. auto.
Qed.

(** [delay] went through an [int] and was tested. *)
Lemma FLUSH_ALL_parse_typed m p n r : FLUSH_ALL_parse m p n = Ok (Some r) -> 0 <= f_delay r <= INT_MAX.
Proof.
  unfold FLUSH_ALL_parse. intros E%catch_nfe_some.
  assert (F : forall nr d e0,
    (let* e := skip_crlf crlf_expected_raw m p n e0 in
     Ok (match e with
         | None => None
         | Some end_ => Some {| f_noreply := nr; f_consumed := (if e0 =? 0 then -1 else 0) + end_; f_delay := d |}
         end)) = Ok (Some r) -> 0 <= d <= INT_MAX -> 0 <= f_delay r <= INT_MAX).
  { clear E. intros nr d e0 E0 Hd. destruct (skip_crlf _ _ _ _ _) as [[e1|]| | |]; try done. by injection E0 as <-. }
  destruct (0 <? _); [|destruct (_ =? -1); [done|]; eapply F; [exact E|unfold INT_MAX; lia]].
  destruct (negb _).
  - destruct (getLong _ _ _) as [v| | |]; try done. cbn [rbind] in E.
    destruct (Z.ltb_spec (to_int v) 0); [done|].
    assert (Hd : 0 <= to_int v <= INT_MAX) by (pose proof (to_int_range v); unfold in_int in *; lia).
    repeat match type of E with
    | (if ?b then _ else _) = _ => destruct b; try discriminate E
    end; (eapply F; [exact E|done]).
  - repeat match type of E with
    | (if ?b then _ else _) = _ => destruct b; try discriminate E
    end; (eapply F; [exact E|unfold INT_MAX; lia]).
Qed.

(** The constructors. *)
Lemma newCommand_typed m p len cmd : newCommand m p len = Ok cmd -> well_typed cmd.
Proof.
  unfold newCommand. intros E.
  repeat match type of E with
  | (if ?b then _ else _) = _ => destruct b; try discriminate E
  end; injection E as <-; cbn; try done;
    (unfold storage_typed, retrieval_typed; cbn; unfold in_long, INT_MAX; split_and!; try done; lia).
Qed.

Lemma parse_command_typed cmd m p n cmd' :
  parse_command cmd m p n = Ok (Some cmd') -> well_typed cmd -> well_typed cmd'.
Proof.
  destruct cmd as [v c|v c|c|c|c|c|c| | | | | |]; cbn [parse_command]; intros E Hc.
  1-7: apply lift_inv in E as (r & E & ->); cbn [well_typed] in *.
  - by eapply StorageCommand_parse_typed.
  - by eapply RetrievalCommand_parse_typed.
  - apply INCR_parse_typed in E as [-> ?]. split; [apply Hc|done].
  - apply INCR_parse_typed in E as [-> ?]. split; [apply Hc|done].
  - apply TOUCH_parse_typed in E as [-> ?]. split; [apply Hc|done].
  - apply DELETE_parse_typed in E as ->. done.
  - by apply FLUSH_ALL_parse_typed in E.
  - destruct (STATS_parse m p n) as [[]| | |]; try done. by injection E as <-.
  - destruct (VERSION_parse n); [|done]. by injection E as <-.
  - destruct (QUIT_parse n); [|done]. by injection E as <-.
  - destruct (SHUTDOWN_parse n); [|done]. by injection E as <-.
  - done.
  - done.
Qed.

Lemma parse_typed m b n cmd : parse m b n = Ok (Some cmd) -> well_typed cmd.
Proof.
  intros (cmd0 & len & start & Hn & _ & _ & _ & _ & _ & _ & E)%parse_some.
  eapply parse_command_typed; [exact E|]. by eapply newCommand_typed.
Qed.
End Types.
