(* ===== verification/ClientCorrect.v ===== *)
(** * Reading responses: what the client makes of them

    [receive] on a response that arrives in pieces: it reads on as long as the
    response method does not know the prefix for a response.  The items of a
    retrieval response are read back as they were written. *)

From S2P Require Import Prelude.
From S2P Require Import Memory.
From S2P Require Import Java.
From S2P Require Import CarrotCache.
From S2P Require Import Utils.
From S2P Require Import Client.
From S2P Require Import ClientReply.

(** ** The read loop *)

(** The buffer after [p] bytes of [stream]. *)
Definition filled (stream : bytes) (p : nat) : Buf := {| got := take p stream; limit := CAPACITY |}.

(** The positions at which the reads leave the buffer. *)
Fixpoint positions (from : nat) (arrivals : list nat) : list nat :=
  match arrivals with
  | [] => []
  | n :: arrivals => (from + n)%nat :: positions (from + n) arrivals
  end.

Lemma read_into_filled n p stream :
  zlen stream <= CAPACITY ->
  read_into n (drop p stream) (filled stream p) = (filled stream (p + n), drop (p + n) stream).
Proof.
  intros Hc. unfold read_into, filled. cbn [got limit].
  rewrite take_take_drop, drop_drop.
  destruct (decide (n <= Z.to_nat (CAPACITY - zlen (take p stream)))%nat) as [Hn|Hn].
  - by rewrite Nat.min_l.
  - rewrite Nat.min_r by lia. unfold zlen in *. rewrite length_take in *.
    rewrite !take_ge, !drop_ge by lia. done.
Qed.

Lemma filled_all stream p : (length stream <= p)%nat -> filled stream p = filled stream (length stream).
Proof. intros H. unfold filled. by rewrite !take_ge by lia. Qed.

(** A response is answered when all of it is there, if no prefix at which a read
    ends is taken for one. *)
Lemma receive_filled {A} (respond : Buf -> Verdict A) stream v arrivals p :
  zlen stream <= CAPACITY ->
  (forall q, q ∈ positions p arrivals -> (q < length stream)%nat ->
             respond (filled stream q) = Again (filled stream q)) ->
  respond (filled stream (length stream)) = v -> (forall b, v <> Again b) ->
  (exists q, q ∈ positions p arrivals /\ (length stream <= q)%nat) ->
  receive respond arrivals (drop p stream) (filled stream p) = v.
Proof.
  intros Hc. revert p. induction arrivals as [|n ns IH]; intros p Hagain Hv Hne (q & Hq & Hlen).
  - by apply elem_of_nil in Hq.
  - cbn [receive]. rewrite read_into_filled by done. cbn [positions] in Hagain, Hq.
    destruct (decide (length stream <= p + n)%nat) as [Hn|Hn].
    + rewrite (filled_all _ _ Hn), Hv. destruct v as [b|a|e]; [by destruct (Hne b)|done|done].
    + rewrite Hagain by (by left || lia). apply IH; [|done|done|].
      * intros r Hr. apply Hagain. by right.
      * exists q. split; [|done]. apply elem_of_cons in Hq as [->|Hq]; [lia|done].
Qed.

Lemma receive_clear {A} (respond : Buf -> Verdict A) stream v arrivals :
  zlen stream <= CAPACITY ->
  (forall q, q ∈ positions 0 arrivals -> (q < length stream)%nat ->
             respond (filled stream q) = Again (filled stream q)) ->
  respond (filled stream (length stream)) = v -> (forall b, v <> Again b) ->
  (exists q, q ∈ positions 0 arrivals /\ (length stream <= q)%nat) ->
  receive respond arrivals stream clear = v.
Proof. exact (receive_filled respond stream v arrivals 0). Qed.

(** The first read. *)
Lemma receive_first {A} (respond : Buf -> Verdict A) n ns stream :
  Z.of_nat n <= CAPACITY ->
  receive respond (n :: ns) stream clear
  = match respond (filled stream n) with
    | Again b => receive respond ns (drop n stream) b
    | v => v
    end.
Proof.
  intros Hn. cbn [receive]. unfold read_into, clear. cbn [got limit app].
  change (zlen (@nil ascii)) with 0. rewrite Nat.min_l by lia. done.
Qed.

Lemma filled_length stream : filled stream (length stream) = {| got := stream; limit := CAPACITY |}.
Proof. unfold filled. by rewrite take_ge. Qed.

(** A buffer with nothing in it is read into again by every response method. *)
Lemma filled_zlen stream p : (p <= length stream)%nat -> zlen (got (filled stream p)) = Z.of_nat p.
Proof. intros H. unfold zlen, filled. cbn [got]. rewrite length_take. lia. Qed.

(** ** Lines of words *)

Definition word_ok (w : bytes) : Prop := w <> [] /\ Forall plain w.

Lemma key_ok_word k : key_ok k -> word_ok k.
Proof. done. Qed.

Lemma number_word z : word_ok (Long_toString z).
Proof.
  split; [apply Long_toString_ne|]. eapply Forall_impl; [|apply Long_toString_chars].
  intros c Hc. apply num_char_plain in Hc. split; tauto.
Qed.

Lemma number_no_LF z : Forall (fun c => c <> LF) (Long_toString z).
Proof.
  eapply Forall_impl; [|apply Long_toString_chars]. intros c [[d Hd]| ->]; [|done]. by intros ->.
Qed.

Lemma split_space_word w : Forall plain w -> split_space w = [w].
Proof.
  induction 1 as [|c w [Hc _] _ IH]; [done|]. cbn.
  assert ((c =c? SP) = false) as -> by by apply eqb_char_false. by rewrite IH.
Qed.

Lemma split_space_app w s : Forall plain w -> split_space (w ++ SP :: s) = w :: split_space s.
Proof.
  induction 1 as [|c w [Hc _] _ IH]; [done|]. cbn.
  assert ((c =c? SP) = false) as -> by by apply eqb_char_false. by rewrite IH.
Qed.

Lemma split_space_words ws : ws <> [] -> Forall word_ok ws -> split_space (put_keys ws) = ws.
Proof.
  intros Hne H. induction H as [|w ws [_ Hw] Hws IH]; [done|].
  destruct ws as [|w' ws]; [by apply split_space_word|].
  change (put_keys (w :: w' :: ws)) with (w ++ SP :: put_keys (w' :: ws)).
  rewrite split_space_app by done. by rewrite IH.
Qed.

Lemma java_split_words ws : ws <> [] -> Forall word_ok ws -> java_split (put_keys ws) = ws.
Proof.
  intros Hne H. unfold java_split. rewrite split_space_words by done.
  destruct ws as [|w [|w' ws]]; [done|done|].
  assert (E : forall l : list bytes, Forall word_ok l -> drop_empty l = l).
  { intros l [|x l' [Hx _] _]; [done|]. by destruct x. }
  rewrite E; [apply rev_involutive|]. by apply Forall_rev.
Qed.

Lemma put_keys_plain ws : Forall word_ok ws -> Forall (fun c => c <> CR) (put_keys ws).
Proof.
  assert (Hw : forall w, word_ok w -> Forall (fun c => c <> CR) w).
  { intros w [_ H]. eapply Forall_impl; [|exact H]. by intros c [_ Hc]. }
  induction 1 as [|w ws Hok Hws IH]; [constructor|]. destruct ws as [|w' ws]; [by apply Hw|].
  change (put_keys (w :: w' :: ws)) with (w ++ SP :: put_keys (w' :: ws)).
  apply list.Forall_app. split; [by apply Hw|]. by constructor.
Qed.

Lemma crlf_end_cons c l : c <> CR -> l <> [] -> crlf_end (c :: l) = Datatypes.S (crlf_end l).
Proof.
  intros Hc Hl. destruct l as [|d l]; [done|].
  change (crlf_end (c :: d :: l))
    with (if (c =c? CR) && (d =c? LF) then 2%nat else Datatypes.S (crlf_end (d :: l))).
  assert ((c =c? CR) = false) as -> by by apply eqb_char_false. done.
Qed.

Lemma crlf_end_line l rest : Forall (fun c => c <> CR) l -> crlf_end (l ++ CRLF ++ rest) = (length l + 2)%nat.
Proof.
  induction 1 as [|c l Hc Hl IH]; [done|].
  change ((c :: l) ++ CRLF ++ rest) with (c :: (l ++ CRLF ++ rest)).
  rewrite crlf_end_cons; [by rewrite IH|done|]. by destruct l.
Qed.

(** ** Retrieval responses *)

(** The item as the server writes it: [VALUE <key> <flags> <bytes> [<cas>]], the data
    block. *)
Definition value_words (r : GetResult) : list bytes :=
  [str "VALUE"; g_key r; Long_toString (g_flags r); Long_toString (zlen (g_value r))]
    ++ match g_cas r with Some c => [Long_toString c] | None => [] end.
Definition print_result (r : GetResult) : bytes :=
  put_keys (value_words r) ++ CRLF ++ g_value r ++ CRLF.
Definition print_results (rs : list GetResult) : bytes := concat (print_result <$> rs) ++ END.

Definition result_ok (r : GetResult) : Prop :=
  key_ok (g_key r) /\ in_int (g_flags r) /\ zlen (g_value r) <= INT_MAX /\
  match g_cas r with Some c => in_long c | None => True end.

Lemma value_words_ok r : result_ok r -> Forall word_ok (value_words r).
Proof.
  intros (Hk & _). unfold value_words.
  assert (word_ok (str "VALUE")).
  { split; [done|]. apply (bool_decide_unpack _). vm_compute. exact I. }
  apply list.Forall_app. split; [|destruct (g_cas r); repeat constructor; apply number_word].
  repeat (apply Forall_cons; [first [done|by apply key_ok_word|apply number_word]|]). constructor.
Qed.

Lemma print_result_long r : (6 <= length (print_result r))%nat.
Proof.
  unfold print_result, value_words. cbn [app]. rewrite !length_app.
  assert (forall w ws, length (put_keys (str "VALUE" :: w :: ws)) = (6 + length (put_keys (w :: ws)))%nat) as ->
    by done. lia.
Qed.

Section Responses.
Context `{CarrotUtilsLaws}.

Lemma is_END_true l : is_END l = true <-> take 5 l = END.
Proof. unfold is_END. rewrite Z.eqb_eq. apply compareTo_eq. Qed.

Lemma is_END_false l : is_END l = false <-> take 5 l <> END.
Proof. rewrite <- is_END_true. by destruct (is_END l). Qed.

Lemma parse_int_ok z : in_int z -> parse_int (Long_toString z) = Ok z.
Proof. intros Hz. unfold parse_int. by rewrite parseInt_toString. Qed.

Lemma parse_long_ok z : in_long z -> parse_long (Long_toString z) = Ok z.
Proof. intros Hz. unfold parse_long. by rewrite parseLong_toString. Qed.

Lemma parseLine_result r rest : result_ok r -> parseLine (print_result r ++ rest) = Ok (Some (r, rest)).
Proof.
  intros Hr. pose proof Hr as (_ & Hf & Hv & Hc). pose proof (value_words_ok r Hr) as Hw.
  pose proof (print_result_long r) as Hlen.
  unfold parseLine.
  assert ((zlen (print_result r ++ rest) =? 5) = false) as ->.
  { apply Z.eqb_neq. unfold zlen. rewrite length_app. lia. }
  unfold print_result. rewrite <- !app_assoc.
  rewrite crlf_end_line by by apply put_keys_plain.
  set (line := put_keys (value_words r)).
  assert ((Z.of_nat (length line + 2) - 2 <? 0) = false) as -> by (apply Z.ltb_ge; lia).
  replace (length line + 2 - 2)%nat with (length line) by lia.
  rewrite take_app_length.
  assert (drop (length line + 2) (line ++ CRLF ++ g_value r ++ CRLF ++ rest) = g_value r ++ CRLF ++ rest) as ->.
  { rewrite <- drop_drop, drop_app_length. done. }
  unfold line. rewrite java_split_words by (done || (by unfold value_words)).
  assert (Hrest : forall w cas, w = Long_toString (zlen (g_value r)) -> cas = g_cas r ->
    (let* valueSize := parse_int w in
     if valueSize <? 0 then Throw (NegativeArraySizeException valueSize)
     else if zlen (g_value r ++ CRLF ++ rest) <? valueSize + 2 then Throw BufferUnderflowException
     else let size := Z.to_nat valueSize in
          Ok (Some ({| g_key := g_key r; g_value := take size (g_value r ++ CRLF ++ rest);
                       g_flags := g_flags r; g_cas := cas |},
                    drop (size + 2) (g_value r ++ CRLF ++ rest)))) = Ok (Some (r, rest))).
  { intros w cas -> ->. rewrite parse_int_ok by (split; [pose proof (zlen_nonneg (g_value r)); lia|done]).
    cbn [rbind]. pose proof (zlen_nonneg (g_value r)). zcase. rewrite !zlen_app, zlen_CRLF.
    pose proof (zlen_nonneg rest). zcase. cbv zeta. rewrite to_nat_zlen, take_app_length.
    rewrite <- drop_drop, drop_app_length. by destruct r. }
  unfold value_words, word. destruct (g_cas r) as [c|] eqn:Ec; cbn [app lookup list_lookup rbind length];
    rewrite parse_int_ok by done; cbn [rbind].
  - rewrite decide_True by done. rewrite parse_long_ok by done. cbn [rbind]. by apply Hrest.
  - rewrite decide_False by done. cbn [rbind]. by apply Hrest.
Qed.

Lemma print_results_cons r rs : print_results (r :: rs) = print_result r ++ print_results rs.
Proof. unfold print_results. cbn. by rewrite <- app_assoc. Qed.

Lemma parseLines_results rs fuel :
  Forall result_ok rs -> (length rs < fuel)%nat -> parseLines fuel (print_results rs) = Ok rs.
Proof.
  intros Hrs. revert fuel. induction Hrs as [|r rs Hr _ IH]; intros [|fuel] Hf; cbn in Hf; try lia.
  - cbn [parseLines]. unfold parseLine.
    change (zlen (print_results []) =? 5) with true. cbn match.
    by rewrite (proj2 (is_END_true (print_results []))).
  - cbn [parseLines]. rewrite print_results_cons, parseLine_result by done. cbn [rbind].
    rewrite IH by lia. done.
Qed.

Lemma print_results_length rs : (length rs + 5 <= length (print_results rs))%nat.
Proof.
  induction rs as [|r rs IH]; [cbn; lia|]. rewrite print_results_cons, length_app.
  pose proof (print_result_long r). cbn. lia.
Qed.

Lemma print_results_nil rs : length (print_results rs) = 5%nat -> rs = [].
Proof.
  destruct rs as [|r rs]; [done|]. rewrite print_results_cons, length_app.
  pose proof (print_result_long r). lia.
Qed.

Lemma print_results_end rs :
  drop (length (print_results rs) - 5) (print_results rs) = END.
Proof.
  unfold print_results. rewrite length_app. change (length END) with 5%nat.
  replace (_ + 5 - 5)%nat with (length (concat (print_result <$> rs))) by lia. apply drop_app_length.
Qed.

(** All of the response. *)
Lemma retrieval_whole rs :
  Forall result_ok rs ->
  getRetrievalResponse {| got := print_results rs; limit := CAPACITY |} = Answer rs.
Proof.
  intros Hrs. unfold getRetrievalResponse. cbn [got].
  pose proof (print_results_length rs) as Hl. unfold zlen.
  destruct (Z.ltb_spec (Z.of_nat (length (print_results rs))) 5); [lia|].
  destruct (Z.eqb_spec (Z.of_nat (length (print_results rs))) 5) as [E|E].
  - assert (rs = []) as -> by (apply print_results_nil; lia).
    by rewrite (proj2 (is_END_true (print_results []))).
  - replace (Z.to_nat (Z.of_nat (length (print_results rs)) - 5)) with (length (print_results rs) - 5)%nat by lia.
    rewrite print_results_end. rewrite (proj2 (is_END_true END)) by done. cbn [negb].
    rewrite parseLines_results by (done || lia). done.
Qed.

(** A prefix at which the client goes on reading: not five bytes, and not one that
    happens to end like a response. *)
Definition goes_on (stream : bytes) (q : nat) : Prop :=
  q <> 5%nat /\ ((5 < q)%nat -> drop (q - 5) (take q stream) <> END).

Lemma retrieval_prefix stream q :
  (q < length stream)%nat -> goes_on stream q ->
  getRetrievalResponse (filled stream q) = Again (filled stream q).
Proof.
  intros Hq [H5 Hend]. unfold getRetrievalResponse. rewrite filled_zlen by lia.
  destruct (Z.ltb_spec (Z.of_nat q) 5); [done|].
  destruct (Z.eqb_spec (Z.of_nat q) 5); [lia|].
  unfold filled. cbn [got].
  replace (Z.to_nat (Z.of_nat q - 5)) with (q - 5)%nat by lia.
  rewrite (proj2 (is_END_false _)); [done|].
  rewrite take_ge by (rewrite length_drop, length_take; lia). apply Hend. lia.
Qed.

(** Once five bytes that are not a response have been read, the limit is five: the
    buffer has no room and the client reads for ever. *)
Lemma stuck stream q ns s :
  got s = take 5 stream -> limit s = 5 -> (5 <= length stream)%nat -> take 5 stream <> END ->
  receive getRetrievalResponse ns (drop q stream) s = Again s.
Proof.
  intros Hg Hl Hlen Hne. revert q. induction ns as [|n ns IH]; intros q; [done|].
  assert (H5 : zlen (got s) = 5) by (rewrite Hg; unfold zlen; rewrite length_take; lia).
  cbn [receive]. unfold read_into. rewrite H5, Hl. rewrite Nat.min_r by lia.
  change (Z.to_nat (5 - 5)) with 0%nat. rewrite take_0, app_nil_r.
  destruct s as [g l]. cbn [got limit] in *. subst l.
  unfold getRetrievalResponse at 1. cbn [got]. rewrite H5. change (5 <? 5) with false. change (5 =? 5) with true.
  cbn match. rewrite (proj2 (is_END_false g)).
  - rewrite drop_0. apply IH.
  - rewrite Hg, take_take. done.
Qed.

Lemma filled_5 stream :
  (5 <= length stream)%nat -> take 5 stream <> END ->
  getRetrievalResponse (filled stream 5) = Again {| got := take 5 stream; limit := 5 |}.
Proof.
  intros Hl Hne. unfold getRetrievalResponse. rewrite filled_zlen by done.
  change (Z.of_nat 5) with 5. change (5 <? 5) with false. change (5 =? 5) with true. cbn match.
  unfold filled. cbn [got]. by rewrite (proj2 (is_END_false _)) by by rewrite take_take.
Qed.

(** ** Counters *)

Lemma byte_at_take s q i : (i < q)%nat -> byte_at (take q s) i = byte_at s i.
Proof.
  unfold byte_at. revert q i. induction s as [|c s IH]; intros [|q] [|i] Hi; try lia; try done.
  cbn. apply IH. lia.
Qed.

(** A line is recognised by its end. *)
Lemma counter_prefix l q :
  Forall (fun c => c <> LF) l -> (q < length (l ++ CRLF))%nat ->
  getIncrDecrResponse (filled (l ++ CRLF) q) = Again (filled (l ++ CRLF) q).
Proof.
  intros Hl Hq. unfold getIncrDecrResponse. rewrite filled_zlen by lia.
  destruct (Z.eqb_spec (Z.of_nat q) 0); [done|]. unfold filled. cbn [got].
  replace (Z.to_nat (Z.of_nat q - 1)) with (q - 1)%nat by lia.
  rewrite byte_at_take by lia.
  assert (Hne : byte_at (l ++ CRLF) (q - 1) <> LF).
  { rewrite length_app in Hq. change (length CRLF) with 2%nat in Hq. unfold byte_at.
    destruct (decide (q - 1 < length l)%nat) as [H1|H1].
    - rewrite app_nth1 by done. rewrite list.Forall_forall in Hl. apply Hl.
      apply list_elem_of_In, nth_In. done.
    - rewrite app_nth2 by lia. replace (q - 1 - length l)%nat with 0%nat by lia. done. }
  apply eqb_char_false in Hne. by rewrite Hne.
Qed.

Lemma byte_at_last l : byte_at (l ++ CRLF) (length l + 1) = LF.
Proof.
  unfold byte_at. rewrite app_nth2 by lia. by replace (length l + 1 - length l)%nat with 1%nat by lia.
Qed.

Lemma counter_whole v :
  in_long v ->
  getIncrDecrResponse {| got := Long_toString v ++ CRLF; limit := CAPACITY |} = Answer (Number v).
Proof.
  intros Hv. unfold getIncrDecrResponse. cbn [got].
  pose proof (Long_toString_chars v) as Hc. pose proof (Long_toString_ne v) as Hne.
  rewrite zlen_app, zlen_CRLF. pose proof (zlen_pos _ Hne) as Hp.
  destruct (Z.eqb_spec (zlen (Long_toString v) + 2) 0); [lia|].
  replace (Z.to_nat (zlen (Long_toString v) + 2 - 1)) with (length (Long_toString v) + 1)%nat
    by (unfold zlen; lia).
  rewrite byte_at_last. cbn [negb Ascii.eqb]. change (LF =c? LF) with true. cbn [negb].
  replace (Z.to_nat (zlen (Long_toString v) + 2 - 2)) with (length (Long_toString v))
    by (unfold zlen; lia).
  rewrite take_app_length, parseLong_toString by done.
  destruct (Z.ltb_spec (zlen (Long_toString v) + 2 - 2) 0); [lia|].
  destruct (Long_toString v) as [|c w]; [done|]. cbn [app byte_at nth].
  assert (Hx : forall x, x = "N"%char \/ x = "C"%char -> (c =c? x) = false).
  { apply Forall_cons_1 in Hc as [Hc _]. intros x Hx. apply eqb_char_false. intros ->.
    destruct Hx as [-> | ->]; destruct Hc as [[d Hd]|Hd]; discriminate. }
  change (byte_at (c :: w ++ CRLF) 0) with c.
  rewrite (Hx "N"%char), (Hx "C"%char) by tauto. by rewrite andb_false_r.
Qed.

End Responses.
