(* ===== verification/Css.v ===== *)
(** * Tagged CSS templates of the Grafana plugins

    The style functions of the plugin bundles are calls of the template tag [css]:
    literal CSS with theme values put in.  Here: the template as data, the text it
    stands for, and a reader of block-structured CSS - declarations, nested blocks,
    quotes, comments - that says what a text or a template means.  The result
    ([read_css]): reading the text of a template is reading the template and then
    putting the values in, provided the values are plain. *)

From S2P Require Import Prelude.

(** ** Templates *)

(** The strings and the values that a tagged template hands to its tag. *)
Inductive piece : Type :=
  | Lit (s : string)
  | Val (v : bytes).

(** The text the tag [css] makes of them. *)
Definition css (ps : list piece) : bytes :=
  ps ≫= fun p => match p with Lit s => str s | Val v => v end.

(** What the reader sees of a template: characters, and values it does not look into. *)
Inductive item : Type :=
  | Chr (c : ascii)
  | Hole (v : bytes).

Definition items (ps : list piece) : list item :=
  ps ≫= fun p => match p with Lit s => Chr <$> str s | Val v => [Hole v] end.

Definition fill (l : list item) : bytes :=
  l ≫= fun i => match i with Chr c => [c] | Hole v => v end.

(** ** The reader *)

Inductive token : Type :=
  | Declaration (text : list item)
  | Open (prelude : list item)
  | Close.

Inductive mode : Type :=
  | Code
  | Slash                   (* a slash in [Code], which may start a comment *)
  | LineComment
  | BlockComment
  | Star                    (* a star in a block comment, which may end it *)
  | Quoted (double : bool)
  | Escaped (double : bool).

(** [cur] is the text since the last token; [depth] counts the open blocks. *)
Record scanner := { md : mode; cur : list item; depth : nat; tokens : list token }.

Definition start_scan : scanner := {| md := Code; cur := []; depth := 0; tokens := [] |}.

Definition SLASH : ascii := "/"%char.
Definition STAR : ascii := "*"%char.
Definition BACKSLASH : ascii := "\"%char.
Definition quote (double : bool) : ascii := if double then "034"%char else "'"%char.

Definition is_space (c : ascii) : bool := (c =c? SP) || (c =c? LF) || (c =c? CR).
Definition blank_item (i : item) : bool := match i with Chr c => is_space c | Hole _ => false end.
Definition blank (l : list item) : bool := forallb blank_item l.

Definition in_mode (m : mode) (s : scanner) : scanner :=
  {| md := m; cur := cur s; depth := depth s; tokens := tokens s |}.
Definition push (i : item) (s : scanner) : scanner :=
  {| md := md s; cur := cur s ++ [i]; depth := depth s; tokens := tokens s |}.

(** A declaration ends at a semicolon, or with its block. *)
Definition flush (s : scanner) : scanner :=
  {| md := md s; cur := []; depth := depth s;
     tokens := if blank (cur s) then tokens s else tokens s ++ [Declaration (cur s)] |}.
Definition open (s : scanner) : scanner :=
  {| md := md s; cur := []; depth := Datatypes.S (depth s); tokens := tokens s ++ [Open (cur s)] |}.
Definition close (s : scanner) : option scanner :=
  match depth s with
  | O => None
  | Datatypes.S d =>
      Some {| md := md s; cur := []; depth := d; tokens := tokens (flush s) ++ [Close] |}
  end.

Definition code (i : item) (s : scanner) : option scanner :=
  match i with
  | Chr c =>
      if c =c? "{"%char then Some (open s)
      else if c =c? "}"%char then close s
      else if c =c? ";"%char then Some (flush s)
      else if c =c? SLASH then Some (in_mode Slash s)
      else if c =c? quote false then Some (in_mode (Quoted false) (push i s))
      else if c =c? quote true then Some (in_mode (Quoted true) (push i s))
      else Some (push i s)
  | Hole _ => Some (push i s)
  end.

Definition is_char (c : ascii) (i : item) : bool := match i with Chr d => d =c? c | Hole _ => false end.

Definition step (s : scanner) (i : item) : option scanner :=
  match md s with
  | Code => code i s
  | Slash =>
      if is_char SLASH i then Some (in_mode LineComment s)
      else if is_char STAR i then Some (in_mode BlockComment s)
      else code i (in_mode Code (push (Chr SLASH) s))
  | LineComment => Some (if is_char LF i then in_mode Code s else s)
  | BlockComment => Some (if is_char STAR i then in_mode Star s else s)
  | Star =>
      Some (if is_char SLASH i then in_mode Code s
            else if is_char STAR i then s else in_mode BlockComment s)
  | Quoted q =>
      Some (if is_char (quote q) i then in_mode Code (push i s)
            else if is_char BACKSLASH i then in_mode (Escaped q) (push i s) else push i s)
  | Escaped q => Some (in_mode (Quoted q) (push i s))
  end.

Fixpoint scan (l : list item) (s : scanner) : option scanner :=
  match l with
  | [] => Some s
  | i :: l => step s i ≫= scan l
  end.

(** Everything must be closed at the end. *)
Definition finish (s : scanner) : option (list token) :=
  match md s, depth s with
  | Code, O => Some (tokens (flush s))
  | _, _ => None
  end.

Definition read (l : list item) : option (list token) := scan l start_scan ≫= finish.
Definition read_text (l : bytes) : option (list token) := read (Chr <$> l).

(** ** Plain values *)

(** The characters that mean something to the reader. *)
Definition special (c : ascii) : bool :=
  bool_decide (c ∈ str "{};/*'\" ++ ["034"%char; LF]).

Definition plain_value (v : bytes) : Prop :=
  forallb (fun c => negb (special c)) v = true /\ forallb is_space v = false.

#[global] Instance plain_value_dec v : Decision (plain_value v).
Proof. unfold plain_value. apply _. Defined.

Definition plain_item (i : item) : Prop := match i with Chr _ => True | Hole v => plain_value v end.

(** ** Reading and filling commute *)

(** The characters of a text with its values put in. *)
Definition spell (l : list item) : list item := Chr <$> fill l.

Definition spell_token (t : token) : token :=
  match t with
  | Declaration l => Declaration (spell l)
  | Open l => Open (spell l)
  | Close => Close
  end.

Definition spell_tokens (ts : list token) : list token := spell_token <$> ts.

Definition spell_scanner (s : scanner) : scanner :=
  {| md := md s; cur := spell (cur s); depth := depth s; tokens := spell_tokens (tokens s) |}.

Definition plain_scanner (s : scanner) : Prop := Forall plain_item (cur s).

Lemma fill_app a b : fill (a ++ b) = fill a ++ fill b.
Proof. unfold fill. apply bind_app. Qed.

Lemma spell_app a b : spell (a ++ b) = spell a ++ spell b.
Proof. unfold spell. by rewrite fill_app, fmap_app. Qed.

Lemma fill_Chr l : fill (Chr <$> l) = l.
Proof. induction l as [|c l IH]; [done|]. cbn. f_equal. exact IH. Qed.

Lemma fill_items ps : fill (items ps) = css ps.
Proof.
  induction ps as [|[s|v] ps IH]; [done| |].
  - change (fill ((Chr <$> str s) ++ items ps) = str s ++ css ps).
    by rewrite fill_app, fill_Chr, IH.
  - change (v ++ fill (items ps) = v ++ css ps). by rewrite IH.
Qed.

Lemma blank_app a b : blank (a ++ b) = blank a && blank b.
Proof. apply forallb_app. Qed.

Lemma blank_Chr l : blank (Chr <$> l) = forallb is_space l.
Proof.
  induction l as [|c l IH]; [done|].
  change (is_space c && blank (Chr <$> l) = is_space c && forallb is_space l). by rewrite IH.
Qed.

Lemma blank_spell l : Forall plain_item l -> blank (spell l) = blank l.
Proof.
  induction 1 as [|[c|v] l Hi Hl IH]; [done| |].
  - change (is_space c && blank (spell l) = is_space c && blank l). by rewrite IH.
  - change (blank (Chr <$> (v ++ fill l)) = false).
    destruct Hi as [_ Hi]. by rewrite fmap_app, blank_app, blank_Chr, Hi.
Qed.

Lemma scan_app a b s : scan (a ++ b) s = scan a s ≫= scan b.
Proof.
  revert s. induction a as [|i a IH]; intros s; [done|]. cbn.
  destruct (step s i); cbn; [apply IH|done].
Qed.
(** Each rule of the reader, on a template with its values put in. *)
Section Commute.

Lemma spell_in_mode m s : spell_scanner (in_mode m s) = in_mode m (spell_scanner s).
Proof. done. Qed.

Lemma spell_push c s : spell_scanner (push (Chr c) s) = push (Chr c) (spell_scanner s).
Proof. unfold spell_scanner, push; cbn [md cur depth tokens]. by rewrite spell_app. Qed.

Lemma spell_open s : spell_scanner (open s) = open (spell_scanner s).
Proof. unfold spell_scanner, spell_tokens, open; cbn [md cur depth tokens]. by rewrite fmap_app. Qed.

Lemma spell_flush s : plain_scanner s -> spell_scanner (flush s) = flush (spell_scanner s).
Proof.
  intros Hs. unfold spell_scanner, spell_tokens, flush; cbn [md cur depth tokens]. rewrite (blank_spell _ Hs).
  destruct (blank (cur s)); [done|]. by rewrite fmap_app.
Qed.

Lemma spell_close s : plain_scanner s -> close (spell_scanner s) = spell_scanner <$> close s.
Proof.
  intros Hs. unfold close. change (depth (spell_scanner s)) with (depth s).
  destruct (depth s) as [|d] eqn:E; [done|]. rewrite <- (spell_flush _ Hs).
  unfold spell_scanner, spell_tokens; cbn [md cur depth tokens fmap option_fmap option_map]. by rewrite fmap_app.
Qed.

Lemma spell_code c s :
  plain_scanner s -> code (Chr c) (spell_scanner s) = spell_scanner <$> code (Chr c) s.
Proof.
  intros Hs. unfold code.
  repeat case_match; cbn;
    rewrite ?spell_in_mode, ?spell_push, ?spell_open, ?spell_flush by done; try done; by apply spell_close.
Qed.

Lemma plain_push i s : plain_item i -> plain_scanner s -> plain_scanner (push i s).
Proof. intros. apply Forall_app. split; [done|by apply Forall_singleton]. Qed.

Lemma plain_code i s s' : plain_item i -> plain_scanner s -> code i s = Some s' -> plain_scanner s'.
Proof.
  intros Hi Hs. unfold code, close.
  repeat case_match; intros E; simplify_eq; try done; try constructor; by apply plain_push.
Qed.

Lemma plain_step i s s' : plain_item i -> plain_scanner s -> step s i = Some s' -> plain_scanner s'.
Proof.
  intros Hi Hs. unfold step.
  repeat case_match; intros E; simplify_eq; try done; try by apply plain_push.
  all: eapply plain_code; [| |exact E]; [done|]; try done; by apply (plain_push (Chr SLASH)).
Qed.

(** A character. *)
Lemma step_chr c s :
  plain_scanner s -> step (spell_scanner s) (Chr c) = spell_scanner <$> step s (Chr c).
Proof.
  intros Hs. unfold step. change (md (spell_scanner s)) with (md s).
  destruct (md s); cbn [is_char]; repeat case_match; cbn;
    rewrite ?spell_in_mode, ?spell_push; try done; try by apply spell_code.
  rewrite <- spell_push, <- spell_in_mode. apply spell_code. by apply (plain_push (Chr SLASH)).
Qed.

(** A value: its characters are read one by one. *)
Definition put (l : list item) (s : scanner) : scanner :=
  {| md := md s; cur := cur s ++ l; depth := depth s; tokens := tokens s |}.

Lemma scan_ordinary v s :
  forallb (fun c => negb (special c)) v = true ->
  match md s with
  | Code | Quoted _ => scan (Chr <$> v) s = Some (put (Chr <$> v) s)
  | LineComment | BlockComment => scan (Chr <$> v) s = Some s
  | _ => True
  end.
Proof.
  revert s. induction v as [|c v IH]; intros s Hv.
  - destruct s as [m l d t]. unfold put; cbn. rewrite app_nil_r. by destruct m.
  - cbn in Hv. apply andb_true_iff in Hv as [Hc Hv].
    apply negb_true_iff in Hc. unfold special in Hc. apply bool_decide_eq_false in Hc.
    assert (Hne : forall d, d ∈ str "{};/*'\" ++ ["034"%char; LF] -> (c =c? d) = false).
    { intros d Hd. apply eqb_char_false. by intros ->. }
    specialize (IH (match md s with Code | Quoted _ => push (Chr c) s | _ => s end) Hv).
    destruct s as [m l d t].
    destruct m as [| | | | |q|q]; try exact I; cbn [md push] in IH |- *;
      cbn [fmap list_fmap scan]; unfold step, code; cbn [md is_char];
      try (rewrite !Hne by (try (destruct q); apply (bool_decide_unpack _); reflexivity));
      cbn [mbind option_bind]; rewrite IH; unfold put, push; cbn [md cur depth tokens];
      by rewrite <- ?app_assoc.
Qed.

Lemma spell_hole v : spell [Hole v] = Chr <$> v.
Proof. unfold spell, fill. cbn. by rewrite app_nil_r. Qed.

Lemma spell_push_hole v s : spell_scanner (push (Hole v) s) = put (Chr <$> v) (spell_scanner s).
Proof.
  unfold spell_scanner, push, put; cbn [md cur depth tokens]. by rewrite spell_app, spell_hole.
Qed.

(** The state in which a pending slash, star or backslash has been decided by an
    ordinary character. *)
Definition settled (s : scanner) : scanner :=
  match md s with
  | Slash => in_mode Code (push (Chr SLASH) s)
  | Star => in_mode BlockComment s
  | Escaped q => in_mode (Quoted q) s
  | _ => s
  end.

Lemma step_settled c s : special c = false -> step s (Chr c) = step (settled s) (Chr c).
Proof.
  intros Hc. unfold special in Hc. apply bool_decide_eq_false in Hc.
  assert (Hne : forall d, d ∈ str "{};/*'\" ++ ["034"%char; LF] -> (c =c? d) = false).
  { intros d Hd. apply eqb_char_false. by intros ->. }
  unfold settled, step. destruct (md s) eqn:Em; rewrite ?Em; try done; cbn [md in_mode is_char];
    rewrite !Hne by (try (destruct double); apply (bool_decide_unpack _); reflexivity); done.
Qed.

Lemma scan_settled v s : plain_value v -> scan (Chr <$> v) s = scan (Chr <$> v) (settled s).
Proof.
  intros [Ho Hb]. destruct v as [|c l]; [done|]. cbn in Ho. apply andb_true_iff in Ho as [Hc _].
  apply negb_true_iff in Hc. cbn [fmap list_fmap scan]. by rewrite (step_settled c s Hc).
Qed.

Lemma step_hole_settled v s : step s (Hole v) = step (settled s) (Hole v).
Proof. unfold settled, step. destruct (md s) eqn:Em; rewrite ?Em; done. Qed.

Lemma spell_settled s : spell_scanner (settled s) = settled (spell_scanner s).
Proof.
  unfold settled. change (md (spell_scanner s)) with (md s).
  destruct (md s); try done. by rewrite spell_in_mode, spell_push.
Qed.

Lemma scan_hole v s :
  plain_value v -> scan (Chr <$> v) (spell_scanner s) = spell_scanner <$> step s (Hole v).
Proof.
  intros Hv. rewrite (scan_settled _ _ Hv), step_hole_settled, <- spell_settled.
  pose proof (scan_ordinary v (spell_scanner (settled s)) (proj1 Hv)) as Hscan.
  change (md (spell_scanner (settled s))) with (md (settled s)) in Hscan.
  unfold step.
  assert (Hm : match md (settled s) with Slash | Star | Escaped _ => False | _ => True end).
  { unfold settled. destruct (md s) eqn:Em; cbn; rewrite ?Em; done. }
  destruct (md (settled s)); try done; cbn [is_char code fmap option_fmap option_map];
    rewrite Hscan, ?spell_push_hole; done.
Qed.

Lemma scan_spell l s :
  Forall plain_item l -> plain_scanner s ->
  scan (spell l) (spell_scanner s) = spell_scanner <$> scan l s.
Proof.
  intros Hl. revert s. induction Hl as [|i l Hi Hl IH]; intros s Hs; [done|].
  change (spell (i :: l)) with (spell ([i] ++ l)). rewrite spell_app, scan_app.
  cbn [scan].
  assert (E : scan (spell [i]) (spell_scanner s) = spell_scanner <$> step s i).
  { destruct i as [c|v].
    - change (spell [Chr c]) with [Chr c]. cbn [scan]. rewrite (step_chr c s Hs).
      by destruct (step s (Chr c)).
    - rewrite spell_hole. by apply scan_hole. }
  rewrite E. destruct (step s i) as [s'|] eqn:Es; [|done]. cbn.
  apply IH. by eapply plain_step.
Qed.

End Commute.

Lemma finish_spell s :
  plain_scanner s -> finish (spell_scanner s) = spell_tokens <$> finish s.
Proof.
  intros Hs. unfold finish. rewrite <- (spell_flush s Hs).
  change (md (spell_scanner s)) with (md s). change (depth (spell_scanner s)) with (depth s).
  by destruct (md s), (depth s).
Qed.

Lemma plain_scan l s s' :
  Forall plain_item l -> plain_scanner s -> scan l s = Some s' -> plain_scanner s'.
Proof.
  intros Hl. revert s. induction Hl as [|i l Hi Hl IH]; intros s Hs; cbn; [by intros [= <-]|].
  destruct (step s i) as [s1|] eqn:E; cbn; [|done]. apply IH. by eapply plain_step.
Qed.

(** Reading the text of a template is reading the template and putting the values in. *)
Lemma read_css ps :
  Forall plain_item (items ps) -> read_text (css ps) = spell_tokens <$> read (items ps).
Proof.
  intros Hp. unfold read_text, read. rewrite <- fill_items.
  change (scan (spell (items ps)) (spell_scanner start_scan) ≫= finish
          = spell_tokens <$> (scan (items ps) start_scan ≫= finish)).
  rewrite (scan_spell (items ps) start_scan Hp) by constructor.
  destruct (scan (items ps) start_scan) as [s|] eqn:E; [|done]. cbn.
  apply finish_spell. eapply plain_scan; [exact Hp| |exact E]. constructor.
Qed.

(** ** Outlines: the nesting of blocks and the names of the properties *)

Inductive outline : Type :=
  | Property (name : bytes)
  | Opens
  | Closes.

#[global] Instance outline_eq_dec : EqDecision outline.
Proof. solve_decision. Defined.

(** A property's name is what precedes the colon, less white space in front; a
    value that is put in before the colon would make it unknown. *)
Fixpoint name_of (l : list item) : option bytes :=
  match l with
  | Chr c :: l => if c =c? ":"%char then Some [] else cons c <$> name_of l
  | _ => None
  end.

Fixpoint property (l : list item) : option bytes :=
  match l with
  | Chr c :: l' => if is_space c then property l' else name_of l
  | _ => None
  end.

Definition token_outline (t : token) : option outline :=
  match t with
  | Declaration l => Property <$> property l
  | Open _ => Some Opens
  | Close => Some Closes
  end.

Fixpoint outlines (ts : list token) : option (list outline) :=
  match ts with
  | [] => Some []
  | t :: ts => o ← token_outline t; os ← outlines ts; Some (o :: os)
  end.

Definition css_outline (l : bytes) : option (list outline) := read_text l ≫= outlines.

Lemma name_of_spell l n : name_of l = Some n -> name_of (spell l) = Some n.
Proof.
  revert n. induction l as [|[c|v] l IH]; intros n; cbn [name_of]; try done.
  change (spell (Chr c :: l)) with (Chr c :: spell l). cbn [name_of].
  destruct (c =c? ":"%char); [done|].
  destruct (name_of l) as [m|]; [|done]. by rewrite (IH m eq_refl).
Qed.

Lemma property_spell l n : property l = Some n -> property (spell l) = Some n.
Proof.
  induction l as [|[c|v] l IH]; try done.
  change (spell (Chr c :: l)) with (Chr c :: spell l). cbn [property].
  destruct (is_space c); [exact IH|]. apply (name_of_spell (Chr c :: l)).
Qed.

Lemma outlines_spell ts os : outlines ts = Some os -> outlines (spell_tokens ts) = Some os.
Proof.
  revert os. induction ts as [|t ts IH]; intros os; [done|].
  change (spell_tokens (t :: ts)) with (spell_token t :: spell_tokens ts). cbn [outlines].
  destruct (token_outline t) as [o|] eqn:E; [|done].
  assert (token_outline (spell_token t) = Some o) as ->.
  { destruct t as [l|l|]; cbn [spell_token token_outline] in *; [|done..].
    destruct (property l) as [n|] eqn:En; [|done]. by rewrite (property_spell l n En). }
  cbn. destruct (outlines ts) as [os'|]; [|done]. by rewrite (IH os' eq_refl).
Qed.

(** The outline of a template, which does not look at its values. *)
Definition template_outline (ps : list piece) : option (list outline) :=
  read (items ps) ≫= outlines.

Lemma css_outline_template ps os :
  Forall plain_item (items ps) -> template_outline ps = Some os -> css_outline (css ps) = Some os.
Proof.
  intros Hp. unfold css_outline, template_outline. rewrite (read_css ps Hp).
  destruct (read (items ps)) as [ts|]; [|done]. apply outlines_spell.
Qed.
