(* ===== verification/Stylesheets.v ===== *)
(** * Style functions of the Grafana plugin bundles

    One definition per style function of the bundles, named after its minified symbol:
    the classes it returns, each a [css] template of literals and theme values.  The
    theme ([useTheme2], [useStyles2]) is Grafana's and is an argument; its values are
    the strings that a template makes of them.  [sheet_outlines]: with plain theme
    values every class has the blocks and properties its template shows. *)

From Stdlib Require Import QArith.
From S2P Require Import Prelude.
From S2P Require Import Java.
From S2P Require Import Css.
#[local] Open Scope Z_scope.
#[local] Open Scope list_scope.

(** ** What the style functions use of Grafana *)

Record Theme := {
  colors_background_canvas : bytes;
  colors_background_primary : bytes;
  colors_background_secondary : bytes;
  colors_border_medium : bytes;
  colors_border_strong : bytes;
  colors_border_weak : bytes;
  colors_error_text : bytes;
  colors_primary_main : bytes;
  colors_primary_text : bytes;
  colors_secondary_border : bytes;
  colors_secondary_main : bytes;
  colors_secondary_shade : bytes;
  colors_text_disabled : bytes;
  colors_text_link : bytes;
  colors_text_maxContrast : bytes;
  colors_text_primary : bytes;
  colors_text_secondary : bytes;
  shape_radius_default : bytes;
  typography_bodySmall_fontSize : bytes;
  typography_fontWeightBold : bytes;
  typography_h2_fontSize : bytes;
  typography_h4_fontSize : bytes;
  spacing : list Q -> bytes;
  breakpoints_down : string -> bytes
}.

(** [config.theme2.visualization]. *)
Record Visualization := { palette : Z -> bytes; getColorByName : bytes -> bytes }.

(** The classes of a style function, by name. *)
Definition styles : Type := list (string * list piece).

(** A number in a template: an integer prints in decimal. *)
Definition number (z : Z) : bytes := Long_toString z.

(** ** Constants of 75.js *)

Definition dt : bytes := str "rgb(61, 113, 217)".
Definition pt : bytes := str "#4a4b52".
Definition co : bytes := str "160px".
Definition WIDTH_IN_PIXELS : Z := 186.
Definition MIN_HEIGHT : Z := 240.

(** A colour of the palette, its first eight taken in turn. *)
Definition un (v : Visualization) (e : Z) : bytes := getColorByName v (palette v (Z.rem e 8)).

(** ** The style functions *)

(** [tt] of 75.js. *)
Definition tt_styles : styles :=
  [("editionSelect", [Lit "
    position: absolute;
    z-index: 1;

    [aria-label='Remove'] svg {
      display: none;
    }
  "])].

(** [rt] of 75.js. *)
Definition rt_styles : styles :=
  [("edition", [Lit "
    position: absolute;
    z-index: 1;
  "])].

(** [ot] of 75.js. *)
Definition ot_styles : styles :=
  [("editionSelect", [Lit "
    position: absolute;
    z-index: 1;
    min-width: 160px;
    box-shadow: none;

    & input:focus {
      outline: none !important;
    }
  "])].

(** [mt] of 75.js. *)
Definition mt_styles (e : Theme) : styles :=
  [("chiclet", [Lit "
    display: flex;
    align-items: center;
    border: 1px solid "; Val (dt); Lit ";
    border-radius: 2px;

    & > button {
      height: 30px;
      background-color: "; Val (colors_background_primary e); Lit ";
      color: "; Val (colors_text_maxContrast e); Lit ";
    }

    & > :first-child {
      background-color: "; Val (dt); Lit ";
      color: "; Val (str "#fff"); Lit ";
      border-radius: 0;

      &:hover {
        cursor: not-allowed !important;
      }
    }

    & > :last-child {
      border-left: 1px solid "; Val (dt); Lit ";
      border-top-left-radius: 0;
      border-bottom-left-radius: 0;
    }
  "]);
   ("partialChiclet", [Lit "
    border-color: "; Val (pt); Lit ";
    border-right: 0;
    border-top-right-radius: 0;
    border-bottom-right-radius: 0;

    & > :first-child {
      background-color: "; Val (colors_background_secondary e); Lit ";
      color: "; Val (colors_text_maxContrast e); Lit ";
      border-radius: 0;
      border-left: 0;

      &:hover {
        cursor: pointer !important;
      }
    }

    & > :last-child {
      border-color: "; Val (pt); Lit ";
      color: "; Val (colors_text_maxContrast e); Lit ";
    }
  "]);
   ("inactiveChiclet", [Lit "
    border-color: "; Val (pt); Lit ";

    & > button {
      color: "; Val (colors_text_maxContrast e); Lit ";
    }

    & > :first-child {
      background-color: "; Val (colors_background_secondary e); Lit ";
      color: "; Val (colors_text_maxContrast e); Lit ";
    }

    & > :last-child {
      border-color: "; Val (pt); Lit ";
    }
  "]);
   ("chicletAttribute", [Lit "
    &:hover {
      opacity: 1 !important;
    }
  "]);
   ("chicletOperator", [Lit "
    &:hover {
      background-color: "; Val (colors_background_secondary e); Lit ";
    }
  "]);
   ("chicletValue", [Lit "
    flex-grow: 1;
    text-align: left;
    max-width: 420px;
    text-overflow: ellipsis;
    text-wrap: nowrap;
    overflow: hidden;

    &:hover {
      background-color: "; Val (colors_background_secondary e); Lit ";
    }
  "]);
   ("chicletRemoveButton", [Lit "
    &:hover {
      background-color: "; Val (colors_background_secondary e); Lit ";
    }

    & svg {
      width: 12px;
      height: 12px;
    }
  "])].

(** [gt] of 75.js. *)
Definition gt_styles : styles :=
  [("chicletsList", [Lit "
    display: flex;
    align-items: center;
    flex-wrap: wrap;
    gap: 4px;
  "]);
   ("editChicletContainer", [Lit "
    position: relative;
  "])].

(** [vt] of 75.js. *)
Definition vt_styles : styles :=
  [("select", [Lit "
    border-top-right-radius: 0;
    border-bottom-right-radius: 0;
  "])].

(** [xt] of 75.js. *)
Definition xt_styles : styles :=
  [("select", [Lit "
    [aria-label='Remove'] svg {
      display: none;
    }
  "])].

(** [Tt] of 75.js. *)
Definition Tt_styles : styles :=
  [("queryBuilder", [Lit "
    display: flex;
    justify-content: flex-start;
    align-items: flex-end;
    flex-wrap: wrap;
    gap: 4px;
    width: 100%;
  "]);
   ("controls", [Lit "
    display: flex;
    align-self: flex-start;
    flex-grow: 1;
  "]);
   ("executeButton", [Lit "
    border-top-left-radius: 0;
    border-bottom-left-radius: 0;
  "])].

(** [dollar t] of 75.js. *)
Definition dollar_t_styles (e : Theme) : styles :=
  [("iconError", [Lit "
    height: 32px;
    align-self: center;
    color: "; Val (colors_error_text e); Lit ";
  "])].

(** [qt] of 75.js. *)
Definition qt_styles (e : Theme) : styles :=
  [("iconError", [Lit "
    height: 32px;
    align-self: center;
    color: "; Val (colors_error_text e); Lit ";
  "])].

(** [On] of 75.js. *)
Definition On_styles (v : Visualization) : styles :=
  [("container", [Lit "
    [data-testid='data-testid table body'] [role='row']:first-child {
      color: "; Val (un v 3); Lit ";
      font-weight: 500;
    }
  "])].

(** [lr] of 75.js. *)
Definition lr_styles (e : Theme) : styles :=
  [("resultsCount", [Lit "
    margin-right: "; Val (spacing e [1]%Q); Lit ";
    border-radius: 11px;
    padding: 2px 8px;
    color: "; Val (colors_text_primary e); Lit ";
    background-color: "; Val (colors_background_secondary e); Lit ";
  "])].

(** [yr] of 75.js. *)
Definition yr_styles : styles :=
  [("favedButton", [Lit "
    color: #f2cc0d;
    margin: 0;
  "]);
   ("notFavedbutton", [Lit "
    margin: 0;
  "])].

(** [Nr] of 75.js. *)
Definition Nr_styles : styles :=
  [("selectButton", [Lit "
    margin: 0;
    padding: 0;
  "])].

(** [qr] of 75.js. *)
Definition qr_styles (e : Theme) : styles :=
  [("container", [Lit "
    display: flex;
    gap: "; Val (spacing e [1]%Q); Lit ";
  "]);
   ("select", [Lit "
    max-width: "; Val (spacing e [22]%Q); Lit ";
  "])].

(** [Yr] of 75.js. *)
Definition Yr_styles (e : Theme) : styles :=
  [("spinner", [Lit "
    height: 32px;
    line-height: 32px;
  "]);
   ("groupByErrorContainer", [Lit "
    display: flex;
  "]);
   ("iconError", [Lit "
    height: 32px;
    align-self: center;
    color: "; Val (colors_error_text e); Lit ";
  "])].

(** [to] of 75.js. *)
Definition to_styles (e : Theme) : styles :=
  [("tooltipAnchor", [Lit "
    position: relative;
    left: 42px;
  "]);
   ("checkbox", [Lit "
    column-gap: 4px;

    &:last-child {
      & :nth-child(1) {
        grid-column-start: 2;
      }
      & :nth-child(2) {
        grid-column-start: 1;
      }
    }

    span {
      color: "; Val (colors_text_secondary e); Lit ";
    }
    span:hover {
      color: "; Val (colors_text_primary e); Lit ";
    }

    &.checked span {
      color: "; Val (colors_text_primary e); Lit ";
    }
  "])].

(** [ro] of 75.js. *)
Definition ro_styles (e : Theme) : styles :=
  [("container", [Lit "
    display: flex;
    flex-direction: column;
    justify-content: space-between;
    width: 100%;
    background-color: "; Val (colors_background_canvas e); Lit ";
    padding: "; Val (spacing e [1]%Q); Lit ";
    border: 1px solid "; Val (colors_border_weak e); Lit ";
    border-right: none;
    border-radius: 2px 0 0 2px;
  "]);
   ("title", [Lit "
    font-size: 24px;
    width: 100%;
    text-align: center;
    margin-top: "; Val (spacing e [5]%Q); Lit ";
  "]);
   ("compareActions", [Lit "
    display: flex;
    justify-content: space-between;
    font-size: 11px;
    border-top: 1px solid "; Val (colors_border_weak e); Lit ";
    padding: "; Val (spacing e [1]%Q); Lit " 0 0 0;

    & .checkbox:nth-child(2) {
      padding-right: 4px;
      border-right: 1px solid "; Val (colors_border_strong e); Lit ";
    }
    & .checkbox:nth-child(4) {
      padding-left: 4px;
    }
  "])].

(** [so] of 75.js. *)
Definition so_styles (e : Theme) : styles :=
  [("container", [Lit "
    display: flex;
    min-width: 0px;
    min-height: "; Val (co); Lit ";
    flex-flow: row;

    box-sizing: border-box;
    border: 1px solid transparent;
    &.selected {
      border: 1px solid "; Val (colors_primary_main e); Lit ";
    }

    & > div {
      display: flex;
      position: relative;
      flex-direction: row;
      align-self: stretch;
      min-height: "; Val (co); Lit ";
    }
  "]);
   ("statsPanel", [Lit "
    width: "; Val (number WIDTH_IN_PIXELS); Lit "px;
  "]);
   ("timeseriesPanel", [Lit "
    flex-grow: 1;

    & [data-viz-panel-key] > * {
      border-top-left-radius: 0;
      border-bottom-left-radius: 0;
    }
  "])].

(** [yo] of 75.js. *)
Definition yo_styles (e : Theme) : styles :=
  [("container", [Lit "
      display: flex;
      justify-content: center;
    "]);
   ("includeButton", [Lit "
      border-radius: "; Val (shape_radius_default e); Lit " 0 0 "; Val (shape_radius_default e); Lit ";

      &:not(.selected) {
        border-right: none;
      }
    "]);
   ("excludeButton", [Lit "
      border-radius: 0 "; Val (shape_radius_default e); Lit " "; Val (shape_radius_default e); Lit " 0;

      &:not(.selected) {
        border-left: none;
      }
    "])].

(** [So] of 75.js. *)
Definition So_styles (e : Theme) : styles :=
  [("container", [Lit "
    display: flex;
    align-items: center;
    width: "; Val (number WIDTH_IN_PIXELS); Lit "px;
  "]);
   ("compareButton", [Lit "
    width: "; Val (number (WIDTH_IN_PIXELS - 32)); Lit "px;
    border-right: none;
    border-top-right-radius: 0;
    border-bottom-right-radius: 0;
  "]);
   ("clearButton", [Lit "
    box-sizing: border-box;
    width: 32px !important;
    height: 32px !important;
    color: "; Val (colors_text_secondary e); Lit ";
    background-color: transparent;
    border-left: none !important;
    border-top-left-radius: 0;
    border-bottom-left-radius: 0;

    &:not([disabled]),
    &:not([disabled]):hover {
      background-color: transparent;
      box-shadow: none;
    }
  "]);
   ("clearButtonActive", [Lit "
    border-color: "; Val (colors_border_medium e); Lit ";

    &:hover {
      border-color: "; Val (colors_border_medium e); Lit ";
    }
  "])].

(** [To] of 75.js. *)
Definition To_styles (e : Theme) : styles :=
  [("container", [Lit "
    margin-top: "; Val (spacing e [1]%Q); Lit ";
  "]);
   ("sceneControls", [Lit "
    margin-bottom: "; Val (spacing e [1]%Q); Lit ";

    & .quick-filter {
      flex: 1;
      min-width: 112px;
    }
  "])].

(** [da] of 75.js. *)
Definition da_styles (e : Theme) : styles :=
  [("container", [Lit "
    display: flex;
    flex-direction: column;
  "]);
   ("tooltip", [Lit "
    padding: "; Val (spacing e [1]%Q); Lit ";
    & dl {
      margin-top: "; Val (spacing e [2]%Q); Lit ";
      display: grid;
      grid-gap: "; Val (spacing e [1]%Q); Lit " "; Val (spacing e [2]%Q); Lit ";
      grid-template-columns: max-content;
    }
    & dt {
      font-weight: bold;
    }
    & dd {
      margin: 0;
      grid-column-start: 2;
    }
  "]);
   ("label", [Lit "
    font-size: 12px;
    text-align: right;
    margin-bottom: 2px;
    color: "; Val (colors_text_secondary e); Lit ";
  "])].

(** [Ea] of 75.js. *)
Definition Ea_styles (e : Theme) (t : bytes) : styles :=
  [("panel", [Lit "
    background-color: "; Val (colors_background_primary e); Lit ";
    padding: "; Val (spacing e [1]%Q); Lit " "; Val (spacing e [1]%Q); Lit " 0 "; Val (spacing e [1]%Q); Lit ";
    border: 1px solid "; Val (colors_border_weak e); Lit ";
    border-radius: 2px;
  "]);
   ("panelHeader", [Lit "
    display: flex;
    justify-content: space-between;
    align-items: flex-start;
    margin-bottom: "; Val (spacing e [2]%Q); Lit ";
    flex-wrap: wrap;

    & > h6 {
      font-size: 15px;
      height: 32px;
      line-height: 32px;
      margin: 0 "; Val (spacing e [1]%Q); Lit " 0 0;
    }
  "]);
   ("colorCircle", [Lit "
    display: inline-block;
    background-color: "; Val (t); Lit ";
    border-radius: 50%;
    width: 9px;
    height: 9px;
    margin-right: 6px;
  "]);
   ("timeControls", [Lit "
    display: flex;
    justify-content: flex-end;
    gap: 4px;
  "]);
   ("syncButton", [Lit "
    z-index: unset;
    padding: "; Val (spacing e [0; 1]%Q); Lit ";
    margin: 0;
    background: "; Val (colors_secondary_main e); Lit ";
    border: 1px solid "; Val (colors_secondary_border e); Lit ";
    border-radius: "; Val (shape_radius_default e); Lit ";

    &:hover {
      background: "; Val (colors_secondary_shade e); Lit ";
    }

    &.active {
      color: "; Val (colors_primary_text e); Lit ";
      border: 1px solid "; Val (colors_primary_text e); Lit ";
    }
  "]);
   ("filter", [Lit "
    display: flex;
    margin-bottom: "; Val (spacing e [3]%Q); Lit ";
  "]);
   ("timeseries", [Lit "
    height: 200px;

    & [data-viz-panel-key] > * {
      border: 0 none;
    }

    & [data-viz-panel-key] [data-testid='uplot-main-div'] {
      cursor: crosshair;
    }
  "])].

(** [Ha] of 75.js. *)
Definition Ha_styles (e : Theme) : styles :=
  [("panelWrap", [Lit "
    margin-bottom: "; Val (spacing e [1]%Q); Lit ";
  "])].

(** [Xa] of 75.js. *)
Definition Xa_styles : styles :=
  [("aiButton", [Lit "
    padding: 0 4px;
  "])].

(** [ri] of 75.js. *)
Definition ri_styles : styles :=
  [("container", [Lit "
    width: 100%;
    height: 100%;
  "]);
   ("reply", [Lit "
    font-size: 13px;

    & ol,
    & ul {
      margin: 0 0 16px 24px;
    }
  "]);
   ("searchLink", [Lit "
    color: rgb(255, 136, 51);
    border: 1px solid transparent;
    padding: 2px 4px;
    cursor: pointer;
    font-size: 13px;

    &:hover,
    &:focus,
    &:active {
      box-sizing: border-box;
      border: 1px solid rgb(255, 136, 51, 0.8);
      border-radius: 4px;
    }
  "])].

(** [oi] of 75.js. *)
Definition oi_styles : styles :=
  [("textarea", [Lit "
    margin-bottom: 8px;
  "]);
   ("sendButton", [Lit "
    float: right;
    border-top-left-radius: 0;
    border-bottom-left-radius: 0;
  "])].

(** [pi] of 75.js. *)
Definition pi_styles (e : Theme) : styles :=
  [("sidePanel", [Lit "
    flex: 1 0 50%;
    margin-left: 8px;
    max-width: calc(50% - 4px);
  "]);
   ("title", [Lit "
    margin: -4px 0 4px 0;
  "]);
   ("content", [Lit "
    padding: "; Val (spacing e [1]%Q); Lit ";
  "]);
   ("retryButton", [Lit "
    float: right;
  "])].

(** [wi] of 75.js. *)
Definition wi_styles (e : Theme) : styles :=
  [("infoMsg", [Lit "
    padding: "; Val (spacing e [2]%Q); Lit " 0 0 0;
  "]);
   ("textButton", [Lit "
    padding: 0;
  "]);
   ("collapse", [Lit "
    background: transparent;
    border: 0;
  "]);
   ("collapseContent", [Lit "
    padding: 0 "; Val (spacing e [5]%Q); Lit ";

    & img {
      max-width: 100%;
      width: auto;
      margin-top: "; Val (spacing e [2]%Q); Lit ";
    }
  "])].

(** [Ti] of 75.js. *)
Definition Ti_styles (e : Theme) : styles :=
  [("flex", [Lit "
    display: flex;
  "]);
   ("flamegraphPanel", [Lit "
    min-width: 0;
    flex-grow: 1;
  "]);
   ("sidePanel", [Lit "
    flex: 1 0 50%;
    margin-left: 8px;
    max-width: calc(50% - 4px);
  "]);
   ("spinner", [Lit "
    margin-left: "; Val (spacing e [1]%Q); Lit ";
  "]);
   ("aiButton", [Lit "
    margin-top: "; Val (spacing e [1]%Q); Lit ";
  "])].

(** [Ni] of 75.js. *)
Definition Ni_styles (e : Theme) : styles :=
  [("presetsContainer", [Lit "
    display: flex;
  "]);
   ("select", [Lit "
    min-width: "; Val (spacing e [24]%Q); Lit ";
    text-align: left;
  "]);
   ("link", [Lit "
    color: "; Val (colors_text_link e); Lit ";
  "])].

(** [Ri] of 75.js. *)
Definition Ri_styles (e : Theme) : styles :=
  [("container", [Lit "
    width: 100%;
    display: flex;
    flex-direction: column;
  "]);
   ("columns", [Lit "
    display: flex;
    flex-direction: row;
    gap: "; Val (spacing e [1]%Q); Lit ";
    margin-bottom: "; Val (spacing e [1]%Q); Lit ";

    & > div {
      flex: 1 1 0;
    }
  "])].

(** [Fs] of 75.js. *)
Definition Fs_styles : styles :=
  [("title", [Lit "
    margin: -4px 0 4px 0;
  "]);
   ("content", [])].

(** [Ws] of 75.js. *)
Definition Ws_styles (e : Theme) : styles :=
  [("container", [Lit "
    display: flex;
    flex-direction: row;
    align-items: flex-start;
    width: 100%;
  "]);
   ("header", [Lit "
    display: flex;
    justify-content: space-between;
    align-items: end;
    width: 100%;
  "]);
   ("breakdownLabel", [Lit "
    & > h6 {
      display: inline-block;
      margin-top: "; Val (spacing e [1]%Q); Lit ";
    }

    & > span {
      margin-left: "; Val (spacing e [1]%Q); Lit ";
      font-size: "; Val (typography_bodySmall_fontSize e); Lit ";
    }

    & > svg {
      margin-left: "; Val (spacing e [1]%Q); Lit ";
    }
  "]);
   ("buttons", [Lit "
    display: flex;
    flex-wrap: no-wrap;
  "]);
   ("codeBlock", [Lit "
    position: relative;
    min-height: 240px;
    font-size: 12px;
    overflow-x: auto;
    white-space: pre;
    color: "; Val (colors_text_secondary e); Lit ";
  "]);
   ("highlighted", [Lit "
    color: "; Val (colors_text_maxContrast e); Lit ";
  "]);
   ("codeBlockHeader", [Lit "
    margin-bottom: 8px;
  "])].

(** [Xs] of 75.js. *)
Definition Xs_styles (e : Theme) : styles :=
  [("ellipsis", [Lit "
    color: "; Val (colors_primary_text e); Lit ";
    text-overflow: ellipsis;
    overflow: hidden;
    direction: rtl;
    white-space: nowrap;
  "])].

(** [vl] of 75.js. *)
Definition vl_styles (e : Theme) : styles :=
  [("container", [Lit "
    display: flex;
    flex-direction: column;
    justify-content: flex-start;
  "]);
   ("firstLine", [Lit "
    display: flex;
    flex-direction: row;
    align-items: center;
    gap: 1em;
  "]);
   ("sha", [Lit "
    font-family: monospace;
  "]);
   ("sample", [Lit "
    font-size: 12px;
  "]);
   ("secondLine", [Lit "
    display: flex;
    flex-direction: row;
    align-items: center;
    font-size: 12px;
    color: "; Val (colors_text_secondary e); Lit ";
  "]);
   ("avatar", [Lit "
    display: inline-block;
    margin-right: 4px;
    border-radius: 50%;
    background: grey;
    width: 16px;
    height: 16px;
  "]);
   ("message", [Lit "
    font-size: 12px;
    color: "; Val (colors_text_secondary e); Lit ";
  "])].

(** [Sl] of 75.js. *)
Definition Sl_styles (e : Theme) : styles :=
  [("container", [Lit "
    display: flex;
    flex-direction: row;
    justify-content: flex-start;
    align-items: center;
    gap: 1em;
  "]);
   ("sha", [Lit "
    font-family: monospace;
  "]);
   ("message", [Lit "
    color: "; Val (colors_text_secondary e); Lit ";
  "])].

(** [_l] of 75.js. *)
Definition under_l_styles (e : Theme) : styles :=
  [("sidePanel", [Lit "
    flex: 1 0 50%;
    margin-left: 8px;
    max-width: calc(50% - 4px);
  "]);
   ("title", [Lit "
    margin: -4px 0 4px 0;
  "]);
   ("content", [Lit "
    padding: "; Val (spacing e [1]%Q); Lit ";
  "]);
   ("container", [Lit "
    width: 100%;
    display: flex;
    flex-direction: column;
    align-items: flex-start;
  "]);
   ("row", [Lit "
    width: 100%;
    display: flex;
    flex-direction: row;
    align-items: center;
    padding-bottom: 10px;
    > * {
      margin-right: 10px !important;
    }
  "]);
   ("textValue", [Lit "
    // hack to have the ellipsis appear at the start of the string
    direction: rtl;
    text-overflow: ellipsis;
    overflow: hidden;
    white-space: nowrap;
  "])].

(** [Dl] of 75.js. *)
Definition Dl_styles (e : Theme) : styles :=
  [("flex", [Lit "
    display: flex;
  "]);
   ("flamegraphPanel", [Lit "
    min-width: 0;
    flex-grow: 1;
  "]);
   ("spinner", [Lit "
    margin-left: "; Val (spacing e [1]%Q); Lit ";
  "])].

(** [dollar l] of 75.js. *)
Definition dollar_l_styles (e : Theme) : styles :=
  [("flex", [Lit "
    display: flex;
    flex-direction: column;
    width: 100%;
    gap: "; Val (spacing e [1]%Q); Lit ";
  "]);
   ("mainTimeseries", [Lit "
    height: "; Val (number MIN_HEIGHT); Lit "px;
  "])].

(** [Hl] of 75.js. *)
Definition Hl_styles (e : Theme) : styles :=
  [("explorationTypeContainer", [Lit "
    display: flex;
    align-items: center;
  "]);
   ("label", [Lit "
    display: flex;
    gap: 2px;
    align-items: center;
    font-size: 14px;
    margin-right: "; Val (spacing e [1]%Q); Lit ";

    "; Val (breakpoints_down e "xxl"); Lit " {
      display: none;
    }
  "]);
   ("breadcrumb", [Lit "
    display: flex;
    align-items: center;
    height: 32px;
    line-height: 32px;

    .active {
      background-color: "; Val (colors_primary_main e); Lit ";
    }

    .arrow.primary {
      background-color: "; Val (colors_primary_main e); Lit ";
    }

    & button.primary:not(.active),
    & .arrow.primary:not(.active) {
      opacity: 0.7;
    }

    & button.primary:not(.active):hover {
      opacity: 1;
      background-color: "; Val (colors_primary_main e); Lit ";
    }
  "]);
   ("button", [Lit "
    height: 27px;
    line-height: 27px;
    border-radius: 15px;

    &:hover {
      border-color: "; Val (colors_primary_main e); Lit ";
    }

    &.active:hover {
      cursor: default;
      background-color: "; Val (colors_primary_main e); Lit ";
    }

    &:nth-last-child(2) {
      margin-left: "; Val (spacing e [1]%Q); Lit ";
    }

    &:nth-last-child(1) {
      margin-left: "; Val (spacing e [2]%Q); Lit ";
    }
  "]);
   ("arrow", [Lit "
    background-color: "; Val (colors_text_disabled e); Lit ";
    width: 10px;
    height: 2px;
  "])].

(** [Yl] of 75.js. *)
Definition Yl_styles (e : Theme) (t : bytes) : styles :=
  [("header", [Lit "
    background-color: "; Val (colors_background_canvas e); Lit ";
    position: sticky;
    top: "; Val (t); Lit "px;
    z-index: 1;
    padding-bottom: "; Val (spacing e [2]%Q); Lit ";
  "]);
   ("appControls", [Lit "
    display: flex;
    padding: "; Val (spacing e [1]%Q); Lit " 0;
    justify-content: space-between;
    gap: "; Val (spacing e [2]%Q); Lit ";
  "]);
   ("appControlsLeft", [Lit "
    display: flex;
    gap: "; Val (spacing e [1]%Q); Lit ";
  "]);
   ("appControlsRight", [Lit "
    display: flex;
    gap: "; Val (spacing e [1]%Q); Lit ";
  "]);
   ("appMiscButtons", [Lit "
    display: flex;
    align-items: center;
    gap: 4px;
    border: 1px solid "; Val (colors_border_weak e); Lit ";
    background-color: "; Val (colors_background_secondary e); Lit ";
    height: 32px;
    padding: 0 "; Val (spacing e [1]%Q); Lit ";

    & svg {
      width: 18px;
      height: 18px;
    }
  "]);
   ("sceneControls", [Lit "
    display: flex;
    flex-wrap: wrap;
    gap: "; Val (spacing e [1]%Q); Lit ";
    padding: 0;
    margin-top: 20px;
  "]);
   ("sceneVariable", [Lit "
    display: flex;
    margin-bottom: 0;

    & #dataSource {
      width: "; Val (spacing e [32]%Q); Lit ";
    }

    &.filters {
      flex-grow: 1;
    }

    &.compare-presets {
      margin-left: auto;
      text-align: right;
    }
  "]);
   ("sceneVariableLabel", [Lit "
    font-size: 12px;
    font-weight: 500;
    line-height: 15px;
    height: 15px;
    margin-bottom: 4px;
    color: "; Val (colors_text_primary e); Lit ";
    max-width: 480px;
  "]);
   ("icon", [Lit "
    display: inline-block;
    margin-right: 4px;
  "]);
   ("gridControl", [Lit "
    margin-bottom: 0;

    &#quick-filter {
      flex: 1;
      min-width: 112px;
    }
  "])].

(** [Xl] of 75.js. *)
Definition Xl_styles : styles :=
  [("body", [Lit "
    position: relative;
    z-index: 0;
    background: transparent;
  "])].

(** [xe] of module.js. *)
Definition xe_styles (e : Theme) : styles :=
  [("titleContainer", [Lit "
    height: "; Val (spacing e [5]%Q); Lit ";
    line-height: "; Val (spacing e [5]%Q); Lit ";
    margin-bottom: "; Val (spacing e [3]%Q); Lit ";
  "]);
   ("title", [Lit "
    font-size: "; Val (typography_h2_fontSize e); Lit ";
    display: inline-block;
    margin: 0;
    position: relative;
    top: 10px;
    left: "; Val (spacing e [1]%Q); Lit ";
  "]);
   ("infoArea", [Lit "
    align-self: end;
    margin-bottom: 0;
    line-height: 20px;
    text-align: right;
  "])].

(** [v] of module.js. *)
Definition v_styles (e : Theme) : styles :=
  [("menuHeader", [Lit "
    padding: "; Val (spacing e [0.5; 1]%Q); Lit ";
    white-space: nowrap;
  "]);
   ("subTitle", [Lit "
    color: "; Val (colors_text_secondary e); Lit ";
    font-size: "; Val (typography_bodySmall_fontSize e); Lit ";
  "])].

(** [u] of module.js. *)
Definition u_styles : styles :=
  [("logo", [Lit "
    &.small {
      width: 16px;
      height: 16px;
      margin-right: 4px;
      position: relative;
      top: -2px;
    }

    &.large {
      width: 40px;
      height: 40px;
    }
  "])].

(** [L] of module.js. *)
Definition L_styles (e : Theme) : styles :=
  [("link", [Lit "
    color: "; Val (colors_text_link e); Lit ";
    &:hover {
      text-decoration: underline;
    }
  "])].

(** [B] of module.js. *)
Definition B_styles (e : Theme) : styles :=
  [("onboardingRow", [Lit "
    background: "; Val (colors_background_secondary e); Lit ";
    display: flex;
    margin-top: 16px;
    gap: 20px;
    padding: 20px;
    margin-bottom: 2.5rem;
  "]);
   ("onboardingParagraph", [Lit "
    padding: 20px 64px;
    text-align: center;
    line-height: 2;
    flex: 1;
    margin: 0;
  "]);
   ("onboardingPanel", [Lit "
    flex: 1;
    display: flex;
    flex-flow: column wrap;
    -webkit-box-align: center;
    align-items: center;
    margin-top: 16px;
    text-align: center;
  "]);
   ("onboardingPanelHeader", [Lit "
    line-height: 1.5;
    margin-bottom: 1em;
  "]);
   ("onboardingPanelImage", [Lit "
    width: 5rem;
    margin-bottom: 1em;
  "]);
   ("hero", [Lit "
    display: flex;
    flex-direction: row;
  "]);
   ("heroTitles", [Lit "
    flex: 1;
  "]);
   ("heroImage", [Lit "
    width: 40%;
    margin-left: 16px;
    margin-top: 16px;
    margin-bottom: 16px;
    border-radius: 3px;
  "]);
   ("onboardingPanelNumber", [Lit "
    color: rgb(236, 109, 19);
    text-align: center;
    display: grid;
    place-items: center;
    background-image: linear-gradient(135deg, currentcolor, 75%, rgb(204, 204, 220));
    border-radius: 100%;
    font-size: 2.5rem;
    line-height: 5rem;
    height: 5rem;
    width: 5rem;
    margin-bottom: 1em;
  "]);
   ("color2", [Lit "
    color: rgb(190, 85, 190);
  "]);
   ("color3", [Lit "
    color: rgb(126, 108, 218);
  "]);
   ("onboardingPanelNumberSpan", [Lit "
    color: rgb(220, 220, 220);
  "]);
   ("onboardingPanelDescription", [Lit "
    text-align: justify;
    text-align: center;
    line-height: 1.66;
    margin-top: 0;
  "]);
   ("title", [Lit "
    margin-bottom: 0.5em;
    line-height: 1.5;
  "]);
   ("subtitle", [Lit "
    margin-bottom: 1em;
    line-height: 1.5;
    font-size: 1.25rem;
  "])].

(** [z] of module.js. *)
Definition z_styles (e : Theme) : styles :=
  [("onboardingPage", [Lit "
    padding: 16px;
    margin: 64px;
    position: relative;
    background-color: "; Val (colors_background_primary e); Lit ";
  "]);
   ("closeButton", [Lit "
    position: absolute;
    top: -30px;
    opacity: 0.8;
    right: -32px;
    border: none;
    border-radius: 50%;
    width: 40px;
    height: 40px;
    line-height: 40px;
    display: block;
    padding: 0;
    margin: 0;
    font-size: 22px;
  "])].

(** [re] of module.js. *)
Definition re_styles (e : Theme) : styles :=
  [("pageContainer", [Lit "
    display: flex;
    flex-direction: column;
    padding: "; Val (spacing e [1]%Q); Lit " "; Val (spacing e [2]%Q); Lit " "; Val (spacing e [2]%Q); Lit " "; Val (spacing e [2]%Q); Lit ";
    flex-basis: 100%;
    flex-grow: 1;
  "])].

(** [me] of 747.js. *)
Definition me_styles (n : Theme) : styles :=
  [("scroller", [Lit "
    position: absolute;
    right: 0;
    display: flex;
    align-items: center;
    justify-content: center;
    width: 40px;
    height: 20px;
    top: 32px;
    margin-top: -24px;
    // For some reason clicking on this button causes text to be selected in the following row
    user-select: none;
  "]);
   ("scrollLeft", [Lit "
    cursor: pointer;
    background: "; Val (colors_background_primary n); Lit ";

    &:hover {
      background: "; Val (colors_background_secondary n); Lit ";
    }
  "]);
   ("scrollRight", [Lit "
    cursor: pointer;
    background: "; Val (colors_background_primary n); Lit ";

    &:hover {
      background: "; Val (colors_background_secondary n); Lit ";
    }
  "])].

(** [Se] of 747.js. *)
Definition Se_styles (e : Theme) : styles :=
  [("content", [Lit "
    white-space: nowrap;
    overflow-x: auto;
    -ms-overflow-style: none; /* IE and Edge */
    scrollbar-width: none; /* Firefox */
    padding-right: 30px;
    display: flex;
    align-items: flex-start;
    height: 100%;
    &::-webkit-scrollbar {
      display: none; /* Chrome, Safari and Opera */
    }

    &:after {
      pointer-events: none;
      content: '';
      width: 100%;
      height: 100%;
      position: absolute;
      left: 0;
      top: 0;
      // Fade out text in last 10px to background color to add affordance to horiziontal scroll
      background: linear-gradient(to right, transparent calc(100% - 10px), "; Val (colors_background_primary e); Lit ");
    }
  "])].

(** [c] of 702.js. *)
Definition c_styles (e : Theme) : styles :=
  [("container", [Lit "
    display: flex;
    justify-content: space-between;
    align-items: flex-start;
    gap: "; Val (spacing e [1]%Q); Lit ";
    width: 100%;
  "]);
   ("column", [Lit "
    width: 50%;
  "])].

(** [D] of 702.js. *)
Definition D_styles (e : Theme) : styles :=
  [("flamegraph", [Lit "
    margin-top: "; Val (spacing e [2]%Q); Lit ";
  "])].

(** [N] of 702.js. *)
Definition N_styles (e : Theme) : styles :=
  [("selectorContainer", [Lit "
    display: flex;
    justify-content: center;
    margin-bottom: "; Val (spacing e [2]%Q); Lit ";
  "])].

(** [R] of 702.js. *)
Definition R_styles (e : Theme) : styles :=
  [("spinner", [Lit "
    text-align: center;
    margin-top: "; Val (spacing e [2]%Q); Lit ";
  "])].

(** [I] of 702.js. *)
Definition I_styles (e : Theme) : styles :=
  [("tabContent", [Lit "
    padding: "; Val (spacing e [2]%Q); Lit ";
    margin: "; Val (spacing e [2]%Q); Lit ";
  "])].

(** [O] of 373.js. *)
Definition O_styles (e : Theme) : styles :=
  [("settingsForm", [Lit "
    & > fieldset {
      border: 0 none;
      border-bottom: 1px solid "; Val (colors_border_weak e); Lit ";
      padding-left: 0;
    }

    & > fieldset > legend {
      font-size: "; Val (typography_h4_fontSize e); Lit ";
    }
  "]);
   ("buttons", [Lit "
    display: flex;
    gap: "; Val (spacing e [1]%Q); Lit ";
  "]);
   ("tooltip", [Lit "
    p {
      margin: "; Val (spacing e [1]%Q); Lit ";
    }

    a {
      color: "; Val (colors_text_link e); Lit ";
    }

    em {
      font-style: normal;
      font-weight: "; Val (typography_fontWeightBold e); Lit ";
    }
  "])].

(** ** All of them *)

(** [colour] is the second argument of [Ea], [height] that of [Yl]. *)
Definition sheets (e : Theme) (v : Visualization) (colour height : bytes) : list styles :=
  [tt_styles;
   rt_styles;
   ot_styles;
   mt_styles e;
   gt_styles;
   vt_styles;
   xt_styles;
   Tt_styles;
   dollar_t_styles e;
   qt_styles e;
   On_styles v;
   lr_styles e;
   yr_styles;
   Nr_styles;
   qr_styles e;
   Yr_styles e;
   to_styles e;
   ro_styles e;
   so_styles e;
   yo_styles e;
   So_styles e;
   To_styles e;
   da_styles e;
   Ea_styles e colour;
   Ha_styles e;
   Xa_styles;
   ri_styles;
   oi_styles;
   pi_styles e;
   wi_styles e;
   Ti_styles e;
   Ni_styles e;
   Ri_styles e;
   Fs_styles;
   Ws_styles e;
   Xs_styles e;
   vl_styles e;
   Sl_styles e;
   under_l_styles e;
   Dl_styles e;
   dollar_l_styles e;
   Hl_styles e;
   Yl_styles e height;
   Xl_styles;
   xe_styles e;
   v_styles e;
   u_styles;
   L_styles e;
   B_styles e;
   z_styles e;
   re_styles e;
   me_styles e;
   Se_styles e;
   c_styles e;
   D_styles e;
   N_styles e;
   R_styles e;
   I_styles e;
   O_styles e].

Definition templates (e : Theme) (v : Visualization) (colour height : bytes) : list (list piece) :=
  mjoin (fmap snd <$> sheets e v colour height).

Record plain_theme (e : Theme) : Prop := {
  plain_colors_background_canvas : plain_value (colors_background_canvas e);
  plain_colors_background_primary : plain_value (colors_background_primary e);
  plain_colors_background_secondary : plain_value (colors_background_secondary e);
  plain_colors_border_medium : plain_value (colors_border_medium e);
  plain_colors_border_strong : plain_value (colors_border_strong e);
  plain_colors_border_weak : plain_value (colors_border_weak e);
  plain_colors_error_text : plain_value (colors_error_text e);
  plain_colors_primary_main : plain_value (colors_primary_main e);
  plain_colors_primary_text : plain_value (colors_primary_text e);
  plain_colors_secondary_border : plain_value (colors_secondary_border e);
  plain_colors_secondary_main : plain_value (colors_secondary_main e);
  plain_colors_secondary_shade : plain_value (colors_secondary_shade e);
  plain_colors_text_disabled : plain_value (colors_text_disabled e);
  plain_colors_text_link : plain_value (colors_text_link e);
  plain_colors_text_maxContrast : plain_value (colors_text_maxContrast e);
  plain_colors_text_primary : plain_value (colors_text_primary e);
  plain_colors_text_secondary : plain_value (colors_text_secondary e);
  plain_shape_radius_default : plain_value (shape_radius_default e);
  plain_typography_bodySmall_fontSize : plain_value (typography_bodySmall_fontSize e);
  plain_typography_fontWeightBold : plain_value (typography_fontWeightBold e);
  plain_typography_h2_fontSize : plain_value (typography_h2_fontSize e);
  plain_typography_h4_fontSize : plain_value (typography_h4_fontSize e);
  plain_spacing l : plain_value (spacing e l);
  plain_breakpoints_down s : plain_value (breakpoints_down e s)
}.

Definition plain_visualization (v : Visualization) : Prop := forall c, plain_value (getColorByName v c).

(** A theme whose values are all [x], to have outlines to compare with. *)
Definition flat_theme (x : bytes) : Theme := {|
  colors_background_canvas := x;
  colors_background_primary := x;
  colors_background_secondary := x;
  colors_border_medium := x;
  colors_border_strong := x;
  colors_border_weak := x;
  colors_error_text := x;
  colors_primary_main := x;
  colors_primary_text := x;
  colors_secondary_border := x;
  colors_secondary_main := x;
  colors_secondary_shade := x;
  colors_text_disabled := x;
  colors_text_link := x;
  colors_text_maxContrast := x;
  colors_text_primary := x;
  colors_text_secondary := x;
  shape_radius_default := x;
  typography_bodySmall_fontSize := x;
  typography_fontWeightBold := x;
  typography_h2_fontSize := x;
  typography_h4_fontSize := x;
  spacing _ := x; breakpoints_down _ := x
|}.
Definition flat_visualization (x : bytes) : Visualization :=
  {| palette _ := x; getColorByName _ := x |}.

Lemma flat_theme_plain x : plain_value x -> plain_theme (flat_theme x).
Proof. intros H. by split. Qed.

Definition sheet_outlines : list (option (list outline)) :=
  template_outline <$> templates (flat_theme (str "x")) (flat_visualization (str "x")) (str "x") (str "x").

(** No template's outline depends on the values; all of them read. *)
Lemma templates_outline e v colour height :
  template_outline <$> templates e v colour height = sheet_outlines.
Proof. vm_compute. reflexivity. Qed.

Lemma sheets_read : Forall is_Some sheet_outlines.
Proof. apply (bool_decide_unpack _). vm_compute. exact I. Qed.

Definition plain_piece (p : piece) : Prop := match p with Lit _ => True | Val v => plain_value v end.

Lemma plain_items ps : Forall plain_piece ps -> Forall plain_item (items ps).
Proof.
  induction 1 as [|[s|v] ps Hp _ IH]; [constructor| |].
  - change (Forall plain_item ((Chr <$> str s) ++ items ps)). apply Forall_app. split; [|done].
    apply Forall_fmap, Forall_true. done.
  - by constructor.
Qed.

Definition plain_class (c : string * list piece) : Prop := Forall plain_piece (snd c).

(** One element of a class list, or one piece of a template, at a time. *)
Ltac plain_pieces :=
  repeat lazymatch goal with
  | |- Forall _ [] => constructor
  | |- Forall _ (_ :: _) => constructor
  | |- plain_piece (Lit _) => exact I
  | |- plain_piece (Val _) => cbv beta delta [plain_piece]; cbn match; auto with css
  | |- plain_class _ => cbv beta delta [plain_class]; cbn [snd]
  | |- Forall ?P ?l => let l' := eval hnf in l in change (Forall P l')
  end.

Create HintDb css.
#[export] Hint Resolve plain_colors_background_canvas plain_colors_background_primary plain_colors_background_secondary plain_colors_border_medium plain_colors_border_strong plain_colors_border_weak plain_colors_error_text plain_colors_primary_main plain_colors_primary_text plain_colors_secondary_border plain_colors_secondary_main plain_colors_secondary_shade plain_colors_text_disabled plain_colors_text_link plain_colors_text_maxContrast plain_colors_text_primary plain_colors_text_secondary plain_shape_radius_default plain_typography_bodySmall_fontSize plain_typography_fontWeightBold plain_typography_h2_fontSize plain_typography_h4_fontSize
  plain_spacing plain_breakpoints_down : css.

Lemma constants_plain :
  Forall plain_value [dt; pt; co; str "#fff"; number WIDTH_IN_PIXELS; number (WIDTH_IN_PIXELS - 32);
                      number MIN_HEIGHT].
Proof. apply (bool_decide_unpack _). vm_compute. exact I. Qed.

Lemma sheets_plain e v colour height :
  plain_theme e -> plain_visualization v -> plain_value colour -> plain_value height ->
  Forall (Forall plain_class) (sheets e v colour height).
Proof.
  intros He Hv Hc Hh. pose proof constants_plain as Hk.
  repeat (apply Forall_cons_1 in Hk; destruct Hk as [? Hk]).
  assert (plain_value (un v 3)) by apply Hv.
  unfold sheets.
  plain_pieces.
Qed.

Lemma templates_plain e v colour height :
  plain_theme e -> plain_visualization v -> plain_value colour -> plain_value height ->
  Forall (Forall plain_piece) (templates e v colour height).
Proof.
  intros He Hv Hc Hh. unfold templates.
  pose proof (sheets_plain e v colour height He Hv Hc Hh) as H.
  induction H as [|st sts Hst _ IH]; [constructor|].
  change (mjoin (fmap snd <$> (st :: sts))) with ((snd <$> st) ++ mjoin (fmap snd <$> sts)).
  apply Forall_app. split; [|exact IH]. apply Forall_fmap. exact Hst.
Qed.
