(* ===== verification/JavaScript.v ===== *)
(** * What the bundles use of JavaScript: strings, JSON and numbers

    Searching and replacing in strings, [JSON.stringify] on an object of strings, and the
    double-precision arithmetic of numbers: addition, and a constant times an integer.
    A number the code adds is a [spec_float] of the Standard Library, whose addition rounds
    as IEEE 754 says; an integer below 2^53 is a [Z]. *)

From S2P Require Import Prelude.
From Stdlib Require Import SpecFloat.

(** ** Strings *)

Fixpoint starts (p s : bytes) : bool :=
  match p, s with
  | [], _ => true
  | a :: p, b :: s => (a =c? b) && starts p s
  | _, [] => false
  end.

(** [s.includes(p)]. *)
Fixpoint includes (p s : bytes) : bool :=
  starts p s || match s with [] => false | _ :: s => includes p s end.

(** [s.replace(p, by)] for a string [p]: the first occurrence. *)
Fixpoint replace_first (p by_ s : bytes) : bytes :=
  if starts p s then by_ ++ skipn (length p) s
  else match s with [] => [] | c :: s => c :: replace_first p by_ s end.

(** [s.replace(/p/g, by)] for a plain text [p]; [skip] characters of a match are left. *)
Fixpoint replace_from (p by_ : bytes) (skip : nat) (s : bytes) : bytes :=
  match s with
  | [] => []
  | c :: r =>
      match skip with
      | S k => replace_from p by_ k r
      | O => if starts p s then by_ ++ replace_from p by_ (length p - 1) r
             else c :: replace_from p by_ 0 r
      end
  end.
Definition replace_all (p by_ s : bytes) : bytes := replace_from p by_ 0 s.

(** [toLowerCase] on ASCII. *)
Definition lower (c : ascii) : ascii :=
  let n := nat_of_ascii c in
  if ((65 <=? n) && (n <=? 90))%nat then ascii_of_nat (n + 32) else c.
Definition toLowerCase (s : bytes) : bytes := lower <$> s.

Lemma starts_spec p s : starts p s = true <-> exists r, s = p ++ r.
Proof.
  revert s; induction p as [|a p IH]; intros [|b s]; cbn.
  - split; [exists []|]; easy.
  - split; [eexists|]; easy.
  - split; [easy|intros [r Hr]; easy].
  - rewrite andb_true_iff, eqb_char_true, IH. split.
    + intros [-> [r ->]]. now exists r.
    + intros [r Hr]. injection Hr as -> ->. split; [easy|now exists r].
Qed.

Lemma starts_app p r : starts p (p ++ r) = true.
Proof. apply starts_spec. now exists r. Qed.

Lemma includes_spec p s : includes p s = true <-> exists a b, s = a ++ p ++ b.
Proof.
  induction s as [|c s IH]; cbn [includes]; rewrite orb_true_iff, starts_spec.
  - split.
    + intros [[r Hr]|Hr]; [|easy]. exists [], r. easy.
    + intros (a & b & Hab). symmetry in Hab. apply app_eq_nil in Hab as [-> Hab]. left. now exists b.
  - rewrite IH. split.
    + intros [[r Hr]|(a & b & ->)]; [exists [], r; easy|exists (c :: a), b; easy].
    + intros ([|c' a] & b & Hab); [left; now exists b|].
      injection Hab as -> ->. right. now exists a, b.
Qed.

Lemma includes_app_false p a b : includes p (a ++ b) = false -> includes p b = false.
Proof.
  intros Hn. apply not_true_iff_false in Hn. apply not_true_iff_false. intros Hb. apply Hn.
  apply includes_spec in Hb as (x & y & ->). apply includes_spec. exists (a ++ x), y.
  now rewrite <- !app_assoc.
Qed.

Lemma starts_sep p x c y : c ∉ p -> starts p (x ++ c :: y) = starts p x.
Proof.
  revert x; induction p as [|a p IH]; intros [|b x] Hc; [easy..| |]; apply not_elem_of_cons in Hc as [Hca Hc];
    cbn [app starts].
  - now replace (a =c? c) with false by (symmetry; apply eqb_char_false; congruence).
  - now rewrite IH.
Qed.

(** A text cannot occur across a character it does not have. *)
Lemma includes_sep p x c y :
  c ∉ p -> p <> [] -> includes p (x ++ c :: y) = includes p x || includes p y.
Proof.
  intros Hc Hp. assert (starts p [] = false) as Hnil by now destruct p.
  induction x as [|a x IH]; cbn [app includes].
  - change (starts p (c :: y)) with (starts p ([] ++ c :: y)). rewrite starts_sep by easy. now rewrite Hnil.
  - rewrite IH. change (a :: x ++ c :: y) with ((a :: x) ++ c :: y). rewrite starts_sep by easy.
    now rewrite orb_assoc.
Qed.

(** Text without the pattern in front of its first occurrence stays as it is. *)
Lemma replace_first_at p by_ a b :
  (forall x y, a = x ++ y -> y <> [] -> starts p (y ++ p ++ b) = false) ->
  replace_first p by_ (a ++ p ++ b) = a ++ by_ ++ b.
Proof.
  induction a as [|c a IH]; intros Ha; cbn [app].
  - destruct (p ++ b) eqn:Epb; cbn [replace_first]; rewrite <- ?Epb.
    + apply app_eq_nil in Epb as [-> ->]. cbn. now rewrite app_nil_r.
    + rewrite starts_app, skipn_app, skipn_all, Nat.sub_diag. easy.
  - cbn [replace_first].
    pose proof (Ha [] (c :: a) eq_refl ltac:(easy)) as Hc. cbn [app] in Hc. rewrite Hc.
    f_equal. apply IH. intros x y -> Hy. exact (Ha (c :: x) y eq_refl Hy).
Qed.

Lemma replace_first_none p by_ s : includes p s = false -> replace_first p by_ s = s.
Proof.
  induction s as [|c s IH]; cbn [includes replace_first]; intros Hn;
    apply orb_false_iff in Hn as [Hs Hn]; rewrite Hs; [easy|]. f_equal. auto.
Qed.

Lemma replace_from_none p by_ s : includes p s = false -> replace_from p by_ 0 s = s.
Proof.
  induction s as [|c s IH]; cbn [includes replace_from]; [easy|].
  intros Hn; apply orb_false_iff in Hn as [Hs Hn]; rewrite Hs. f_equal. auto.
Qed.

Lemma replace_from_skip p by_ a b : replace_from p by_ (length a) (a ++ b) = replace_from p by_ 0 b.
Proof. induction a as [|c a IH]; cbn [app length replace_from]; [easy|exact IH]. Qed.

Lemma replace_all_at p by_ a b :
  p <> [] ->
  (forall x y, a = x ++ y -> y <> [] -> starts p (y ++ p ++ b) = false) ->
  includes p b = false ->
  replace_all p by_ (a ++ p ++ b) = a ++ by_ ++ b.
Proof.
  intros Hp Ha Hb. unfold replace_all. induction a as [|c a IH]; cbn [app].
  - destruct p as [|x p]; [easy|]. cbn [app replace_from].
    rewrite (starts_app (x :: p) b : starts (x :: p) (x :: p ++ b) = true). f_equal.
    cbn [length]. rewrite Nat.sub_succ, Nat.sub_0_r, replace_from_skip.
    now apply replace_from_none.
  - cbn [replace_from].
    pose proof (Ha [] (c :: a) eq_refl ltac:(easy)) as Hc. cbn [app] in Hc. rewrite Hc.
    f_equal. apply IH. intros x y -> Hy. exact (Ha (c :: x) y eq_refl Hy).
Qed.

(** ** JSON *)

Definition QUOTE : ascii := "034"%char.
Definition BACKSLASH : ascii := "\"%char.

Definition hex_digit (n : nat) : ascii :=
  if (n <? 10)%nat then ascii_of_nat (48 + n) else ascii_of_nat (87 + n).

(** A character of a string literal that [JSON.stringify] writes. *)
Definition json_char (c : ascii) : bytes :=
  let n := nat_of_ascii c in
  if c =c? QUOTE then [BACKSLASH; QUOTE]
  else if c =c? BACKSLASH then [BACKSLASH; BACKSLASH]
  else if (n =? 8)%nat then [BACKSLASH; "b"%char]
  else if (n =? 9)%nat then [BACKSLASH; "t"%char]
  else if (n =? 10)%nat then [BACKSLASH; "n"%char]
  else if (n =? 12)%nat then [BACKSLASH; "f"%char]
  else if (n =? 13)%nat then [BACKSLASH; "r"%char]
  else if (n <? 32)%nat then [BACKSLASH; "u"; "0"; "0"; hex_digit (n / 16); hex_digit (n mod 16)]%char
  else [c].
Definition json_string (s : bytes) : bytes := [QUOTE] ++ flat_map json_char s ++ [QUOTE].
Definition json_pair (kv : bytes * bytes) : bytes := json_string kv.1 ++ [":"%char] ++ json_string kv.2.
Fixpoint json_pairs (o : list (bytes * bytes)) : bytes :=
  match o with
  | [] => ["}"%char]
  | kv :: o => json_pair kv ++ match o with [] => [] | _ => [","%char] end ++ json_pairs o
  end.
(** [JSON.stringify] on an object whose values are strings. *)
Definition stringify (o : list (bytes * bytes)) : bytes := "{"%char :: json_pairs o.

(** Reading one character back: [None] at the quote that ends the literal. *)
Definition hex_value (c : ascii) : nat :=
  let n := nat_of_ascii c in if (n <? 58)%nat then n - 48 else n - 87.
Definition json_read (s : bytes) : option (ascii * bytes) :=
  match s with
  | [] => None
  | c :: r =>
      if c =c? QUOTE then None
      else if c =c? BACKSLASH then
        match r with
        | "b" :: r => Some (ascii_of_nat 8, r)
        | "t" :: r => Some (ascii_of_nat 9, r)
        | "n" :: r => Some (ascii_of_nat 10, r)
        | "f" :: r => Some (ascii_of_nat 12, r)
        | "r" :: r => Some (ascii_of_nat 13, r)
        | "u" :: _ :: _ :: h :: l :: r => Some (ascii_of_nat (16 * hex_value h + hex_value l), r)
        | c :: r => Some (c, r)
        | [] => None
        end%char
      else Some (c, r)
  end.

Lemma json_read_char c r : json_read (json_char c ++ r) = Some (c, r).
Proof. destruct c as [[] [] [] [] [] [] [] []]; reflexivity. Qed.

Lemma json_literal_inj s s' r r' :
  flat_map json_char s ++ QUOTE :: r = flat_map json_char s' ++ QUOTE :: r' -> s = s' /\ r = r'.
Proof.
  revert s'; induction s as [|c s IH]; intros [|c' s']; cbn [flat_map app]; rewrite <- ?app_assoc; intros Hs.
  - now injection Hs.
  - apply (f_equal json_read) in Hs. now rewrite json_read_char in Hs.
  - apply (f_equal json_read) in Hs. now rewrite json_read_char in Hs.
  - apply (f_equal json_read) in Hs. rewrite !json_read_char in Hs. injection Hs as -> Hs.
    apply IH in Hs as [-> ->]. easy.
Qed.

Lemma json_string_inj s s' r r' : json_string s ++ r = json_string s' ++ r' -> s = s' /\ r = r'.
Proof.
  unfold json_string. cbn [app]. rewrite <- !app_assoc. cbn [app]. intros Hs. injection Hs as Hs.
  now apply json_literal_inj.
Qed.

Lemma json_pair_inj kv kv' r r' : json_pair kv ++ r = json_pair kv' ++ r' -> kv = kv' /\ r = r'.
Proof.
  destruct kv as [k v], kv' as [k' v']. unfold json_pair. cbn [fst snd].
  rewrite <- !(app_assoc (json_string _)). intros Hs. apply json_string_inj in Hs as [-> Hs].
  apply (f_equal (@tl _)) in Hs. cbn [tl app] in Hs. now apply json_string_inj in Hs as [-> ->].
Qed.

Lemma json_pairs_inj o o' : json_pairs o = json_pairs o' -> o = o'.
Proof.
  revert o'; induction o as [|kv o IH]; intros [|kv' o']; cbn [json_pairs]; [easy|easy|easy|].
  intros Hs. apply json_pair_inj in Hs as [-> Hs].
  destruct o, o'; [easy|easy|easy|]. apply (f_equal (@tl _)) in Hs. cbn [tl app] in Hs. f_equal. now apply IH.
Qed.

(** Two objects print alike exactly if they have the same entries in the same order. *)
Lemma stringify_inj o o' : stringify o = stringify o' -> o = o'.
Proof. intros Hs. injection Hs as Hs. now apply json_pairs_inj. Qed.

(** ** Numbers *)

(** [x + y] of doubles. *)
Definition js_add : spec_float -> spec_float -> spec_float := SFadd 53 1024.

(** The integer nearest to [n] that has at most 53 significant bits; a tie goes to the
    even one. *)
Definition round53 (n : Z) : Z :=
  let k := Z.log2 n - 52 in
  if k <=? 0 then n
  else
    let q := n / 2 ^ k in
    let r := n mod 2 ^ k in
    let h := 2 ^ (k - 1) in
    (if (r <? h) || ((r =? h) && Z.even q) then q else q + 1) * 2 ^ k.

(** A constant [m * 2^-e] times the integer [t], and the floor and the ceiling of that. *)
Definition times (m t : Z) : Z := Z.sgn t * round53 (m * Z.abs t).
Definition floor_times (m e t : Z) : Z := times m t / 2 ^ e.
Definition ceil_times (m e t : Z) : Z := - (- times m t / 2 ^ e).

(** [Math.round(x) <= n]: halves round up. *)
Definition round_le (x : spec_float) (n : Z) : bool :=
  match x with
  | S754_zero _ => 0 <=? n
  | S754_infinity s => s
  | S754_nan => false
  | S754_finite s m e =>
      let v := if s then Z.neg m else Z.pos m in
      if 0 <=? e then v * 2 ^ e <=? n
      else (2 * v + 2 ^ (- e)) / 2 ^ (1 - e) <=? n
  end.

Lemma round53_small n : 0 <= n < 2 ^ 53 -> round53 n = n.
Proof.
  intros Hn. unfold round53. destruct (decide (n = 0)) as [->|H0]; [easy|].
  assert (Z.log2 n < 53) by (apply Z.log2_lt_pow2; lia).
  destruct (Z.leb_spec (Z.log2 n - 52) 0); lia.
Qed.

Lemma round53_large n : 2 ^ 53 <= n -> 2 ^ 53 <= round53 n.
Proof.
  intros Hn. unfold round53.
  assert (53 <= Z.log2 n) by (apply Z.log2_le_pow2; lia).
  destruct (Z.leb_spec (Z.log2 n - 52) 0) as [|_]; [lia|].
  set (k := Z.log2 n - 52).
  assert (Hk : 2 ^ 1 <= 2 ^ k) by (apply Z.pow_le_mono_r; subst k; lia).
  assert (Hq : 2 ^ 52 <= n / 2 ^ k).
  { apply Z.div_le_lower_bound; [lia|]. rewrite <- Z.pow_add_r by (subst k; lia).
    subst k. replace (Z.log2 n - 52 + 52) with (Z.log2 n) by lia.
    apply Z.log2_spec; lia. }
  destruct (_ || _); nia.
Qed.

Lemma round53_pos n m : 0 <= m <= n -> m <= 2 ^ 53 -> m <= round53 n.
Proof.
  intros Hm Hb. destruct (decide (n < 2 ^ 53)).
  - rewrite round53_small; lia.
  - pose proof (round53_large n). lia.
Qed.

Lemma floor_times_ge1 m e t : 0 <= e <= 53 -> 2 ^ e <= m -> 1 <= t -> 1 <= floor_times m e t.
Proof.
  intros He Hm Ht. unfold floor_times, times.
  rewrite Z.sgn_pos, Z.abs_eq, Z.mul_1_l by lia.
  assert (0 < 2 ^ e) by (apply Z.pow_pos_nonneg; lia).
  apply Z.div_le_lower_bound; [lia|]. rewrite Z.mul_1_r.
  apply round53_pos; [nia|]. apply Z.pow_le_mono_r; lia.
Qed.

Lemma ceil_times_ge1 m e t : 0 <= e -> 1 <= m -> 1 <= t -> 1 <= ceil_times m e t.
Proof.
  intros He Hm Ht. unfold ceil_times, times.
  rewrite Z.sgn_pos, Z.abs_eq, Z.mul_1_l by lia.
  assert (0 < 2 ^ e) by (apply Z.pow_pos_nonneg; lia).
  assert (1 <= round53 (m * t)) by (apply round53_pos; [nia|lia]).
  enough (- round53 (m * t) / 2 ^ e < 0) by lia.
  apply Z.div_lt_upper_bound; lia.
Qed.
