(* ===== verification/Json.v ===== *)
(** * [JSON.parse]

    The grammar of JSON with the values it denotes.  Texts are UTF-8; a [\u] escape gives a
    UTF-16 code unit, two of which may make one character.  Numbers are kept as their text,
    since the code only asks whether a value is a string, an array or an object. *)

From S2P Require Import Prelude.
From S2P Require Import JavaScript.

Inductive json : Type :=
  | JNull
  | JBool (b : bool)
  | JNumber (text : bytes)
  | JString (s : bytes)
  | JArray (l : list json)
  | JObject (o : list (bytes * json)).

(** ** Strings *)

(** A hexadecimal digit, in either case. *)
Definition hex_of (c : ascii) : option Z :=
  let n := Z.of_nat (nat_of_ascii c) in
  if (48 <=? n) && (n <=? 57) then Some (n - 48)
  else if (97 <=? n) && (n <=? 102) then Some (n - 87)
  else if (65 <=? n) && (n <=? 70) then Some (n - 55)
  else None.
Definition hex4 (a b c d : ascii) : option Z :=
  a ← hex_of a; b ← hex_of b; c ← hex_of c; d ← hex_of d;
  Some (((a * 16 + b) * 16 + c) * 16 + d).

(** The character a backslash and [c] stand for. *)
Definition escaped (c : ascii) : option ascii :=
  if c =c? QUOTE then Some QUOTE
  else if c =c? BACKSLASH then Some BACKSLASH
  else if c =c? "/"%char then Some "/"%char
  else if c =c? "b"%char then Some (ascii_of_nat 8)
  else if c =c? "t"%char then Some (ascii_of_nat 9)
  else if c =c? "n"%char then Some (ascii_of_nat 10)
  else if c =c? "f"%char then Some (ascii_of_nat 12)
  else if c =c? "r"%char then Some (ascii_of_nat 13)
  else None.

(** What a literal is made of: bytes, and code units from [\u]. *)
Fixpoint string_items (s : bytes) : option (list (ascii + Z) * bytes) :=
  match s with
  | [] => None
  | c :: r =>
      if c =c? QUOTE then Some ([], r)
      else if c =c? BACKSLASH then
        match r with
        | e :: r1 =>
            if e =c? "u"%char then
              match r1 with
              | h1 :: h2 :: h3 :: h4 :: r2 =>
                  u ← hex4 h1 h2 h3 h4; '(l, r) ← string_items r2; Some (inr u :: l, r)
              | _ => None
              end
            else x ← escaped e; '(l, r) ← string_items r1; Some (inl x :: l, r)
        | [] => None
        end
      else if (nat_of_ascii c <? 32)%nat then None
      else '(l, r) ← string_items r; Some (inl c :: l, r)
  end.

Definition byte_of (n : Z) : ascii := ascii_of_nat (Z.to_nat n).
(** A code point in UTF-8; a surrogate on its own gets three bytes like any other. *)
Definition utf8 (n : Z) : bytes :=
  if n <? 128 then [byte_of n]
  else if n <? 2048 then [byte_of (192 + n / 64); byte_of (128 + n mod 64)]
  else if n <? 65536 then [byte_of (224 + n / 4096); byte_of (128 + n / 64 mod 64); byte_of (128 + n mod 64)]
  else [byte_of (240 + n / 262144); byte_of (128 + n / 4096 mod 64); byte_of (128 + n / 64 mod 64); byte_of (128 + n mod 64)].

Definition high_surrogate (u : Z) : bool := (55296 <=? u) && (u <? 56320).
Definition low_surrogate (u : Z) : bool := (56320 <=? u) && (u <? 57344).

Fixpoint assemble (l : list (ascii + Z)) : bytes :=
  match l with
  | [] => []
  | inl c :: l => c :: assemble l
  | inr u :: ((inr v :: l2) as l1) =>
      if high_surrogate u && low_surrogate v
      then utf8 (65536 + (u - 55296) * 1024 + (v - 56320)) ++ assemble l2
      else utf8 u ++ assemble l1
  | inr u :: l => utf8 u ++ assemble l
  end.

(** The rest of a literal whose opening quote is read. *)
Definition json_literal (s : bytes) : option (bytes * bytes) :=
  '(l, r) ← string_items s; Some (assemble l, r).

(** ** Numbers *)

Definition json_digit (c : ascii) : bool :=
  let n := nat_of_ascii c in ((48 <=? n) && (n <=? 57))%nat.
Fixpoint digits (s : bytes) : bytes * bytes :=
  match s with
  | c :: r => if json_digit c then let '(d, r) := digits r in (c :: d, r) else ([], s)
  | [] => ([], [])
  end.
Definition digits1 (s : bytes) : option (bytes * bytes) :=
  match digits s with ([], _) => None | p => Some p end.

(** [-? (0 | [1-9][0-9]* ) (\.[0-9]+)? ([eE][+-]?[0-9]+)?] *)
Definition json_number (s : bytes) : option (bytes * bytes) :=
  let '(sign, s) := match s with c :: r => if c =c? "-"%char then ([c], r) else ([], s) | [] => ([], s) end in
  '(int, s) ← match s with
              | c :: r => if c =c? "0"%char then Some ([c], r) else digits1 s
              | [] => None
              end;
  '(frac, s) ← match s with
               | c :: r => if c =c? "."%char then '(d, r) ← digits1 r; Some (c :: d, r) else Some ([], s)
               | [] => Some ([], s)
               end;
  '(ex, s) ← match s with
             | c :: r =>
                 if (c =c? "e"%char) || (c =c? "E"%char) then
                   let '(g, r) := match r with
                                  | x :: r' => if (x =c? "+"%char) || (x =c? "-"%char) then ([x], r') else ([], r)
                                  | [] => ([], r)
                                  end in
                   '(d, r) ← digits1 r; Some (c :: g ++ d, r)
                 else Some ([], s)
             | [] => Some ([], s)
             end;
  Some (sign ++ int ++ frac ++ ex, s).

(** ** Values *)

Definition json_space (c : ascii) : bool :=
  let n := nat_of_ascii c in ((n =? 9) || (n =? 10) || (n =? 13) || (n =? 32))%nat.
Fixpoint skip_space (s : bytes) : bytes :=
  match s with c :: r => if json_space c then skip_space r else s | [] => [] end.

(** [s] starts with the character [c], possibly after spaces. *)
Definition expect (c : ascii) (s : bytes) : option bytes :=
  match skip_space s with x :: r => if x =c? c then Some r else None | [] => None end.
Definition keyword (k : string) (v : json) (s : bytes) : option (json * bytes) :=
  if starts (str k) s then Some (v, skipn (length (str k)) s) else None.

Definition json_scalar (s : bytes) : option (json * bytes) :=
  match keyword "null" JNull s with
  | Some p => Some p
  | None =>
      match keyword "true" (JBool true) s with
      | Some p => Some p
      | None =>
          match keyword "false" (JBool false) s with
          | Some p => Some p
          | None => '(t, r) ← json_number s; Some (JNumber t, r)
          end
      end
  end.

(** A value and what follows it.  [members] and [elements] read the entries of an object
    and of an array that has some, up to the closing bracket. *)
Fixpoint json_value (fuel : nat) (s : bytes) : option (json * bytes) :=
  match fuel with
  | O => None
  | S f =>
      match skip_space s with
      | [] => None
      | c :: r =>
          if c =c? QUOTE then '(t, r) ← json_literal r; Some (JString t, r)
          else if c =c? "{"%char then
            match expect "}" r with
            | Some r => Some (JObject [], r)
            | None => '(o, r) ← members f r; Some (JObject o, r)
            end
          else if c =c? "["%char then
            match expect "]" r with
            | Some r => Some (JArray [], r)
            | None => '(l, r) ← elements f r; Some (JArray l, r)
            end
          else json_scalar (c :: r)
      end
  end
with members (fuel : nat) (s : bytes) : option (list (bytes * json) * bytes) :=
  match fuel with
  | O => None
  | S f =>
      s ← expect QUOTE s; '(k, s) ← json_literal s; s ← expect ":" s;
      '(v, s) ← json_value f s;
      match expect "," s with
      | Some s => '(o, s) ← members f s; Some ((k, v) :: o, s)
      | None => s ← expect "}" s; Some ([(k, v)], s)
      end
  end
with elements (fuel : nat) (s : bytes) : option (list json * bytes) :=
  match fuel with
  | O => None
  | S f =>
      '(v, s) ← json_value f s;
      match expect "," s with
      | Some s => '(l, s) ← elements f s; Some (v :: l, s)
      | None => s ← expect "]" s; Some ([v], s)
      end
  end.

(** [JSON.parse(s)]; [None] is a [SyntaxError].  Of two calls one has consumed a character,
    so twice the length is fuel enough ([json_value_fuel]). *)
Definition JSON_parse (s : bytes) : option json :=
  '(v, r) ← json_value (2 * length s + 2) s;
  match skip_space r with [] => Some v | _ => None end.

(** [o[k]]: of entries with the same key the last one counts. *)
Definition property (k : bytes) (o : list (bytes * json)) : option json :=
  p ← list_find (fun e => e.1 = k) (rev o); Some p.2.2.

(** ** What is read back *)

(** How the literal that [JSON.stringify] writes for [c] is read. *)
Definition json_item (c : ascii) : ascii + Z :=
  let n := nat_of_ascii c in
  if (n <? 32)%nat && negb (existsb (Nat.eqb n) [8; 9; 10; 12; 13]%nat) then inr (Z.of_nat n) else inl c.

Lemma string_items_char c s :
  string_items (json_char c ++ s) = ('(l, r) ← string_items s; Some (json_item c :: l, r)).
Proof. destruct c as [[] [] [] [] [] [] [] []]; reflexivity. Qed.

Lemma assemble_item c l : assemble (json_item c :: l) = c :: assemble l.
Proof.
  destruct c as [[] [] [] [] [] [] [] []]; try reflexivity; by destruct l as [|[] l].
Qed.

Lemma json_literal_string s r : json_literal (flat_map json_char s ++ QUOTE :: r) = Some (s, r).
Proof.
  unfold json_literal.
  assert (E : string_items (flat_map json_char s ++ QUOTE :: r) = Some (json_item <$> s, r)).
  { induction s as [|c s IH]; [done|]. cbn [flat_map]. rewrite <- app_assoc, string_items_char, IH. done. }
  rewrite E. cbn. f_equal. f_equal. clear E.
  induction s as [|c s IH]; [done|]. rewrite fmap_cons, assemble_item. by rewrite IH.
Qed.

Lemma json_value_string f s r : json_value (S f) (json_string s ++ r) = Some (JString s, r).
Proof.
  transitivity ('(t, r) ← json_literal (flat_map json_char s ++ QUOTE :: r); Some (JString t, r)).
  - unfold json_string. by rewrite <- !app_assoc.
  - by rewrite json_literal_string.
Qed.

Lemma expect_here c s : json_space c = false -> expect c (c :: s) = Some s.
Proof. intros H. unfold expect. cbn [skip_space]. by rewrite H, eqb_char_refl. Qed.
Lemma expect_other c x s : json_space x = false -> x <> c -> expect c (x :: s) = None.
Proof.
  intros H Hx. unfold expect. cbn [skip_space]. by rewrite H, (proj2 (eqb_char_false _ _)) by done.
Qed.

Lemma members_pair f k v s :
  members (S (S f)) (json_pair (k, v) ++ s) =
    match expect "," s with
    | Some s => '(o, s) ← members (S f) s; Some ((k, JString v) :: o, s)
    | None => s ← expect "}" s; Some ([(k, JString v)], s)
    end.
Proof.
  unfold json_pair. cbn [fst snd]. rewrite <- (app_assoc (json_string k)). unfold json_string at 1.
  rewrite <- !app_assoc. cbn [app]. cbn [members]. rewrite expect_here by done. cbn [mbind option_bind].
  rewrite json_literal_string. cbn [mbind option_bind]. rewrite expect_here by done.
  cbn [mbind option_bind]. rewrite json_value_string. done.
Qed.

Lemma members_pairs kv o : forall f s,
  (length o + 2 <= f)%nat ->
  members f (json_pairs (kv :: o) ++ s) = Some ((fun p => (p.1, JString p.2)) <$> (kv :: o), s).
Proof.
  revert kv. induction o as [|kv' o IH]; intros [k v] [|[|f]] s Hf; try (cbn in Hf; lia).
  - cbn [json_pairs]. rewrite <- !app_assoc, members_pair. cbn [app].
    by rewrite expect_other, expect_here by done.
  - change (json_pairs ((k, v) :: kv' :: o)) with (json_pair (k, v) ++ [","%char] ++ json_pairs (kv' :: o)).
    rewrite <- !app_assoc, members_pair. cbn [app]. rewrite expect_here by done.
    rewrite IH by (cbn in Hf; lia). done.
Qed.

Lemma json_string_length s : (2 <= length (json_string s))%nat.
Proof. unfold json_string. rewrite !length_app. cbn. lia. Qed.

Lemma json_pairs_length o : (length o < length (json_pairs o))%nat.
Proof.
  induction o as [|kv o IH]; cbn [json_pairs length]; [lia|]. unfold json_pair. rewrite !length_app.
  pose proof (json_string_length kv.1). lia.
Qed.

(** [JSON.parse] inverts [JSON.stringify] on objects of strings ... *)
Lemma JSON_parse_stringify o : JSON_parse (stringify o) = Some (JObject ((fun p => (p.1, JString p.2)) <$> o)).
Proof.
  unfold JSON_parse, stringify.
  assert (E : forall f, (length o + 2 <= f)%nat ->
    json_value (S f) ("{"%char :: json_pairs o) = Some (JObject ((fun p => (p.1, JString p.2)) <$> o), [])).
  { intros f Hf. cbn [json_value]. change (skip_space ("{"%char :: json_pairs o)) with ("{"%char :: json_pairs o).
    cbn match. cbn [Ascii.eqb]. change ("{"%char =c? QUOTE) with false. change ("{"%char =c? "{"%char) with true. cbn match.
    destruct o as [|kv o]; [done|].
    assert (Ex : expect "}" (json_pairs (kv :: o)) = None).
    { cbn [json_pairs]. unfold json_pair, json_string. cbn [app]. by apply expect_other. }
    rewrite Ex. pose proof (members_pairs kv o f [] ltac:(cbn in Hf; lia)) as Em. rewrite app_nil_r in Em.
    by rewrite Em. }
  pose proof (json_pairs_length o).
  replace (2 * length ("{"%char :: json_pairs o) + 2)%nat
    with (S (2 * length (json_pairs o) + 3)) by (cbn [length]; lia).
  rewrite E by lia. done.
Qed.

(** ... and on arrays of strings. *)
Definition stringify_array (l : list bytes) : bytes :=
  ["["%char] ++ join (str ",") (json_string <$> l) ++ ["]"%char].

Lemma elements_eq f s :
  elements (S f) s =
    ('(v, s) ← json_value f s;
     match expect "," s with
     | Some s => '(l, s) ← elements f s; Some (v :: l, s)
     | None => s ← expect "]" s; Some ([v], s)
     end).
Proof. reflexivity. Qed.

Lemma elements_strings s l : forall f r,
  (length l + 2 <= f)%nat ->
  elements f (join (str ",") (json_string <$> (s :: l)) ++ "]"%char :: r) = Some (JString <$> (s :: l), r).
Proof.
  revert s. induction l as [|s' l IH]; intros s [|[|f]] r Hf; try (cbn in Hf; lia).
  - cbn [fmap list_fmap join]. rewrite elements_eq, json_value_string. cbn [mbind option_bind].
    by rewrite expect_other, expect_here by done.
  - change (join (str ",") (json_string <$> (s :: s' :: l)))
      with (json_string s ++ str "," ++ join (str ",") (json_string <$> (s' :: l))).
    rewrite <- !app_assoc, elements_eq, json_value_string. cbn [mbind option_bind app].
    change (str "," ++ ?x) with (","%char :: x). rewrite expect_here by done.
    rewrite (IH s' (S f)) by (cbn [length] in *; lia). done.
Qed.

Lemma JSON_parse_array l : JSON_parse (stringify_array l) = Some (JArray (JString <$> l)).
Proof.
  destruct l as [|s l]; [reflexivity|].
  set (t := join (str ",") (json_string <$> (s :: l)) ++ ["]"%char]).
  assert (Hl : (length l <= length t)%nat).
  { unfold t. rewrite length_app. clear t. enough (length l <= length (join (str ",") (json_string <$> (s :: l))))%nat by lia.
    revert s. induction l as [|s' l IH]; intros s; [cbn [length]; lia|].
    change (join (str ",") (json_string <$> (s :: s' :: l)))
      with (json_string s ++ str "," ++ join (str ",") (json_string <$> (s' :: l))).
    rewrite !length_app. specialize (IH s'). change (length (str ",")) with 1%nat. cbn [length] in *. lia. }
  assert (Ex : expect "]" t = None) by (unfold t; destruct l; by apply expect_other).
  unfold JSON_parse. change (stringify_array (s :: l)) with ("["%char :: t).
  replace (2 * length ("["%char :: t) + 2)%nat with (S (2 * length t + 3)) by (cbn [length]; lia).
  cbn [json_value]. change (skip_space ("["%char :: t)) with ("["%char :: t). cbn match.
  change ("["%char =c? QUOTE) with false. change ("["%char =c? "{"%char) with false.
  change ("["%char =c? "["%char) with true. cbn match. rewrite Ex.
  unfold t. rewrite (elements_strings s l _ []) by (fold t; lia). done.
Qed.

(** ** Fuel *)

(** What a reader leaves over is shorter than what it was given. *)
Definition shrinks {A} (p : option (A * bytes)) (s : bytes) : Prop :=
  forall a r, p = Some (a, r) -> (length r < length s)%nat.

Lemma skip_space_length s : (length (skip_space s) <= length s)%nat.
Proof. induction s as [|c s IH]; cbn; [lia|]. destruct (json_space c); cbn; lia. Qed.

Lemma expect_shrinks c s r : expect c s = Some r -> (length r < length s)%nat.
Proof.
  unfold expect. pose proof (skip_space_length s). destruct (skip_space s) as [|x t]; [done|].
  cbn [length] in *. destruct (x =c? c); [intros [= <-]|done]. lia.
Qed.

Lemma string_items_shrinks s : shrinks (string_items s) s.
Proof.
  intros l r. revert l r. induction s as [s IH] using (induction_ltof1 _ (@length ascii)).
  unfold ltof in IH. destruct s as [|c s]; intros l r; cbn [string_items]; [done|].
  destruct (c =c? QUOTE); [intros [= <- <-]; cbn; lia|].
  assert (Next : forall (k : list (ascii + Z) -> list (ascii + Z)) t, (length t <= length s)%nat ->
    ('(l, r) ← string_items t; Some (k l, r)) = Some (l, r) -> (length r < length (c :: s))%nat).
  { intros k t Ht E. destruct (string_items t) as [[l' r']|] eqn:Et; [|done]. cbn in E. injection E as _ ->.
    pose proof (IH t ltac:(cbn; lia) _ _ Et). cbn. lia. }
  destruct (c =c? BACKSLASH).
  - destruct s as [|e s]; [done|]. destruct (e =c? "u"%char).
    + destruct s as [|h1 [|h2 [|h3 [|h4 s]]]]; try done. destruct (hex4 h1 h2 h3 h4) as [u|]; [|done].
      cbn [mbind option_bind]. apply (Next (cons (inr u))). cbn. lia.
    + destruct (escaped e) as [x|]; [|done]. cbn [mbind option_bind]. apply (Next (cons (inl x))). cbn. lia.
  - destruct (nat_of_ascii c <? 32)%nat; [done|]. apply (Next (cons (inl c))). lia.
Qed.

Lemma json_literal_shrinks s : shrinks (json_literal s) s.
Proof.
  intros t r. unfold json_literal. destruct (string_items s) as [[l r']|] eqn:E; [|done].
  intros [= _ <-]. by eapply string_items_shrinks.
Qed.

Lemma digits_length s : (length (digits s).2 <= length s)%nat.
Proof.
  induction s as [|c s IH]; cbn; [lia|]. destruct (json_digit c); [|cbn; lia].
  destruct (digits s); cbn in *; lia.
Qed.
Lemma digits1_shrinks s : shrinks (digits1 s) s.
Proof.
  intros d r. unfold digits1. destruct s as [|c s]; [done|]. cbn [digits]. pose proof (digits_length s).
  destruct (json_digit c); [|done]. destruct (digits s) as [d' r'].
  intros [= _ <-]. cbn in *. lia.
Qed.

Lemma json_number_shrinks s : shrinks (json_number s) s.
Proof.
  intros t r. unfold json_number.
  set (p := match s with c :: r => if c =c? "-"%char then ([c], r) else ([], s) | [] => ([], s) end).
  assert (H0 : (length p.2 <= length s)%nat) by (unfold p; destruct s as [|c s0]; [cbn; lia|]; destruct (c =c? "-"%char); cbn; lia).
  destruct p as [sign s1]. cbn [snd] in H0.
  set (i := match s1 with c :: r => if c =c? "0"%char then Some ([c], r) else digits1 s1 | [] => None end).
  assert (H1 : shrinks i s1).
  { intros a b. unfold i. destruct s1 as [|c s2]; [done|]. destruct (c =c? "0"%char); [intros [= <- <-]; cbn; lia|].
    apply digits1_shrinks. }
  destruct i as [[int s2]|]; [|done]. specialize (H1 _ _ eq_refl). cbn [mbind option_bind].
  set (g := match s2 with c :: r => if c =c? "."%char then '(d, r) ← digits1 r; Some (c :: d, r) else Some ([], s2) | [] => Some ([], s2) end).
  assert (H2 : forall a b, g = Some (a, b) -> (length b <= length s2)%nat).
  { intros a b. unfold g. destruct s2 as [|c s3]; [intros [= <- <-]; done|].
    destruct (c =c? "."%char); [|intros [= <- <-]; done].
    destruct (digits1 s3) as [[d r']|] eqn:Ed; [|done]. intros [= <- <-].
    apply digits1_shrinks in Ed. cbn. lia. }
  destruct g as [[frac s3]|]; [|done]. specialize (H2 _ _ eq_refl). cbn [mbind option_bind].
  destruct s3 as [|c s4]; [intros [= _ <-]; cbn in *; lia|].
  destruct (_ || _); [|intros [= _ <-]; lia].
  set (q := match s4 with x :: r' => if (x =c? "+"%char) || (x =c? "-"%char) then ([x], r') else ([], s4) | [] => ([], s4) end).
  assert (H3 : (length q.2 <= length s4)%nat) by (unfold q; destruct s4 as [|x s5]; [cbn; lia|]; destruct (_ || _); cbn; lia).
  destruct q as [sg s5]. cbn [snd] in H3. destruct (digits1 s5) as [[d r']|] eqn:Ed; [|done].
  apply digits1_shrinks in Ed. intros [= _ <-]. cbn in *. lia.
Qed.

Lemma json_scalar_shrinks s : shrinks (json_scalar s) s.
Proof.
  assert (K : forall k v, str k <> [] -> shrinks (keyword k v s) s).
  { intros k v Hk a r. unfold keyword. destruct (starts (str k) s) eqn:E; [|done]. intros [= _ <-].
    apply starts_spec in E as [t ->]. rewrite length_skipn, length_app.
    destruct (str k); [done|]. cbn. lia. }
  intros v r. unfold json_scalar.
  destruct (keyword "null" JNull s) eqn:E1; [intros [= ->]; apply (K "null"%string JNull ltac:(discriminate) _ _ ltac:(eassumption))|].
  destruct (keyword "true" (JBool true) s) eqn:E2; [intros [= ->]; apply (K "true"%string (JBool true) ltac:(discriminate) _ _ ltac:(eassumption))|].
  destruct (keyword "false" (JBool false) s) eqn:E3; [intros [= ->]; apply (K "false"%string (JBool false) ltac:(discriminate) _ _ ltac:(eassumption))|].
  destruct (json_number s) as [[t r']|] eqn:E4; [|done]. intros [= _ <-]. by eapply json_number_shrinks.
Qed.

Lemma json_shrinks f : forall s,
  shrinks (json_value f s) s /\ shrinks (members f s) s /\ shrinks (elements f s) s.
Proof.
  induction f as [|f IH]; intros s; [by split; [|split]|]. split; [|split].
  - intros v r. cbn [json_value]. pose proof (skip_space_length s). destruct (skip_space s) as [|c t]; [done|].
    cbn [length] in *. destruct (c =c? QUOTE).
    { destruct (json_literal t) as [[u r']|] eqn:E; [|done]. intros [= _ <-]. apply json_literal_shrinks in E. lia. }
    destruct (c =c? "{"%char).
    { destruct (expect "}" t) eqn:E; [intros [= _ <-]; apply expect_shrinks in E; lia|].
      destruct (members f t) as [[o r']|] eqn:Em; [|done]. intros [= _ <-]. apply (IH t) in Em. lia. }
    destruct (c =c? "["%char).
    { destruct (expect "]" t) eqn:E; [intros [= _ <-]; apply expect_shrinks in E; lia|].
      destruct (elements f t) as [[o r']|] eqn:Em; [|done]. intros [= _ <-]. apply (IH t) in Em. lia. }
    intros E%json_scalar_shrinks. cbn in E. lia.
  - intros o r. cbn [members]. destruct (expect QUOTE s) as [s1|] eqn:E1; [|done]. cbn [mbind option_bind].
    destruct (json_literal s1) as [[k s2]|] eqn:E2; [|done]. cbn [mbind option_bind].
    destruct (expect ":" s2) as [s3|] eqn:E3; [|done]. cbn [mbind option_bind].
    destruct (json_value f s3) as [[v s4]|] eqn:E4; [|done]. cbn [mbind option_bind].
    apply expect_shrinks in E1, E3. apply json_literal_shrinks in E2. apply (IH s3) in E4.
    destruct (expect "," s4) as [s5|] eqn:E5.
    + destruct (members f s5) as [[o' r']|] eqn:E6; [|done]. intros [= _ <-].
      apply expect_shrinks in E5. apply (IH s5) in E6. lia.
    + destruct (expect "}" s4) as [s5|] eqn:E6; [|done]. intros [= _ <-]. apply expect_shrinks in E6. lia.
  - intros l r. rewrite elements_eq. destruct (json_value f s) as [[v s1]|] eqn:E1; [|done]. cbn [mbind option_bind].
    apply (IH s) in E1. destruct (expect "," s1) as [s2|] eqn:E2.
    + destruct (elements f s2) as [[o' r']|] eqn:E3; [|done]. intros [= _ <-].
      apply expect_shrinks in E2. apply (IH s2) in E3. lia.
    + destruct (expect "]" s1) as [s2|] eqn:E3; [|done]. intros [= _ <-]. apply expect_shrinks in E3. lia.
Qed.

(** The fuel of [JSON_parse] is enough: no more of it changes an answer. *)
Lemma json_value_fuel f : forall f' s,
  ((2 * length s + 1 <= f)%nat -> (2 * length s + 1 <= f')%nat -> json_value f s = json_value f' s) /\
  ((2 * length s + 2 <= f)%nat -> (2 * length s + 2 <= f')%nat -> members f s = members f' s) /\
  ((2 * length s + 2 <= f)%nat -> (2 * length s + 2 <= f')%nat -> elements f s = elements f' s).
Proof.
  induction f as [|f IH]; intros [|f'] s; try (split; [|split]; intros; lia).
  split; [|split]; intros Hf Hf'.
  - cbn [json_value]. pose proof (skip_space_length s). destruct (skip_space s) as [|c t]; [done|].
    cbn [length] in *. destruct (c =c? QUOTE); [done|].
    destruct (c =c? "{"%char); [destruct (expect "}" t); [done|]; by rewrite (proj1 (proj2 (IH f' t))) by lia|].
    destruct (c =c? "["%char); [destruct (expect "]" t); [done|]; by rewrite (proj2 (proj2 (IH f' t))) by lia|].
    done.
  - cbn [members]. destruct (expect QUOTE s) as [s1|] eqn:E1; [|done]. cbn [mbind option_bind].
    destruct (json_literal s1) as [[k s2]|] eqn:E2; [|done]. cbn [mbind option_bind].
    destruct (expect ":" s2) as [s3|] eqn:E3; [|done]. cbn [mbind option_bind].
    apply expect_shrinks in E1, E3. apply json_literal_shrinks in E2.
    rewrite (proj1 (IH f' s3)) by lia. destruct (json_value f' s3) as [[v s4]|] eqn:E4; [|done]. cbn [mbind option_bind].
    apply (json_shrinks f' s3) in E4. destruct (expect "," s4) as [s5|] eqn:E5; [|done].
    apply expect_shrinks in E5. by rewrite (proj1 (proj2 (IH f' s5))) by lia.
  - rewrite !elements_eq. rewrite (proj1 (IH f' s)) by lia.
    destruct (json_value f' s) as [[v s1]|] eqn:E1; [|done]. cbn [mbind option_bind].
    apply (json_shrinks f' s) in E1. destruct (expect "," s1) as [s2|] eqn:E2; [|done].
    apply expect_shrinks in E2. by rewrite (proj2 (proj2 (IH f' s2))) by lia.
Qed.
