(* ===== verification/Sha256.v ===== *)
(** * SHA-256, as java.security.MessageDigest computes it

    The digest of FIPS 180-4 on byte strings.  Its constants are the fractions of roots of
    primes they are defined by. *)

From S2P Require Import Prelude.
#[local] Open Scope Z_scope.

(** ** Words *)

Definition word (z : Z) : Z := z mod 2 ^ 32.
Definition rotate (x n : Z) : Z := Z.lor (Z.shiftr x n) (word (Z.shiftl x (32 - n))).
Definition xor3 (x y z : Z) : Z := Z.lxor x (Z.lxor y z).
(** The functions on words: two on the registers, two on the schedule, choice and majority. *)
Definition big_a (x : Z) : Z := xor3 (rotate x 2) (rotate x 13) (rotate x 22).
Definition big_e (x : Z) : Z := xor3 (rotate x 6) (rotate x 11) (rotate x 25).
Definition small_15 (x : Z) : Z := xor3 (rotate x 7) (rotate x 18) (Z.shiftr x 3).
Definition small_2 (x : Z) : Z := xor3 (rotate x 17) (rotate x 19) (Z.shiftr x 10).
Definition choose (x y z : Z) : Z := Z.lor (Z.land x y) (Z.land (2 ^ 32 - 1 - x) z).
Definition majority (x y z : Z) : Z := xor3 (Z.land x y) (Z.land x z) (Z.land y z).

(** ** Constants *)

Definition is_prime (n : Z) : bool := forallb (fun d => negb (n mod d =? 0)) (seqZ 2 (n - 2)).
Definition primes : list Z := List.filter is_prime (seqZ 2 310).

(** The integer cube root, bit by bit from the top. *)
Fixpoint cube_root (bits : nat) (root n : Z) : Z :=
  match bits with
  | O => root
  | S b => let r := root + 2 ^ Z.of_nat b in cube_root b (if r * r * r <=? n then r else root) n
  end.
Definition round_constants : list Z := (fun p => word (cube_root 36 0 (p * 2 ^ 96))) <$> primes.

(** ** Registers and rounds *)

Record Regs := { ra : Z; rb : Z; rc : Z; rd : Z; re : Z; rf : Z; rg : Z; rh : Z }.

Definition start : Regs :=
  let f p := word (Z.sqrt (p * 2 ^ 64)) in
  {| ra := f 2; rb := f 3; rc := f 5; rd := f 7; re := f 11; rf := f 13; rg := f 17; rh := f 19 |}.

Definition round (r : Regs) (kw : Z * Z) : Regs :=
  let t := rh r + big_e (re r) + choose (re r) (rf r) (rg r) + kw.1 + kw.2 in
  {| ra := word (t + big_a (ra r) + majority (ra r) (rb r) (rc r)); rb := ra r; rc := rb r; rd := rc r;
     re := word (rd r + t); rf := re r; rg := rf r; rh := rg r |}.

(** The schedule of a block: a window of sixteen words that moves on. *)
Fixpoint schedule (n : nat) (w : list Z) : list Z :=
  match n, w with
  | S n, w0 :: w' =>
      w0 :: schedule n (w' ++ [word (small_2 (nth 14 w 0) + nth 9 w 0 + small_15 (nth 1 w 0) + w0)])
  | _, _ => []
  end.

Definition compress (r : Regs) (block : list Z) : Regs :=
  let s := foldl round r (zip round_constants (schedule 64 block)) in
  {| ra := word (ra r + ra s); rb := word (rb r + rb s); rc := word (rc r + rc s); rd := word (rd r + rd s);
     re := word (re r + re s); rf := word (rf r + rf s); rg := word (rg r + rg s); rh := word (rh r + rh s) |}.

(** ** Bytes *)

Definition byte_val (c : ascii) : Z := Z.of_N (N_of_ascii c).
Definition byte_of (z : Z) : ascii := ascii_of_N (Z.to_N (z mod 256)).
(** The [n] bytes of a number, the most significant first. *)
Fixpoint big_endian (n : nat) (z : Z) : bytes :=
  match n with O => [] | S n => byte_of (Z.shiftr z (8 * Z.of_nat n)) :: big_endian n z end.

Definition padded (l : bytes) : bytes :=
  l ++ [byte_of 128] ++ replicate (Z.to_nat ((55 - zlen l) mod 64)) NUL ++ big_endian 8 (8 * zlen l).

Fixpoint words (l : bytes) : list Z :=
  match l with
  | a :: b :: c :: d :: l => ((byte_val a * 256 + byte_val b) * 256 + byte_val c) * 256 + byte_val d :: words l
  | _ => []
  end.
Fixpoint blocks (n : nat) (w : list Z) : list (list Z) :=
  match n with O => [] | S n => take 16 w :: blocks n (drop 16 w) end.

Definition digest (l : bytes) : bytes :=
  let r := foldl compress start (blocks (length (padded l) / 64) (words (padded l))) in
  flat_map (big_endian 4) [ra r; rb r; rc r; rd r; re r; rf r; rg r; rh r].

(** ** Facts *)

Lemma digest_length l : length (digest l) = 32%nat.
Proof. reflexivity. Qed.

Lemma big_endian_length n z : length (big_endian n z) = n.
Proof. induction n; cbn; congruence. Qed.

(** Padding fills whole blocks, so no byte of the text is left out. *)
Lemma padded_blocks l : (length (padded l) mod 64 = 0)%nat /\ (length l < length (padded l))%nat.
Proof.
  unfold padded. rewrite !length_app, length_replicate, big_endian_length. cbn [length].
  split; [|lia].
  apply Nat2Z.inj. rewrite Nat2Z.inj_mod, !Nat2Z.inj_add, Z2Nat.id by (apply Z.mod_pos_bound; lia).
  fold (zlen l). pose proof (Z.div_mod (55 - zlen l) 64 ltac:(lia)). set (q := (55 - zlen l) / 64) in *.
  replace (zlen l + (Z.of_nat 1 + ((55 - zlen l) mod 64 + Z.of_nat 8))) with ((1 - q) * 64) by lia.
  apply Z.mod_mul. lia.
Qed.

(** Hexadecimal digits, for the test vectors. *)
Definition hex_digit (d : Z) : ascii := if d <? 10 then ascii_of_N (Z.to_N (48 + d)) else ascii_of_N (Z.to_N (87 + d)).
Definition hex (l : bytes) : bytes := flat_map (fun c => [hex_digit (byte_val c / 16); hex_digit (byte_val c mod 16)]) l.

Example digest_abc :
  hex (digest (str "abc")) = str "ba7816bf8f01cfea414140de5dae2223b00361a396177a9cb410ff61f20015ad".
Proof. vm_compute. reflexivity. Qed.
Example digest_two_blocks :
  hex (digest (str "abcdbcdecdefdefgefghfghighijhijkijkljklmklmnlmnomnopnopq")) =
    str "248d6a61d20638b8e5c026930c3e6039a33ce45964ff2167f6ecedd419db06c1".
Proof. vm_compute. reflexivity. Qed.
