(* ===== verification/Authorization.v ===== *)
(** * Authorization: AuthorizationHandler.java and HashUtil.java

    A connection is authorized when its host logged in before, or when it logs in itself:
    it sends a set command whose key is the user name and whose data is the password.  A
    connection from the machine itself comes from a proxy and names its host in a PROXY
    line first.

    Strings are their UTF-8; a byte that is read becomes the character [(char) buffer.get()]
    gives, whose value is that of the signed byte.  What a channel gives to the reads of one
    call is a list of [Arrival]s, the clock's passing the time limit among them; behind the
    last nothing comes until the limit.  What it takes is a list of the [Attempt]s of
    [Writes]; a loop of writes that is not done when they are used up has no result. *)

From stdpp Require Import gmap.
From S2P Require Import Prelude.
From S2P Require Import Java.
From S2P Require Import Conf.
From S2P Require Import Memory.
From S2P Require Import CarrotCache.
From S2P Require Import Json.
From S2P Require Import Sha256.
From S2P Require Import Writes.
#[local] Open Scope Z_scope.

(** ** Strings *)

Definition startsWith (s prefix : bytes) : bool := bool_decide (take (length prefix) s = prefix).

(** [s.split(" ")]: the pieces between spaces, less the empty ones at the end, unless the
    only piece is [s] itself. *)
Fixpoint pieces (s : bytes) : list bytes :=
  match s with
  | [] => [[]]
  | c :: s =>
      if c =c? SP then [] :: pieces s
      else match pieces s with w :: ws => (c :: w) :: ws | [] => [[c]] end
  end.
Fixpoint drop_empty_end (ws : list bytes) : list bytes :=
  match ws with
  | [] => []
  | w :: ws => match w, drop_empty_end ws with [], [] => [] | _, ws' => w :: ws' end
  end.
Definition split (s : bytes) : list bytes := match pieces s with [w] => [w] | ws => drop_empty_end ws end.

Definition byte_char (b : ascii) : bytes := if byte_val b <? 128 then [b] else utf8 (65280 + byte_val b).

(** ** The channel *)

Inductive Arrival : Type :=
  | Byte (b : ascii)
  | NothingYet
  | EndOfStream
  | ReadFails (msg : bytes)
  | TimeIsUp.

Record InetSocketAddress := { isLoopbackAddress : bool; getHostString : bytes }.

Record SocketChannel := {
  remote : InetSocketAddress;
  arrivals : list Arrival;
  attempts : list Attempt;
  written : bytes;
  closed : bool
}.

Definition set_arrivals (es : list Arrival) (ch : SocketChannel) : SocketChannel :=
  {| remote := remote ch; arrivals := es; attempts := attempts ch; written := written ch; closed := closed ch |}.
Definition wrote (l : bytes) (es : list Attempt) (ch : SocketChannel) : SocketChannel :=
  {| remote := remote ch; arrivals := arrivals ch; attempts := es; written := written ch ++ l; closed := closed ch |}.
Definition close_channel (ch : SocketChannel) : SocketChannel :=
  {| remote := remote ch; arrivals := arrivals ch; attempts := attempts ch; written := written ch; closed := true |}.

(** ** The handler *)

(** The two maps of the handler; [nat]s stand for the channels' identities. *)
Record AuthorizationHandler := {
  pendingConns : gmap nat nat;
  authHosts : gmap bytes bytes
}.
Definition new_AuthorizationHandler : AuthorizationHandler := {| pendingConns := ∅; authHosts := ∅ |}.

Definition addPendingConnection (c : nat) (h : AuthorizationHandler) : AuthorizationHandler :=
  {| pendingConns := <[c := c]> (pendingConns h); authHosts := authHosts h |}.
Definition remove_pending (c : nat) (h : AuthorizationHandler) : AuthorizationHandler :=
  {| pendingConns := delete c (pendingConns h); authHosts := authHosts h |}.
Definition put_host (ip : bytes) (h : AuthorizationHandler) : AuthorizationHandler :=
  {| pendingConns := pendingConns h; authHosts := <[ip := ip]> (authHosts h) |}.

(** Code that acts on the handler and one channel. *)
Definition Auth (A : Type) : Type := AuthorizationHandler * SocketChannel -> result A * (AuthorizationHandler * SocketChannel).
Definition auth_ret {A} (a : A) : Auth A := fun s => (Ok a, s).
Definition auth_bind {A B} (m : Auth A) (f : A -> Auth B) : Auth B := fun s =>
  match m s with
  | (Ok a, s') => f a s'
  | (Throw e, s') => (Throw e, s')
  | (SystemExit, s') => (SystemExit, s')
  | (OutOfFuel, s') => (OutOfFuel, s')
  end.
Notation "'letA' x := m 'in' k" := (auth_bind m (fun x => k))
  (at level 10, x name, m at level 200, k at level 200) : mc_scope.
Definition on_handler {A} (f : AuthorizationHandler -> A * AuthorizationHandler) : Auth A := fun s =>
  let '(a, h) := f s.1 in (Ok a, (h, s.2)).

Definition ClosedChannelException : exn := IOException (str "ClosedChannelException").
Definition TIMEOUT : exn := IOException (str "Timeout while reading line").

Definition getRemoteAddress : Auth InetSocketAddress := fun s =>
  (if closed s.2 then Throw ClosedChannelException else Ok (remote s.2), s).

(** The loop of [readLine]. *)
Fixpoint read_line (gotCR : bool) (line : bytes) (es : list Arrival) : result (option bytes) * list Arrival :=
  match es with
  | Byte b :: es =>
      if b =c? CR then read_line true line es
      else if gotCR && (b =c? LF) then (Ok (Some line), es)
      else read_line gotCR (line ++ byte_char b) es
  | NothingYet :: es => read_line gotCR line es
  | EndOfStream :: _ => (Ok None, es)
  | ReadFails msg :: es => (Throw (IOException msg), es)
  | TimeIsUp :: es => (Throw TIMEOUT, es)
  | [] => (Throw TIMEOUT, [])
  end.
Definition readLine : Auth (option bytes) := fun s =>
  let '(r, es) := read_line false [] (arrivals s.2) in (r, (s.1, set_arrivals es s.2)).

(** The loop of [writeString]: its outcome, what was sent, and the attempts left. *)
Fixpoint write_rest (l : bytes) (es : list Attempt) : result unit * bytes * list Attempt :=
  match l, es with
  | [], _ => (Ok tt, [], es)
  | _, [] => (OutOfFuel, [], [])
  | _, Takes n :: es => let '(r, s, es') := write_rest (drop n l) es in (r, take n l ++ s, es')
  | _, WriteFails msg :: es => (Throw (IOException msg), [], es)
  end.
Definition writeString (data : bytes) : Auth unit := fun s =>
  if closed s.2 then (Throw ClosedChannelException, s)
  else let '(r, l, es) := write_rest data (attempts s.2) in (r, (s.1, wrote l es s.2)).

(** [try { ... } catch (IOException e) { ... }] *)
Definition catch_io {A} (m : Auth A) (k : Auth A) : Auth A := fun s =>
  match m s with (Throw (IOException _), s') => k s' | x => x end.

Definition sendErrorAndClose (errorMsg : bytes) : Auth unit :=
  catch_io (letA _ := writeString errorMsg in fun s => (Ok tt, (s.1, close_channel s.2))) (auth_ret tt).

Definition AUTH_REQUIRED : bytes := str "CLIENT_ERROR Authorization required" ++ CRLF.
Definition AUTH_FAILED : bytes := str "CLIENT_ERROR Authorization failed" ++ CRLF.
Definition NOT_CONFIGURED : bytes := str "SERVER_ERROR Authorization not configured" ++ CRLF.
Definition STORED_REPLY : bytes := str "STORED" ++ CRLF.

(** A sixth token may ask for silence. *)
Definition no_reply (cmdTokens : list bytes) : bool :=
  (zlen cmdTokens =? 6) && bool_decide (nth 5 cmdTokens [] = str "noreply").

(** The replies that end a connection. *)
Definition refuse (errorMsg : bytes) : Auth bool := letA _ := sendErrorAndClose errorMsg in auth_ret true.

Section Handler.
Context `{CarrotUtils}.

(** HashUtil.java. *)
Definition hashString (input : bytes) : bytes := toHex (digest input).

Section Configured.
(** What the getters of the configuration return. *)
Variables loginName hashedPassword : option bytes.

(** The name and the password have been read. *)
Definition verify (remoteIp username password : bytes) (noreply : bool) : Auth bool :=
  let hash := hashString password in
  match loginName, hashedPassword with
  | Some loginName, Some hashedPassword =>
      if bool_decide (username = loginName) && bool_decide (hash = hashedPassword) then
        letA _ := on_handler (fun h => (tt, put_host remoteIp h)) in
        letA _ := (if noreply then auth_ret tt else writeString STORED_REPLY) in
        auth_ret true
      else refuse AUTH_FAILED
  | _, _ => refuse NOT_CONFIGURED
  end.

(** From the look-up of the host on. *)
Definition authorize_host (remoteIp : bytes) : Auth bool :=
  letA known := on_handler (fun h => (bool_decide (is_Some (authHosts h !! remoteIp)), h)) in
  if known : bool then auth_ret false else
  letA commandLine := readLine in
  match commandLine with
  | None => refuse AUTH_REQUIRED
  | Some commandLine =>
      if startsWith commandLine (str "set ") then
        let cmdTokens := split commandLine in
        if zlen cmdTokens <? 5 then refuse AUTH_REQUIRED else
        let username := nth 1 cmdTokens [] in
        let noreply := no_reply cmdTokens in
        letA password := readLine in
        match password with
        | None => refuse AUTH_REQUIRED
        | Some password => verify remoteIp username password noreply
        end
      else refuse AUTH_REQUIRED
  end.

(** The [try] block. *)
Definition try_authorize : Auth bool :=
  letA remoteAddr := getRemoteAddress in
  if isLoopbackAddress remoteAddr then
    letA proxyLine := readLine in
    match proxyLine with
    | None => refuse AUTH_REQUIRED
    | Some proxyLine =>
        if startsWith proxyLine (str "PROXY ") then
          let proxyTokens := split proxyLine in
          if zlen proxyTokens <? 6 then refuse AUTH_REQUIRED else authorize_host (nth 2 proxyTokens [])
        else refuse AUTH_REQUIRED
    end
  else authorize_host (getHostString remoteAddr).

Definition authorize_pending (c : nat) : Auth bool := fun s =>
  if bool_decide (is_Some (pendingConns s.1 !! c)) then
    match catch_io try_authorize (refuse AUTH_REQUIRED) s with
    | (OutOfFuel, s') => (OutOfFuel, s')
    | (r, s') => (r, (remove_pending c s'.1, s'.2))
    end
  else (Ok false, s).
End Configured.

(** With the configuration of [MemcarrotConf.getConf()]: its getters never return null. *)
Definition authorizeConnection (getenv : bytes -> option bytes) (props : Properties) (c : nat) : Auth bool :=
  authorize_pending (Some (getUserLoginName getenv props)) (Some (getUserPasswordSHA256 getenv props)) c.

End Handler.
