(* ===== verification/AuthorizationCorrect.v ===== *)
(** * What a connection says, and what is made of it

    [verdict] reads the bytes of a connection as a text, however they arrive: it is the
    specification of [authorizeConnection]. *)

From stdpp Require Import gmap.
From S2P Require Import Prelude.
From S2P Require Import Java.
From S2P Require Import Conf.
From S2P Require Import CarrotCache.
From S2P Require Import Writes.
From S2P Require Import Authorization.
#[local] Open Scope Z_scope.

(** ** Texts *)

(** The bytes that arrive before anything goes wrong. *)
Fixpoint received (es : list Arrival) : bytes :=
  match es with
  | Byte b :: es => b :: received es
  | NothingYet :: es => received es
  | _ => []
  end.

(** The first line of a text, with the characters read before it, and what follows. *)
Fixpoint take_line (gotCR : bool) (line text : bytes) : option (bytes * bytes) :=
  match text with
  | [] => None
  | b :: text =>
      if b =c? CR then take_line true line text
      else if gotCR && (b =c? LF) then Some (line, text)
      else take_line gotCR (line ++ byte_char b) text
  end.
Definition line_of (text : bytes) : option (bytes * bytes) := take_line false [] text.

(** The tokens of a line that begins with a word, if there are enough of them. *)
Definition tokens_of (first : bytes) (n : Z) (line : bytes) : option (list bytes) :=
  if startsWith line first && (n <=? zlen (split line)) then Some (split line) else None.

(** The host a connection is from, and the text that follows. *)
Definition claimed (a : InetSocketAddress) (text : bytes) : option (bytes * bytes) :=
  if isLoopbackAddress a then
    '(line, text') ← line_of text;
    tokens ← tokens_of (str "PROXY ") 6 line;
    Some (nth 2 tokens [], text')
  else Some (getHostString a, text).

(** A login: the tokens of the set command, the password, and what follows. *)
Definition login_lines (text : bytes) : option (list bytes * bytes * bytes) :=
  '(line, text1) ← line_of text;
  tokens ← tokens_of (str "set ") 5 line;
  '(password, text2) ← line_of text1;
  Some (tokens, password, text2).

Inductive Verdict : Type :=
  | Known (rest : bytes)
  | LoggedIn (ip : bytes) (noreply : bool) (rest : bytes)
  | Refused (errorMsg : bytes).

Section Verdict.
Context `{CarrotUtils}.
Variables name hashed : bytes.

Definition verdict (known : bytes -> bool) (a : InetSocketAddress) (text : bytes) : Verdict :=
  match claimed a text with
  | None => Refused AUTH_REQUIRED
  | Some (ip, text') =>
      if known ip then Known text' else
      match login_lines text' with
      | None => Refused AUTH_REQUIRED
      | Some (tokens, password, rest) =>
          if bool_decide (nth 1 tokens [] = name) && bool_decide (hashString password = hashed)
          then LoggedIn ip (no_reply tokens) rest else Refused AUTH_FAILED
      end
  end.

(** ** Reading lines *)

Definition io_failure {A} (r : result A) : Prop := exists msg, r = Throw (IOException msg).

Lemma read_line_spec gotCR line es :
  match take_line gotCR line (received es) with
  | Some (l, rest) => exists es', read_line gotCR line es = (Ok (Some l), es') /\ received es' = rest
  | None => exists r es', read_line gotCR line es = (r, es') /\ (r = Ok None \/ io_failure r)
  end.
Proof.
  revert gotCR line. induction es as [|[b| | |msg|] es IH]; intros gotCR line; cbn [received take_line read_line];
    [| |apply IH| | |]; try (do 2 eexists; split; [reflexivity|]; first [by left | right; by eexists]).
  destruct (b =c? CR); [apply IH|].
  destruct (gotCR && (b =c? LF)); [by eexists|apply IH].
Qed.

(** [readLine] in front of the code that uses the line. *)
Lemma readLine_bind {A} (k : option bytes -> Auth A) h ch :
  match line_of (received (arrivals ch)) with
  | Some (l, rest) => exists es', auth_bind readLine k (h, ch) = k (Some l) (h, set_arrivals es' ch) /\ received es' = rest
  | None => exists es', auth_bind readLine k (h, ch) = k None (h, set_arrivals es' ch) \/
      exists msg, auth_bind readLine k (h, ch) = (Throw (IOException msg), (h, set_arrivals es' ch))
  end.
Proof.
  unfold line_of, auth_bind, readLine. cbn [fst snd].
  pose proof (read_line_spec false [] (arrivals ch)) as Hr.
  destruct (take_line false [] (received (arrivals ch))) as [[l rest]|].
  - destruct Hr as (es' & -> & Hes). by exists es'.
  - destruct Hr as (r & es' & -> & [->|[msg ->]]); exists es'; [by left|right; by eexists].
Qed.

Lemma set_arrivals_twice es es' ch : set_arrivals es (set_arrivals es' ch) = set_arrivals es ch.
Proof. reflexivity. Qed.

(** ** The outcome of the block, whatever the channel takes *)

Definition known_to (h : AuthorizationHandler) (ip : bytes) : bool := bool_decide (is_Some (authHosts h !! ip)).

(** The code that is left once the verdict is known. *)
Definition conclusion (v : Verdict) (h : AuthorizationHandler) (ch : SocketChannel)
    (x : result bool * (AuthorizationHandler * SocketChannel)) : Prop :=
  match v with
  | Known rest => exists es', x = (Ok false, (h, set_arrivals es' ch)) /\ received es' = rest
  | LoggedIn ip noreply rest => exists es', received es' = rest /\
      x = auth_bind (if noreply then auth_ret tt else writeString STORED_REPLY) (fun _ => auth_ret true)
            (put_host ip h, set_arrivals es' ch)
  | Refused msg => exists es', x = refuse msg (h, set_arrivals es' ch) \/
      msg = AUTH_REQUIRED /\ exists m, x = (Throw (IOException m), (h, set_arrivals es' ch))
  end.

Lemma conclusion_refuse msg h ch es : conclusion (Refused msg) h ch (refuse msg (h, set_arrivals es ch)).
Proof. exists es. by left. Qed.
Lemma conclusion_throw m h ch es : conclusion (Refused AUTH_REQUIRED) h ch (Throw (IOException m), (h, set_arrivals es ch)).
Proof. exists es. right. eauto. Qed.
Hint Resolve conclusion_refuse conclusion_throw : core.

Lemma conclusion_arrivals es v h ch x : conclusion v h (set_arrivals es ch) x -> conclusion v h ch x.
Proof. by destruct v. Qed.

Lemma tokens_of_if {A} first n line (yes : list bytes -> A) (no : A) :
  match tokens_of first n line with Some tokens => yes tokens | None => no end =
  (if startsWith line first then if zlen (split line) <? n then no else yes (split line) else no).
Proof. unfold tokens_of. destruct (startsWith line first); [|done]. cbn. by repeat zcase. Qed.

Lemma authorize_host_concludes ip h ch :
  conclusion
    (if known_to h ip then Known (received (arrivals ch)) else
     match login_lines (received (arrivals ch)) with
     | None => Refused AUTH_REQUIRED
     | Some (tokens, password, rest) =>
         if bool_decide (nth 1 tokens [] = name) && bool_decide (hashString password = hashed)
         then LoggedIn ip (no_reply tokens) rest else Refused AUTH_FAILED
     end)
    h ch (authorize_host (Some name) (Some hashed) ip (h, ch)).
Proof.
  unfold authorize_host. unfold auth_bind at 1, on_handler at 1. cbn [fst snd]. fold (known_to h ip).
  destruct (known_to h ip); [by exists (arrivals ch); destruct ch|].
  unfold login_lines.
  match goal with |- context [auth_bind readLine ?k] => pose proof (readLine_bind k h ch) as H1 end.
  destruct (line_of (received (arrivals ch))) as [[l text1]|]; cbn [mbind option_bind].
  2: { destruct H1 as (es & [->|(m & ->)]); auto. }
  destruct H1 as (es & -> & Hes). cbv zeta.
  rewrite <- (tokens_of_if (str "set ") 5 l (fun cmdTokens => letA password := readLine in
    match password with
    | None => refuse AUTH_REQUIRED
    | Some password => verify (Some name) (Some hashed) ip (nth 1 cmdTokens []) password (no_reply cmdTokens)
    end)).
  destruct (tokens_of (str "set ") 5 l) as [tokens|]; cbn [mbind option_bind]; [|auto].
  match goal with |- context [auth_bind readLine ?k] => pose proof (readLine_bind k h (set_arrivals es ch)) as H2 end.
  cbn [arrivals set_arrivals] in H2. rewrite Hes in H2.
  destruct (line_of text1) as [[pw rest]|]; cbn [mbind option_bind].
  2: { destruct H2 as (es2 & [->|(m & ->)]); apply (conclusion_arrivals es); auto. }
  destruct H2 as (es2 & -> & Hes2). rewrite set_arrivals_twice. unfold verify.
  destruct (bool_decide (nth 1 tokens [] = name) && bool_decide (hashString pw = hashed)); [|auto].
  exists es2. split; [done|]. by destruct (no_reply tokens).
Qed.

Lemma try_concludes h ch :
  closed ch = false ->
  conclusion (verdict (known_to h) (remote ch) (received (arrivals ch))) h ch
    (try_authorize (Some name) (Some hashed) (h, ch)).
Proof.
  intros Ho. unfold try_authorize, verdict, claimed. unfold auth_bind at 1, getRemoteAddress. cbn [fst snd].
  rewrite Ho. destruct (isLoopbackAddress (remote ch)); [|apply authorize_host_concludes].
  match goal with |- context [auth_bind readLine ?k] => pose proof (readLine_bind k h ch) as H1 end.
  destruct (line_of (received (arrivals ch))) as [[l text1]|]; cbn [mbind option_bind].
  2: { destruct H1 as (es & [->|(m & ->)]); auto. }
  destruct H1 as (es & -> & Hes). cbv zeta.
  rewrite <- (tokens_of_if (str "PROXY ") 6 l
    (fun proxyTokens => authorize_host (Some name) (Some hashed) (nth 2 proxyTokens []))).
  destruct (tokens_of (str "PROXY ") 6 l) as [tokens|]; cbn [mbind option_bind]; [|auto].
  apply (conclusion_arrivals es). rewrite <- Hes.
  apply (authorize_host_concludes (nth 2 tokens []) h (set_arrivals es ch)).
Qed.

End Verdict.

(** ** Writing *)

(** A channel that takes [n] bytes, one at a time if need be. *)
Definition takes (n : nat) (es : list Attempt) : Prop :=
  Forall (fun a => fails a = false) es /\ (n <= length (List.filter progresses es))%nat.

Lemma write_rest_ok l es : takes (length l) es -> exists es', write_rest l es = (Ok tt, l, es').
Proof.
  intros [Hf Hl]. revert l Hl. induction Hf as [|[n|msg] es Ha _ IH]; intros l Hl; [| |done].
  - destruct l; [by eexists|cbn in Hl; lia].
  - destruct l as [|b l]; [by eexists|]. cbn [write_rest]. set (l0 := b :: l) in *.
    destruct (IH (drop n l0)) as (es' & ->).
    { rewrite length_drop. unfold l0 in *. cbn [List.filter] in Hl. destruct n; cbn [progresses length] in *; lia. }
    exists es'. by rewrite take_drop.
Qed.

Lemma writeString_ok l h ch :
  closed ch = false -> takes (length l) (attempts ch) ->
  exists es, writeString l (h, ch) = (Ok tt, (h, wrote l es ch)).
Proof.
  intros Ho Ht. unfold writeString. cbn [fst snd]. rewrite Ho.
  destruct (write_rest_ok l (attempts ch) Ht) as (es & ->). by exists es.
Qed.

Lemma refuse_ok msg h ch :
  closed ch = false -> takes (length msg) (attempts ch) ->
  exists es, refuse msg (h, ch) = (Ok true, (h, close_channel (wrote msg es ch))).
Proof.
  intros Ho Ht. unfold refuse, sendErrorAndClose, catch_io, auth_bind.
  destruct (writeString_ok msg h ch Ho Ht) as (es & ->). by exists es.
Qed.

(** Whatever the channel takes, writing does not touch the handler. *)
Lemma writeString_outcome l h ch :
  exists r ch', writeString l (h, ch) = (r, (h, ch')) /\ (r = Ok tt \/ r = OutOfFuel \/ io_failure r).
Proof.
  unfold writeString. cbn [fst snd]. destruct (closed ch); [do 2 eexists; split; [reflexivity|]; right; right; by eexists|].
  assert (Hw : forall es l, exists r s es', write_rest l es = (r, s, es') /\ (r = Ok tt \/ r = OutOfFuel \/ io_failure r)).
  { clear. induction es as [|[n|m] es IH]; intros [|b l]; cbn [write_rest];
      try (do 3 eexists; split; [reflexivity|]; first [by left | right; by left | right; right; by eexists]).
    destruct (IH (drop n (b :: l))) as (r & s & es' & -> & Hr). by do 3 eexists. }
  destruct (Hw (attempts ch) l) as (r & s & es' & -> & Hr). by do 2 eexists.
Qed.

(** The code has answered [true] or is still writing. *)
Definition settled (h : AuthorizationHandler) (x : result bool * (AuthorizationHandler * SocketChannel)) : Prop :=
  exists ch', x = (Ok true, (h, ch')) \/ x = (OutOfFuel, (h, ch')).

Lemma refuse_settled msg h ch : settled h (refuse msg (h, ch)).
Proof.
  unfold settled, refuse, sendErrorAndClose, catch_io, auth_bind.
  destruct (writeString_outcome msg h ch) as (r & ch' & -> & [->|[->|[m ->]]]); eexists; first [by left | by right].
Qed.

(** Refusing on an open channel returns when the reply was sent, and closes the channel, or
    when a part of it was and the channel failed; or it goes on writing. *)
Lemma write_rest_cut l es :
  let '(r, s, _) := write_rest l es in
  r = OutOfFuel \/ r = Ok tt /\ s = l \/ io_failure r /\ exists t, l = s ++ t /\ t <> [].
Proof.
  revert l; induction es as [|[n|m] es IH]; intros [|b l]; cbn [write_rest]; auto.
  - specialize (IH (drop n (b :: l))). destruct (write_rest _ es) as [[r s] es'].
    destruct IH as [->|[[-> ->]|[Hr (t & Ht & Hne)]]]; [by left|right; left; by rewrite take_drop|right; right].
    split; [done|]. exists t. by rewrite <- app_assoc, <- Ht, take_drop.
  - right; right. split; [by eexists|]. by eexists.
Qed.

Lemma refuse_open msg h ch :
  closed ch = false ->
  let '(r, (h', ch')) := refuse msg (h, ch) in
  h' = h /\
  (r = OutOfFuel \/ r = Ok true /\ closed ch' = true /\ written ch' = written ch ++ msg \/
   r = Ok true /\ closed ch' = false /\ exists s t, written ch' = written ch ++ s /\ msg = s ++ t /\ t <> []).
Proof.
  intros Ho. unfold refuse, sendErrorAndClose, catch_io, auth_bind, writeString. cbn [fst snd]. rewrite Ho.
  pose proof (write_rest_cut msg (attempts ch)) as Hw. destruct (write_rest msg (attempts ch)) as [[r s] es'].
  destruct Hw as [->|[[-> ->]|[[m ->] (t & Ht & Hne)]]]; cbn; split; try done; [by left|by right; left|right; right].
  split_and!; [done..|]. by exists s, t.
Qed.

Lemma say_settled (noreply : bool) h ch :
  settled h (catch_io (auth_bind (if noreply then auth_ret tt else writeString STORED_REPLY) (fun _ => auth_ret true))
    (refuse AUTH_REQUIRED) (h, ch)).
Proof.
  unfold catch_io, auth_bind. destruct noreply; [eexists; by left|].
  destruct (writeString_outcome STORED_REPLY h ch) as (r & ch' & -> & [->|[->|[m ->]]]);
    [eexists; by left | eexists; by right | apply refuse_settled].
Qed.

(** ** Well-formed lines *)

(** A word of a line: printable enough to be a token. *)
Definition word_char (c : ascii) : bool := (Sha256.byte_val c <? 128) && negb (c =c? SP) && negb (c =c? CR).
Definition is_word (w : bytes) : bool := forallb word_char w && match w with [] => false | _ => true end.
Definition words_line (ws : list bytes) : bytes := join [SP] ws.

Lemma pieces_word w s : forallb word_char w = true -> pieces (w ++ SP :: s) = w :: pieces s.
Proof.
  induction w as [|c w IH]; cbn [forallb app pieces]; [done|].
  intros [Hc Hw]%andb_true_iff. rewrite (IH Hw). unfold word_char in Hc. by destruct (c =c? SP); [rewrite andb_false_r in Hc|].
Qed.
Lemma pieces_last w : forallb word_char w = true -> pieces w = [w].
Proof.
  induction w as [|c w IH]; cbn [forallb pieces]; [done|].
  intros [Hc Hw]%andb_true_iff. rewrite (IH Hw). unfold word_char in Hc. by destruct (c =c? SP); [rewrite andb_false_r in Hc|].
Qed.

Lemma is_word_chars w : is_word w = true -> forallb word_char w = true /\ w <> [].
Proof. unfold is_word. intros [H1 H2]%andb_true_iff. split; [done|by destruct w]. Qed.

Lemma pieces_words ws : ws <> [] -> forallb is_word ws = true -> pieces (words_line ws) = ws.
Proof.
  unfold words_line. induction ws as [|w [|v ws] IH]; [done| |]; intros _ [Hw Hws]%andb_true_iff;
    destruct (is_word_chars w Hw) as [Hc _].
  - by apply pieces_last.
  - change (pieces (w ++ SP :: join [SP] (v :: ws)) = w :: v :: ws). rewrite pieces_word by done. by rewrite IH.
Qed.

Lemma drop_empty_end_words ws : forallb is_word ws = true -> drop_empty_end ws = ws.
Proof.
  induction ws as [|w ws IH]; [done|]. intros [Hw Hws]%andb_true_iff. cbn [drop_empty_end]. rewrite (IH Hws).
  by destruct (is_word_chars w Hw) as [_ Hne], w, ws.
Qed.

(** Splitting a line gives back its words. *)
Lemma split_words ws : ws <> [] -> forallb is_word ws = true -> split (words_line ws) = ws.
Proof.
  intros Hne Hws. unfold split. rewrite pieces_words by done. destruct ws as [|w [|v ws]]; [done|done|].
  by apply drop_empty_end_words.
Qed.

Lemma tokens_of_words first ws n :
  forallb is_word (first :: ws) = true -> ws <> [] -> n <= zlen (first :: ws) ->
  tokens_of (first ++ [SP]) n (words_line (first :: ws)) = Some (first :: ws).
Proof.
  intros Hws Hne Hn. unfold tokens_of, startsWith. rewrite split_words by done.
  assert (Hl : words_line (first :: ws) = (first ++ [SP]) ++ words_line ws).
  { unfold words_line. destruct ws; [done|]. cbn [join]. by rewrite <- app_assoc. }
  rewrite Hl, take_app_length, bool_decide_true by done. by destruct (Z.leb_spec n (zlen (first :: ws))); [|lia].
Qed.

(** A line is what precedes the first carriage return. *)
Lemma line_of_crlf l rest :
  forallb (fun c => negb (c =c? CR)) l = true -> line_of (l ++ CRLF ++ rest) = Some (flat_map byte_char l, rest).
Proof.
  unfold line_of. change (flat_map byte_char l) with ([] ++ flat_map byte_char l). generalize (@nil ascii) as acc.
  induction l as [|c l IH]; intros acc; cbn [app take_line forallb flat_map]; [by rewrite app_nil_r|].
  intros [Hc Hl]%andb_true_iff. destruct (c =c? CR); [done|]. cbn [andb]. by rewrite (IH _ Hl), <- app_assoc.
Qed.

Lemma byte_char_ascii l : forallb (fun c => Sha256.byte_val c <? 128) l = true -> flat_map byte_char l = l.
Proof.
  induction l as [|c l IH]; [done|]. intros [Hc Hl]%andb_true_iff. cbn [flat_map]. rewrite (IH Hl).
  unfold byte_char. by rewrite Hc.
Qed.

Lemma words_line_chars ws :
  forallb is_word ws = true ->
  forallb (fun c => negb (c =c? CR)) (words_line ws) = true /\ forallb (fun c => Sha256.byte_val c <? 128) (words_line ws) = true.
Proof.
  unfold words_line. assert (Hw : forall w, is_word w = true ->
    forallb (fun c => negb (c =c? CR)) w = true /\ forallb (fun c => Sha256.byte_val c <? 128) w = true).
  { intros w [Hw _]%is_word_chars. rewrite !forallb_forall in *. split; intros c Hc; specialize (Hw c Hc);
      unfold word_char in Hw; by apply andb_true_iff in Hw as [[? ?]%andb_true_iff ?]. }
  induction ws as [|w [|v ws] IH]; [done| |]; intros [H1 H2]%andb_true_iff.
  - by apply Hw.
  - change (join [SP] (w :: v :: ws)) with (w ++ [SP] ++ join [SP] (v :: ws)). rewrite !forallb_app.
    destruct (Hw w H1) as [-> ->], (IH H2) as [-> ->]. done.
Qed.

Lemma line_of_words ws rest :
  forallb is_word ws = true -> line_of (words_line ws ++ CRLF ++ rest) = Some (words_line ws, rest).
Proof. intros Hws. destruct (words_line_chars ws Hws) as [H1 H2]. rewrite line_of_crlf by done. by rewrite byte_char_ascii. Qed.
