(* ===== verification/HAProxy.v ===== *)
(** * The PROXY header: util/HAProxyServer.java

    [ProxyProtocolParser.parse] on what a connection sends, and [ProxyInfo].  The sample
    server around it only prints.  Strings are their UTF-8. *)

From S2P Require Import Prelude.
From S2P Require Import Java.
From S2P Require Import Json.
From S2P Require Import Sha256.
From S2P Require Import Authorization.
From S2P Require Import AuthorizationCorrect.
#[local] Open Scope Z_scope.

Record ProxyInfo := {
  protocol : bytes;
  sourceAddress : option bytes;
  destinationAddress : option bytes;
  sourcePort : Z;
  destinationPort : Z
}.

Definition or_null (s : option bytes) : bytes := default (str "null") s.
Definition ProxyInfo_toString (p : ProxyInfo) : bytes :=
  str "ProxyInfo{" ++ str "protocol='" ++ protocol p ++ str "'" ++
  str ", sourceAddress='" ++ or_null (sourceAddress p) ++ str "'" ++
  str ", destinationAddress='" ++ or_null (destinationAddress p) ++ str "'" ++
  str ", sourcePort=" ++ Long_toString (sourcePort p) ++
  str ", destinationPort=" ++ Long_toString (destinationPort p) ++ str "}".

(** A byte decoded as ASCII: what is none becomes the replacement character. *)
Definition ascii_char (b : ascii) : bytes := if byte_val b <? 128 then [b] else utf8 65533.

(** [BufferedReader.readLine]: up to a line feed, a carriage return or both. *)
Fixpoint line_end (text : bytes) : bytes * bytes :=
  match text with
  | [] => ([], [])
  | b :: text' =>
      if b =c? LF then ([], text')
      else if b =c? CR then ([], match text' with c :: t => if c =c? LF then t else text' | [] => [] end)
      else let '(l, r) := line_end text' in (ascii_char b ++ l, r)
  end.
Definition buffered_readLine (text : bytes) : option bytes * bytes :=
  match text with [] => (None, []) | _ => let '(l, r) := line_end text in (Some l, r) end.

(** [s.split("\\s+")]. *)
Definition is_space (c : ascii) : bool := ((9 <=? byte_val c) && (byte_val c <=? 13)) || (c =c? SP).
Fixpoint space_pieces (after_space : bool) (s : bytes) : list bytes :=
  match s with
  | [] => [[]]
  | c :: s =>
      if is_space c then if after_space then space_pieces true s else [] :: space_pieces true s
      else match space_pieces false s with w :: ws => (c :: w) :: ws | [] => [[c]] end
  end.
Definition split_spaces (s : bytes) : list bytes :=
  if existsb is_space s then drop_empty_end (space_pieces false s) else [s].

Definition upper (c : ascii) : ascii :=
  if (97 <=? byte_val c) && (byte_val c <=? 122) then Sha256.byte_of (byte_val c - 32) else c.
Definition equalsIgnoreCase (s t : bytes) : bool := bool_decide (upper <$> s = upper <$> t).

(** [parse], with what it leaves of the text: the line behind the header is read, and
    printed, as well. *)
Definition parse (text : bytes) : result ProxyInfo * bytes :=
  let '(headerLine, text) := buffered_readLine text in
  let '(message, text) := buffered_readLine text in
  (match headerLine with
   | None => Throw (IOException (str "No PROXY header received"))
   | Some headerLine =>
       if startsWith headerLine (str "PROXY ") then
         let tokens := split_spaces headerLine in
         if zlen tokens <? 6 then Throw (IOException (str "Incomplete PROXY header: " ++ headerLine)) else
         let proto := nth 1 tokens [] in
         if equalsIgnoreCase (str "UNKNOWN") proto then
           Ok {| protocol := str "UNKNOWN"; sourceAddress := None; destinationAddress := None;
                 sourcePort := 0; destinationPort := 0 |}
         else
           match parseInt (nth 4 tokens []), parseInt (nth 5 tokens []) with
           | Some srcPort, Some dstPort =>
               Ok {| protocol := proto; sourceAddress := Some (nth 2 tokens []); destinationAddress := Some (nth 3 tokens []);
                     sourcePort := srcPort; destinationPort := dstPort |}
           | _, _ => Throw (IOException (str "Invalid port in PROXY header: " ++ headerLine))
           end
       else Throw (IOException (str "Invalid PROXY header: " ++ headerLine))
   end, text).

(** ** Headers that are written by the book *)

Definition header_char (c : ascii) : bool := (byte_val c <? 128) && negb (is_space c).
Definition header_word (w : bytes) : bool := forallb header_char w && match w with [] => false | _ => true end.

Lemma space_pieces_word b w s :
  header_word w = true -> space_pieces b (w ++ SP :: s) = w :: space_pieces true s.
Proof.
  intros [Hw Hne]%andb_true_iff. destruct w as [|c w]; [done|]. clear Hne. revert b c Hw.
  induction w as [|d w IH]; intros b c [Hc Hw]%andb_true_iff; cbn [app space_pieces];
    unfold header_char in Hc; destruct (is_space c); try (by rewrite andb_false_r in Hc); [done|].
  change (match space_pieces false ((d :: w) ++ SP :: s) with w0 :: ws => (c :: w0) :: ws | [] => [[c]] end =
    (c :: d :: w) :: space_pieces true s). by rewrite (IH false d Hw).
Qed.
Lemma space_pieces_last b w : header_word w = true -> space_pieces b w = [w].
Proof.
  intros [Hw Hne]%andb_true_iff. destruct w as [|c w]; [done|]. clear Hne. revert b c Hw.
  induction w as [|d w IH]; intros b c [Hc Hw]%andb_true_iff; cbn [space_pieces];
    unfold header_char in Hc; destruct (is_space c); try (by rewrite andb_false_r in Hc); [done|].
  change (match space_pieces false (d :: w) with w0 :: ws => (c :: w0) :: ws | [] => [[c]] end = [c :: d :: w]).
  by rewrite (IH false d Hw).
Qed.

Lemma space_pieces_words b ws : ws <> [] -> forallb header_word ws = true -> space_pieces b (join [SP] ws) = ws.
Proof.
  revert b. induction ws as [|w [|v ws] IH]; [done| |]; intros b _ [Hw Hws]%andb_true_iff.
  - by apply space_pieces_last.
  - change (space_pieces b (w ++ SP :: join [SP] (v :: ws)) = w :: v :: ws). rewrite space_pieces_word by done. by rewrite IH.
Qed.

Lemma header_word_word w : header_word w = true -> is_word w = true.
Proof.
  unfold header_word, is_word. intros [Hw ->]%andb_true_iff. rewrite andb_true_r. revert Hw. rewrite !forallb_forall.
  intros Hw c Hc. specialize (Hw c Hc). unfold header_char, word_char, is_space in *. apply andb_true_iff in Hw as [-> Hs].
  cbn [andb]. destruct (Ascii.eqb_spec c SP) as [He|_]; [by rewrite orb_true_r in Hs|].
  destruct (Ascii.eqb_spec c CR) as [He|_]; [by rewrite He in Hs|done].
Qed.

Lemma split_spaces_words ws : ws <> [] -> forallb header_word ws = true -> split_spaces (join [SP] ws) = ws.
Proof.
  intros Hne Hws. unfold split_spaces. pose proof (space_pieces_words false ws Hne Hws) as Hp.
  assert (Hw : forallb is_word ws = true).
  { revert Hws. rewrite !forallb_forall. intros Hws w Hin. by apply header_word_word, Hws. }
  destruct (existsb is_space (join [SP] ws)) eqn:He; [by rewrite Hp, drop_empty_end_words|].
  assert (Hone : forall s, existsb is_space s = false -> space_pieces false s = [s]).
  { induction s as [|c s IH]; [done|]. intros [Hc Hs]%orb_false_iff. cbn [space_pieces]. by rewrite Hc, IH. }
  by rewrite <- (Hone _ He).
Qed.

Definition line_char (c : ascii) : bool := (byte_val c <? 128) && negb (c =c? CR) && negb (c =c? LF).

Lemma line_end_crlf l rest : forallb line_char l = true -> line_end (l ++ CRLF ++ rest) = (l, rest).
Proof.
  induction l as [|c l IH]; [done|]. intros [Hc Hl]%andb_true_iff. unfold line_char in Hc.
  apply andb_true_iff in Hc as [[Ha Hr]%andb_true_iff Hf]. change ((c :: l) ++ CRLF ++ rest) with (c :: (l ++ CRLF ++ rest)).
  cbn [line_end]. destruct (c =c? LF); [done|]. destruct (c =c? CR); [done|]. rewrite (IH Hl). unfold ascii_char.
  by rewrite Ha.
Qed.

Lemma buffered_readLine_crlf l rest : forallb line_char l = true -> buffered_readLine (l ++ CRLF ++ rest) = (Some l, rest).
Proof. intros Hl. unfold buffered_readLine. rewrite line_end_crlf by done. by destruct l. Qed.

Lemma header_line_chars ws : forallb header_word ws = true -> forallb line_char (join [SP] ws) = true.
Proof.
  assert (Hw : forall w, header_word w = true -> forallb line_char w = true).
  { intros w [Hw _]%andb_true_iff. revert Hw. rewrite !forallb_forall. intros Hw c Hc. specialize (Hw c Hc).
    unfold header_char, line_char, is_space in *. apply andb_true_iff in Hw as [-> Hs].
    destruct (Ascii.eqb_spec c CR) as [He|_]; [by rewrite He in Hs|].
    destruct (Ascii.eqb_spec c LF) as [He|_]; [by rewrite He in Hs|done]. }
  induction ws as [|w [|v ws] IH]; [done| |]; intros [H1 H2]%andb_true_iff; [by apply Hw|].
  change (join [SP] (w :: v :: ws)) with (w ++ [SP] ++ join [SP] (v :: ws)). rewrite !forallb_app, (Hw w H1), (IH H2). done.
Qed.

Lemma Long_toString_word z : header_word (Long_toString z) = true.
Proof.
  unfold header_word. pose proof (Long_toString_ne z). destruct (Long_toString z) as [|c0 l0] eqn:He; [done|].
  rewrite <- He, andb_true_r. apply forallb_forall. intros c Hc.
  pose proof (Long_toString_chars z) as Hf. rewrite Forall_forall in Hf. specialize (Hf c).
  destruct (Hf Hc) as [[d Hd]| ->]; [|done]. unfold digit_val in Hd. unfold header_char, is_space, byte_val.
  assert (Hn : Z.of_N (N_of_ascii c) = Z.of_nat (nat_of_ascii c)) by (unfold nat_of_ascii; lia). rewrite Hn.
  assert (Hr : 48 <= Z.of_nat (nat_of_ascii c) <= 57) 
    by (revert Hd; cbv zeta; repeat zcase; cbn; first [lia|done]).
  destruct (Ascii.eqb_spec c SP) as [Hsp|_]; [exfalso; rewrite Hsp in Hr; change (48 <= 32 <= 57) in Hr; lia|].
  repeat zcase; cbn; first [done|lia].
Qed.

(** The header as the protocol defines it. *)
Definition proxy_header (p : ProxyInfo) : bytes :=
  join [SP] [str "PROXY"; protocol p; or_null (sourceAddress p); or_null (destinationAddress p);
    Long_toString (sourcePort p); Long_toString (destinationPort p)].

(** A header with its addresses is read back, and the line behind it is gone. *)
Theorem proxy_header_read_back proto src dst sport dport message rest :
  let p := {| protocol := proto; sourceAddress := Some src; destinationAddress := Some dst;
              sourcePort := sport; destinationPort := dport |} in
  forallb header_word [proto; src; dst] = true -> equalsIgnoreCase (str "UNKNOWN") proto = false ->
  in_int sport -> in_int dport -> forallb line_char message = true ->
  parse (proxy_header p ++ CRLF ++ message ++ CRLF ++ rest) = (Ok p, rest).
Proof.
  intros p Hw Hu Hs Hd Hm. unfold parse, proxy_header.
  assert (Hws : forallb header_word [str "PROXY"; proto; src; dst; Long_toString sport; Long_toString dport] = true).
  { cbn [forallb] in *. rewrite !Long_toString_word. by apply andb_true_iff in Hw as [-> [-> [-> _]%andb_true_iff]%andb_true_iff]. }
  unfold p. cbn [or_null protocol sourceAddress destinationAddress sourcePort destinationPort from_option id default].
  rewrite buffered_readLine_crlf by (by apply header_line_chars).
  rewrite buffered_readLine_crlf by done. rewrite split_spaces_words by done.
  cbn [nth]. rewrite Hu, !parseInt_toString by done. done.
Qed.

(** The short form of a header without addresses is not accepted, although UNKNOWN is
    provided for. *)
Theorem short_unknown_refused message :
  forallb line_char message = true ->
  parse (str "PROXY UNKNOWN" ++ CRLF ++ message ++ CRLF) =
    (Throw (IOException (str "Incomplete PROXY header: PROXY UNKNOWN")), []).
Proof.
  intros Hm. unfold parse. rewrite buffered_readLine_crlf by done.
  rewrite <- (app_nil_r CRLF), buffered_readLine_crlf by done. reflexivity.
Qed.
