(* ===== verification/Frames.v ===== *)
(** * Merging data frames (747.js, module 2854)

    The responses of a query that was split into shards are merged into one: frames that
    belong to the same series are added up point by point, the others are appended.  The
    code mutates the frames of the response it keeps; here each function returns the frame
    it leaves.  A frame is never shared between two responses, so nothing else sees that.

    Merging is partial in the model: [None] is a frame whose cells are not what their field
    type says (a time that is no integer, a sum of texts), for which the code would go on
    with JavaScript's conversions. *)

From S2P Require Import Prelude.
From S2P Require Import JavaScript.
From Stdlib Require Import SpecFloat Sorted.

(** ** Data *)

(** [FieldType] of Grafana, as far as the code tells its members apart. *)
Inductive FieldType : Type := TimeField | NumberField | StringField | OtherField | AnyField.
#[global] Instance FieldType_eq_dec : EqDecision FieldType.
Proof. solve_decision. Defined.

(** A cell.  A time is an integer, in milliseconds. *)
Inductive value : Type :=
  | Time (t : Z) | Num (x : spec_float) | Text (s : bytes) | Obj (o : list (bytes * bytes))
  | Null | Undefined.

Record Field := {
  f_name : bytes;
  f_type : FieldType;
  f_labels : option (list (bytes * bytes));
  f_values : list value;
  f_nanos : option (list Z)
}.

Inductive DataFrameType : Type := TimeSeriesMulti | OtherFrame (name : bytes).
#[global] Instance DataFrameType_eq_dec : EqDecision DataFrameType.
Proof. solve_decision. Defined.

Record Stat := { displayName : bytes; s_value : spec_float; s_unit : bytes }.

Record DataFrame := {
  refId : option bytes;
  fr_name : option bytes;
  fields : list Field;
  meta_type : option DataFrameType;
  frameType : option bytes;
  stats : list Stat;
  fr_length : nat
}.

Definition with_values (f : Field) (vs : list value) (ns : option (list Z)) : Field :=
  {| f_name := f_name f; f_type := f_type f; f_labels := f_labels f; f_values := vs; f_nanos := ns |}.
Definition with_name (e : DataFrame) (n : option bytes) : DataFrame :=
  {| refId := refId e; fr_name := n; fields := fields e; meta_type := meta_type e;
     frameType := frameType e; stats := stats e; fr_length := fr_length e |}.
Definition with_fields (e : DataFrame) (fs : list Field) (st : list Stat) (n : nat) : DataFrame :=
  {| refId := refId e; fr_name := fr_name e; fields := fs; meta_type := meta_type e;
     frameType := frameType e; stats := st; fr_length := n |}.

(** Grafana's [closestIdx] is a binary search in a sorted array, and -1 in an empty one. *)
Class GrafanaData := { closestIdx : Z -> list value -> Z }.

Class GrafanaDataLaws (G : GrafanaData) : Prop := {
  closest_nil x : closestIdx x [] < 0;
  closest_in x (l : list Z) :
    l <> [] -> StronglySorted Z.lt l ->
    exists i t, closestIdx x (Time <$> l) = Z.of_nat i /\ l !! i = Some t /\
      Forall (fun u => Z.abs (x - t) <= Z.abs (x - u)) l
}.

(** ** Cells *)

(** [l[i]] of an array. *)
Definition at_ (l : list value) (i : nat) : value := default Undefined (l !! i).
(** [l[i] = v], in or behind the array. *)
Definition set_at (l : list value) (i : nat) (v : value) : list value :=
  if decide (i < length l)%nat then <[i := v]> l
  else l ++ replicate (i - length l) Undefined ++ [v].
(** [l.splice(i, 0, v)]. *)
Definition splice {A} (l : list A) (i : nat) (v : A) : list A := firstn i l ++ [v] ++ skipn i l.

(** [x === y]; two objects are different objects. *)
Definition value_eq (x y : value) : bool :=
  match x, y with
  | Time t, Time u => t =? u
  | Num x, Num y => SFeqb x y
  | Text s, Text r => bool_decide (s = r)
  | Null, Null | Undefined, Undefined => true
  | _, _ => false
  end.
Definition defined (x : value) : bool := match x with Undefined => false | _ => true end.

(** [(x ?? 0) + y]. *)
Definition js_plus (x y : value) : option value :=
  match x, y with
  | Num x, Num y => Some (Num (js_add x y))
  | (Null | Undefined), Num y => Some (Num (js_add (S754_zero false) y))
  | _, _ => None
  end.

(** [{...x, ...y}] with [y] an object or null; a text spreads into its characters, which is
    left out. *)
Definition spread (x y : value) : option value :=
  let own v := match v with Obj o => Some o | Text _ => None | _ => Some [] end in
  a ← own x;
  b ← own y;
  Some (Obj (fold_left (fun o '(k, v) =>
    if decide (k ∈ o.*1) then (fun kv => if decide (kv.1 = k) then (k, v) else kv) <$> o
    else o ++ [(k, v)]) b a)).

(** ** One row *)

(** [C]: where row [n] of the source goes in the destination.  [None]: no integer times. *)
Definition insertion_index `{GrafanaData} (e t : Field) (n : nat) : option nat :=
  match at_ (f_values t) n with
  | Time x =>
      let a := closestIdx x (f_values e) in
      if a <? 0 then Some 0%nat
      else
        let i := Z.to_nat a in
        match at_ (f_values e) i with
        | Time y =>
            match f_nanos t, f_nanos e with
            | Some tn, Some en =>
                if x =? y then
                  Some match tn !! n, en !! i with
                       | Some p, Some q => if q <? p then S i else i
                       | _, _ => i
                       end
                else Some (if y <? x then S i else i)
            | _, _ => Some (if y <? x then S i else i)
            end
        | Undefined => Some i
        | _ => None
        end
  | _ => None
  end.

(** The two cells are defined and equal. *)
Definition same_cell (x y : value) : bool := defined x && value_eq x y.

(** [k]: the destination has that row already. *)
Definition exists_row (e : Field) (t : option Field) (n : nat) (r : Field) (a : option Field) (i : nat) : bool :=
  same_cell (at_ (f_values e) n) (at_ (f_values r) i)
  && match f_nanos e, f_nanos r with
     | Some en, Some rn => match en !! n, rn !! i with Some p, Some q => p =? q | _, _ => false end
     | _, _ => true
     end
  && match t, a with
     | Some t, Some a => same_cell (at_ (f_values t) n) (at_ (f_values a) i)
     | _, _ => true
     end.

(** [F]: the source field for a destination field. *)
Definition find_field (e : Field) (t : list Field) (n : nat) : option Field :=
  match List.filter (fun f => bool_decide (f_name f = f_name e)) t with
  | [f] => Some f
  | _ => t !! n
  end.

(** One cell of the row: [found] says that row [a] is there already. *)
Definition merge_cell (found : bool) (a n : nat) (e s : Field) : option Field :=
  let x := at_ (f_values e) a in
  let y := at_ (f_values s) n in
  if found then
    match f_type e with
    | TimeField => Some e
    | NumberField => z ← js_plus x y; Some (with_values e (set_at (f_values e) a z) (f_nanos e))
    | OtherField =>
        match y with
        | Obj _ | Null => z ← spread x y; Some (with_values e (set_at (f_values e) a z) (f_nanos e))
        | Undefined => Some e
        | _ => Some (with_values e (set_at (f_values e) a y) (f_nanos e))
        end
    | _ => Some (with_values e (set_at (f_values e) a y) (f_nanos e))
    end
  else if defined y then
    let vs := splice (f_values e) a y in
    match f_nanos s with
    | Some sn =>
        p ← sn !! n;
        Some (with_values e vs (Some (splice (default (replicate (length vs - 1) 0) (f_nanos e)) a p)))
    | None => Some (with_values e vs (f_nanos e))
    end
  else Some e.

(** ** One frame *)

Fixpoint find_index {A} (p : A -> bool) (l : list A) : option nat :=
  match l with [] => None | x :: l => if p x then Some 0%nat else S <$> find_index p l end.

Definition is_time (f : Field) : bool := bool_decide (f_type f = TimeField).
Definition is_number (f : Field) : bool := bool_decide (f_type f = NumberField).
Definition is_id (f : Field) : bool := bool_decide (f_type f = StringField /\ f_name f = str "id").

Definition STAT_BYTES : bytes := str "Summary: total bytes processed".
(** [P]. *)
Definition combine_stats (e t : list Stat) : list Stat :=
  let is_bytes s := bool_decide (displayName s = STAT_BYTES) in
  match List.find is_bytes e, List.find is_bytes t with
  | Some n, Some r =>
      [{| displayName := STAT_BYTES; s_value := js_add (s_value r) (s_value n); s_unit := s_unit n |}]
  | None, Some a | Some a, None => [a]
  | None, None => []
  end.

(** One row: where it goes is found first, then every field is brought up to date. *)
Definition merge_row `{GrafanaData} (i : nat) (s : option nat) (l : Field) (o : option Field)
    (t : list Field) (fs : list Field) (n : nat) : option (list Field) :=
  it ← fs !! i;
  a ← insertion_index it l n;
  let found := exists_row it (s ≫= fun s => fs !! s) a l o n in
  mapM (fun '(k, e) =>
    match find_field e t k with
    | Some s => merge_cell found a n e s
    | None => Some e
    end) (zip (seq 0 (length fs)) fs).

Definition foldM {A B} (f : A -> B -> option A) : A -> list B -> option A :=
  fix go a l := match l with [] => Some a | x :: l => a' ← f a x; go a' l end.

(** [mergeFrames(e, t)]. *)
Definition merge_frames `{GrafanaData} (e t : DataFrame) : option DataFrame :=
  match find_index is_time (fields e), List.find is_time (fields t) with
  | Some i, Some l =>
      fs ← foldM (merge_row i (find_index is_id (fields e)) l (List.find is_id (fields t)) (fields t))
             (fields e) (seq 0 (length (f_values l)));
      Some (with_fields e fs (combine_stats (stats e) (stats t))
        (match fs with f :: _ => length (f_values f) | [] => 0%nat end))
  | _, _ => Some e
  end.

(** ** Frames of one series *)

(** Do the two frames belong together?  For a time series each is named after its labels
    on the way. *)
Definition same_series (e t : DataFrame) : bool * DataFrame * DataFrame :=
  if negb (bool_decide (refId e = refId t)) then (false, e, t)
  else if match fr_name e, fr_name t with
          | Some a, Some b => negb (bool_decide (a = b)) | _, _ => false end then (false, e, t)
  else if negb (bool_decide (meta_type e = meta_type t)) then (false, e, t)
  else if bool_decide (meta_type e = Some TimeSeriesMulti) then
    match List.find is_number (fields e), List.find is_number (fields t) with
    | Some n, Some a =>
        let named (f : DataFrame) (v : Field) :=
          match fr_name f with None => with_name f (stringify <$> f_labels v) | Some _ => f end in
        let e := named e n in
        let t := named t a in
        (bool_decide (fr_name e = fr_name t), e, t)
    | _, _ => (false, e, t)
    end
  else (bool_decide (frameType e = frameType t), e, t).

(** [e.data.find(...)], with the names it leaves on the frames it looked at. *)
Fixpoint find_frame (data : list DataFrame) (t : DataFrame) : list DataFrame * DataFrame * option nat :=
  match data with
  | [] => ([], t, None)
  | e :: data =>
      let '(b, e, t) := same_series e t in
      if b then (e :: data, t, Some 0%nat)
      else let '(data, t, i) := find_frame data t in (e :: data, t, S <$> i)
  end.

(** One frame of the new response. *)
Definition combine_frame `{GrafanaData} (data : list DataFrame) (t : DataFrame) : option (list DataFrame) :=
  match find_frame data t with
  | (data, t, Some i) => e ← data !! i; e' ← merge_frames e t; Some (<[i := e']> data)
  | (data, t, None) => Some (data ++ [t])
  end.

(** ** Responses *)

Record Response := {
  data : list DataFrame;
  errors : option (list (option bytes));
  error : option (option bytes);
  traceIds : option (list bytes)
}.

(** [[...(e ?? []), ...(t ?? [])]], set if there is any. *)
Definition append_opt {A} (e t : option (list A)) : option (list A) :=
  match default [] e ++ default [] t with [] => e | l => Some l end.

(** [combineResponses(e, t)] with a response in [e]. *)
Definition combine_responses `{GrafanaData} (e t : Response) : option Response :=
  d ← foldM combine_frame (data e) (data t);
  Some {| data := d; errors := append_opt (errors e) (errors t);
          error := match error e with Some m => Some m | None => error t end;
          traceIds := append_opt (traceIds e) (traceIds t) |}.

(** The response the code starts from. *)
Definition no_response : Response := {| data := []; errors := None; error := None; traceIds := None |}.
