(* ===== verification/FramesCorrect.v ===== *)
(** * Merged frames add up point by point

    A frame of a metric query holds one series: a field of strictly ascending times and a
    field of numbers.  Merging frames of that shape never leaves the model, keeps the shape,
    and gives at every time the sum of what the frames have there ([merge_frames_series]);
    merging responses does so series by series ([combine_data_points]). *)

From S2P Require Import Prelude.
From stdpp Require Import gmap.
From S2P Require Import JavaScript.
From S2P Require Import Frames.
From Stdlib Require Import SpecFloat Sorted.
#[local] Open Scope nat_scope.

(** ** Points *)

Abbreviation points := (list (Z * spec_float)).
Definition sorted (p : points) : Prop := StronglySorted Z.lt p.*1.

(** Where a time belongs. *)
Fixpoint position (x : Z) (p : points) : nat :=
  match p with [] => 0 | (t, _) :: p => if (t <? x)%Z then S (position x p) else 0 end.

Fixpoint add_point (x : Z) (v : spec_float) (p : points) : points :=
  match p with
  | [] => [(x, v)]
  | (t, w) :: r =>
      if (t <? x)%Z then (t, w) :: add_point x v r
      else if (t =? x)%Z then (t, js_add w v) :: r
      else (x, v) :: p
  end.
Definition add_points (p p' : points) : points := fold_left (fun p '(x, v) => add_point x v p) p' p.

Lemma sorted_cons t w p : sorted ((t, w) :: p) <-> sorted p /\ Forall (fun y => (t < y.1)%Z) p.
Proof.
  unfold sorted. rewrite fmap_cons. split.
  - intros Hs. apply StronglySorted_inv in Hs as [Hs Ht]. split; [exact Hs|].
    rewrite Forall_fmap in Ht. exact Ht.
  - intros [Hs Ht]. constructor; [exact Hs|]. rewrite Forall_fmap. exact Ht.
Qed.

Lemma add_point_bound x v p t :
  (t < x)%Z -> Forall (fun y => (t < y.1)%Z) p -> Forall (fun y => (t < y.1)%Z) (add_point x v p).
Proof.
  intros Hx. induction p as [|[u w] p IH]; cbn [add_point]; intros Hp.
  - now repeat constructor.
  - inversion Hp; subst. destruct (u <? x)%Z; [|destruct (u =? x)%Z]; repeat constructor; auto.
Qed.

Lemma add_point_sorted x v p : sorted p -> sorted (add_point x v p).
Proof.
  induction p as [|[t w] p IH]; cbn [add_point]; intros Hs.
  - repeat constructor.
  - apply sorted_cons in Hs as Hs'. destruct Hs' as [Hp Ht].
    destruct (Z.ltb_spec t x); [|destruct (Z.eqb_spec t x)]; apply sorted_cons.
    + split; [auto|]. now apply add_point_bound.
    + now split.
    + split; [exact Hs|]. constructor; [cbn; lia|].
      eapply Forall_impl; [exact Ht|]. cbn; intros; lia.
Qed.

Lemma add_points_sorted p p' : sorted p -> sorted (add_points p p').
Proof.
  revert p; induction p' as [|[x v] p' IH]; intros p Hp; [exact Hp|].
  apply IH. now apply add_point_sorted.
Qed.

(** Later points are later. *)
Lemma sorted_lookup p i j t u :
  sorted p -> p.*1 !! i = Some t -> p.*1 !! j = Some u -> i < j -> (t < u)%Z.
Proof.
  revert i j; induction p as [|[t' w] p IH]; intros [|i] [|j] Hs; try easy; rewrite fmap_cons; cbn [lookup list_lookup fst];
    apply sorted_cons in Hs as [Hs Ht]; intros Hi Hj Hlt; try lia.
  - injection Hi as ->. apply list_elem_of_lookup_2, list_elem_of_fmap in Hj as (y & -> & Hy).
    rewrite list.Forall_forall in Ht. now apply Ht.
  - apply (IH i j); auto; lia.
Qed.

(** *** As a map *)

Definition point_map (p : points) : gmap Z spec_float := list_to_map p.
Definition sum (a b : spec_float) : option spec_float := Some (js_add a b).

Lemma point_map_below t p x :
  Forall (fun y => (t < y.1)%Z) p -> (x <= t)%Z -> point_map p !! x = None.
Proof.
  intros Hp Hx. apply not_elem_of_list_to_map_1. rewrite list_elem_of_fmap.
  intros ([y w] & -> & Hy). rewrite list.Forall_forall in Hp. specialize (Hp _ Hy). cbn in *. lia.
Qed.

Lemma point_map_nil : point_map [] = ∅.
Proof. reflexivity. Qed.

Lemma point_map_cons t w p : point_map ((t, w) :: p) = <[t := w]> (point_map p).
Proof. reflexivity. Qed.

Lemma point_map_add x v p :
  sorted p -> point_map (add_point x v p) = <[x := match point_map p !! x with
                                                    | Some w => js_add w v | None => v end]> (point_map p).
Proof.
  induction p as [|[t w] p IH]; cbn [add_point]; intros Hs.
  { rewrite point_map_cons, point_map_nil, lookup_empty. reflexivity. }
  apply sorted_cons in Hs as [Hp Ht].
  destruct (Z.ltb_spec t x) as [Hl|Hl]; [|destruct (Z.eqb_spec t x) as [->|Hn]]; rewrite !point_map_cons.
  - rewrite IH by exact Hp. rewrite (lookup_insert_ne _ t x) by lia. rewrite insert_insert_ne by lia. easy.
  - rewrite lookup_insert_eq. now rewrite insert_insert_eq.
  - rewrite lookup_insert_ne by lia. rewrite (point_map_below t p x Ht) by lia. easy.
Qed.

Lemma point_map_lookup_add x v p y :
  sorted p ->
  point_map (add_point x v p) !! y = union_with sum (point_map p !! y) (point_map [(x, v)] !! y).
Proof.
  intros Hp. rewrite point_map_add, (point_map_cons x v []), point_map_nil by exact Hp.
  destruct (decide (x = y)) as [->|Hn].
  - rewrite !lookup_insert_eq. destruct (point_map p !! y); reflexivity.
  - rewrite !lookup_insert_ne, lookup_empty by exact Hn. destruct (point_map p !! y); reflexivity.
Qed.

(** Adding the points of a series gives the sums of the two. *)
Lemma point_map_add_points p p' :
  sorted p -> sorted p' ->
  point_map (add_points p p') = union_with sum (point_map p) (point_map p').
Proof.
  revert p; induction p' as [|[x v] p' IH]; intros p Hp Hp'; apply map_eq; intros y; rewrite lookup_union_with.
  - change (add_points p []) with p. rewrite point_map_nil, lookup_empty. destruct (point_map p !! y); reflexivity.
  - change (add_points p ((x, v) :: p')) with (add_points (add_point x v p) p').
    apply sorted_cons in Hp' as [Hp' Hx].
    rewrite IH, lookup_union_with, point_map_lookup_add, !point_map_cons, point_map_nil by auto using add_point_sorted.
    destruct (decide (x = y)) as [->|Hn].
    + rewrite !lookup_insert_eq, (point_map_below y p' y Hx) by lia.
      destruct (point_map p !! y); reflexivity.
    + rewrite !lookup_insert_ne, lookup_empty by exact Hn.
      destruct (point_map p !! y), (point_map p' !! y); reflexivity.
Qed.

(** *** By position *)

Lemma position_spec x p :
  sorted p ->
  forall a,
    (forall j t, p.*1 !! j = Some t -> (j < a <-> (t < x)%Z)) -> a <= length p -> a = position x p.
Proof.
  induction p as [|[t w] p IH]; intros Hs a Ha Hl; [cbn in *; lia|].
  apply sorted_cons in Hs as [Hs Ht]. cbn [position].
  pose proof (Ha 0 t eq_refl) as H0. destruct (Z.ltb_spec t x).
  - destruct a as [|a]; [lia|]. f_equal. apply IH; [exact Hs| |cbn in Hl; lia].
    intros j u Hj. rewrite <- (Ha (S j) u Hj). lia.
  - destruct a; lia.
Qed.

Lemma position_le x p : position x p <= length p.
Proof. induction p as [|[t w] p IH]; cbn; [lia|]. destruct (t <? x)%Z; lia. Qed.

Lemma add_point_splice x v p :
  p.*1 !! position x p <> Some x -> add_point x v p = splice p (position x p) (x, v).
Proof.
  unfold splice. induction p as [|[t w] p IH]; cbn; [easy|].
  destruct (Z.ltb_spec t x) as [Hl|Hl]; cbn.
  - intros Hn. now rewrite IH.
  - intros Hn. destruct (Z.eqb_spec t x) as [->|]; easy.
Qed.

Lemma add_point_found x v p :
  p.*1 !! position x p = Some x ->
  exists w, p !! position x p = Some (x, w) /\ add_point x v p = <[position x p := (x, js_add w v)]> p.
Proof.
  induction p as [|[t w] p IH]; cbn; [easy|].
  destruct (Z.ltb_spec t x) as [Hl|Hl]; cbn.
  - intros Hx. destruct (IH Hx) as (w' & Hw & ->). now exists w'.
  - intros [= ->]. rewrite Z.eqb_refl. now exists w.
Qed.

(** ** The series of a frame *)

(** What tells series apart: the query they answer, and their name or their labels. *)
Definition key (e : DataFrame) : option bytes * option bytes :=
  (refId e, match fr_name e with
            | Some n => Some n
            | None => n ← List.find is_number (fields e); stringify <$> f_labels n
            end).

(** The points of a frame. *)
Definition frame_points (e : DataFrame) : points :=
  match fields e with
  | [f; g] => omap (fun '(a, b) => match a, b with Time t, Num x => Some (t, x) | _, _ => None end)
                (zip (f_values f) (f_values g))
  | _ => []
  end.

(** The value of a series at a time, in a response and in one frame. *)
Definition point (d : list DataFrame) (k : option bytes * option bytes) (x : Z) : option spec_float :=
  e ← List.find (fun e => bool_decide (key e = k)) d; point_map (frame_points e) !! x.
Definition contribution (k : option bytes * option bytes) (x : Z) (t : DataFrame) : option spec_float :=
  if decide (key t = k) then point_map (frame_points t) !! x else None.

(** Naming a frame after its labels changes nothing else. *)
Definition like (e e' : DataFrame) : Prop :=
  key e' = key e /\ fields e' = fields e /\ meta_type e' = meta_type e.

#[global] Instance like_refl : Reflexive like.
Proof. now intros e. Qed.

Lemma like_frame_points e e' : like e e' -> frame_points e' = frame_points e.
Proof. intros (_ & Hf & _). unfold frame_points. now rewrite Hf. Qed.

Lemma point_like d d' k x : Forall2 like d d' -> point d' k x = point d k x.
Proof.
  unfold point. induction 1 as [|e e' d d' He Hd IH]; [reflexivity|]. cbn [List.find].
  rewrite (proj1 He). case_bool_decide; [|exact IH]. cbn. now rewrite (like_frame_points _ _ He).
Qed.

Lemma keys_like (d d' : list DataFrame) : Forall2 like d d' -> key <$> d' = key <$> d.
Proof. induction 1 as [|e e' d d' (He & _) Hd IH]; [easy|]. now rewrite !fmap_cons, He, IH. Qed.

Lemma point_not_in d k x : k ∉ key <$> d -> point d k x = None.
Proof.
  unfold point. induction d as [|e d IH]; [easy|]. rewrite fmap_cons, not_elem_of_cons. intros [Hk Hd].
  cbn [List.find]. now rewrite bool_decide_eq_false_2, IH by congruence.
Qed.

Lemma point_app d t k x :
  key t ∉ key <$> d -> point (d ++ [t]) k x = union_with sum (point d k x) (contribution k x t).
Proof.
  intros Ht. unfold contribution. destruct (decide (key t = k)) as [<-|Hk].
  - rewrite (point_not_in d) by exact Ht. unfold point. induction d as [|e d IH]; cbn [app List.find].
    + rewrite bool_decide_eq_true_2 by easy. cbn. now destruct (_ !! x).
    + rewrite fmap_cons, not_elem_of_cons in Ht. destruct Ht as [Hk Ht].
      rewrite bool_decide_eq_false_2 by congruence. auto.
  - transitivity (point d k x); [|now destruct (point d k x)].
    unfold point. clear Ht. induction d as [|e d IH]; cbn [app List.find].
    + now rewrite bool_decide_eq_false_2.
    + case_bool_decide; [easy|exact IH].
Qed.

Lemma point_at d i e x :
  NoDup (key <$> d) -> d !! i = Some e -> point d (key e) x = point_map (frame_points e) !! x.
Proof.
  unfold point. revert i; induction d as [|e' d IH]; intros [|i]; rewrite ?fmap_cons; intros Hd Hi; try easy;
    apply list.NoDup_cons in Hd as [He' Hd]; cbn [List.find].
  - injection Hi as ->. now rewrite bool_decide_eq_true_2.
  - rewrite bool_decide_eq_false_2; [now apply (IH i)|]. intros Hk. apply He'. rewrite Hk.
    apply list_elem_of_fmap. exists e. split; [easy|]. exact (list_elem_of_lookup_2 d i e Hi).
Qed.

Lemma keys_insert (d : list DataFrame) (i : nat) e e' :
  d !! i = Some e -> key e' = key e -> key <$> <[i := e']> d = key <$> d.
Proof.
  intros Hi He. rewrite list_fmap_insert. apply list_insert_id. now rewrite list_lookup_fmap, Hi, He.
Qed.

Lemma point_insert_ne d i e e' k x :
  d !! i = Some e -> key e' = key e -> key e <> k -> point (<[i := e']> d) k x = point d k x.
Proof.
  unfold point. revert i; induction d as [|e0 d IH]; intros [|i] Hi He Hk; try easy; cbn.
  - injection Hi as ->. now rewrite !bool_decide_eq_false_2 by congruence.
  - case_bool_decide; [easy|]. now apply (IH i).
Qed.

(** ** Frames of one series *)

Section Series.
Context {G : GrafanaData} {L : GrafanaDataLaws G}.
Context (tn vn : bytes) (Hn : tn <> vn).

Definition time_field (l : option (list (bytes * bytes))) (p : points) : Field :=
  {| f_name := tn; f_type := TimeField; f_labels := l; f_values := Time <$> p.*1; f_nanos := None |}.
Definition value_field (l : option (list (bytes * bytes))) (p : points) : Field :=
  {| f_name := vn; f_type := NumberField; f_labels := l; f_values := Num <$> p.*2; f_nanos := None |}.

(** The fields of a series. *)
Definition series_fields (lt lv : option (list (bytes * bytes))) (p : points) : list Field :=
  [time_field lt p; value_field lv p].

Lemma at_time lt p n x v : p !! n = Some (x, v) -> at_ (f_values (time_field lt p)) n = Time x.
Proof. intros Hp. unfold at_. cbn. now rewrite !list_lookup_fmap, Hp. Qed.
Lemma at_value lv p n x v : p !! n = Some (x, v) -> at_ (f_values (value_field lv p)) n = Num v.
Proof. intros Hp. unfold at_. cbn. now rewrite !list_lookup_fmap, Hp. Qed.

Lemma insertion_index_position lt lt' p p' n x v :
  sorted p -> p' !! n = Some (x, v) ->
  insertion_index (time_field lt p) (time_field lt' p') n = Some (position x p).
Proof.
  intros Hp Hn'. unfold insertion_index. rewrite (at_time _ _ _ _ _ Hn').
  destruct (decide (p = [])) as [->|Hne].
  { pose proof (closest_nil x). cbn. now destruct (Z.ltb_spec (closestIdx x []) 0); [|lia]. }
  destruct (closest_in x p.*1) as (i & t & Hi & Ht & Hmin).
  { intros He. now apply fmap_nil_inv in He. }
  { exact Hp. }
  cbn [f_values time_field]. rewrite Hi.
  destruct (Z.ltb_spec (Z.of_nat i) 0) as [|_]; [lia|]. rewrite Nat2Z.id.
  unfold at_. rewrite list_lookup_fmap, Ht. cbn [option_fmap option_map default f_nanos fmap].
  f_equal.
  assert (Hb : i < length p.*1) by now apply lookup_lt_Some in Ht.
  rewrite length_fmap in Hb.
  assert (Hmin' : forall j u, p.*1 !! j = Some u -> (Z.abs (x - t) <= Z.abs (x - u))%Z).
  { intros j u Hj. rewrite list.Forall_forall in Hmin. eapply Hmin, list_elem_of_lookup_2, Hj. }
  apply position_spec; [exact Hp| |destruct (t <? x)%Z; lia].
  intros j u Hj. specialize (Hmin' j u Hj).
  pose proof (sorted_lookup p i j t u Hp Ht Hj). pose proof (sorted_lookup p j i u t Hp Hj Ht).
  assert (i = j -> t = u) by (intros ->; congruence).
  destruct (Z.ltb_spec t x); lia.
Qed.
Lemma exists_row_position lt lt' p p' n x v :
  p' !! n = Some (x, v) ->
  exists_row (time_field lt p) None (position x p) (time_field lt' p') None n
    = bool_decide (p.*1 !! position x p = Some x).
Proof.
  intros Hx. unfold exists_row. rewrite (at_time _ _ _ _ _ Hx). cbn [f_nanos time_field].
  rewrite !andb_true_r. unfold at_. cbn [f_values time_field]. rewrite (list_lookup_fmap Time).
  destruct (p.*1 !! position x p) as [t|]; cbn.
  - destruct (Z.eqb_spec t x) as [->|Ht]; [now rewrite bool_decide_eq_true_2|].
    rewrite bool_decide_eq_false_2; congruence.
  - now rewrite bool_decide_eq_false_2.
Qed.

Lemma find_time_field lt lt' lv' p p' k : find_field (time_field lt p) (series_fields lt' lv' p') k = Some (time_field lt' p').
Proof. unfold find_field. cbn. now rewrite bool_decide_eq_true_2, bool_decide_eq_false_2 by auto. Qed.
Lemma find_value_field lv lt' lv' p p' k : find_field (value_field lv p) (series_fields lt' lv' p') k = Some (value_field lv' p').
Proof. unfold find_field. cbn. now rewrite bool_decide_eq_false_2, bool_decide_eq_true_2 by auto. Qed.

Lemma fmap_splice {A B} (f : A -> B) l i x : f <$> splice l i x = splice (f <$> l) i (f x).
Proof. unfold splice. now rewrite !fmap_app, fmap_take, fmap_drop. Qed.

Lemma set_at_lt l i v : i < length l -> set_at l i v = <[i := v]> l.
Proof. intros Hi. unfold set_at. now rewrite decide_True by exact Hi. Qed.

Lemma merge_time_cell lt lt' p p' n x v :
  p' !! n = Some (x, v) ->
  merge_cell (bool_decide (p.*1 !! position x p = Some x)) (position x p) n (time_field lt p) (time_field lt' p')
    = Some (time_field lt (add_point x v p)).
Proof.
  intros Hx. unfold merge_cell. rewrite (at_time _ _ _ _ _ Hx).
  destruct (decide (p.*1 !! position x p = Some x)) as [He|He].
  - rewrite bool_decide_eq_true_2 by exact He.
    destruct (add_point_found x v p He) as (w & Hw & ->). cbn [f_type time_field].
    unfold time_field. rewrite list_fmap_insert. cbn [fst].
    rewrite (list_insert_id _ _ _ He). reflexivity.
  - rewrite bool_decide_eq_false_2 by exact He. rewrite add_point_splice by exact He.
    cbn [defined f_nanos time_field]. unfold with_values, time_field. cbn [f_name f_type f_labels f_nanos f_values].
    now rewrite !fmap_splice.
Qed.

Lemma merge_value_cell lv lv' p p' n x v :
  p' !! n = Some (x, v) ->
  merge_cell (bool_decide (p.*1 !! position x p = Some x)) (position x p) n (value_field lv p) (value_field lv' p')
    = Some (value_field lv (add_point x v p)).
Proof.
  intros Hx. unfold merge_cell. rewrite (at_value _ _ _ _ _ Hx).
  destruct (decide (p.*1 !! position x p = Some x)) as [He|He].
  - rewrite bool_decide_eq_true_2 by exact He.
    destruct (add_point_found x v p He) as (w & Hw & ->). cbn [f_type value_field].
    rewrite (at_value _ _ _ _ _ Hw). cbn [js_plus mbind option_bind].
    unfold with_values, value_field. cbn [f_name f_type f_labels f_nanos f_values].
    rewrite set_at_lt, !list_fmap_insert; [reflexivity|].
    rewrite !length_fmap. now apply lookup_lt_Some in Hw.
  - rewrite bool_decide_eq_false_2 by exact He. rewrite add_point_splice by exact He.
    cbn [defined f_nanos value_field]. unfold with_values, value_field. cbn [f_name f_type f_labels f_nanos f_values].
    now rewrite !fmap_splice.
Qed.

(** One row adds its point. *)
Lemma merge_row_series lt lv lt' lv' p p' n x v :
  sorted p -> p' !! n = Some (x, v) ->
  merge_row 0 None (time_field lt' p') None (series_fields lt' lv' p') (series_fields lt lv p) n
    = Some (series_fields lt lv (add_point x v p)).
Proof.
  intros Hp Hx. unfold merge_row.
  change (series_fields lt lv p !! 0) with (Some (time_field lt p)). cbn [mbind option_bind].
  rewrite (insertion_index_position _ _ _ _ _ _ _ Hp Hx). cbn [mbind option_bind].
  rewrite (exists_row_position _ _ _ _ _ _ _ Hx).
  change (zip (seq 0 (length (series_fields lt lv p))) (series_fields lt lv p))
    with [(0, time_field lt p); (1, value_field lv p)].
  cbn [mapM mbind option_bind]. rewrite find_time_field, find_value_field.
  rewrite (merge_time_cell _ _ _ _ _ _ _ Hx), (merge_value_cell _ _ _ _ _ _ _ Hx). reflexivity.
Qed.

Lemma merge_rows_series lt lv lt' lv' p' done_ p rest :
  sorted p -> p' = done_ ++ rest ->
  foldM (merge_row 0 None (time_field lt' p') None (series_fields lt' lv' p')) (series_fields lt lv p)
    (seq (length done_) (length rest)) = Some (series_fields lt lv (add_points p rest)).
Proof.
  revert done_ p; induction rest as [|[x v] rest IH]; intros done_ p Hp He; [reflexivity|].
  cbn [length seq foldM].
  rewrite (merge_row_series _ _ _ _ _ _ _ x v Hp) by (rewrite He; apply list_lookup_middle; easy).
  cbn [mbind option_bind].
  change (add_points p ((x, v) :: rest)) with (add_points (add_point x v p) rest).
  rewrite <- (IH (done_ ++ [(x, v)]) (add_point x v p)).
  - rewrite length_app. cbn [length]. rewrite Nat.add_1_r. reflexivity.
  - now apply add_point_sorted.
  - now rewrite He, <- app_assoc.
Qed.

(** A frame that holds one series. *)
Definition series (e : DataFrame) (p : points) : Prop :=
  (exists lt lv, fields e = series_fields lt lv p) /\ sorted p.

Lemma merge_frames_series e t p p' :
  series e p -> series t p' ->
  exists e', merge_frames e t = Some e' /\ series e' (add_points p p') /\
    key e' = key e /\ meta_type e' = meta_type e /\ fr_length e' = length (add_points p p').
Proof.
  intros ((lt & lv & He) & Hp) ((lt' & lv' & Ht) & Hp').
  pose proof (merge_rows_series lt lv lt' lv' p' [] p p' Hp eq_refl) as Hrows.
  unfold merge_frames. rewrite He, Ht.
  change (find_index is_time (series_fields lt lv p)) with (Some 0).
  change (List.find is_time (series_fields lt' lv' p')) with (Some (time_field lt' p')).
  change (find_index is_id (series_fields lt lv p)) with (None : option nat).
  change (List.find is_id (series_fields lt' lv' p')) with (None : option Field).
  cbn [f_values time_field]. rewrite !length_fmap. cbn [length] in Hrows.
  fold (time_field lt' p'). rewrite Hrows. cbn [mbind option_bind].
  eexists; split; [reflexivity|]. cbn.
  split; [split; [now exists lt, lv|now apply add_points_sorted]|].
  split; [|now rewrite !length_fmap].
  unfold key. rewrite He. reflexivity.
Qed.

Lemma series_points e p : series e p -> frame_points e = p.
Proof.
  intros ((lt & lv & He) & _). unfold frame_points. rewrite He. cbn [series_fields f_values time_field value_field].
  clear He. induction p as [|[t w] p IH]; [easy|]. rewrite !fmap_cons. cbn. now f_equal.
Qed.

(** ** Responses *)

(** A frame of a metric query: a time series. *)
Definition good (e : DataFrame) : Prop := series e (frame_points e) /\ meta_type e = Some TimeSeriesMulti.
(** Frames of different series. *)
Definition good_data (d : list DataFrame) : Prop := NoDup (key <$> d) /\ Forall good d.

Lemma good_like e e' : like e e' -> good e -> good e'.
Proof.
  intros He [[Hf Hs] Hm]. unfold good, series. rewrite (like_frame_points _ _ He).
  destruct He as (_ & Hf' & Hm'). now rewrite Hf', Hm'.
Qed.

Lemma good_number e : good e -> exists v, List.find is_number (fields e) = Some v.
Proof. intros [[(lt & lv & He) _] _]. rewrite He. now exists (value_field lv (frame_points e)). Qed.

Lemma same_series_key e t :
  good e -> good t ->
  exists e' t', same_series e t = (bool_decide (key e = key t), e', t') /\ like e e' /\ like t t'.
Proof.
  intros He Ht. destruct (good_number e He) as (n & Hne), (good_number t Ht) as (a & Hat).
  destruct He as [_ He], Ht as [_ Ht]. unfold same_series.
  destruct (decide (refId e = refId t)) as [Hr|Hr].
  2:{ rewrite (bool_decide_eq_false_2 (refId e = refId t)) by exact Hr. cbn [negb].
      exists e, t. rewrite (bool_decide_eq_false_2 (key e = key t)); [repeat split|]. intros Hk. now injection Hk as Hk _. }
  rewrite (bool_decide_eq_true_2 (refId e = refId t)) by exact Hr. cbn [negb].
  assert (Hnamed : forall f v, List.find is_number (fields f) = Some v ->
    let f' := match fr_name f with None => with_name f (stringify <$> f_labels v) | Some _ => f end in
    like f f' /\ fr_name f' = (key f).2).
  { intros f v Hv. unfold like, key. destruct (fr_name f) as [nm|] eqn:Hf; cbn; [now rewrite Hf|].
    rewrite Hv. cbn. now destruct (f_labels v). }
  rewrite (bool_decide_eq_true_2 (meta_type e = meta_type t)) by congruence. cbn [negb].
  rewrite (bool_decide_eq_true_2 (meta_type e = Some TimeSeriesMulti)) by exact He.
  rewrite Hne, Hat. destruct (Hnamed e n Hne) as [Hle Hke], (Hnamed t a Hat) as [Hlt Hkt].
  destruct (match fr_name e with
            | Some x => match fr_name t with Some y => negb (bool_decide (x = y)) | None => false end
            | None => false end) eqn:Hdiff.
  - exists e, t. rewrite (bool_decide_eq_false_2 (key e = key t)); [repeat split|]. intros Hk. unfold key in Hk.
    destruct (fr_name e) as [x|], (fr_name t) as [y|]; try easy.
    apply negb_true_iff, bool_decide_eq_false in Hdiff. now injection Hk as _ Hk.
  - cbv zeta in *. eexists _, _. split; [|split; [exact Hle|exact Hlt]]. f_equal. f_equal.
    rewrite Hke, Hkt. apply bool_decide_ext. unfold key. cbn [snd]. rewrite Hr. split; congruence.
Qed.

Lemma find_frame_spec d t :
  Forall good d -> good t ->
  exists d' t' i, find_frame d t = (d', t', i) /\ Forall2 like d d' /\ like t t' /\
    match i with
    | Some i => exists e, d' !! i = Some e /\ key e = key t
    | None => key t ∉ key <$> d
    end.
Proof.
  revert t; induction d as [|e d IH]; intros t Hd Ht; cbn [find_frame].
  { exists [], t, None. now repeat split. }
  inversion Hd as [|? ? He Hd']; subst.
  destruct (same_series_key e t He Ht) as (e' & t' & -> & Hle & Hlt).
  destruct (decide (key e = key t)) as [Hk|Hk].
  - rewrite bool_decide_eq_true_2 by exact Hk. exists (e' :: d), t', (Some 0). split; [easy|].
    split; [constructor; [easy|reflexivity]|]. split; [easy|]. exists e'. split; [easy|].
    destruct Hle as (-> & _). exact Hk.
  - rewrite bool_decide_eq_false_2 by exact Hk.
    destruct (IH t' Hd' (good_like _ _ Hlt Ht)) as (d' & t2 & i & -> & Hd2 & Hlt2 & Hi).
    exists (e' :: d'), t2, (S <$> i). split; [easy|]. split; [now constructor|].
    pose proof (proj1 Hlt) as Hkt. split.
    { destruct Hlt as (? & ? & ?), Hlt2 as (? & ? & ?). repeat split; congruence. }
    destruct i as [i|].
    + destruct Hi as (e0 & He0 & Hk0). exists e0. split; [exact He0|]. congruence.
    + change (key t ∉ key <$> (e :: d)). rewrite fmap_cons, not_elem_of_cons, <- Hkt. split; [congruence|exact Hi].
Qed.

(** Adding a frame adds its points, whatever series and time. *)
Lemma combine_frame_point d t :
  good_data d -> good t ->
  exists d', combine_frame d t = Some d' /\ good_data d' /\
    forall k x, point d' k x = union_with sum (point d k x) (contribution k x t).
Proof.
  intros [Hnd Hd] Ht. destruct (find_frame_spec d t Hd Ht) as (d1 & t1 & i & Hfind & Hl & Hlt & Hi).
  assert (Hd1 : Forall good d1).
  { clear -Hl Hd. induction Hl; [easy|]. inversion Hd; subst. constructor; [eapply good_like; eassumption|auto]. }
  assert (Hnd1 : NoDup (key <$> d1)) by now rewrite (keys_like _ _ Hl).
  assert (Hc : forall k x, contribution k x t1 = contribution k x t).
  { intros k x. unfold contribution. now rewrite (proj1 Hlt), (like_frame_points _ _ Hlt). }
  unfold combine_frame. rewrite Hfind. destruct i as [i|].
  - destruct Hi as (e & He & Hk). rewrite He. cbn [mbind option_bind].
    assert (Hge : good e) by (rewrite list.Forall_forall in Hd1; eapply Hd1, list_elem_of_lookup_2, He).
    pose proof (good_like _ _ Hlt Ht) as Ht1.
    destruct (merge_frames_series e t1 _ _ (proj1 Hge) (proj1 Ht1)) as (e' & -> & Hs & Hk' & Hm & _).
    cbn [mbind option_bind]. eexists; split; [reflexivity|].
    assert (Hge' : good e').
    { split; [|now rewrite Hm; apply Hge]. now rewrite (series_points _ _ Hs). }
    split.
    + split; [now rewrite (keys_insert _ _ _ _ He Hk')|]. now apply Forall_insert.
    + intros k x. rewrite <- (point_like d d1), <- Hc by exact Hl. unfold contribution.
      destruct (decide (key t1 = k)) as [<-|Hne].
      * rewrite (proj1 Hlt), <- Hk, (point_at d1 i e) by assumption.
        rewrite <- Hk', (point_at (<[i:=e']> d1) i e').
        -- rewrite (series_points _ _ Hs), point_map_add_points by (apply Hge || apply Ht1).
           now rewrite lookup_union_with.
        -- now rewrite (keys_insert _ _ _ _ He Hk').
        -- apply list_lookup_insert_eq. now apply lookup_lt_Some in He.
      * rewrite (point_insert_ne _ _ e) by (try assumption; destruct Hlt as [Hkt _]; congruence).
        destruct (point d1 k x); reflexivity.
  - eexists; split; [reflexivity|]. split.
    + split.
      * rewrite fmap_app. apply NoDup_app. split; [exact Hnd1|]. split; [|apply NoDup_singleton].
        intros k Hk Hk'. apply list_elem_of_singleton in Hk' as ->.
        rewrite (keys_like _ _ Hl), (proj1 Hlt) in Hk. contradiction.
      * apply Forall_app. split; [exact Hd1|]. apply list.Forall_singleton. eapply good_like; eassumption.
    + intros k x. rewrite point_app, Hc, (point_like d d1) by
        (try exact Hl; rewrite (keys_like _ _ Hl), (proj1 Hlt); exact Hi). reflexivity.
Qed.

Lemma combine_data_points d ts :
  good_data d -> Forall good ts ->
  exists d', foldM combine_frame d ts = Some d' /\ good_data d' /\
    forall k x, point d' k x = fold_left (fun o t => union_with sum o (contribution k x t)) ts (point d k x).
Proof.
  revert d; induction ts as [|t ts IH]; intros d Hd Hts; [now exists d|].
  inversion Hts as [|? ? Ht Hts']; subst. cbn [foldM fold_left].
  destruct (combine_frame_point d t Hd Ht) as (d1 & -> & Hd1 & Hp). cbn [mbind option_bind].
  destruct (IH d1 Hd1 Hts') as (d2 & -> & Hd2 & Hp2). exists d2. split; [easy|]. split; [easy|].
  intros k x. now rewrite Hp2, Hp.
Qed.
End Series.
