(* ===== verification/Filters.v ===== *)
(** * Label filters of the profiles explorer (75.js of the Pyroscope bundle)

    The list of label filters that the explorer's filter variable holds ([rn]) and
    the three operations behind its include, exclude and clear buttons ([Xt], [Zt],
    [en]), with the expression that is sent to the server.  What a list of filters
    means is [accepts]; the lemmas say what each button does to it. *)

From S2P Require Import Prelude.

(** ** JavaScript strings and sets *)

Definition BAR : ascii := "|"%char.

(** [s.split("|")]: never empty. *)
Fixpoint split_bar (s : bytes) : list bytes :=
  match s with
  | [] => [[]]
  | c :: s =>
      if c =c? BAR then [] :: split_bar s
      else match split_bar s with
           | w :: ws => (c :: w) :: ws
           | [] => [[c]]
           end
  end.

(** A JavaScript [Set] in insertion order: [set.add(x)], [new Set(l)]. *)
Definition set_add (l : list bytes) (x : bytes) : list bytes := if decide (x ∈ l) then l else l ++ [x].
Definition new_set (l : list bytes) : list bytes := fold_left set_add l [].

(** ** Filters *)

Record Filter := { key : bytes; operator : bytes; value : bytes }.

#[global] Instance Filter_eq_dec : EqDecision Filter.
Proof. solve_decision. Defined.

(** The operators of [E]. *)
Definition EQ : bytes := str "=".
Definition NE : bytes := str "!=".
Definition IN : bytes := str "in".
Definition NOT_IN : bytes := str "not-in".
Definition IS_EMPTY : bytes := str "is-empty".
Definition RE : bytes := str "=~".
Definition NRE : bytes := str "!~".
Definition E : list bytes := [EQ; NE; IN; NOT_IN; IS_EMPTY; RE; NRE].

(** [Qt]: a filter of the query builder, whose operators [in] and [not-in] are
    regular expressions to the server. *)
Definition Qt (attribute op val : bytes) : Filter :=
  let t := op in
  let t := if decide (op = IN) then RE else if decide (op = NOT_IN) then NRE else t in
  {| key := attribute; operator := t; value := val |}.

(** [Q] with [Y]: a filter of the query builder is made an "is empty" filter, with the
    operator's name for its value; [Qt] hands it on. *)
Definition Q_Y (attribute : bytes) : Filter := Qt attribute IS_EMPTY IS_EMPTY.

(** [Wt]: the last filter on the key, and the filters on other keys. *)
Definition Wt (e : list Filter) (t : bytes) : option Filter * list Filter :=
  fold_left (fun '(n, r) f =>
    if decide (key f ≠ t) then (n, r ++ [f]) else (Some f, r)) e (None, []).

Definition Jt (e : list Filter) (t : Filter) : list Filter := e ++ [t].

Definition with_operator (t : Filter) (op : bytes) : Filter :=
  {| key := key t; operator := op; value := value t |}.
Definition with_value (t : Filter) (v : bytes) : Filter :=
  {| key := key t; operator := operator t; value := v |}.

(** [Xt]: include a value.  [Zt]: exclude it. *)
Definition Xt (e : list Filter) (t : Filter) : list Filter :=
  let '(found, r) := Wt e (key t) in
  match found with
  | None => Jt e (with_operator t RE)
  | Some n =>
      if decide (operator n ∈ [NRE; NE]) then Jt r (with_operator t RE)
      else
        let o := new_set (split_bar (value n)) in
        if decide (operator n = RE) then Jt r (with_value n (join [BAR] (set_add o (value t))))
        else if decide (value n = value t) then e
        else Jt r (with_value (with_operator t RE) (join [BAR] (set_add o (value t))))
  end.

Definition Zt (e : list Filter) (t : Filter) : list Filter :=
  let '(found, r) := Wt e (key t) in
  match found with
  | None => Jt e (with_operator t NRE)
  | Some n =>
      if decide (operator n ∈ [RE; EQ]) then Jt r (with_operator t NRE)
      else
        let o := new_set (split_bar (value n)) in
        if decide (operator n = NRE) then Jt r (with_value n (join [BAR] (set_add o (value t))))
        else if decide (value n = value t) then e
        else Jt r (with_value (with_operator t NRE) (join [BAR] (set_add o (value t))))
  end.

(** [en]: take a value out again. *)
Definition en (e : list Filter) (t : Filter) : list Filter :=
  let '(found, r) := Wt e (key t) in
  match found with
  | None => e
  | Some n =>
      let o := filter (fun w => w ≠ value t) (split_bar (value n)) in
      match o with
      | _ :: _ => Jt r (with_value n (join [BAR] o))
      | [] => r
      end
  end.

(** [tn] and the [expressionBuilder] of [rn]. *)
Definition tn (f : Filter) : bool := bool_decide (operator f ∈ E).

Definition DQUOTE : bytes := ["034"%char].

Definition expression (e : list Filter) : bytes :=
  join (str ",") ((fun f =>
    if decide (operator f = IS_EMPTY) then key f ++ str "=" ++ DQUOTE ++ DQUOTE
    else key f ++ operator f ++ DQUOTE ++ value f ++ DQUOTE) <$> filter (fun f => tn f = true) e).

(** ** What filters mean

    A label value passes a filter when it is, or is not, the filter's value - or one
    of its alternatives, for the regular expressions, whose values are written
    here as a bar-separated list. *)

Definition alternatives (f : Filter) : list bytes := split_bar (value f).

Definition accepts (f : Filter) (x : bytes) : bool :=
  if decide (operator f = EQ) then bool_decide (x = value f)
  else if decide (operator f = NE) then bool_decide (x ≠ value f)
  else if decide (operator f = RE) then bool_decide (x ∈ alternatives f)
  else if decide (operator f = NRE) then bool_decide (x ∉ alternatives f)
  else true.

(** The values of the label [k] that pass all filters on it. *)
Definition accepts_all (e : list Filter) (k x : bytes) : bool :=
  forallb (fun f => if decide (key f = k) then accepts f x else true) e.

Definition bar_free (v : bytes) : Prop := BAR ∉ v.

(** The filters the operations and [Qt] make, the one for "is empty" apart. *)
Definition filter_ok (f : Filter) : Prop :=
  operator f ∈ [EQ; NE; RE; NRE] /\ (operator f ∈ [EQ; NE] -> bar_free (value f)).

(** At most one filter per label. *)
Definition filters_ok (e : list Filter) : Prop := Forall filter_ok e /\ NoDup (key <$> e).

Definition including (e : list Filter) (k : bytes) : bool :=
  existsb (fun f => bool_decide (key f = k /\ operator f ∈ [EQ; RE])) e.
Definition excluding (e : list Filter) (k : bytes) : bool :=
  existsb (fun f => bool_decide (key f = k /\ operator f ∈ [NE; NRE])) e.

(** ** Splitting and joining *)

Lemma split_bar_not_nil s : split_bar s <> [].
Proof. destruct s as [|c s]; [done|]. cbn. destruct (c =c? BAR); [done|]. by destruct (split_bar s). Qed.

Lemma split_bar_free v : bar_free v -> split_bar v = [v].
Proof.
  induction v as [|c v IH]; intros H; [done|]. unfold bar_free in *.
  rewrite not_elem_of_cons in H. destruct H as [Hc Hv]. cbn.
  assert ((c =c? BAR) = false) as -> by (apply eqb_char_false; congruence). by rewrite (IH Hv).
Qed.

Lemma split_bar_pieces s : Forall bar_free (split_bar s).
Proof.
  induction s as [|c s IH]; cbn; [repeat constructor; by intros H%elem_of_nil|].
  destruct (c =c? BAR) eqn:E.
  - constructor; [by intros H%elem_of_nil|done].
  - destruct (split_bar s) as [|w ws]; [repeat constructor|].
    + unfold bar_free. rewrite list_elem_of_singleton. apply eqb_char_false in E. congruence.
    + apply Forall_cons_1 in IH as [Hw Hws]. constructor; [|done].
      unfold bar_free in *. rewrite not_elem_of_cons. split; [|done].
      apply eqb_char_false in E. congruence.
Qed.

Lemma split_bar_app v s : bar_free v -> split_bar (v ++ BAR :: s) = v :: split_bar s.
Proof.
  induction v as [|c v IH]; intros H; [done|]. unfold bar_free in *.
  rewrite not_elem_of_cons in H. destruct H as [Hc Hv]. cbn.
  assert ((c =c? BAR) = false) as -> by (apply eqb_char_false; congruence). by rewrite (IH Hv).
Qed.

Lemma split_join l : l <> [] -> Forall bar_free l -> split_bar (join [BAR] l) = l.
Proof.
  intros Hne Hl. induction Hl as [|w l Hw Hl IH]; [done|].
  destruct l as [|w' l]; [by apply split_bar_free|].
  change (join [BAR] (w :: w' :: l)) with (w ++ BAR :: join [BAR] (w' :: l)).
  rewrite split_bar_app by done. by rewrite IH.
Qed.

(** ** Sets *)

Lemma elem_of_set_add l x y : y ∈ set_add l x <-> y ∈ l \/ y = x.
Proof.
  unfold set_add. destruct (decide (x ∈ l)); [split; [tauto|by intros [?| ->]]|].
  rewrite elem_of_app, list_elem_of_singleton. done.
Qed.

Lemma elem_of_new_set l y : y ∈ new_set l <-> y ∈ l.
Proof.
  unfold new_set.
  assert (H : forall acc, y ∈ fold_left set_add l acc <-> y ∈ acc \/ y ∈ l).
  { induction l as [|x l IH]; intros acc; cbn; [rewrite elem_of_nil; tauto|].
    rewrite IH, elem_of_set_add, elem_of_cons. tauto. }
  rewrite H, elem_of_nil. tauto.
Qed.

Lemma set_add_not_nil l x : set_add l x <> [].
Proof.
  intros E. assert (H : x ∈ set_add l x) by (apply elem_of_set_add; by right).
  rewrite E in H. by apply elem_of_nil in H.
Qed.

(** The alternatives of a filter to which one more is added. *)
Lemma split_join_add v x :
  bar_free x -> forall y,
  y ∈ split_bar (join [BAR] (set_add (new_set (split_bar v)) x)) <-> y ∈ split_bar v \/ y = x.
Proof.
  intros Hx y. rewrite split_join.
  - by rewrite elem_of_set_add, elem_of_new_set.
  - apply set_add_not_nil.
  - apply list.Forall_forall. intros w. rewrite elem_of_set_add, elem_of_new_set.
    intros [H| ->]; [|done]. pose proof (split_bar_pieces v) as F. rewrite list.Forall_forall in F. auto.
Qed.

(** ** [Wt] *)

Definition others (e : list Filter) (k : bytes) : list Filter := filter (fun f => key f ≠ k) e.

(** With at most one filter on the key, [Wt] splits the list around it. *)
Definition Wt_step (k : bytes) : option Filter * list Filter -> Filter -> option Filter * list Filter :=
  fun '(n, r) f => if decide (key f ≠ k) then (n, r ++ [f]) else (Some f, r).

Lemma Wt_absent k b n r :
  k ∉ (key <$> b) -> fold_left (Wt_step k) b (n, r) = (n, r ++ b).
Proof.
  revert r. induction b as [|f b IH]; intros r H; cbn; [by rewrite app_nil_r|].
  cbn in H. rewrite not_elem_of_cons in H. destruct H as [Hf Hb].
  rewrite decide_True by congruence. rewrite IH by done. by rewrite <- app_assoc.
Qed.

Lemma Wt_none e k : k ∉ (key <$> e) -> Wt e k = (None, e).
Proof. exact (Wt_absent k e None []). Qed.

Lemma Wt_some a n b k :
  key n = k -> k ∉ (key <$> a) -> k ∉ (key <$> b) -> Wt (a ++ n :: b) k = (Some n, a ++ b).
Proof.
  intros Hn Ha Hb. change (Wt (a ++ n :: b) k) with (fold_left (Wt_step k) (a ++ n :: b) (None, [])).
  rewrite fold_left_app, (Wt_absent k a None [] Ha). cbn.
  rewrite decide_False by (intros H; congruence). by rewrite (Wt_absent k b _ _ Hb).
Qed.

Lemma split_key e k :
  NoDup (key <$> e) ->
  k ∉ (key <$> e) \/
  exists a n b, e = a ++ n :: b /\ key n = k /\ (k ∉ (key <$> a)) /\ k ∉ (key <$> b).
Proof.
  intros Hd. destruct (decide (k ∈ key <$> e)) as [H|H]; [right|by left].
  apply list_elem_of_fmap in H as (n & -> & Hn). apply list_elem_of_split in Hn as (a & b & ->).
  exists a, n, b. rewrite fmap_app, fmap_cons, list.NoDup_app, list.NoDup_cons in Hd.
  destruct Hd as (_ & Hab & Hb & _). split_and!; try done.
  intros Ha. apply (Hab _ Ha). by left.
Qed.

Lemma others_cons f e k :
  others (f :: e) k = if decide (key f ≠ k) then f :: others e k else others e k.
Proof. done. Qed.

Lemma others_absent e k : k ∉ (key <$> e) -> others e k = e.
Proof.
  induction e as [|f e IH]; [done|]. rewrite fmap_cons, not_elem_of_cons. intros [Hf He].
  rewrite others_cons, decide_True by congruence. f_equal. by apply IH.
Qed.

Lemma others_app a b k : others (a ++ b) k = others a k ++ others b k.
Proof. apply list.filter_app. Qed.

Lemma others_key n l k : key n = k -> others (n :: l) k = others l k.
Proof. intros H. by rewrite others_cons, decide_False by (intros G; congruence). Qed.

Lemma accepts_all_app a b k x : accepts_all (a ++ b) k x = accepts_all a k x && accepts_all b k x.
Proof. apply forallb_app. Qed.

Lemma accepts_absent e k x : k ∉ (key <$> e) -> accepts_all e k x = true.
Proof.
  induction e as [|f e IH]; [done|]. cbn. rewrite not_elem_of_cons. intros [Hf He].
  rewrite decide_False by congruence. by apply IH.
Qed.

Lemma accepts_single n k x : key n = k -> accepts_all [n] k x = accepts n x.
Proof. intros H. cbn. rewrite decide_True by done. by rewrite andb_true_r. Qed.

Lemma having_absent P e k :
  k ∉ (key <$> e) -> existsb (fun f => bool_decide (key f = k /\ operator f ∈ (P : list bytes))) e = false.
Proof.
  induction e as [|f e IH]; [done|]. cbn. rewrite not_elem_of_cons. intros [Hf He].
  rewrite bool_decide_eq_false_2 by (intros [G _]; congruence). by apply IH.
Qed.

(** ** The three operations *)

(** What a list says about a key when the only filter on it is the last one. *)
Lemma accepts_last r m k x :
  key m = k -> k ∉ (key <$> r) -> accepts_all (r ++ [m]) k x = accepts m x.
Proof. intros Hm Hr. by rewrite accepts_all_app, accepts_absent, accepts_single by done. Qed.

Lemma accepts_mid a n b k x :
  key n = k -> k ∉ (key <$> a) -> k ∉ (key <$> b) -> accepts_all (a ++ n :: b) k x = accepts n x.
Proof.
  intros Hn Ha Hb. change (n :: b) with ([n] ++ b).
  rewrite !accepts_all_app, (accepts_absent a), (accepts_absent b), accepts_single by done.
  by rewrite andb_true_r.
Qed.

Lemma having_mid P a n b k :
  key n = k -> k ∉ (key <$> a) -> k ∉ (key <$> b) ->
  existsb (fun f => bool_decide (key f = k /\ operator f ∈ (P : list bytes))) (a ++ n :: b)
  = bool_decide (operator n ∈ P).
Proof.
  intros Hn Ha Hb. change (n :: b) with ([n] ++ b).
  rewrite !existsb_app, (having_absent P a), (having_absent P b) by done. cbn. rewrite !orb_false_r.
  apply bool_decide_ext. tauto.
Qed.

Lemma others_last r m k : key m = k -> k ∉ (key <$> r) -> others (r ++ [m]) k = r.
Proof.
  intros Hm Hr. rewrite others_app, others_absent, others_key by done. apply app_nil_r.
Qed.

Lemma others_mid a n b k :
  key n = k -> k ∉ (key <$> a) -> k ∉ (key <$> b) -> others (a ++ n :: b) k = a ++ b.
Proof. intros Hn Ha Hb. by rewrite others_app, others_key, (others_absent a), (others_absent b) by done. Qed.

Lemma not_key_app k a b : k ∉ (key <$> a) -> k ∉ (key <$> b) -> k ∉ (key <$> a ++ b).
Proof. intros Ha Hb. rewrite fmap_app, elem_of_app. tauto. Qed.

Lemma filters_ok_last r m :
  filters_ok r -> filter_ok m -> key m ∉ (key <$> r) -> filters_ok (r ++ [m]).
Proof.
  intros [Fr Dr] Hm Hk. split; [apply list.Forall_app; by split_and!; [|constructor]|].
  rewrite fmap_app. apply list.NoDup_app. split_and!; [done| |].
  - intros x Hx H. apply list_elem_of_singleton in H. congruence.
  - apply list.NoDup_singleton.
Qed.

Lemma filters_ok_remove a n b : filters_ok (a ++ n :: b) -> filter_ok n /\ filters_ok (a ++ b).
Proof.
  intros [F D]. rewrite list.Forall_app, list.Forall_cons in F. destruct F as (Fa & Fn & Fb).
  split; [done|]. split; [by apply list.Forall_app|].
  rewrite fmap_app, fmap_cons in D. rewrite fmap_app. apply list.NoDup_app in D as (Da & Hab & Db).
  apply list.NoDup_cons in Db as [_ Db]. apply list.NoDup_app. split_and!; [done| |done].
  intros x Ha Hb. apply (Hab x Ha). by right.
Qed.

(** The operators are different strings. *)
Ltac decide_ops :=
  repeat first [ rewrite decide_True by (apply (bool_decide_unpack _); reflexivity)
               | rewrite decide_False by (apply (bool_decide_unpack _); reflexivity) ].

Lemma accepts_RE k v x : accepts {| key := k; operator := RE; value := v |} x = bool_decide (x ∈ split_bar v).
Proof. unfold accepts; cbn [operator]. by decide_ops. Qed.
Lemma accepts_NRE k v x : accepts {| key := k; operator := NRE; value := v |} x = bool_decide (x ∉ split_bar v).
Proof. unfold accepts; cbn [operator]. by decide_ops. Qed.

(** With no alternatives but itself, an equation means what the expression means. *)
Lemma accepts_EQ k v x :
  bar_free v -> accepts {| key := k; operator := EQ; value := v |} x = bool_decide (x ∈ split_bar v).
Proof.
  intros Hv. unfold accepts; cbn [operator value]. decide_ops. apply bool_decide_ext.
  by rewrite (split_bar_free _ Hv), list_elem_of_singleton.
Qed.
Lemma accepts_NE k v x :
  bar_free v -> accepts {| key := k; operator := NE; value := v |} x = bool_decide (x ∉ split_bar v).
Proof.
  intros Hv. unfold accepts; cbn [operator value]. decide_ops. apply bool_decide_ext.
  by rewrite (split_bar_free _ Hv), list_elem_of_singleton.
Qed.

Lemma filter_ok_RE k v : filter_ok {| key := k; operator := RE; value := v |}.
Proof. split; [apply (bool_decide_unpack _); reflexivity|]. intros H. by apply (bool_decide_pack _) in H. Qed.
Lemma filter_ok_NRE k v : filter_ok {| key := k; operator := NRE; value := v |}.
Proof. split; [apply (bool_decide_unpack _); reflexivity|]. intros H. by apply (bool_decide_pack _) in H. Qed.

(** A filter that is well formed includes or excludes its alternatives. *)
Lemma filter_ok_cases n :
  filter_ok n ->
  (operator n = EQ /\ bar_free (value n) /\ (forall x, accepts n x = bool_decide (x ∈ split_bar (value n)))) \/
  (operator n = NE /\ bar_free (value n) /\ (forall x, accepts n x = bool_decide (x ∉ split_bar (value n)))) \/
  (operator n = RE /\ (forall x, accepts n x = bool_decide (x ∈ split_bar (value n)))) \/
  (operator n = NRE /\ (forall x, accepts n x = bool_decide (x ∉ split_bar (value n)))).
Proof.
  destruct n as [k o v]. intros [Ho Hv]. cbn [operator value] in *.
  rewrite !elem_of_cons, elem_of_nil in Ho. destruct Ho as [->|[->|[->|[->|[]]]]].
  - left. assert (bar_free v) by (apply Hv; apply (bool_decide_unpack _); reflexivity).
    split_and!; [done|done|]. intros x. by apply accepts_EQ.
  - right; left. assert (bar_free v) by (apply Hv; apply (bool_decide_unpack _); reflexivity).
    split_and!; [done|done|]. intros x. by apply accepts_NE.
  - right; right; left. split; [done|]. intros x. apply accepts_RE.
  - right; right; right. split; [done|]. intros x. apply accepts_NRE.
Qed.

(** *** Including *)

Ltac in_ops := apply (bool_decide_unpack _); reflexivity.

Lemma split_join_add_bool v y x :
  bar_free y ->
  bool_decide (x ∈ split_bar (join [BAR] (set_add (new_set (split_bar v)) y)))
  = bool_decide (x = y) || bool_decide (x ∈ split_bar v).
Proof.
  intros Hy. rewrite <- bool_decide_or. apply bool_decide_ext. rewrite split_join_add by done. tauto.
Qed.

Lemma split_bar_single v x : bar_free v -> bool_decide (x ∈ split_bar v) = bool_decide (x = v).
Proof. intros Hv. apply bool_decide_ext. by rewrite (split_bar_free _ Hv), list_elem_of_singleton. Qed.

(** [Xt] and [Zt] on a list with at most one filter on the key. *)
Lemma Xt_absent e t : key t ∉ (key <$> e) -> Xt e t = e ++ [with_operator t RE].
Proof. intros H. unfold Xt. by rewrite (Wt_none _ _ H). Qed.

Lemma Zt_absent e t : key t ∉ (key <$> e) -> Zt e t = e ++ [with_operator t NRE].
Proof. intros H. unfold Zt. by rewrite (Wt_none _ _ H). Qed.

(** What a result looks like: the list itself, the other filters followed by one
    filter on the key, or just the other filters. *)
Definition replaces (e e' : list Filter) (k : bytes) (acc : bytes -> bool) : Prop :=
  (e' = e /\ forall x, accepts_all e k x = acc x) \/
  (exists m, e' = others e k ++ [m] /\ key m = k /\ filter_ok m /\ forall x, accepts m x = acc x) \/
  (e' = others e k /\ forall x, acc x = true).

#[global] Instance replaces_proper e e' k :
  Proper (pointwise_relation bytes eq ==> iff) (replaces e e' k).
Proof.
  intros acc acc' H. unfold pointwise_relation in H. unfold replaces. by setoid_rewrite H.
Qed.

Lemma others_not_key e k : k ∉ (key <$> others e k).
Proof.
  unfold others. intros H. apply list_elem_of_fmap in H as (f & -> & Hf).
  apply list_elem_of_filter in Hf as [Hf _]. done.
Qed.

Lemma filters_ok_others e k : filters_ok e -> filters_ok (others e k).
Proof.
  intros Hok. pose proof Hok as [_ Hd]. destruct (split_key e k Hd) as [H|(a & n & b & -> & Hn & Ha & Hb)].
  - by rewrite others_absent.
  - rewrite others_mid by done. by apply filters_ok_remove in Hok as [_ Hok].
Qed.

Lemma others_others e k : others (others e k) k = others e k.
Proof. apply others_absent, others_not_key. Qed.

Lemma replaces_spec e e' k acc :
  filters_ok e -> replaces e e' k acc ->
  (forall x, accepts_all e' k x = acc x) /\ others e' k = others e k /\ filters_ok e'.
Proof.
  intros Hok [[-> H]|[(m & -> & Hm & Hfm & H)|[-> H]]]; [done| |].
  2:{ split_and!; [|apply others_others|by apply filters_ok_others].
      intros x. rewrite H. apply accepts_absent, others_not_key. }
  split_and!.
  - intros x. rewrite accepts_last; [done|done|apply others_not_key].
  - rewrite others_last; [done|done|apply others_not_key].
  - apply filters_ok_last; [by apply filters_ok_others|done|]. rewrite Hm. apply others_not_key.
Qed.

(** A new filter in the place of [n]. *)
Lemma replaces_mid a n b k m acc :
  key n = k -> k ∉ (key <$> a) -> k ∉ (key <$> b) -> key m = k -> filter_ok m ->
  (forall x, accepts m x = acc x) -> replaces (a ++ n :: b) (Jt (a ++ b) m) k acc.
Proof. intros Hn Ha Hb Hk Hm Hacc. right; left. exists m. rewrite others_mid by done. by split_and!. Qed.

Lemma replaces_end e k m acc :
  k ∉ (key <$> e) -> key m = k -> filter_ok m -> (forall x, accepts m x = acc x) ->
  replaces e (e ++ [m]) k acc.
Proof. intros He Hk Hm Hacc. right; left. exists m. rewrite others_absent by done. by split_and!. Qed.

Lemma include_replaces e t :
  filters_ok e -> bar_free (value t) ->
  replaces e (Xt e t) (key t)
    (fun x => bool_decide (x = value t) || (including e (key t) && accepts_all e (key t) x)).
Proof.
  intros Hok Ht. destruct (split_key e (key t) (proj2 Hok)) as [H|(a & n & b & -> & Hn & Ha & Hb)].
  - rewrite Xt_absent by done. apply replaces_end; [done|done|apply filter_ok_RE|].
    intros x. unfold with_operator, including.
    by rewrite accepts_RE, split_bar_single, having_absent, orb_false_r.
  - apply filters_ok_remove in Hok as [Hfn Hok]. unfold including.
    rewrite having_mid by done. setoid_rewrite accepts_mid; try done.
    unfold Xt. rewrite Wt_some by done.
    destruct (filter_ok_cases n Hfn) as [(Ho & Hv & Hacc)|[(Ho & Hv & Hacc)|[(Ho & Hacc)|(Ho & Hacc)]]];
      setoid_rewrite Hacc; rewrite Ho; decide_ops; unfold with_value, with_operator;
      [destruct (decide (value n = value t)) as [Hvt|Hvt]| | |].
    + left. split; [done|]. intros x.
      rewrite accepts_mid, Hacc, Hvt, (bool_decide_eq_true_2 (EQ ∈ _)) by (done || in_ops).
      rewrite split_bar_single by done. by destruct (bool_decide (x = value t)).
    + apply replaces_mid; try done; [apply filter_ok_RE|]. intros x.
      by rewrite accepts_RE, split_join_add_bool, (bool_decide_eq_true_2 (EQ ∈ _)) by (done || in_ops).
    + apply replaces_mid; try done; [apply filter_ok_RE|]. intros x.
      rewrite accepts_RE, split_bar_single, (bool_decide_eq_false_2 (NE ∈ _)) by (done || in_ops).
      by rewrite orb_false_r.
    + rewrite Ho. apply replaces_mid; try done; [apply filter_ok_RE|]. intros x.
      by rewrite accepts_RE, split_join_add_bool, (bool_decide_eq_true_2 (RE ∈ _)) by (done || in_ops).
    + apply replaces_mid; try done; [apply filter_ok_RE|]. intros x.
      rewrite accepts_RE, split_bar_single, (bool_decide_eq_false_2 (NRE ∈ _)) by (done || in_ops).
      by rewrite orb_false_r.
Qed.

(** *** Excluding *)

Lemma split_join_add_not v y x :
  bar_free y ->
  bool_decide (x ∉ split_bar (join [BAR] (set_add (new_set (split_bar v)) y)))
  = bool_decide (x ≠ y) && bool_decide (x ∉ split_bar v).
Proof.
  intros Hy. rewrite <- bool_decide_and. apply bool_decide_ext. rewrite split_join_add by done. tauto.
Qed.

Lemma split_bar_not v x : bar_free v -> bool_decide (x ∉ split_bar v) = bool_decide (x ≠ v).
Proof. intros Hv. apply bool_decide_ext. by rewrite (split_bar_free _ Hv), list_elem_of_singleton. Qed.

Lemma exclude_replaces e t :
  filters_ok e -> bar_free (value t) ->
  replaces e (Zt e t) (key t)
    (fun x => bool_decide (x ≠ value t) && (negb (excluding e (key t)) || accepts_all e (key t) x)).
Proof.
  intros Hok Ht. destruct (split_key e (key t) (proj2 Hok)) as [H|(a & n & b & -> & Hn & Ha & Hb)].
  - rewrite Zt_absent by done. apply replaces_end; [done|done|apply filter_ok_NRE|].
    intros x. unfold with_operator, excluding.
    rewrite accepts_NRE, split_bar_not, having_absent by done. by rewrite andb_true_r.
  - apply filters_ok_remove in Hok as [Hfn Hok]. unfold excluding.
    rewrite having_mid by done. setoid_rewrite accepts_mid; try done.
    unfold Zt. rewrite Wt_some by done.
    destruct (filter_ok_cases n Hfn) as [(Ho & Hv & Hacc)|[(Ho & Hv & Hacc)|[(Ho & Hacc)|(Ho & Hacc)]]];
      setoid_rewrite Hacc; rewrite Ho; decide_ops; unfold with_value, with_operator;
      [|destruct (decide (value n = value t)) as [Hvt|Hvt]| |].
    + apply replaces_mid; try done; [apply filter_ok_NRE|]. intros x.
      rewrite accepts_NRE, split_bar_not, (bool_decide_eq_false_2 (EQ ∈ _)) by (done || in_ops).
      by rewrite andb_true_r.
    + left. split; [done|]. intros x.
      rewrite accepts_mid, Hacc, Hvt, (bool_decide_eq_true_2 (NE ∈ _)) by (done || in_ops).
      rewrite split_bar_not by done. by destruct (bool_decide (x ≠ value t)).
    + apply replaces_mid; try done; [apply filter_ok_NRE|]. intros x.
      by rewrite accepts_NRE, split_join_add_not, (bool_decide_eq_true_2 (NE ∈ _)) by (done || in_ops).
    + apply replaces_mid; try done; [apply filter_ok_NRE|]. intros x.
      rewrite accepts_NRE, split_bar_not, (bool_decide_eq_false_2 (RE ∈ _)) by (done || in_ops).
      by rewrite andb_true_r.
    + rewrite Ho. apply replaces_mid; try done; [apply filter_ok_NRE|]. intros x.
      by rewrite accepts_NRE, split_join_add_not, (bool_decide_eq_true_2 (NRE ∈ _)) by (done || in_ops).
Qed.

(** *** Clearing *)

(** The filters on a key name values other than [v]. *)
Definition more (e : list Filter) (k v : bytes) : bool :=
  existsb (fun f => bool_decide (key f = k /\ Exists (fun w => w ≠ v) (alternatives f))) e.

(** [including] and [more] see the filter on the key only. *)
Lemma existsb_mid (P : Filter -> Prop) `{forall f, Decision (P f)} a n b k :
  key n = k -> k ∉ (key <$> a) -> k ∉ (key <$> b) ->
  existsb (fun f => bool_decide (key f = k /\ P f)) (a ++ n :: b) = bool_decide (P n).
Proof.
  intros Hn Ha Hb.
  assert (Habs : forall l, k ∉ (key <$> l) -> existsb (fun f => bool_decide (key f = k /\ P f)) l = false).
  { induction l as [|f l IH]; [done|]. cbn. rewrite not_elem_of_cons. intros [Hf Hl].
    rewrite bool_decide_eq_false_2 by (intros [G _]; congruence). by apply IH. }
  change (n :: b) with ([n] ++ b). rewrite !existsb_app, (Habs a Ha), (Habs b Hb). cbn.
  rewrite !orb_false_r. apply bool_decide_ext. tauto.
Qed.

Definition without (v : bytes) (l : list bytes) : list bytes := filter (fun w => w ≠ v) l.

Lemma elem_of_without v l w : w ∈ without v l <-> w ≠ v /\ w ∈ l.
Proof. unfold without. by rewrite list_elem_of_filter. Qed.

Lemma split_join_without v s :
  without v (split_bar s) <> [] -> split_bar (join [BAR] (without v (split_bar s))) = without v (split_bar s).
Proof.
  intros H. apply split_join; [done|]. apply list.Forall_forall. intros w [_ Hw]%elem_of_without.
  pose proof (split_bar_pieces s) as F. rewrite list.Forall_forall in F. auto.
Qed.

Lemma filter_ok_without n v :
  filter_ok n -> without v (alternatives n) <> [] ->
  filter_ok (with_value n (join [BAR] (without v (alternatives n)))).
Proof.
  intros [Ho Hv] Hne. split; [done|]. cbn [operator with_value]. intros H.
  specialize (Hv H). unfold alternatives in *. rewrite (split_bar_free _ Hv) in *. unfold without in *.
  destruct (decide (value n ≠ v)) as [D|D].
  - rewrite filter_cons_True by done. done.
  - by rewrite filter_cons_False in Hne by done.
Qed.

Lemma accepts_without n v x :
  filter_ok n -> without v (alternatives n) <> [] ->
  accepts (with_value n (join [BAR] (without v (alternatives n)))) x =
  if decide (operator n ∈ [EQ; RE]) then accepts n x && bool_decide (x ≠ v)
  else bool_decide (x = v) || accepts n x.
Proof.
  intros Hn Hne. pose proof (filter_ok_without n v Hn Hne) as Hn'.
  unfold alternatives in *. pose proof (split_join_without v (value n) Hne) as Hs.
  assert (Hin : bool_decide (x ∈ without v (split_bar (value n)))
                = bool_decide (x ∈ split_bar (value n)) && bool_decide (x ≠ v)).
  { rewrite <- bool_decide_and. apply bool_decide_ext. rewrite elem_of_without. tauto. }
  assert (Hout : bool_decide (x ∉ without v (split_bar (value n)))
                 = bool_decide (x = v) || bool_decide (x ∉ split_bar (value n))).
  { rewrite bool_decide_not, Hin, negb_andb, <- !bool_decide_not, orb_comm. f_equal.
    apply bool_decide_ext. destruct (decide (x = v)); tauto. }
  destruct (filter_ok_cases _ Hn) as [(Ho & _ & Ha)|[(Ho & _ & Ha)|[(Ho & Ha)|(Ho & Ha)]]];
    destruct (filter_ok_cases _ Hn') as [(Ho' & _ & Ha')|[(Ho' & _ & Ha')|[(Ho' & Ha')|(Ho' & Ha')]]];
    cbn [operator with_value] in Ho'; rewrite Ho in Ho'; try discriminate;
    rewrite Ha', Ha, Ho; cbn [value with_value]; rewrite Hs; decide_ops; done.
Qed.

Lemma without_nil n v x :
  filter_ok n -> without v (alternatives n) = [] -> operator n ∈ [NE; NRE] ->
  bool_decide (x = v) || accepts n x = true.
Proof.
  intros Hn Hnil Ho.
  assert (Hx : x ∈ split_bar (value n) -> x = v).
  { intros Hin. destruct (decide (x = v)) as [|D]; [done|].
    assert (H : x ∈ without v (alternatives n)) by by apply elem_of_without.
    rewrite Hnil in H. by apply elem_of_nil in H. }
  destruct (filter_ok_cases n Hn) as [(E1 & _)|[(_ & _ & Ha)|[(E1 & _)|(_ & Ha)]]];
    try (rewrite E1 in Ho; by apply (bool_decide_pack _) in Ho);
    rewrite Ha; destruct (decide (x = v)) as [->|D].
  all: try (by rewrite (bool_decide_eq_true_2 (v = v))).
  all: rewrite (bool_decide_eq_true_2 (x ∉ _)) by tauto; apply orb_true_r.
Qed.

(** A filter is one of the two kinds. *)
Lemma filter_ok_kind n :
  filter_ok n -> (operator n ∈ [EQ; RE] /\ (operator n ∉ [NE; NRE])) \/
                 ((operator n ∉ [EQ; RE]) /\ operator n ∈ [NE; NRE]).
Proof.
  intros Hn. destruct (filter_ok_cases n Hn) as [(-> & _)|[(-> & _)|[(-> & _)|(-> & _)]]];
    [left|right|left|right]; split; in_ops.
Qed.

Lemma more_mid a n b k v :
  key n = k -> k ∉ (key <$> a) -> k ∉ (key <$> b) ->
  more (a ++ n :: b) k v = bool_decide (without v (alternatives n) <> []).
Proof.
  intros Hn Ha Hb. unfold more.
  rewrite (existsb_mid (fun f => Exists (fun w => w ≠ v) (alternatives f))) by done.
  apply bool_decide_ext. rewrite list.Exists_exists. split.
  - intros (w & Hw & Hne) E. assert (H : w ∈ without v (alternatives n)) by by apply elem_of_without.
    rewrite E in H. by apply elem_of_nil in H.
  - intros H. destruct (without v (alternatives n)) as [|w l] eqn:E; [done|].
    assert (Hw : w ∈ without v (alternatives n)) by (rewrite E; by left).
    apply elem_of_without in Hw as [? ?]. by exists w.
Qed.

Lemma clear_replaces e t :
  filters_ok e ->
  replaces e (en e t) (key t)
    (fun x => if including e (key t)
              then negb (more e (key t) (value t)) || (accepts_all e (key t) x && bool_decide (x ≠ value t))
              else bool_decide (x = value t) || accepts_all e (key t) x).
Proof.
  intros Hok. destruct (split_key e (key t) (proj2 Hok)) as [H|(a & n & b & -> & Hn & Ha & Hb)].
  - left. unfold en. rewrite (Wt_none _ _ H). split; [done|]. intros x.
    unfold including. rewrite having_absent, accepts_absent by done. by rewrite orb_true_r.
  - apply filters_ok_remove in Hok as [Hfn Hok].
    rewrite more_mid by done. unfold including. rewrite having_mid by done.
    unfold en. rewrite Wt_some by done.
    change (filter (fun w => w ≠ value t) (split_bar (value n))) with (without (value t) (alternatives n)).
    pose proof (filter_ok_without n (value t) Hfn) as Hw.
    pose proof (accepts_without n (value t)) as Hacc.
    pose proof (without_nil n (value t)) as Hnil.
    destruct (without (value t) (alternatives n)) as [|w o] eqn:E.
    + right; right. rewrite others_mid by done. split; [done|]. intros x.
      rewrite accepts_mid by done. destruct (filter_ok_kind n Hfn) as [[Ho _]|[Ho Ho']].
      * by rewrite (bool_decide_eq_true_2 _ Ho).
      * rewrite (bool_decide_eq_false_2 _ Ho). by apply Hnil.
    + apply replaces_mid; try done; [by apply Hw|]. intros x. rewrite accepts_mid, Hacc by done.
      destruct (decide (operator n ∈ [EQ; RE])) as [Ho|Ho];
        [by rewrite (bool_decide_eq_true_2 _ Ho)|by rewrite (bool_decide_eq_false_2 _ Ho)].
Qed.
