(* ===== verification/Shards.v ===== *)
(** * Queries split by stream shard (747.js, module 2854)

    A metric query of the logs app is asked shard by shard: the values of the label
    [__stream_shard__] are cut into groups, one request is made per group and a last one for
    the streams without the label, and the responses are merged ([Frames.combine_responses]).
    The size of the next group follows the time the last one took, a request that timed out
    is asked again with fewer shards or later.

    The code is a set of callbacks that share the variables of one call: here they are a
    [State], the invocation of [u] whose request is under way, and one function per callback.
    [runQuery] and the timers are the events of [step].  The object [i] is emitted again and
    again while it grows; the model keeps what it held each time. *)

From stdpp Require Import gmap.
From S2P Require Import Prelude.
From S2P Require Import Java.
From S2P Require Import JavaScript.
From S2P Require Import Frames.
From S2P Require Import Filters.
From Stdlib Require Import SpecFloat.
#[local] Open Scope Z_scope.

(** ** The text of a request *)

(** [b]. *)
Definition PLACEHOLDER : bytes := str "__stream_shard_number__".
Definition PLACED : bytes := str ", __stream_shard__=~" ++ [QUOTE] ++ PLACEHOLDER ++ [QUOTE] ++ str "}".
(** [y]. *)
Definition add_placeholder (e : bytes) : bytes := replace_first (str "}") PLACED e.

(** [S], one target. *)
Definition interpolate_shards (e : bytes) (t : list Z) : bytes :=
  match t with
  | [] => replace_first PLACED (str "}") e
  | _ =>
      let n := join (str "|") (Long_toString <$> t) in
      if bool_decide (n = str "-1") || bool_decide (length t = 1%nat) then
        let n := if bool_decide (n = str "-1") then [] else n in
        replace_first PLACED (str ", __stream_shard__=" ++ [QUOTE] ++ n ++ [QUOTE] ++ str "}") e
      else replace_all PLACEHOLDER n e
  end.

(** ** Groups *)

(** The shards asked for at [t], [n] of them; behind the last shard, the streams without. *)
Definition shard_group (e : list Z) (t n : nat) : list Z :=
  if (t =? length e)%nat then [(-1)%Z] else firstn n (skipn t e).

(** [floor(1.5 * g)], [ceil(1.1 * g)], [ceil(.9 * g)], [floor(.7 * x)] in doubles. *)
Definition grow_fast (g : nat) : nat := Z.to_nat (floor_times 3 1 (Z.of_nat g)).
Definition grow_slow (g : nat) : nat := Z.to_nat (ceil_times 2476979795053773 51 (Z.of_nat g)).
Definition shrink (g : nat) : nat := Z.to_nat (ceil_times 8106479329266893 53 (Z.of_nat g)).
Definition most_of_rest (x : Z) : Z := floor_times 3152519739159347 52 x.

Definition EXEC_TIME : bytes := str "Summary: exec time".
(** The size that suits the time the response took. *)
Definition size_after (e : Response) (t : nat) : nat :=
  match data e with
  | [] => S t
  | f :: _ =>
      match List.find (fun s => bool_decide (displayName s = EXEC_TIME)) (stats f) with
      | Some a =>
          if round_le (s_value a) 1 then grow_fast t
          else if round_le (s_value a) 5 then grow_slow t
          else if (t =? 1)%nat then t
          else if round_le (s_value a) 19 then shrink t
          else (t / 2)%nat
      | None => t
      end
  end.
(** No group holds more than some 70% of the shards left, and each holds one. *)
Definition cap_size (e : nat) (t n : nat) : nat :=
  Z.to_nat (Z.min (Z.of_nat t) (Z.max (most_of_rest (Z.of_nat n - Z.of_nat e)) 1)).
(** [floor(sqrt(g))]. *)
Definition root (g : nat) : nat := Nat.sqrt g.

(** [t.sort((e, t) => t - e)]. *)
Fixpoint insert_shard (x : Z) (l : list Z) : list Z :=
  match l with [] => [x] | y :: r => if y <? x then x :: l else y :: insert_shard x r end.
Definition sort_shards (l : list Z) : list Z := fold_left (fun l x => insert_shard x l) l [].

(** ** State *)

(** What is asked: the targets with their placeholders, the request's id, the shards. *)
Record Query := { targets : list bytes; requestId : option bytes; shards : list Z }.

Record Request := { r_targets : list bytes; r_id : option bytes; r_group : list Z }.

(** An invocation of [u]: [d], [g], and its variables [h] and [v]. *)
Record Invocation := { start : nat; size : nat; next_size : nat; retrying : bool }.

Inductive LoadingState := Streaming | Done | Error.
Inductive Notification := Next (s : LoadingState) (r : Response) | Complete.

Record State := {
  aborted : bool;                      (* [a] *)
  merged : Response;                   (* [i] *)
  retries : gmap nat nat;              (* [o] *)
  live : option Invocation;            (* the subscription [l] and its callbacks *)
  timers : list (nat * (nat * nat));   (* the timeouts set: id, start, size *)
  last_timer : option nat;             (* [c] *)
  timer_count : nat;
  requests : list Request;             (* made so far *)
  emitted : list Notification;         (* to the subscriber [s] *)
  closed : bool                        (* [s] has completed, or unsubscribed *)
}.

Definition set_aborted (st : State) : State :=
  {| aborted := true; merged := merged st; retries := retries st; live := live st; timers := timers st;
     last_timer := last_timer st; timer_count := timer_count st; requests := requests st;
     emitted := emitted st; closed := closed st |}.
Definition set_merged (st : State) (r : Response) : State :=
  {| aborted := aborted st; merged := r; retries := retries st; live := live st; timers := timers st;
     last_timer := last_timer st; timer_count := timer_count st; requests := requests st;
     emitted := emitted st; closed := closed st |}.
Definition set_live (st : State) (l : option Invocation) : State :=
  {| aborted := aborted st; merged := merged st; retries := retries st; live := l; timers := timers st;
     last_timer := last_timer st; timer_count := timer_count st; requests := requests st;
     emitted := emitted st; closed := closed st |}.
Definition set_timers (st : State) (ts : list (nat * (nat * nat))) (c : option nat) : State :=
  {| aborted := aborted st; merged := merged st; retries := retries st; live := live st; timers := ts;
     last_timer := c; timer_count := timer_count st; requests := requests st;
     emitted := emitted st; closed := closed st |}.
Definition add_request (st : State) (r : Request) : State :=
  {| aborted := aborted st; merged := merged st; retries := retries st; live := live st; timers := timers st;
     last_timer := last_timer st; timer_count := timer_count st; requests := requests st ++ [r];
     emitted := emitted st; closed := closed st |}.
(** [o.set(d, f + 1), c = setTimeout(...)]. *)
Definition set_retry (st : State) (d g : nat) : State :=
  {| aborted := aborted st; merged := merged st;
     retries := <[d := S (default 0%nat (retries st !! d))]> (retries st); live := live st;
     timers := timers st ++ [(timer_count st, (d, g))]; last_timer := Some (timer_count st);
     timer_count := S (timer_count st); requests := requests st;
     emitted := emitted st; closed := closed st |}.
(** [s.next(...)], nothing on a closed subscriber. *)
Definition notify (st : State) (n : Notification) : State :=
  if closed st then st
  else {| aborted := aborted st; merged := merged st; retries := retries st; live := live st;
          timers := timers st; last_timer := last_timer st; timer_count := timer_count st;
          requests := requests st; emitted := emitted st ++ [n]; closed := closed st |}.

(** The teardown: [a = true], the last timer cleared, the subscription ended. *)
Definition teardown (st : State) : State :=
  {| aborted := true; merged := merged st; retries := retries st; live := None;
     timers := match last_timer st with
               | Some c => List.filter (fun t => negb (t.1 =? c)%nat) (timers st)
               | None => timers st
               end;
     last_timer := last_timer st; timer_count := timer_count st;
     requests := requests st; emitted := emitted st; closed := true |}.

Section Run.
Context `{GrafanaData} (q : Query).

(** [m]. *)
Definition end_query (st : State) : State :=
  if closed st then st
  else teardown (notify (notify st (Next (if aborted st then Error else Done) (merged st))) Complete).

(** The request of an invocation. *)
Definition request (d g : nat) : Request :=
  let y := shard_group (shards q) d g in
  {| r_targets := (fun e => interpolate_shards e y) <$> targets q;
     r_id := (fun r => r ++ str "_shard_" ++ Long_toString (Z.of_nat d) ++ str "_" ++ Long_toString (Z.of_nat g))
               <$> requestId q;
     r_group := y |}.

(** [u]. *)
Definition run_next (st : State) (d g : nat) : State :=
  let st := set_live st None in
  if aborted st then end_query st
  else set_live (add_request st (request d g))
         (Some {| start := d; size := g; next_size := g; retrying := false |}).

(** [f]. *)
Definition next_or_done (st : State) (k : Invocation) : State :=
  let e := Nat.min (start k + size k) (length (shards q)) in
  if ((start k <? length (shards q)) && (e <=? length (shards q)))%nat
  then run_next st e (next_size k) else end_query st.

(** What the error of a response asks for. *)
Inductive Verdict := Retry | NoRetry | Throws.
Definition verdict_of (a : bytes) : Verdict :=
  if includes (str "timeout") a then Retry
  else if includes (str "parse error") a then Throws else NoRetry.
Definition verdict (e : Response) : Verdict :=
  match errors e with
  | Some [] => Throws
  | Some (m :: _) => verdict_of (toLowerCase (default [] m))
  | None => verdict_of (match error e with Some (Some m) => m | _ => [] end)
  end.

(** [b]: was the request made again, or will it be? *)
Definition retry (st : State) (k : Invocation) (e : option Response) : bool * State :=
  match (match e with Some e => verdict e | None => Retry end) with
  | NoRetry => (false, st)
  | Throws => (false, set_aborted st)
  | Retry =>
      if (1 <? size k)%nat then (true, run_next st (start k) (root (size k)))
      else if (3 <? default 0 (retries st !! start k))%nat then (false, set_aborted st)
      else
        let st := set_retry st (start k) (size k) in
        (true, set_live st ((fun k => {| start := start k; size := size k; next_size := next_size k;
                                          retrying := true |}) <$> live st))
  end.

Definition has_error (e : Response) : bool :=
  match errors e with Some (_ :: _) => true | _ => bool_decide (error e <> None) end.

(** The callbacks of [l = e.runQuery(O).subscribe({next, complete, error})]. *)
Definition on_next (st : State) (k : Invocation) (e : Response) : option State :=
  let '(again, st) := if has_error e then retry st k (Some e) else (false, st) in
  if again then Some st
  else
    let h := cap_size (start k + size k) (size_after e (size k)) (length (shards q)) in
    i ← combine_responses (merged st) e;
    Some (set_live (set_merged st i)
      (Some {| start := start k; size := size k; next_size := h; retrying := retrying k |})).

Definition on_complete (st : State) (k : Invocation) : State :=
  let st := set_live st None in
  if retrying k then st
  else
    let st := match data (merged st) with [] => st | _ => notify st (Next Streaming (merged st)) end in
    next_or_done st k.

Definition on_error (st : State) (k : Invocation) : State :=
  let st := notify (set_live st None) (Next Streaming (merged st)) in
  let '(again, st) := retry st k None in
  if again then st else next_or_done st k.

Inductive Event := OnNext (e : Response) | OnComplete | OnError | OnTimer (id : nat) | Unsubscribe.

(** An event reaches the code only while its source is subscribed, or its timer is set. *)
Definition step (st : State) (ev : Event) : option State :=
  match ev, live st with
  | OnNext e, Some k => on_next st k e
  | OnComplete, Some k => Some (on_complete st k)
  | OnError, Some k => Some (on_error st k)
  | OnTimer id, _ =>
      match List.find (fun t => (t.1 =? id)%nat) (timers st) with
      | Some (_, (d, g)) =>
          let st := set_timers st (List.filter (fun t => negb (t.1 =? id)%nat) (timers st)) (last_timer st) in
          let st := run_next st d g in
          Some (set_timers st (timers st) None)
      | None => Some st
      end
  | Unsubscribe, _ => Some (if closed st then st else teardown st)
  | _, None => Some st
  end.

Definition run (st : State) (evs : list Event) : option State := foldM step st evs.

Definition no_state : State :=
  {| aborted := false; merged := no_response; retries := ∅; live := None; timers := []; last_timer := None;
     timer_count := 0; requests := []; emitted := []; closed := false |}.
(** The first call of [u]. *)
Definition begin_ : State := run_next no_state 0 (root (length (shards q))).
End Run.

(** [N]: the query as it is split, when the label has values; otherwise it is run as it is. *)
Definition split_query (exprs : list bytes) (id : option bytes) (found : list Z) : option Query :=
  match found with
  | [] => None
  | _ => Some {| targets := add_placeholder <$> List.filter (fun e => negb (bool_decide (e = []))) exprs;
                 requestId := id; shards := sort_shards found |}
  end.
