(* ===== verification/ShardsCorrect.v ===== *)
(** * The sharded query asks every shard once, and ends

    [inv] holds in every state the callbacks reach: groups are not empty and not too large.
    The [potential] of a state bounds the requests still to be made, whatever events come
    ([step_potential]).  [ShardsServed] has what a run has asked and merged. *)

From S2P Require Import Prelude.
From stdpp Require Import gmap.
From S2P Require Import JavaScript.
From S2P Require Import Frames.
From S2P Require Import Shards.
From Stdlib Require Import SpecFloat.
#[local] Open Scope nat_scope.

(** ** Sizes *)

Lemma round53_upper y : (0 <= y -> 2 ^ 52 * round53 y <= y * (2 ^ 52 + 1))%Z.
Proof.
  intros Hy. unfold round53. destruct (Z.leb_spec (Z.log2 y - 52) 0) as [|Hk]; [lia|].
  set (k := (Z.log2 y - 52)%Z) in *.
  assert (Hp : (2 ^ (Z.log2 y) <= y)%Z) by (apply Z.log2_spec; destruct (decide (y = 0%Z)) as [->|]; cbn in *; lia).
  replace (Z.log2 y) with (52 + k)%Z in Hp by (subst k; lia). rewrite Z.pow_add_r in Hp by lia.
  pose proof (Z.div_mod y (2 ^ k)) as Hd.
  pose proof (Z.mod_pos_bound y (2 ^ k)) as Hm.
  assert (0 < 2 ^ k)%Z by (apply Z.pow_pos_nonneg; lia).
  destruct (_ || _); nia.
Qed.

Lemma most_of_rest_le x : (0 <= x -> most_of_rest x <= x)%Z.
Proof.
  intros Hx. unfold most_of_rest, floor_times, times.
  destruct (decide (x = 0%Z)) as [->|Hn]; [easy|]. rewrite Z.sgn_pos, Z.abs_eq, Z.mul_1_l by lia.
  pose proof (round53_upper (3152519739159347 * x)) as Hr.
  apply Z.lt_succ_r, Z.div_lt_upper_bound; lia.
Qed.

Lemma most_of_rest_neg x : (x < 0 -> most_of_rest x <= 0)%Z.
Proof.
  intros Hx. unfold most_of_rest, floor_times, times. rewrite Z.sgn_neg, Z.abs_neq by lia.
  pose proof (round53_pos (3152519739159347 * - x) 0). apply Z.lt_succ_r, Z.div_lt_upper_bound; lia.
Qed.

(** Each group holds a shard, and no more than are left. *)
Lemma cap_size_bounds e t n : 1 <= t -> 1 <= cap_size e t n <= Nat.max (n - e) 1.
Proof.
  intros Ht. unfold cap_size.
  destruct (decide (e <= n)) as [He|He].
  - pose proof (most_of_rest_le (Z.of_nat n - Z.of_nat e)). lia.
  - pose proof (most_of_rest_neg (Z.of_nat n - Z.of_nat e)). lia.
Qed.

Lemma size_after_pos e t : 1 <= t -> 1 <= size_after e t.
Proof.
  intros Ht. unfold size_after, grow_fast, grow_slow, shrink.
  pose proof (floor_times_ge1 3 1 (Z.of_nat t)).
  pose proof (ceil_times_ge1 2476979795053773 51 (Z.of_nat t)).
  pose proof (ceil_times_ge1 8106479329266893 53 (Z.of_nat t)).
  destruct (data e) as [|f ?]; [lia|]. destruct (List.find _ _) as [a|]; [|lia].
  destruct (round_le (s_value a) 1); [lia|]. destruct (round_le (s_value a) 5); [lia|].
  destruct (Nat.eqb_spec t 1); [lia|]. destruct (round_le (s_value a) 19); [lia|].
  apply Nat.div_le_lower_bound; lia.
Qed.

Lemma root_bounds g : 1 < g -> 1 <= root g < g.
Proof.
  intros Hg. unfold root. split; [apply Nat.sqrt_le_square; lia|]. now apply Nat.sqrt_lt_lin.
Qed.

(** ** Filtered lists *)

Lemma filter_le {A} (p : A -> bool) l : length (List.filter p l) <= length l.
Proof. induction l as [|x l IH]; cbn; [lia|]. destruct (p x); cbn; lia. Qed.

Lemma Forall_list_filter {A} (P : A -> Prop) (p : A -> bool) l : Forall P l -> Forall P (List.filter p l).
Proof. induction 1; cbn; [constructor|]. destruct (p _); auto. Qed.

Lemma filter_found_lt {A} (p : A -> bool) l x :
  List.find p l = Some x -> length (List.filter (fun y => negb (p y)) l) < length l.
Proof.
  induction l as [|y l IH]; cbn; [easy|]. destruct (p y) eqn:Hp; cbn.
  - intros _. pose proof (filter_le (fun y => negb (p y)) l). lia.
  - intros Hx. specialize (IH Hx). lia.
Qed.

(** ** The invariant *)

Section Correct.
Context `{GrafanaData} (q : Query).
Let n := length (shards q).

Definition sized (d g : nat) : Prop := d <= n /\ 1 <= g <= n.

Record inv (st : State) : Prop := {
  inv_live k : live st = Some k -> sized (start k) (size k) /\ 1 <= next_size k <= n;
  inv_timers : Forall (fun t => sized t.2.1 t.2.2) (timers st);
  inv_retries d : default 0 (retries st !! d) <= 4;
  inv_closed : closed st = true -> aborted st = true /\ live st = None
}.

(** ** The potential *)

Definition budget (m : gmap nat nat) : nat := list_sum ((fun d => 4 - default 0 (m !! d)) <$> seq 0 (S n)).
(** Two for a retry that may still be asked for, one for a timer that is set. *)
Definition waiting (st : State) : nat := 2 * budget (retries st) + length (timers st).
(** What the request under way and its successors may still ask. *)
Definition ahead (l : option Invocation) : nat :=
  match l with Some k => (S n - start k) * S n + size k | None => 0 end.
Definition potential (st : State) : nat := waiting st * ((2 + n) * S n) + ahead (live st).

Lemma ahead_bound l :
  (forall k, l = Some k -> sized (start k) (size k)) -> ahead l < (2 + n) * S n.
Proof.
  intros Hl. destruct l as [k|]; cbn [ahead]; [|lia].
  destruct (Hl k eq_refl) as [Hd Hg].
  pose proof (Nat.mul_le_mono_r (S n - start k) (S n) (S n)). lia.
Qed.

Lemma budget_retry m d :
  d <= n -> default 0 (m !! d) <= 3 -> S (budget (<[d := S (default 0 (m !! d))]> m)) = budget m.
Proof.
  intros Hd Hr. unfold budget.
  assert (Hin : d ∈ seq 0 (S n)) by (apply elem_of_seq; lia).
  pose proof (NoDup_seq 0 (S n)) as Hnd. revert Hin Hnd. generalize (seq 0 (S n)). intros l.
  induction l as [|x l IH]; [easy|]. rewrite elem_of_cons, list.NoDup_cons, !fmap_cons. cbn [list_sum foldr].
  intros [<-|Hin] [Hx Hnd].
  - rewrite lookup_insert_eq. cbn [default].
    replace ((fun d0 => 4 - default 0 (<[d:=S (default 0 (m !! d))]> m !! d0)) <$> l)
      with ((fun d0 => 4 - default 0 (m !! d0)) <$> l); [cbn; unfold list_sum; lia|].
    apply list_fmap_ext. intros i y Hy. rewrite lookup_insert_ne; [easy|].
    intros ->. apply Hx. now apply list_elem_of_lookup_2 in Hy.
  - rewrite lookup_insert_ne by congruence. specialize (IH Hin Hnd). unfold list_sum in *. lia.
Qed.

(** Requests made and requests to come. *)
Definition total (st : State) : nat := length (requests st) + potential st.
(** Nothing is asked that the potential did not allow. *)
Definition within (m : nat) (st : State) : Prop := inv st /\ total st <= m.

Lemma inv_notify st m : inv st -> inv (notify st m).
Proof. intros [H1 H2 H3 H4]. unfold notify. destruct (closed st) eqn:Hc; split; cbn; auto; easy. Qed.

Lemma notify_keeps st m :
  requests (notify st m) = requests st /\ waiting (notify st m) = waiting st /\ live (notify st m) = live st /\
  aborted (notify st m) = aborted st /\ merged (notify st m) = merged st /\ closed (notify st m) = closed st.
Proof. unfold notify. now destruct (closed st) eqn:Hc. Qed.

Lemma within_teardown m st : inv st -> length (requests st) + waiting st * ((2 + n) * S n) <= m -> within m (teardown st).
Proof.
  intros [H1 H2 H3 H4] Hm. split.
  - split; cbn; try easy. destruct (last_timer st); [now apply Forall_list_filter|easy].
  - assert (Hw : waiting (teardown st) <= waiting st).
    { unfold waiting. cbn. destruct (last_timer st) as [c|]; [|lia].
      pose proof (filter_le (fun t => negb (t.1 =? c)) (timers st)). lia. }
    apply (Nat.mul_le_mono_r _ _ ((2 + n) * S n)) in Hw.
    unfold total, potential. cbn [live teardown ahead requests] in *. lia.
Qed.

Lemma within_end_query m st : inv st -> length (requests st) + waiting st * ((2 + n) * S n) <= m -> live st = None -> within m (end_query st).
Proof.
  intros Hi Hm Hl. unfold end_query. destruct (closed st) eqn:Hc.
  - split; [easy|]. unfold total, potential. rewrite Hl. cbn [ahead]. lia.
  - apply within_teardown; [now apply inv_notify, inv_notify|].
    now repeat match goal with |- context [notify ?s ?k] => destruct (notify_keeps s k) as (-> & -> & _) end.
Qed.

Lemma inv_set_live st l :
  inv st -> (forall k, l = Some k -> sized (start k) (size k) /\ 1 <= next_size k <= n) ->
  (l <> None -> closed st = false) -> inv (set_live st l).
Proof.
  intros [H1 H2 H3 H4] Hl Hc. split; cbn; try easy. intros Ht. destruct (H4 Ht) as [Ha _]. split; [easy|].
  destruct l; [|easy]. now rewrite Hc in Ht.
Qed.

Lemma inv_open st : inv st -> aborted st = false -> closed st = false.
Proof. intros Hi Ha. destruct (closed st) eqn:Hc; [|easy]. destruct (inv_closed st Hi Hc). congruence. Qed.

Lemma within_run_next m st d g :
  inv st -> sized d g ->
  length (requests st) + waiting st * ((2 + n) * S n) + ((S n - d) * S n + S g) <= m ->
  within m (run_next q st d g).
Proof.
  intros Hi Hs Hm. unfold run_next. cbn [aborted set_live]. destruct (aborted st) eqn:Ha.
  - apply within_end_query; [now apply inv_set_live| |easy].
    change (length (requests st) + waiting st * ((2 + n) * S n) <= m). lia.
  - split.
    + pose proof (inv_open st Hi Ha). destruct Hi as [H1 H2 H3 H4]. split; cbn; try easy.
      * intros k [= <-]. cbn. destruct Hs as [? ?]. repeat split; lia.
      * congruence.
    + unfold total, potential. cbn [requests add_request set_live live ahead start size].
      rewrite length_app. cbn [length].
      change (waiting (set_live (add_request (set_live st None) (request q d g)) _)) with (waiting st). lia.
Qed.

Lemma within_next_or_done m st k :
  inv st -> live st = None -> sized (start k) (size k) -> 1 <= next_size k <= n ->
  length (requests st) + waiting st * ((2 + n) * S n) + ahead (Some k) <= m ->
  within m (next_or_done q st k).
Proof.
  intros Hi Hl [Hd Hg] Hh Hm. unfold next_or_done. fold n. cbn [ahead] in Hm.
  destruct (Nat.ltb_spec (start k) n) as [Hlt|Hge]; cbn [andb]; [|apply within_end_query; [easy|lia|easy]].
  destruct (Nat.leb_spec (Nat.min (start k + size k) n) n); [|lia].
  apply within_run_next; [easy|split; lia|].
  set (e := Nat.min (start k + size k) n) in *.
  assert (S (S n - e) <= S n - start k) by lia.
  pose proof (Nat.mul_le_mono_r (S (S n - e)) (S n - start k) (S n)). lia.
Qed.

Lemma within_retry m st k e :
  inv st -> sized (start k) (size k) ->
  (live st = None \/ exists k', live st = Some k' /\ start k' = start k /\ size k' = size k) ->
  length (requests st) + waiting st * ((2 + n) * S n) + ahead (Some k) <= m ->
  closed st = false ->
  let '(again, st') := retry q st k e in
  inv st' /\ (again = true -> total st' <= m) /\
  (again = false -> st' = st \/ st' = set_aborted st).
Proof.
  intros Hi [Hd Hg] Hl Hm Hc. unfold retry.
  assert (Hab : inv (set_aborted st)) by (destruct Hi; split; cbn; auto; congruence).
  destruct (match e with Some e => verdict e | None => Retry end);
    [|split; [assumption|split; [discriminate|auto]] ..].
  destruct (Nat.ltb_spec 1 (size k)) as [Hg1|Hg1].
  - pose proof (root_bounds _ Hg1). cbn [ahead] in Hm.
    assert (Hw : within m (run_next q st (start k) (root (size k)))).
    { apply within_run_next; [easy|split; lia|]. lia. }
    destruct Hw as [? ?]. split; [easy|]. split; [now intros _|easy].
  - destruct (Nat.ltb_spec 3 (default 0 (retries st !! start k))) as [Hr|Hr];
      [split; [assumption|split; [discriminate|auto]]|].
    set (l' := (fun k => {| start := start k; size := size k; next_size := next_size k; retrying := true |})
                 <$> live (set_retry st (start k) (size k))).
    pose proof (budget_retry (retries st) (start k) Hd Hr) as Hb.
    assert (Ha : ahead l' <= ahead (Some k)).
    { subst l'. cbn [live set_retry]. destruct Hl as [->|(k' & -> & Hk1 & Hk2)];
        [apply Nat.le_0_l|].
      change ((S n - start k') * S n + size k' <= (S n - start k) * S n + size k). now rewrite Hk1, Hk2. }
    split; [|split; [intros _|easy]].
    + apply inv_set_live; [|subst l'|easy].
      * destruct Hi as [H1 H2 H3 H4]. split; cbn; try easy.
        -- apply Forall_app. split; [easy|]. apply list.Forall_singleton. now split.
        -- intros d. destruct (decide (d = start k)) as [->|Hn].
           ++ rewrite lookup_insert_eq. cbn. lia.
           ++ rewrite lookup_insert_ne by congruence. apply H3.
      * cbn [live set_retry]. destruct (live st) as [k'|] eqn:Hlk; [|easy]. cbn. intros ? [= <-]. cbn.
        exact (inv_live st Hi k' Hlk).
    + assert (Hw : waiting (set_live (set_retry st (start k) (size k)) l') <= waiting st).
      { unfold waiting. cbn [retries set_live set_retry timers]. rewrite length_app. cbn [length]. lia. }
      apply (Nat.mul_le_mono_r _ _ ((2 + n) * S n)) in Hw.
      unfold total, potential. cbn [live set_live requests set_retry] in *. lia.
Qed.

(** ** Every event *)

Lemma next_size_bounds k e : 1 <= size k -> 1 <= n -> 1 <= cap_size (start k + size k) (size_after e (size k)) n <= n.
Proof.
  intros Hk Hn. pose proof (size_after_pos e (size k) Hk).
  pose proof (cap_size_bounds (start k + size k) (size_after e (size k)) n). lia.
Qed.

Lemma inv_open_live st k : inv st -> live st = Some k -> closed st = false.
Proof. intros Hi Hl. destruct (closed st) eqn:Hc; [|easy]. destruct (inv_closed st Hi Hc). congruence. Qed.

Lemma within_on_next m st k e st' :
  1 <= n -> inv st -> live st = Some k -> total st <= m -> on_next q st k e = Some st' -> within m st'.
Proof.
  intros Hn Hi Hl Hm. unfold on_next.
  destruct (inv_live st Hi k Hl) as [Hs Hh]. pose proof (inv_open_live st k Hi Hl) as Hc.
  assert (Hm' : length (requests st) + waiting st * ((2 + n) * S n) + ahead (Some k) <= m).
  { unfold total, potential in Hm. rewrite Hl in Hm. lia. }
  assert (Hgo : forall st1, st1 = st \/ st1 = set_aborted st ->
    (i ← combine_responses (merged st1) e;
     Some (set_live (set_merged st1 i)
       (Some {| start := start k; size := size k;
                next_size := cap_size (start k + size k) (size_after e (size k)) (length (shards q));
                retrying := retrying k |}))) = Some st' -> within m st').
  { intros st1 Hst1. destruct (combine_responses _ _) as [i|]; [|easy]. intros [= <-].
    assert (Hi1 : inv st1) by (destruct Hst1 as [-> | ->]; destruct Hi; split; cbn; auto; congruence).
    assert (Hsame : requests st1 = requests st /\ waiting st1 = waiting st /\ closed st1 = false).
    { now destruct Hst1 as [-> | ->]. }
    destruct Hsame as (Hr1 & Hw1 & Hc1). split.
    - apply inv_set_live; [destruct Hi1; split; cbn; auto| |easy].
      intros k' [= <-]. cbn. split; [easy|]. apply next_size_bounds; [apply Hs|easy].
    - unfold total, potential. cbn [requests set_live set_merged live ahead start size].
      change (waiting (set_live (set_merged st1 i) _)) with (waiting st1).
      rewrite Hr1, Hw1. cbn [ahead] in Hm'. lia. }
  destruct (has_error e); [|now apply Hgo; left].
  pose proof (within_retry m st k (Some e) Hi Hs ltac:(right; now exists k) Hm' Hc) as Hr.
  destruct (retry q st k (Some e)) as [[] st1].
  - intros [= <-]. split; [easy|]. now apply Hr.
  - now apply Hgo, Hr.
Qed.

Lemma within_on_complete m st k :
  inv st -> live st = Some k -> total st <= m -> within m (on_complete q st k).
Proof.
  intros Hi Hl Hm. unfold on_complete.
  destruct (inv_live st Hi k Hl) as [Hs Hh].
  unfold total, potential in Hm. rewrite Hl in Hm.
  assert (Hi' : inv (set_live st None)) by now apply inv_set_live.
  destruct (retrying k).
  - split; [easy|]. unfold total, potential.
    change (length (requests st) + (waiting st * ((2 + n) * S n) + ahead None) <= m). cbn [ahead]. lia.
  - cbn [merged set_live]. destruct (data (merged st)).
    + apply within_next_or_done; try easy.
      change (length (requests st) + waiting st * ((2 + n) * S n) + ahead (Some k) <= m). lia.
    + set (st1 := notify _ _).
      assert (Hk : requests st1 = requests st /\ waiting st1 = waiting st /\ live st1 = None).
      { subst st1. now edestruct notify_keeps as (-> & -> & -> & _). }
      destruct Hk as (Hr & Hw & Hl1).
      apply within_next_or_done; try easy; [now apply inv_notify|].
      rewrite Hr, Hw. change (length (requests st) + waiting st * ((2 + n) * S n) + ahead (Some k) <= m). lia.
Qed.

Lemma within_on_error m st k :
  inv st -> live st = Some k -> total st <= m -> within m (on_error q st k).
Proof.
  intros Hi Hl Hm. unfold on_error.
  destruct (inv_live st Hi k Hl) as [Hs Hh]. pose proof (inv_open_live st k Hi Hl) as Hc.
  unfold total, potential in Hm. rewrite Hl in Hm.
  set (st1 := notify _ _).
  assert (Hk : requests st1 = requests st /\ waiting st1 = waiting st /\ live st1 = None /\ closed st1 = false).
  { subst st1. now edestruct notify_keeps as (-> & -> & -> & _ & _ & ->). }
  destruct Hk as (Hr & Hw & Hl1 & Hc1).
  assert (Hi1 : inv st1) by now apply inv_notify, inv_set_live.
  assert (Hm1 : length (requests st1) + waiting st1 * ((2 + n) * S n) + ahead (Some k) <= m).
  { rewrite Hr, Hw. change (length (requests st) + waiting st * ((2 + n) * S n) + ahead (Some k) <= m). lia. }
  pose proof (within_retry m st1 k None Hi1 Hs (or_introl Hl1) Hm1 Hc1) as Hret.
  destruct (retry q st1 k None) as [[] st2]; destruct Hret as (Hi2 & Ht & Hf).
  - split; [easy|]. now apply Ht.
  - destruct (Hf eq_refl) as [-> | ->]; now apply within_next_or_done.
Qed.

Lemma within_on_timer m st id d g :
  inv st -> total st <= m ->
  List.find (fun t => (t.1 =? id)) (timers st) = Some (id, (d, g)) ->
  within m (let st := set_timers st (List.filter (fun t => negb (t.1 =? id)) (timers st)) (last_timer st) in
            let st := run_next q st d g in set_timers st (timers st) None).
Proof.
  intros Hi Hm Hf. cbv zeta. set (st1 := set_timers st _ _).
  assert (Hi1 : inv st1).
  { destruct Hi as [H1 H2 H3 H4]. split; cbn; try easy. now apply Forall_list_filter. }
  assert (Hs : sized d g).
  { apply find_some in Hf as [Hf _]. pose proof (inv_timers st Hi) as Ht. rewrite list.Forall_forall in Ht.
    apply list_elem_of_In in Hf. exact (Ht _ Hf). }
  assert (Hw : S (waiting st1) <= waiting st).
  { unfold waiting. cbn. pose proof (filter_found_lt _ _ _ Hf). lia. }
  apply (Nat.mul_le_mono_r _ _ ((2 + n) * S n)) in Hw.
  destruct (within_run_next m st1 d g Hi1 Hs) as [Hi2 Ht2].
  { change (requests st1) with (requests st). unfold total, potential in Hm.
    destruct Hs as [Hd Hg]. pose proof (Nat.mul_le_mono_r (S n - d) (S n) (S n)). lia. }
  split; [|exact Ht2]. destruct Hi2 as [H1 H2 H3 H4]. now split.
Qed.

(** Whatever happens, the requests made and still to come do not grow. *)
Lemma step_potential st ev st' :
  1 <= n -> inv st -> step q st ev = Some st' -> within (total st) st'.
Proof.
  intros Hn Hi. unfold step.
  destruct ev as [e| | |id|].
  - destruct (live st) as [k|] eqn:Hl; [|intros [= <-]; now split].
    intros Hs. now apply (within_on_next _ st k e).
  - destruct (live st) as [k|] eqn:Hl; intros [= <-]; [now apply within_on_complete|now split].
  - destruct (live st) as [k|] eqn:Hl; intros [= <-]; [now apply within_on_error|now split].
  - destruct (List.find _ _) as [[id' [d g]]|] eqn:Hf.
    + intros [= <-]. apply (within_on_timer (total st) st id d g); try easy.
      pose proof Hf as Hf'. apply find_some in Hf' as [_ Hid]. apply Nat.eqb_eq in Hid as [= ->]. exact Hf.
    + intros [= <-]; now split.
  - intros [= <-]. destruct (closed st); [now split|].
    apply within_teardown; [easy|]. unfold total, potential. lia.
Qed.

Lemma run_potential evs st st' :
  1 <= n -> inv st -> run q st evs = Some st' -> within (total st) st'.
Proof.
  intros Hn. revert st; induction evs as [|ev evs IH]; intros st Hi; cbn.
  - intros [= <-]. now split.
  - destruct (step q st ev) as [st1|] eqn:Hs; [|easy]. cbn. intros Hr.
    destruct (step_potential st ev st1 Hn Hi Hs) as [Hi1 Ht1].
    destruct (IH st1 Hi1 Hr) as [Hi2 Ht2]. split; [easy|]. lia.
Qed.

Lemma inv_no_state : inv no_state.
Proof. split; cbn; try easy. intros d. rewrite lookup_empty. cbn. lia. Qed.

Lemma budget_empty : budget ∅ = 4 * S n.
Proof.
  unfold budget. rewrite <- (length_seq (S n) 0) at 2. induction (seq 0 (S n)) as [|x l IH]; [easy|].
  rewrite fmap_cons. cbn [list_sum foldr length]. rewrite lookup_empty. unfold list_sum in IH. cbn [default] in *. lia.
Qed.

Lemma begin_within : 1 <= n -> within (8 * S n * ((2 + n) * S n) + (S n * S n + S n)) (begin_ q).
Proof.
  intros Hn. apply within_run_next; [apply inv_no_state| |].
  - unfold root. fold n. split; [lia|]. split; [now apply Nat.sqrt_le_square|]. apply Nat.sqrt_le_lin.
  - unfold waiting. cbn [requests no_state retries timers length]. rewrite budget_empty.
    fold n. unfold root. pose proof (Nat.sqrt_le_lin n). lia.
Qed.
End Correct.
