(* ===== verification/ShardsServed.v ===== *)
(** * Runs of the sharded query under a data source that answers once

    [Behaves] are the runs of [Shards.step] in which every request is answered by one response
    and then completes, or fails; the timers go off whenever they do, before or after a
    completion.  The run carries the requests that were answered or failed, in order.  Its
    invariant, [phase]: the answered groups are the shards in front of the request under way,
    and the merged response is the merge of their answers.  [serve] is what becomes of one
    request when nothing comes in between. *)

From S2P Require Import Prelude.
From stdpp Require Import gmap.
From S2P Require Import JavaScript.
From S2P Require Import Frames.
From S2P Require Import FramesCorrect.
From S2P Require Import Shards.
From S2P Require Import ShardsCorrect.
From Stdlib Require Import SpecFloat.
#[local] Open Scope nat_scope.

(** A response without an error to ask again for; one with a time-out; a broken
    connection; a parse error, or an empty list of errors. *)
Inductive Outcome := Answered (r : Response) | TimedOut (r : Response) | Failed | Refused (r : Response).

Definition valid (o : Outcome) : Prop :=
  match o with
  | Answered r => has_error r = false \/ verdict r = NoRetry
  | TimedOut r => has_error r = true /\ verdict r = Retry
  | Failed => True
  | Refused r => has_error r = true /\ verdict r = Throws
  end.

Lemma foldM_app {A B} (f : A -> B -> option A) a l l' :
  foldM f a (l ++ l') = a' ← foldM f a l; foldM f a' l'.
Proof. revert a; induction l as [|x l IH]; intros a; cbn; [easy|]. destruct (f a x); [apply IH|easy]. Qed.

(** The requests made: where they started, their size, what became of them. *)
Abbreviation trace := (list (nat * nat * Outcome)).

Section Served.
Context `{GrafanaData} (q : Query).
Let n := length (shards q).

(** The timer that was set goes off. *)
Definition fire (st : State) : option State :=
  match timers st with (id, _) :: _ => step q st (OnTimer id) | [] => Some st end.

Definition serve (st : State) (o : Outcome) : option State :=
  match o with
  | Answered r | Refused r => run q st [OnNext r; OnComplete]
  | TimedOut r =>
      st ← step q st (OnNext r);
      match timers st with
      | [] => if aborted st then step q st OnComplete else Some st
      | _ => st ← step q st OnComplete; fire st
      end
  | Failed => st ← step q st OnError; fire st
  end.

(** What a response is to the query. *)
Definition outcome_of (r : Response) : Outcome :=
  if has_error r then match verdict r with Retry => TimedOut r | NoRetry => Answered r | Throws => Refused r end
  else Answered r.

(** No request was made in between. *)
Definition same_request (st st' : State) : bool := length (requests st) =? length (requests st').

(** Runs, with whether the request under way has had its response. *)
Inductive Behaves : trace -> bool -> State -> Prop :=
  | Behaves_begin : Behaves [] false (begin_ q)
  | Behaves_next tr st k r st' :
      Behaves tr false st -> live st = Some k -> step q st (OnNext r) = Some st' ->
      Behaves (tr ++ [(start k, size k, outcome_of r)]) (same_request st st') st'
  | Behaves_complete tr st k st' :
      Behaves tr true st -> live st = Some k -> step q st OnComplete = Some st' -> Behaves tr false st'
  | Behaves_error tr st k st' :
      Behaves tr false st -> live st = Some k -> step q st OnError = Some st' ->
      Behaves (tr ++ [(start k, size k, Failed)]) false st'
  | Behaves_timer tr h st id st' :
      Behaves tr h st -> step q st (OnTimer id) = Some st' -> Behaves tr (h && same_request st st') st'.

(** No request is under way and no timer is set. *)
Definition over (st : State) : Prop := live st = None /\ timers st = [].

(** The groups answered, with their answers. *)
Definition answered (tr : trace) : list (list Z * Response) :=
  omap (fun '(d, g, o) => match o with Answered r => Some (shard_group (shards q) d g, r) | _ => None end) tr.
(** How often the group of one that starts at [d] has timed out or failed. *)
Definition failed (d : nat) (x : nat * nat * Outcome) : bool :=
  let '(d', g, o) := x in
  (d' =? d) && (g <=? 1) && match o with TimedOut _ | Failed => true | _ => false end.
Definition failures (d : nat) (tr : trace) : nat := length (List.filter (failed d) tr).

(** ** The invariant *)

Record asking (tr : trace) (st : State) (k : Invocation) : Prop := {
  a_live : live st = Some k;
  a_start : start k <= n;
  a_size : 1 <= size k /\ 1 <= next_size k;
  a_retrying : retrying k = false;
  a_aborted : aborted st = false;
  a_closed : closed st = false;
  a_timers : timers st = [];
  a_groups : concat (answered tr).*1 = firstn (start k) (shards q);
  a_merged : foldM combine_responses no_response (answered tr).*2 = Some (merged st);
  a_retries d : default 0 (retries st !! d) = failures d tr
}.

(** All was asked and answered; or it was given up. *)
Record finished (tr : trace) (st : State) : Prop := {
  f_over : over st;
  f_groups : concat (answered tr).*1 = shards q ++ [(-1)%Z];
  f_merged : foldM combine_responses no_response (answered tr).*2 = Some (merged st);
  f_emitted : exists em, emitted st = em ++ [Next Done (merged st); Complete]
}.
Record gave_up (tr : trace) (st : State) : Prop := {
  g_over : over st;
  g_emitted : exists em r, emitted st = em ++ [Next Error r; Complete];
  g_reason : (exists d, 5 <= failures d tr) \/ (exists d g r tr', tr = tr' ++ [(d, g, Refused r)])
}.
Definition served (tr : trace) (st : State) : Prop :=
  (exists k, asking tr st k) \/ finished tr st \/ gave_up tr st.

Lemma answered_app tr d g o :
  answered (tr ++ [(d, g, o)]) =
    answered tr ++ match o with Answered r => [(shard_group (shards q) d g, r)] | _ => [] end.
Proof. unfold answered. rewrite omap_app. cbn. now destruct o. Qed.

Lemma failures_app d tr x : failures d (tr ++ [x]) = failures d tr + Nat.b2n (failed d x).
Proof. unfold failures. rewrite List.filter_app, length_app. cbn. now destruct (failed d x). Qed.

(** The next group after an answered one. *)
Lemma group_next d g :
  d < n -> firstn d (shards q) ++ shard_group (shards q) d g = firstn (Nat.min (d + g) n) (shards q).
Proof.
  intros Hd. unfold shard_group. fold n. destruct (Nat.eqb_spec d n); [lia|].
  rewrite take_take_drop. unfold n. now rewrite <- take_take, firstn_all.
Qed.

Lemma emitted_end_query st :
  closed st = false -> timers st = [] ->
  over (end_query st) /\ merged (end_query st) = merged st /\
  emitted (end_query st) = emitted st ++ [Next (if aborted st then Error else Done) (merged st); Complete].
Proof.
  destruct st as [? ? ? ? ? lt ? ? ? ?]. simpl. intros -> ->. unfold end_query, notify, over. cbn. rewrite <- app_assoc.
  now destruct lt.
Qed.

(** [f] after an answer. *)
Lemma served_next tr st k :
  live st = None -> start k <= n -> 1 <= size k -> 1 <= next_size k ->
  aborted st = false -> closed st = false -> timers st = [] ->
  concat (answered tr).*1 = firstn (start k) (shards q) ++ shard_group (shards q) (start k) (size k) ->
  foldM combine_responses no_response (answered tr).*2 = Some (merged st) ->
  (forall d, default 0 (retries st !! d) = failures d tr) ->
  served tr (next_or_done q st k).
Proof.
  intros Hl Hd Hg Hh Ha Hc Ht Hgr Hm Hr. unfold next_or_done. fold n.
  destruct (Nat.ltb_spec (start k) n) as [Hlt|Hge]; cbn [andb].
  - destruct (Nat.leb_spec (Nat.min (start k + size k) n) n); [|lia].
    left. unfold run_next. cbn [aborted set_live]. rewrite Ha. eexists. split; cbn; try easy; try lia.
    rewrite Hgr. now apply group_next.
  - right; left. destruct (emitted_end_query st Hc Ht) as (Hl' & Hm' & He').
    rewrite Ha in He'. split; rewrite ?Hm'; try easy.
    + rewrite Hgr. assert (Hs : start k = n) by lia. unfold shard_group. fold n. rewrite Hs, Nat.eqb_refl.
      unfold n. now rewrite firstn_all.
    + exists (emitted st). exact He'.
Qed.

(** [f] after [a = true]. *)
Lemma aborted_next tr st k :
  aborted st = true -> closed st = false -> live st = None -> timers st = [] ->
  (exists d, 5 <= failures d tr) \/ (exists d g r tr', tr = tr' ++ [(d, g, Refused r)]) ->
  gave_up tr (next_or_done q st k).
Proof.
  intros Ha Hc Hl Ht Hr.
  assert (Hf : forall st, aborted st = true -> closed st = false -> timers st = [] -> gave_up tr (end_query st)).
  { clear -Hr. intros st Ha Hc Ht. destruct (emitted_end_query st Hc Ht) as (Hl' & Hm' & He'). rewrite Ha in He'.
    split; [easy| |easy]. exists (emitted st), (merged st). exact He'. }
  unfold next_or_done. destruct (_ && _); [|now apply Hf].
  unfold run_next. cbn [aborted set_live]. rewrite Ha. now apply Hf.
Qed.
(** [u] for the group of a request that is made again. *)
Lemma asking_again tr st d g :
  d <= n -> 1 <= g -> aborted st = false -> closed st = false -> timers st = [] ->
  concat (answered tr).*1 = firstn d (shards q) ->
  foldM combine_responses no_response (answered tr).*2 = Some (merged st) ->
  (forall d, default 0 (retries st !! d) = failures d tr) ->
  asking tr (run_next q st d g) {| start := d; size := g; next_size := g; retrying := false |}.
Proof.
  intros Hd Hg Ha Hc Ht Hgr Hm Hr. unfold run_next. cbn [aborted set_live]. rewrite Ha. now split.
Qed.

(** What has been answered does not change when a request was not. *)
Lemma answered_no tr d g o :
  (forall r, o <> Answered r) -> answered (tr ++ [(d, g, o)]) = answered tr.
Proof. intros Ho. rewrite answered_app. destruct o as [r| | |]; rewrite ?app_nil_r; [now destruct (Ho r)|easy..]. Qed.

Definition fails (o : Outcome) : Prop := match o with TimedOut _ | Failed => True | _ => False end.

Lemma failures_large tr d d' g o : 1 < g -> failures d' (tr ++ [(d, g, o)]) = failures d' tr.
Proof.
  intros Hg. rewrite failures_app. unfold failed.
  destruct (Nat.leb_spec g 1); [lia|]. rewrite andb_false_r. cbn. lia.
Qed.

Lemma failures_one tr d g o :
  g <= 1 -> fails o ->
  forall d', failures d' (tr ++ [(d, g, o)]) = if decide (d' = d) then S (failures d' tr) else failures d' tr.
Proof.
  intros Hg Ho d'. rewrite failures_app. unfold failed.
  destruct (Nat.leb_spec g 1); [|lia]. rewrite andb_true_r.
  destruct (decide (d' = d)) as [->|Hn].
  - rewrite Nat.eqb_refl. destruct o; cbn in *; try easy; lia.
  - destruct (Nat.eqb_spec d d'); [congruence|]. cbn. lia.
Qed.

(** A request for [g] shards at [d] is to be made again. *)
Record pending (tr : trace) (st : State) (d g : nat) : Prop := {
  p_start : d <= n;
  p_size : 1 <= g;
  p_aborted : aborted st = false;
  p_closed : closed st = false;
  p_groups : concat (answered tr).*1 = firstn d (shards q);
  p_merged : foldM combine_responses no_response (answered tr).*2 = Some (merged st);
  p_retries e : default 0 (retries st !! e) = failures e tr
}.

Lemma pending_failed tr st k o st1 :
  asking tr st k -> fails o -> size k <= 1 -> aborted st1 = false -> closed st1 = false -> merged st1 = merged st ->
  retries st1 = <[start k := S (default 0 (retries st !! start k))]> (retries st) ->
  pending (tr ++ [(start k, size k, o)]) st1 (start k) (size k).
Proof.
  intros Hk Ho Hs Ha Hc Hm Hre.
  assert (Hno : answered (tr ++ [(start k, size k, o)]) = answered tr).
  { apply answered_no. now intros r ->. }
  split; try easy; try apply Hk.
  - now rewrite Hno, (a_groups _ _ _ Hk).
  - rewrite Hno, (a_merged _ _ _ Hk). now rewrite Hm.
  - intros d. rewrite Hre, failures_one by easy. destruct (decide (d = start k)) as [->|Hn].
    + rewrite lookup_insert_eq. cbn. now rewrite (a_retries _ _ _ Hk).
    + rewrite lookup_insert_ne by congruence. apply Hk.
Qed.

(** Its timer goes off. *)
Lemma pending_fires tr st d g id st' :
  pending tr st d g -> timers st = [(id, (d, g))] -> step q st (OnTimer id) = Some st' ->
  (exists k, asking tr st' k) /\ length (requests st') = S (length (requests st)).
Proof.
  intros [H1 H2 H3 H4 H5 H6 H7] Ht. unfold step. rewrite Ht. cbn [List.find fst]. rewrite Nat.eqb_refl. intros [= <-].
  cbn [List.filter fst]. rewrite Nat.eqb_refl. cbn [negb]. split.
  - destruct (asking_again tr (set_timers st [] (last_timer st)) d g) as [A1 A2 A3 A4 A5 A6 A7 A8 A9 A10]; try easy.
    eexists. split; cbn; eassumption.
  - unfold run_next. cbn [aborted set_live set_timers]. rewrite H3. cbn. rewrite length_app. cbn. lia.
Qed.

(** The state in which only a timer for the same group is set. *)
Lemma fired tr st k o st' :
  asking tr st k -> fails o -> size k <= 1 ->
  forall st1, aborted st1 = false -> closed st1 = false -> merged st1 = merged st ->
  retries st1 = <[start k := S (default 0 (retries st !! start k))]> (retries st) ->
  (exists id, timers st1 = [(id, (start k, size k))]) ->
  fire st1 = Some st' -> served (tr ++ [(start k, size k, o)]) st'.
Proof.
  intros Hk Ho Hs st1 Ha Hc Hm Hre (id & Ht) Hf. left. unfold fire in Hf. rewrite Ht in Hf.
  eapply pending_fires; [by eapply pending_failed|exact Ht|exact Hf].
Qed.

Lemma step_next st k r : live st = Some k -> step q st (OnNext r) = on_next q st k r.
Proof. intros Hl. unfold step. now rewrite Hl. Qed.
Lemma step_complete st k : live st = Some k -> step q st OnComplete = Some (on_complete q st k).
Proof. intros Hl. unfold step. now rewrite Hl. Qed.
Lemma step_error st k : live st = Some k -> step q st OnError = Some (on_error q st k).
Proof. intros Hl. unfold step. now rewrite Hl. Qed.

Lemma serve_answered tr st k r st' :
  asking tr st k -> valid (Answered r) -> serve st (Answered r) = Some st' ->
  served (tr ++ [(start k, size k, Answered r)]) st'.
Proof.
  intros [Hl Hd [Hg Hh] Hre Ha Hc Ht Hgr Hm Hf] Hv. unfold serve, run. cbn [foldM].
  rewrite (step_next _ k) by exact Hl. unfold on_next.
  assert (Hret : (if has_error r then retry q st k (Some r) else (false, st)) = (false, st)).
  { destruct (has_error r) eqn:Hhe; [|easy]. destruct Hv as [Hv|Hv]; [congruence|]. unfold retry. now rewrite Hv. }
  rewrite Hret. destruct (combine_responses (merged st) r) as [i|] eqn:Hi; [|easy].
  cbn [mbind option_bind]. erewrite step_complete by reflexivity.
  unfold on_complete. cbn [retrying]. rewrite Hre. intros [= <-].
  assert (Hfold : foldM combine_responses no_response
                    (answered (tr ++ [(start k, size k, Answered r)])).*2 = Some i).
  { rewrite answered_app, fmap_app, foldM_app, Hm. cbn. now rewrite Hi. }
  assert (Hsize : 1 <= cap_size (start k + size k) (size_after r (size k)) (length (shards q))).
  { apply cap_size_bounds. now apply size_after_pos. }
  assert (Hgroups : concat (answered (tr ++ [(start k, size k, Answered r)])).*1
                      = firstn (start k) (shards q) ++ shard_group (shards q) (start k) (size k)).
  { rewrite answered_app, fmap_app, concat_app, Hgr. cbn. now rewrite app_nil_r. }
  assert (Hfail : forall d, default 0 (retries st !! d) = failures d (tr ++ [(start k, size k, Answered r)])).
  { intros d. rewrite failures_app, Hf. unfold failed. rewrite andb_false_r. cbn. lia. }
  unfold notify. cbn [closed set_live set_merged merged]. rewrite Hc.
  destruct (data i); apply served_next; easy.
Qed.

(** An error that ends the query. *)
Lemma aborted_complete tr st k i h :
  closed st = false -> retrying k = false -> timers st = [] ->
  (exists d, 5 <= failures d tr) \/ (exists d g r tr', tr = tr' ++ [(d, g, Refused r)]) ->
  gave_up tr (on_complete q (set_live (set_merged (set_aborted st) i)
    (Some {| start := start k; size := size k; next_size := h; retrying := retrying k |}))
    {| start := start k; size := size k; next_size := h; retrying := retrying k |}).
Proof.
  intros Hc Hre Ht Hr. unfold on_complete. cbn [retrying]. rewrite Hre.
  unfold notify. cbn [closed set_live set_merged set_aborted merged]. rewrite Hc.
  destruct (data i); now apply aborted_next.
Qed.

Lemma serve_refused tr st k r st' :
  asking tr st k -> valid (Refused r) -> serve st (Refused r) = Some st' ->
  served (tr ++ [(start k, size k, Refused r)]) st'.
Proof.
  intros [Hl Hd [Hg Hh] Hre Ha Hc Ht Hgr Hm Hf] [Hhe Hv]. unfold serve, run. cbn [foldM].
  rewrite (step_next _ k) by exact Hl. unfold on_next. rewrite Hhe. unfold retry. rewrite Hv.
  destruct (combine_responses _ r) as [i|] eqn:Hi; [|easy].
  cbn [mbind option_bind]. erewrite step_complete by reflexivity. intros [= <-].
  right; right. apply aborted_complete; [easy..|]. right. now exists (start k), (size k), r, tr.
Qed.
(** A group of several shards is asked again with fewer. *)
Lemma shrunk tr st k o st1 :
  asking tr st k -> fails o -> 1 < size k ->
  aborted st1 = false -> closed st1 = false -> timers st1 = [] -> merged st1 = merged st -> retries st1 = retries st ->
  served (tr ++ [(start k, size k, o)]) (run_next q st1 (start k) (root (size k))).
Proof.
  intros Hk Ho Hg Ha Hc Ht Hm Hr. left. eexists.
  assert (Hno : answered (tr ++ [(start k, size k, o)]) = answered tr) by (apply answered_no; now intros r ->).
  apply asking_again; try easy; try apply Hk.
  - now apply root_bounds.
  - rewrite Hno. apply Hk.
  - rewrite Hno, Hm. apply Hk.
  - intros d. rewrite Hr, failures_large by easy. apply Hk.
Qed.

(** The fifth failure of one shard. *)
Lemma fifth tr st k o :
  asking tr st k -> fails o -> size k <= 1 -> 3 < default 0 (retries st !! start k) ->
  5 <= failures (start k) (tr ++ [(start k, size k, o)]).
Proof.
  intros Hk Ho Hs Hr. rewrite (a_retries _ _ _ Hk) in Hr.
  rewrite failures_one, decide_True by easy. lia.
Qed.

Lemma serve_timed_out tr st k r st' :
  asking tr st k -> valid (TimedOut r) -> serve st (TimedOut r) = Some st' ->
  served (tr ++ [(start k, size k, TimedOut r)]) st'.
Proof.
  intros Hk [Hhe Hv]. pose proof Hk as [Hl Hd [Hg Hh] Hre Ha Hc Ht Hgr Hm Hf]. unfold serve.
  rewrite (step_next _ k) by exact Hl. unfold on_next. rewrite Hhe. unfold retry. rewrite Hv.
  destruct (Nat.ltb_spec 1 (size k)) as [Hs|Hs].
  - cbn [mbind option_bind].
    assert (Hrun : forall d g, timers (run_next q st d g) = [] /\ aborted (run_next q st d g) = false).
    { intros d g. unfold run_next. cbn [aborted set_live]. rewrite Ha. easy. }
    destruct (Hrun (start k) (root (size k))) as [-> ->]. intros [= <-].
    now apply (shrunk tr st).
  - destruct (Nat.ltb_spec 3 (default 0 (retries st !! start k))) as [Hr|Hr].
    + destruct (combine_responses _ r) as [i|]; [|easy]. cbn [mbind option_bind].
      cbn [timers set_live set_merged set_aborted aborted]. rewrite Ht.
      erewrite step_complete by reflexivity. intros [= <-]. right; right.
      apply aborted_complete; [easy..|]. left. exists (start k). now apply (fifth tr st k).
    + cbn [mbind option_bind]. cbn [live set_retry]. rewrite Hl.
      cbn [fmap option_fmap option_map timers set_live set_retry]. rewrite Ht. cbn [app].
      erewrite step_complete by reflexivity. cbn [mbind option_bind].
      unfold on_complete. cbn [retrying].
      apply (fired tr st k); try easy. cbn. rewrite Ht. now eexists.
Qed.

Lemma serve_failed tr st k st' :
  asking tr st k -> serve st Failed = Some st' -> served (tr ++ [(start k, size k, Failed)]) st'.
Proof.
  intros Hk. pose proof Hk as [Hl Hd [Hg Hh] Hre Ha Hc Ht Hgr Hm Hf]. unfold serve.
  rewrite (step_error _ k) by exact Hl. cbn [mbind option_bind]. unfold on_error.
  set (st1 := notify _ _).
  assert (H1 : live st1 = None /\ aborted st1 = false /\ closed st1 = false /\ timers st1 = [] /\
               merged st1 = merged st /\ retries st1 = retries st).
  { subst st1. unfold notify. cbn [closed set_live]. now rewrite Hc. }
  destruct H1 as (Hl1 & Ha1 & Hc1 & Ht1 & Hm1 & Hr1). clearbody st1.
  unfold retry. destruct (Nat.ltb_spec 1 (size k)) as [Hs|Hs].
  - unfold fire.
    assert (Hrun : timers (run_next q st1 (start k) (root (size k))) = []).
    { unfold run_next. cbn [aborted set_live]. now rewrite Ha1. }
    rewrite Hrun. intros [= <-]. now apply (shrunk tr st).
  - rewrite Hr1. destruct (Nat.ltb_spec 3 (default 0 (retries st !! start k))) as [Hr|Hr].
    + assert (Hgave : gave_up (tr ++ [(start k, size k, Failed)]) (next_or_done q (set_aborted st1) k)).
      { apply aborted_next; [easy..|]. left. exists (start k). now apply (fifth tr st k). }
      unfold fire.
      assert (Hnt : timers (next_or_done q (set_aborted st1) k) = []).
      { unfold next_or_done, run_next, end_query, teardown, notify.
        cbn [aborted set_live set_aborted closed timers last_timer]. rewrite Hc1.
        destruct (_ && _); cbn; rewrite ?Hc1; cbn; rewrite Ht1; now destruct (last_timer st1). }
      rewrite Hnt. intros [= <-]. right; right. exact Hgave.
    + apply (fired tr st k); try easy.
      * cbn. now rewrite Hr1.
      * cbn. rewrite Ht1. now eexists.
Qed.

Lemma finished_stays tr st : (finished tr st \/ gave_up tr st) -> live st = None.
Proof. intros [[[H1 _] _ _ _]|[[H1 _] _ _]]; exact H1. Qed.

(** ** The events one by one *)

(** A request is under way without its response; it has its response and will complete; its
    timer is set, before or after it has completed; the query is over. *)
Inductive phase (tr : trace) : bool -> State -> Prop :=
  | Asking st k : asking tr st k -> phase tr false st
  | Responded st k :
      live st = Some k -> timers st = [] -> served tr (on_complete q st k) -> phase tr true st
  | Waiting st id d g h :
      pending tr st d g -> timers st = [(id, (d, g))] ->
      match live st with None => h = false | Some k => h = true /\ retrying k = true end -> phase tr h st
  | Ended st : finished tr st \/ gave_up tr st -> phase tr false st.

Lemma served_phase tr st : served tr st -> phase tr false st.
Proof. intros [[k Hk]|Hd]; [by eapply Asking|by apply Ended]. Qed.

Lemma same_request_refl st : same_request st st = true.
Proof. apply Nat.eqb_refl. Qed.

Lemma outcome_valid r : valid (outcome_of r).
Proof. unfold outcome_of. destruct (has_error r) eqn:He; [destruct (verdict r) eqn:Hv|]; cbn; auto. Qed.

(** A response that is merged, its request to complete. *)
Lemma merged_phase tr st st1 k st2 :
  live st1 = Some k -> timers st1 = [] -> requests st1 = requests st ->
  Some (on_complete q st1 k) = Some st2 -> served tr st2 -> phase tr (same_request st st1) st1.
Proof.
  intros Hl Ht Hr [= <-] Hs. unfold same_request. rewrite Hr, Nat.eqb_refl. by eapply Responded.
Qed.

Lemma phase_next tr st k r st1 :
  asking tr st k -> step q st (OnNext r) = Some st1 ->
  phase (tr ++ [(start k, size k, outcome_of r)]) (same_request st st1) st1.
Proof.
  intros Hk Hst. pose proof Hk as [Hl Hd [Hg Hh] Hre Ha Hc Ht Hgr Hm Hf]. pose proof (outcome_valid r) as Hv.
  assert (Hserve : forall o st2, outcome_of r = o -> serve st o = Some st2 -> served (tr ++ [(start k, size k, o)]) st2).
  { intros o st2 Ho Hs. rewrite Ho in Hv. destruct o as [r0|r0| |r0].
    - by apply (serve_answered tr st).
    - by apply (serve_timed_out tr st).
    - by apply (serve_failed tr st).
    - by apply (serve_refused tr st). }
  pose proof Hst as Hst0. rewrite (step_next _ k) in Hst by exact Hl. unfold on_next in Hst.
  assert (Hmerged : forall st0 o, live st0 = Some k -> timers st0 = [] -> requests st0 = requests st -> outcome_of r = o ->
      (i ← combine_responses (merged st0) r; Some (set_live (set_merged st0 i)
        (Some {| start := start k; size := size k;
                 next_size := cap_size (start k + size k) (size_after r (size k)) (length (shards q));
                 retrying := retrying k |}))) = Some st1 ->
      (forall k1, live st1 = Some k1 -> serve st o = Some (on_complete q st1 k1)) ->
      phase (tr ++ [(start k, size k, o)]) (same_request st st1) st1).
  { intros st0 o Hl0 Ht0 Hr0 Ho Hi Hs. destruct (combine_responses (merged st0) r) as [i|]; [|easy].
    injection Hi as <-. eapply merged_phase; [reflexivity|exact Ht0|exact Hr0|reflexivity|].
    apply Hserve; [exact Ho|]. by apply Hs. }
  unfold outcome_of in *. destruct (has_error r) eqn:He; [unfold retry in Hst; destruct (verdict r) eqn:Hvr|].
  - destruct (Nat.ltb_spec 1 (size k)) as [Hs|Hs].
    + injection Hst as <-.
      assert (Hrun : timers (run_next q st (start k) (root (size k))) = [] /\
          aborted (run_next q st (start k) (root (size k))) = false /\
          length (requests (run_next q st (start k) (root (size k)))) = S (length (requests st))).
      { unfold run_next. cbn [aborted set_live]. rewrite Ha. cbn. rewrite length_app. cbn. split_and!; [easy|easy|lia]. }
      destruct Hrun as (Ht1 & Ha1 & Hn1). unfold same_request. rewrite Hn1.
      rewrite (proj2 (Nat.eqb_neq _ _)) by lia. apply served_phase. apply Hserve; [reflexivity|].
      unfold serve. rewrite Hst0. cbn [mbind option_bind]. by rewrite Ht1, Ha1.
    + destruct (Nat.ltb_spec 3 (default 0 (retries st !! start k))) as [Hr|Hr].
      * apply (Hmerged (set_aborted st)); try easy. intros k1 Hk1. unfold serve. rewrite Hst0. cbn [mbind option_bind].
        cbn [merged set_aborted] in Hst. destruct (combine_responses (merged st) r) as [i|]; [|easy]. injection Hst as <-.
        cbn [timers set_live set_merged set_aborted aborted]. rewrite Ht. by apply step_complete.
      * injection Hst as <-. cbn [live set_retry]. rewrite Hl. cbn [fmap option_fmap option_map].
        unfold same_request. cbn [requests set_live set_retry]. rewrite Nat.eqb_refl.
        eapply (Waiting _ _ (timer_count st) (start k) (size k)); [|cbn; by rewrite Ht|by split].
        by apply (pending_failed tr st).
  - apply (Hmerged st); try easy. intros k1 Hk1. unfold serve, run. cbn [foldM]. rewrite Hst0. cbn [mbind option_bind].
    by rewrite (step_complete _ k1).
  - apply (Hmerged (set_aborted st)); try easy. intros k1 Hk1. unfold serve, run. cbn [foldM]. rewrite Hst0.
    cbn [mbind option_bind]. by rewrite (step_complete _ k1).
  - apply (Hmerged st); try easy. intros k1 Hk1. unfold serve, run. cbn [foldM]. rewrite Hst0. cbn [mbind option_bind].
    by rewrite (step_complete _ k1).
Qed.

Lemma phase_error tr st k st1 :
  asking tr st k -> step q st OnError = Some st1 -> phase (tr ++ [(start k, size k, Failed)]) false st1.
Proof.
  intros Hk Hst. pose proof (serve_failed tr st k) as Hserve. unfold serve in Hserve. rewrite Hst in Hserve.
  cbn [mbind option_bind] in Hserve. unfold fire in Hserve.
  destruct (timers st1) as [|[id [d g]] ts] eqn:Ht1; [by apply served_phase, Hserve|].
  pose proof Hk as [Hl Hd [Hg Hh] Hre Ha Hc Ht Hgr Hm Hf].
  rewrite (step_error _ k) in Hst by exact Hl. injection Hst as <-. unfold on_error in *.
  set (st0 := notify _ _) in *.
  assert (H1 : live st0 = None /\ aborted st0 = false /\ closed st0 = false /\ timers st0 = [] /\
               merged st0 = merged st /\ retries st0 = retries st).
  { subst st0. unfold notify. cbn [closed set_live]. now rewrite Hc. }
  destruct H1 as (Hl0 & Ha0 & Hc0 & Ht0 & Hm0 & Hr0). clearbody st0. unfold retry in *.
  destruct (Nat.ltb_spec 1 (size k)) as [Hs|Hs].
  { exfalso. unfold run_next in Ht1. cbn [aborted set_live] in Ht1. rewrite Ha0 in Ht1. cbn in Ht1. congruence. }
  rewrite Hr0 in *. destruct (Nat.ltb_spec 3 (default 0 (retries st !! start k))) as [Hr|Hr].
  { exfalso. assert (Hgave : gave_up (tr ++ [(start k, size k, Failed)]) (next_or_done q (set_aborted st0) k)).
    { apply aborted_next; [easy..|]. left. exists (start k). now apply (fifth tr st k). }
    destruct (g_over _ _ Hgave) as [_ Hnt]. congruence. }
  cbn [live set_retry timers set_live] in *. rewrite Hl0. rewrite Ht0 in *. cbn in Ht1. injection Ht1 as <- <- <- <-.
  eapply (Waiting _ _ (timer_count st0) (start k) (size k)); [|cbn; by rewrite Ht0|easy].
  apply (pending_failed tr st); try easy. cbn. by rewrite Hr0.
Qed.

Lemma timer_idle st id : timers st = [] -> step q st (OnTimer id) = Some st.
Proof. intros Ht. unfold step. by rewrite Ht. Qed.

Lemma phase_timer tr h st id st1 :
  phase tr h st -> step q st (OnTimer id) = Some st1 -> phase tr (h && same_request st st1) st1.
Proof.
  intros Hp Hst.
  assert (Hidle : timers st = [] -> phase tr (h && same_request st st1) st1).
  { intros Ht. rewrite timer_idle in Hst by exact Ht. injection Hst as <-. by rewrite same_request_refl, andb_true_r. }
  destruct Hp as [st k Hk|st k Hl Ht Hs|st id' d g h Hp Ht Hh|st Hd].
  - apply Hidle, Hk.
  - by apply Hidle.
  - destruct (Nat.eq_dec id' id) as [->|Hne].
    + destruct (pending_fires tr st d g id st1 Hp Ht Hst) as [[k Hk] Hr].
      unfold same_request. rewrite Hr, (proj2 (Nat.eqb_neq _ _)), andb_false_r by lia. by eapply Asking.
    + unfold step in Hst. rewrite Ht in Hst. cbn [List.find fst] in Hst.
      rewrite (proj2 (Nat.eqb_neq _ _)) in Hst by easy. injection Hst as <-.
      rewrite same_request_refl, andb_true_r. by eapply Waiting.
  - apply Hidle. destruct Hd as [Hd|Hd]; apply Hd.
Qed.

Lemma phase_complete tr st k st1 :
  phase tr true st -> live st = Some k -> step q st OnComplete = Some st1 -> phase tr false st1.
Proof.
  intros Hp Hl Hst. rewrite (step_complete _ k) in Hst by exact Hl. injection Hst as <-.
  inversion Hp as [|st' k' Hl' Ht Hs|st' id d g h Hw Ht Hh|]; subst.
  - rewrite Hl in Hl'. injection Hl' as <-. by apply served_phase.
  - rewrite Hl in Hh. destruct Hh as [_ Hre]. unfold on_complete. rewrite Hre.
    eapply (Waiting _ _ id d g); [|exact Ht|easy]. by destruct Hw.
Qed.

Lemma served_begin : 1 <= n -> served [] (begin_ q).
Proof.
  intros Hn. left. eexists. unfold begin_. apply asking_again; try easy; [lia|].
  unfold root. now apply Nat.sqrt_le_square.
Qed.

Lemma behaves_phase tr h st : 1 <= n -> Behaves tr h st -> phase tr h st.
Proof.
  intros Hn. induction 1 as [|tr st k r st1 _ IH Hl Hst|tr st k st1 _ IH Hl Hst|tr st k st1 _ IH Hl Hst|tr h st id st1 _ IH Hst].
  - by apply served_phase, served_begin.
  - inversion IH as [st' k' Hk| |st' id d g h Hp Ht Hh|st' Hd]; subst.
    + pose proof (a_live _ _ _ Hk) as Hl'. rewrite Hl in Hl'. injection Hl' as <-. by apply phase_next.
    + rewrite Hl in Hh. by destruct Hh.
    + apply finished_stays in Hd. congruence.
  - by eapply phase_complete.
  - inversion IH as [st' k' Hk| |st' id d g h Hp Ht Hh|st' Hd]; subst.
    + pose proof (a_live _ _ _ Hk) as Hl'. rewrite Hl in Hl'. injection Hl' as <-. by apply (phase_error _ st).
    + rewrite Hl in Hh. by destruct Hh.
    + apply finished_stays in Hd. congruence.
  - by eapply phase_timer.
Qed.

(** A run that is over is finished or was given up. *)
Lemma behaves_over tr h st : 1 <= n -> Behaves tr h st -> over st -> finished tr st \/ gave_up tr st.
Proof.
  intros Hn Hb [Hl Ht]. destruct (behaves_phase tr h st Hn Hb) as [st k Hk|st k Hl' _ _|st id d g h Hp Ht' _|st Hd].
  - pose proof (a_live _ _ _ Hk). congruence.
  - congruence.
  - congruence.
  - exact Hd.
Qed.

(** ** The requests of a run *)

(** No request is made and none is under way, or one is. *)
Definition adds (st st' : State) : Prop :=
  requests st' = requests st /\ live st' = None \/
  exists k, live st' = Some k /\ requests st' = requests st ++ [request q (start k) (size k)].

Lemma end_query_adds st : live st = None -> adds st (end_query st).
Proof. intros Hl. left. unfold end_query, notify. destruct (closed st) eqn:Hc; [easy|]. cbn. by rewrite ?Hc. Qed.

Lemma run_next_adds st d g : adds st (run_next q st d g).
Proof.
  unfold run_next. destruct (aborted _); [by apply (end_query_adds (set_live st None))|].
  right. by eexists.
Qed.

Lemma next_or_done_adds st k : live st = None -> adds st (next_or_done q st k).
Proof. intros Hl. unfold next_or_done. destruct (_ && _); [apply run_next_adds|by apply end_query_adds]. Qed.

Lemma notify_same st m : requests (notify st m) = requests st /\ live (notify st m) = live st.
Proof. unfold notify. by destruct (closed st). Qed.

Lemma adds_from st st0 st' : requests st0 = requests st -> adds st0 st' -> adds st st'.
Proof. unfold adds. by intros ->. Qed.

Lemma on_complete_adds st k : adds st (on_complete q st k).
Proof.
  unfold on_complete. destruct (retrying k); [by left|].
  destruct (data _); [by apply (next_or_done_adds (set_live st None))|].
  destruct (notify_same (set_live st None) (Next Streaming (merged (set_live st None)))) as [Hr Hl].
  eapply adds_from; [exact Hr|]. by apply next_or_done_adds.
Qed.

Lemma on_error_adds st k : adds st (on_error q st k).
Proof.
  unfold on_error. destruct (notify_same (set_live st None) (Next Streaming (merged st))) as [Hr Hl].
  set (st0 := notify _ _) in *. clearbody st0. eapply adds_from; [exact Hr|]. clear Hr. unfold retry.
  destruct (1 <? size k); [apply run_next_adds|]. destruct (3 <? _).
  - by apply (next_or_done_adds (set_aborted st0)).
  - left. cbn. by rewrite Hl.
Qed.

Lemma on_next_adds st k r st' : on_next q st k r = Some st' -> requests st' = requests st \/ adds st st'.
Proof.
  unfold on_next. destruct (has_error r); cycle 1.
  { destruct (combine_responses _ _); [|easy]. intros [= <-]. by left. }
  unfold retry. destruct (verdict r).
  - destruct (1 <? size k); [intros [= <-]; right; apply run_next_adds|]. destruct (3 <? _).
    + destruct (combine_responses _ _); [|easy]. intros [= <-]. by left.
    + intros [= <-]. by left.
  - destruct (combine_responses _ _); [|easy]. intros [= <-]. by left.
  - destruct (combine_responses _ _); [|easy]. intros [= <-]. by left.
Qed.

(** The groups of a trace. *)
Definition groups (tr : trace) : list (list Z) := (fun x => shard_group (shards q) x.1.1 x.1.2) <$> tr.
Definition unanswered (h : bool) (st : State) : list (list Z) :=
  match live st with Some k => if h then [] else [shard_group (shards q) (start k) (size k)] | None => [] end.

Lemma adds_groups st st' h gs :
  adds st st' -> r_group <$> requests st = gs ->
  r_group <$> requests st' = gs ++ unanswered (h && same_request st st') st'.
Proof.
  unfold unanswered, same_request. intros [[-> ->]|(k & -> & ->)] Hgs; [by rewrite app_nil_r|].
  rewrite length_app. cbn [length]. rewrite (proj2 (Nat.eqb_neq _ _)), andb_false_r by lia.
  by rewrite fmap_app, Hgs.
Qed.

(** Every entry of the trace is a request that was made, in order. *)
Lemma behaves_requests tr h st :
  1 <= n -> Behaves tr h st -> r_group <$> requests st = groups tr ++ unanswered h st.
Proof.
  intros Hn Hb. assert (Hu : forall st, unanswered true st = []) by (intros s; unfold unanswered; by destruct (live s)).
  induction Hb as [|tr st k r st1 _ IH Hl Hst|tr st k st1 _ IH Hl Hst|tr st k st1 _ IH Hl Hst|tr h st id st1 Hb IH Hst].
  - unfold begin_, run_next. reflexivity.
  - rewrite (step_next _ k) in Hst by exact Hl. unfold groups. rewrite fmap_app. cbn [fmap list_fmap fst snd].
    unfold unanswered in IH. rewrite Hl in IH.
    destruct (on_next_adds _ _ _ _ Hst) as [Hr|Ha].
    + unfold same_request. by rewrite Hr, Nat.eqb_refl, Hu, app_nil_r.
    + exact (adds_groups st st1 true _ Ha IH).
  - rewrite (step_complete _ k) in Hst by exact Hl. injection Hst as <-. rewrite Hu, app_nil_r in IH.
    exact (adds_groups st _ false _ (on_complete_adds st k) IH).
  - rewrite (step_error _ k) in Hst by exact Hl. injection Hst as <-. unfold groups. rewrite fmap_app. cbn [fmap list_fmap fst snd].
    unfold unanswered in IH. rewrite Hl in IH. exact (adds_groups st _ false _ (on_error_adds st k) IH).
  - assert (Hidle : timers st = [] -> r_group <$> requests st1 = groups tr ++ unanswered (h && same_request st st1) st1).
    { intros Ht. rewrite timer_idle in Hst by exact Ht. injection Hst as <-. by rewrite same_request_refl, andb_true_r. }
    destruct (behaves_phase tr h st Hn Hb) as [st k Hk|st k _ Ht _|st id' d g h Hp Ht Hh|st [Hd|Hd]];
      [apply Hidle, Hk|by apply Hidle| |apply Hidle, Hd..].
    unfold step in Hst. rewrite Ht in Hst. cbn [List.find fst] in Hst.
    destruct (Nat.eqb_spec id' id) as [->|_]; injection Hst as <-; [|by rewrite same_request_refl, andb_true_r].
    assert (IH' : r_group <$> requests st = groups tr).
    { rewrite IH. unfold unanswered. destruct (live st); [destruct Hh as [-> _]|]; by rewrite app_nil_r. }
    set (st0 := set_timers st _ (last_timer st)). exact (adds_groups st0 (run_next q st0 d g) h _ (run_next_adds st0 d g) IH').
Qed.

(** The data of the merged answers. *)
Lemma merged_data e rs i :
  foldM combine_responses e rs = Some i -> foldM combine_frame (data e) (concat (data <$> rs)) = Some (data i).
Proof.
  revert e; induction rs as [|r rs IH]; intros e; cbn [foldM]; [now intros [= ->]|].
  destruct (combine_responses e r) as [e1|] eqn:He; [|easy]. cbn [mbind option_bind]. intros Hi.
  rewrite fmap_cons. cbn [concat]. rewrite foldM_app. unfold combine_responses in He.
  destruct (foldM combine_frame (data e) (data r)) as [d|]; [|easy]. injection He as <-. exact (IH _ Hi).
Qed.
End Served.

(** ** Progress *)

Section Progress.
Context `{GrafanaData, !GrafanaDataLaws _} (q : Query) (tn vn : bytes) (Hn : tn <> vn).

Lemma next_or_done_progress st k :
  aborted st = false -> closed st = false -> 1 <= size k ->
  merged (next_or_done q st k) = merged st /\
  (live (next_or_done q st k) = None /\ requests (next_or_done q st k) = requests st \/
   exists k', live (next_or_done q st k) = Some k' /\ start k < start k' <= length (shards q) /\
     requests (next_or_done q st k) = requests st ++ [request q (start k') (size k')]).
Proof.
  intros Ha Hc Hg. unfold next_or_done.
  assert (He : merged (end_query st) = merged st /\ live (end_query st) = None /\ requests (end_query st) = requests st).
  { unfold end_query, notify. rewrite Hc. cbn. rewrite ?Hc. easy. }
  destruct He as (He1 & He2 & He3).
  destruct (Nat.ltb_spec (start k) (length (shards q))) as [Hlt|Hge]; cbn [andb]; [|rewrite He1; auto].
  destruct (Nat.leb_spec (Nat.min (start k + size k) (length (shards q))) (length (shards q))); [|lia].
  unfold run_next. cbn [aborted set_live]. rewrite Ha. cbn. split; [easy|]. right. eexists. split; [easy|]. cbn.
  split; [lia|easy].
Qed.

(** An answer of good frames is merged, and the query goes on behind it. *)
Lemma answer_progress st k r :
  live st = Some k -> retrying k = false -> aborted st = false -> closed st = false -> 1 <= size k ->
  good_data tn vn (data (merged st)) -> has_error r = false -> Forall (good tn vn) (data r) ->
  exists st1 k1 st', step q st (OnNext r) = Some st1 /\ live st1 = Some k1 /\ requests st1 = requests st /\
    step q st1 OnComplete = Some st' /\ good_data tn vn (data (merged st')) /\
    (live st' = None /\ requests st' = requests st \/
     exists k', live st' = Some k' /\ start k < start k' <= length (shards q) /\
       requests st' = requests st ++ [request q (start k') (size k')]).
Proof.
  intros Hl Hre Ha Hc Hg Hgd He Hr. rewrite (step_next _ _ k) by exact Hl. unfold on_next. rewrite He. unfold combine_responses.
  destruct (combine_data_points tn vn Hn _ _ Hgd Hr) as (d & -> & Hgd' & _). cbn [mbind option_bind].
  do 3 eexists. split; [reflexivity|]. split; [reflexivity|]. split; [reflexivity|].
  split; [by apply step_complete|].
  unfold on_complete, notify. cbn [retrying closed set_live set_merged merged data]. rewrite Hre, Hc.
  destruct d; edestruct next_or_done_progress as [-> Hp]; cbn [aborted closed set_live set_merged size start] in *;
    try eassumption; now split.
Qed.

(** A server that answers every request, one after the other. *)
Variable reply : list Z -> Response.
Definition answer_to (k : Invocation) : Response := reply (shard_group (shards q) (start k) (size k)).
Fixpoint converse (fuel : nat) (st : State) : option State :=
  match fuel, live st with
  | S f, Some k => st' ← run q st [OnNext (answer_to k); OnComplete]; converse f st'
  | _, _ => Some st
  end.

(** The answers of a run are this server's. *)
Definition answered_by (tr : trace) : Prop :=
  forall d g r, (d, g, Answered r) ∈ tr -> r = reply (shard_group (shards q) d g).

Lemma answered_by_groups tr : answered_by tr -> (answered q tr).*2 = reply <$> (answered q tr).*1.
Proof.
  induction tr as [|[[d g] o] tr IH]; [easy|]. intros Hb.
  assert (Hb' : answered_by tr) by (intros d' g' r Hin; apply Hb; now right). specialize (IH Hb').
  destruct o as [r| | |]; try exact IH. unfold answered in *. cbn. f_equal; [|exact IH].
  apply Hb. left.
Qed.

(** All is answered: no failures, no refusals, and the groups are those of the requests. *)
Definition all_answered (tr : trace) : Prop := Forall (fun x => exists r, x.2 = Answered r) tr.

Hypothesis reply_good : forall g, has_error (reply g) = false /\ Forall (good tn vn) (data (reply g)).

Lemma converse_to_the_end m : forall tr st k,
  length (shards q) - start k <= m ->
  Behaves q tr false st -> asking q tr st k -> good_data tn vn (data (merged st)) -> answered_by tr -> all_answered tr ->
  r_group <$> requests st = (answered q tr).*1 ++ [shard_group (shards q) (start k) (size k)] ->
  exists tr' st', Behaves q tr' false st' /\ converse (S m) st = Some st' /\ over st' /\ answered_by tr' /\
    all_answered tr' /\ r_group <$> requests st' = (answered q tr').*1.
Proof.
  induction m as [|m IH]; intros tr st k Hm Hb Hk Hgd Htr Hall Hrq;
    pose proof Hk as [Hl Hd [Hg Hh] Hre Ha Hc Ht Hgr Hmg Hf];
    destruct (reply_good (shard_group (shards q) (start k) (size k))) as [He Hr];
    destruct (answer_progress st k _ Hl Hre Ha Hc Hg Hgd He Hr) as (st1 & k1 & st' & H1 & Hl1 & Hr1 & H2 & Hgd' & Hnext).
  all: pose proof (Behaves_next q tr st k _ st1 Hb Hl H1) as Hb1; unfold same_request in Hb1;
    rewrite Hr1, Nat.eqb_refl in Hb1; pose proof (Behaves_complete q _ _ _ _ Hb1 Hl1 H2) as Hb2;
    unfold outcome_of in Hb2; rewrite He in Hb2; set (tr' := tr ++ _) in Hb2.
  all: assert (Hrun : run q st [OnNext (answer_to k); OnComplete] = Some st')
    by (unfold run, answer_to; cbn [foldM]; rewrite H1; cbn [mbind option_bind]; rewrite H2; easy).
  all: assert (Htr' : answered_by tr') by (intros d g r Hin; apply elem_of_app in Hin as [Hin|Hin];
    [now apply Htr|]; apply list_elem_of_singleton in Hin; now injection Hin as -> -> ->).
  all: assert (Hall' : all_answered tr') by (apply Forall_app; split; [exact Hall|]; apply list.Forall_singleton; cbn; eauto).
  all: assert (Hgr' : (answered q tr').*1 = r_group <$> requests st)
    by (unfold tr'; rewrite answered_app, fmap_app, Hrq; easy).
  all: destruct (serve_answered q tr st k _ st' Hk (or_introl He) Hrun) as [[k' Hk']|Hdone].
  1,3: pose proof (a_live _ _ _ _ Hk') as Hl'; destruct Hnext as [[Hl'' _]|(k'' & Hl'' & Hlt & Hrq')];
    rewrite Hl' in Hl''; [easy|]; injection Hl'' as <-.
  - lia.
  - destruct (IH tr' st' k') as (tr2 & st2 & Hb3 & Hcv & Hend); try easy; [lia|by rewrite Hrq', fmap_app, Hgr'|].
    exists tr2, st2. split; [exact Hb3|]. split; [|exact Hend].
    cbn [converse]. rewrite Hl, Hrun. exact Hcv.
  - destruct Hnext as [[_ Hrq']|(k'' & Hl'' & _)]; [|apply finished_stays in Hdone; congruence].
    exists tr', st'. split_and!; try easy; [by cbn [converse]; rewrite Hl, Hrun|by destruct Hdone as [[]|[]]|by rewrite Hrq'].
  - destruct Hnext as [[Hl' Hrq']|(k'' & Hl'' & _)]; [|apply finished_stays in Hdone; congruence].
    exists tr', st'. split_and!; try easy; [|by destruct Hdone as [[]|[]]|by rewrite Hrq'].
    cbn [converse]. rewrite Hl, Hrun. cbn [mbind option_bind]. by rewrite Hl'.
Qed.
End Progress.
