(* ===== verification/Labels.v ===== *)
(** * The labels repository (75.js of the Pyroscope bundle)

    [G] lists the label names and the values of a label; the server's answers are
    kept in a cache ([_]) whose key is the text of all parameters.  The class methods
    are generators driven by promises; here a call runs to its end before the next
    one starts, and the answer of the server is an argument. *)

From stdpp Require Import gmap.
From S2P Require Import Prelude.
From S2P Require Import Java.
From S2P Require Import Filters.

(** What a promise comes to. *)
Inductive outcome (A : Type) : Type :=
  | Fulfilled (a : A)
  | Rejected (msg : bytes).
Arguments Fulfilled {A} a.
Arguments Rejected {A} msg.

(** An answer's [names]; [None] when it is not an array. *)
Definition response : Type := option (list bytes).

(** The cache [_]: a [Map] of promises. *)
Abbreviation cache := (gmap bytes (outcome response)).

(** ** The operations of the cache *)

(** [for (const n of e) t += String(n)]. *)
Definition buildCacheKey (e : list bytes) : bytes := fold_left (fun t n => t ++ n) e [].

Definition cache_get (c : cache) (e : list bytes) : option (outcome response) := c !! buildCacheKey e.
Definition cache_set (c : cache) (e : list bytes) (t : outcome response) : cache :=
  <[buildCacheKey e := t]> c.
Definition cache_delete (c : cache) (e : list bytes) : cache := base.delete (buildCacheKey e) c.

(** ** Parsing answers *)

Definition line_terminator (c : ascii) : bool := (c =c? LF) || (c =c? CR).

(** [/^(__.+__|service_name)$/].  Text is bytes here, of which only these two end a line. *)
Definition isMetaLabelOrServiceName (e : bytes) : bool :=
  let inner := drop 2 (take (length e - 2) e) in
  (bool_decide (take 2 e = str "__") && bool_decide (drop (length e - 2) e = str "__")
   && (5 <=? length e)%nat && forallb (fun c => negb (line_terminator c)) inner)
  || bool_decide (e = str "service_name").
Definition isNotMetaLabelOrServiceName (e : bytes) : bool := negb (isMetaLabelOrServiceName e).

(** [{value: e, label: e}]. *)
Definition option_of (e : bytes) : bytes * bytes := (e, e).

Definition parseLabelsResponse (e : response) : list (bytes * bytes) :=
  match e with
  | None => []
  | Some names => option_of <$> new_set (List.filter isNotMetaLabelOrServiceName names)
  end.

Definition parseLabelValuesResponse (e : response) : list (bytes * bytes) :=
  match e with
  | None => []
  | Some names => option_of <$> names
  end.

(** ** The two listings *)

(** [R]: the assertion that throws.  [assertParams]. *)
Definition assertParams (query : bytes) (from to : Z) : option bytes :=
  if decide (query = []) then Some (str "Missing 'query' parameter!")
  else if (0 <? from) && (0 <? to) && (from <? to) then None
  else Some (str "Invalid timerange!").

Definition listing : Type := outcome (list (bytes * bytes)).

Section Repository.
(** [apiClient.baseUrl]. *)
Variable baseUrl : bytes.

Definition labels_key (query : bytes) (from to : Z) : list bytes :=
  [baseUrl; query; Long_toString from; Long_toString to].
Definition values_key (label query : bytes) (from to : Z) : list bytes :=
  [baseUrl; label; query; Long_toString from; Long_toString to].

(** [listLabels]; [fetched] is what [fetchLabels] would come to. *)
Definition listLabels (c : cache) (query : bytes) (from to : Z) (fetched : outcome response) :
    listing * cache :=
  match assertParams query from to with
  | Some msg => (Rejected msg, c)
  | None =>
      let o := labels_key query from to in
      match cache_get c o with
      | Some (Fulfilled e) =>
          let t := parseLabelsResponse e in
          (Fulfilled t, match t with [] => cache_delete c o | _ => c end)
      | Some (Rejected msg) => (Rejected msg, c)
      | None =>
          let c := cache_set c o fetched in
          match fetched with
          | Fulfilled e => (Fulfilled (parseLabelsResponse e), c)
          | Rejected msg => (Rejected msg, cache_delete c o)
          end
      end
  end.

(** [listLabelValues]: an answer from the cache goes through the other parser. *)
Definition listLabelValues (c : cache) (label query : bytes) (from to : Z)
    (fetched : outcome response) : listing * cache :=
  match assertParams query from to with
  | Some msg => (Rejected msg, c)
  | None =>
      if decide (label = []) then (Rejected (str "Missing label value!"), c)
      else
        let a := values_key label query from to in
        match cache_get c a with
        | Some (Fulfilled e) =>
            let t := parseLabelsResponse e in
            (Fulfilled t, match t with [] => cache_delete c a | _ => c end)
        | Some (Rejected msg) => (Rejected msg, c)
        | None =>
            let c := cache_set c a fetched in
            match fetched with
            | Fulfilled e => (Fulfilled (parseLabelValuesResponse e), c)
            | Rejected msg => (Rejected msg, cache_delete c a)
            end
        end
  end.

(** The calls a client can make, with what the server would answer to each. *)
Inductive request : Type :=
  | Labels (query : bytes) (from to : Z) (fetched : outcome response)
  | LabelValues (label query : bytes) (from to : Z) (fetched : outcome response).

Definition call (c : cache) (r : request) : listing * cache :=
  match r with
  | Labels q f t a => listLabels c q f t a
  | LabelValues l q f t a => listLabelValues c l q f t a
  end.

Definition calls (c : cache) (rs : list request) : cache := fold_left (fun c r => (call c r).2) rs c.

(** ** Facts *)

(** What the cache holds after a call: nothing but answers that came. *)
Definition settled_cache (c : cache) : Prop := map_Forall (fun _ p => exists e, p = Fulfilled e) c.

Lemma settled_delete c o : settled_cache c -> settled_cache (cache_delete c o).
Proof. apply map_Forall_delete. Qed.

Lemma settled_set c o e : settled_cache c -> settled_cache (cache_set c o (Fulfilled e)).
Proof. intros H. apply map_Forall_insert_2; [by exists e|done]. Qed.

Lemma settled_delete_set c o p : settled_cache c -> settled_cache (cache_delete (cache_set c o p) o).
Proof.
  intros H k q. unfold cache_delete, cache_set.
  intros [Hk Hq]%lookup_delete_Some. rewrite lookup_insert_ne in Hq by done. by eapply H.
Qed.

Lemma call_settled c r : settled_cache c -> settled_cache (call c r).2.
Proof.
  intros H. destruct r as [q f t a|l q f t a]; cbn [call]; unfold listLabels, listLabelValues;
    repeat case_match; cbn [snd]; auto using settled_delete, settled_set, settled_delete_set.
Qed.

Lemma calls_settled rs c : settled_cache c -> settled_cache (calls c rs).
Proof. revert c. induction rs as [|r rs IH]; intros c H; [done|]. cbn. apply IH, call_settled, H. Qed.

Lemma buildCacheKey_concat e : buildCacheKey e = concat e.
Proof.
  unfold buildCacheKey.
  assert (H : forall acc, fold_left (fun t n => t ++ n) e acc = acc ++ concat e).
  { induction e as [|n e IH]; intros acc; cbn; [by rewrite app_nil_r|]. by rewrite IH, <- app_assoc. }
  apply (H []).
Qed.

End Repository.

#[global] Instance option_of_inj : Inj eq eq option_of.
Proof. by intros x y [=]. Qed.

(** ** Sets made of lists without duplicates *)

Lemma new_set_acc l acc :
  NoDup (acc ++ l) -> fold_left set_add l acc = acc ++ l.
Proof.
  revert acc. induction l as [|x l IH]; intros acc H; cbn; [by rewrite app_nil_r|].
  assert (Hx : x ∉ acc).
  { apply list.NoDup_app in H as (_ & H & _). intros Hin. apply (H x Hin). by left. }
  unfold set_add at 2. rewrite decide_False by done.
  rewrite IH; by rewrite <- app_assoc.
Qed.

Lemma NoDup_set_add l x : NoDup l -> NoDup (set_add l x).
Proof.
  intros H. unfold set_add. destruct (decide (x ∈ l)); [done|].
  apply list.NoDup_app. split_and!; [done| |apply list.NoDup_singleton].
  intros y Hy Hyx. apply list_elem_of_singleton in Hyx. congruence.
Qed.

Lemma NoDup_new_set l : NoDup (new_set l).
Proof.
  unfold new_set. assert (H : forall acc, NoDup acc -> NoDup (fold_left set_add l acc)).
  { induction l as [|x l IH]; intros acc Ha; [done|]. cbn. by apply IH, NoDup_set_add. }
  apply H. constructor.
Qed.

Lemma new_set_same l : NoDup l -> new_set l = l.
Proof. apply (new_set_acc l []). Qed.

(** Filtering and removing duplicates changes nothing exactly when there is nothing
    to filter and no duplicate. *)
Lemma cached_values_same names :
  new_set (List.filter isNotMetaLabelOrServiceName names) = names <->
  NoDup names /\ Forall (fun n => isNotMetaLabelOrServiceName n = true) names.
Proof.
  split.
  - intros H. split; [rewrite <- H; apply NoDup_new_set|].
    apply list.Forall_forall. intros n Hn. rewrite <- H in Hn.
    apply elem_of_new_set, list_elem_of_In, filter_In in Hn. apply Hn.
  - intros [Hd Hf].
    assert (List.filter isNotMetaLabelOrServiceName names = names) as ->; [|by apply new_set_same].
    clear Hd. induction Hf as [|n l Hn _ IH]; [done|]. cbn. by rewrite Hn, IH.
Qed.

Lemma Long_toString_inj a b : in_long a -> in_long b -> Long_toString a = Long_toString b -> a = b.
Proof.
  intros Ha Hb H. apply parseLong_toString in Ha, Hb. congruence.
Qed.
