(* ===== verification/LabelsOverlap.v ===== *)
(** * The labels repository with overlapping calls (75.js: G, _)

    The listings of [Labels] are generators: each runs until it waits for a promise, and
    goes on when that promise has settled and its turn has come.  [Net] holds the promises
    of the requests made so far, the cache - a map from keys to promises, whatever these
    come to - and the calls.  A step starts a call, settles a promise or resumes a call; the
    order in which calls resume is left open.  [net_ok] is the invariant; a call that is
    not overlapped does what [Labels] says ([alone_labels], [alone_values]). *)

From stdpp Require Import gmap.
From S2P Require Import Prelude.
From S2P Require Import Java.
From S2P Require Import Filters.
From S2P Require Import Labels.
#[local] Open Scope nat_scope.

(** Which listing a call is: it says which parser an answer of its own goes through. *)
Inductive Kind := KLabels | KValues.
Inductive Pc :=
  | AwaitsCached (p : nat)
  | AwaitsOwn (p : nat)
  | Finished (l : listing).

#[global] Instance outcome_eq_dec {A} `{EqDecision A} : EqDecision (outcome A).
Proof. solve_decision. Defined.
#[global] Instance Pc_eq_dec : EqDecision Pc.
Proof. unfold listing. solve_decision. Defined.

Record Call := { k_kind : Kind; k_key : bytes; k_pc : Pc }.

(** A promise of a request: the cache key it was made for, and what it came to. *)
Record Promise := { p_key : bytes; p_outcome : option (outcome response) }.
Record Net := { promises : list Promise; stored : gmap bytes nat; callers : list Call }.

Definition set_stored (s : gmap bytes nat) (n : Net) : Net :=
  {| promises := promises n; stored := s; callers := callers n |}.
Definition set_callers (l : list Call) (n : Net) : Net :=
  {| promises := promises n; stored := stored n; callers := l |}.
Definition add_call (c : Call) (n : Net) : Net := set_callers (callers n ++ [c]) n.
Definition with_pc (pc : Pc) (c : Call) : Call := {| k_kind := k_kind c; k_key := k_key c; k_pc := pc |}.

Definition own_parser (k : Kind) (e : response) : list (bytes * bytes) :=
  match k with KLabels => parseLabelsResponse e | KValues => parseLabelValuesResponse e end.

(** A call up to its first [yield]: the assertions, the cache, the request. *)
Definition invoke (k : Kind) (error : option bytes) (key : bytes) (n : Net) : Net :=
  match error with
  | Some msg => add_call {| k_kind := k; k_key := key; k_pc := Finished (Rejected msg) |} n
  | None =>
      match stored n !! key with
      | Some p => add_call {| k_kind := k; k_key := key; k_pc := AwaitsCached p |} n
      | None =>
          let p := length (promises n) in
          {| promises := promises n ++ [{| p_key := key; p_outcome := None |}];
             stored := <[key := p]> (stored n);
             callers := callers n ++ [{| k_kind := k; k_key := key; k_pc := AwaitsOwn p |}] |}
      end
  end.

(** A request is answered or fails. *)
Definition settle_promise (p : nat) (o : outcome response) (n : Net) : option Net :=
  match promises n !! p with
  | Some {| p_key := k; p_outcome := None |} =>
      Some {| promises := <[p := {| p_key := k; p_outcome := Some o |}]> (promises n);
              stored := stored n; callers := callers n |}
  | _ => None
  end.

(** What a promise came to. *)
Definition came_to (n : Net) (p : nat) : option (outcome response) := promises n !! p ≫= p_outcome.

(** A call from its [yield] to its end. *)
Definition resume (i : nat) (n : Net) : option Net :=
  c ← callers n !! i;
  let finish l := set_callers (<[i := with_pc (Finished l) c]> (callers n)) in
  match k_pc c with
  | AwaitsCached p =>
      o ← came_to n p;
      match o with
      | Fulfilled e =>
          let t := parseLabelsResponse e in
          Some (finish (Fulfilled t)
            (match t with [] => set_stored (base.delete (k_key c) (stored n)) n | _ => n end))
      | Rejected msg => Some (finish (Rejected msg) n)
      end
  | AwaitsOwn p =>
      o ← came_to n p;
      match o with
      | Fulfilled e => Some (finish (Fulfilled (own_parser (k_kind c) e)) n)
      | Rejected msg => Some (finish (Rejected msg) (set_stored (base.delete (k_key c) (stored n)) n))
      end
  | Finished _ => None
  end.

(** The calls of the repository: [listLabels], [listLabelValues]. *)
Inductive Start :=
  | StartLabels (query : bytes) (from to : Z)
  | StartValues (label query : bytes) (from to : Z).

Definition start_call (base : bytes) (s : Start) : Net -> Net :=
  match s with
  | StartLabels q f t => invoke KLabels (assertParams q f t) (buildCacheKey (labels_key base q f t))
  | StartValues l q f t =>
      invoke KValues
        (match assertParams q f t with
         | Some msg => Some msg
         | None => if decide (l = []) then Some (str "Missing label value!") else None
         end) (buildCacheKey (values_key base l q f t))
  end.

Inductive NetStep := StepStart (s : Start) | StepSettle (p : nat) (o : outcome response) | StepResume (i : nat).

Definition net_step (base : bytes) (e : NetStep) (n : Net) : option Net :=
  match e with
  | StepStart s => Some (start_call base s n)
  | StepSettle p o => settle_promise p o n
  | StepResume i => resume i n
  end.

Fixpoint net_run (base : bytes) (es : list NetStep) (n : Net) : option Net :=
  match es with [] => Some n | e :: es => net_step base e n ≫= net_run base es end.

Definition no_calls : Net := {| promises := []; stored := ∅; callers := [] |}.

(** ** The invariant *)

(** What a call may have come to: the error of an assertion, or what a promise made for its
    own key came to. *)
Definition answered (n : Net) (c : Call) (l : listing) : Prop :=
  (exists msg, l = Rejected msg) \/
  exists p e, p_key <$> promises n !! p = Some (k_key c) /\ came_to n p = Some (Fulfilled e) /\
    (l = Fulfilled (parseLabelsResponse e) \/ l = Fulfilled (own_parser (k_kind c) e)).

Definition call_ok (n : Net) (c : Call) : Prop :=
  match k_pc c with
  | AwaitsCached p | AwaitsOwn p => p_key <$> promises n !! p = Some (k_key c)
  | Finished l => answered n c l
  end.

(** The cache holds promises of their keys, and one without an answer only as long as the
    call that made the request has not resumed. *)
Definition cache_ok (n : Net) (k : bytes) (p : nat) : Prop :=
  p_key <$> promises n !! p = Some k /\
  ((exists e, came_to n p = Some (Fulfilled e)) \/
   exists c, c ∈ callers n /\ k_key c = k /\ k_pc c = AwaitsOwn p).

Definition net_ok (n : Net) : Prop :=
  Forall (call_ok n) (callers n) /\ map_Forall (cache_ok n) (stored n).

(** A net that knows at least as much of every promise. *)
Definition extends (n m : Net) : Prop :=
  (forall p k, p_key <$> promises n !! p = Some k -> p_key <$> promises m !! p = Some k) /\
  (forall p o, came_to n p = Some o -> came_to m p = Some o).

Lemma call_ok_extends n m c : extends n m -> call_ok n c -> call_ok m c.
Proof.
  intros [Hk Ho]. unfold call_ok. destruct (k_pc c) as [p|p|l]; [apply Hk..|].
  intros [?|(p & e & H1 & H2 & H3)]; [now left|]. right. exists p, e. auto.
Qed.

Lemma calls_ok_extends n m cs : extends n m -> Forall (call_ok n) cs -> Forall (call_ok m) cs.
Proof. intros He Hc. eapply list.Forall_impl; [exact Hc|]. intros c. now apply call_ok_extends. Qed.

Lemma same_promises_extends n m : promises m = promises n -> extends n m.
Proof. intros Hp. unfold extends, came_to. now rewrite Hp. Qed.

Lemma promises_app_extends n m p : promises m = promises n ++ [p] -> extends n m.
Proof.
  intros Hp. unfold extends, came_to. rewrite Hp. split.
  - intros i k Hk. destruct (promises n !! i) eqn:Hi; [|easy]. now rewrite (lookup_app_l_Some _ _ _ _ Hi).
  - intros i o Ho. destruct (promises n !! i) eqn:Hi; [|easy]. now rewrite (lookup_app_l_Some _ _ _ _ Hi).
Qed.

(** A call that was there and has not changed. *)
Lemma cache_ok_keeps n m k p :
  extends n m -> (forall c, c ∈ callers n -> k_pc c = AwaitsOwn p -> c ∈ callers m) ->
  cache_ok n k p -> cache_ok m k p.
Proof.
  intros [Hk Ho] Hc [H1 H2]. split; [now apply Hk|].
  destruct H2 as [[e He]|(c & Hin & Hkey & Hpc)]; [left; exists e; auto|right; exists c; auto].
Qed.

Lemma invoke_ok k error key n : net_ok n -> net_ok (invoke k error key n).
Proof.
  intros [Hc Hs]. unfold invoke. destruct error as [msg|]; [|destruct (stored n !! key) as [p|] eqn:Hp].
  - assert (extends n (add_call {| k_kind := k; k_key := key; k_pc := Finished (Rejected msg) |} n)) as He
      by now apply same_promises_extends.
    split.
    + apply Forall_app. split; [now apply (calls_ok_extends n)|]. apply list.Forall_singleton. left. now exists msg.
    + intros k' p' Hk'. apply (cache_ok_keeps n); [easy| |now apply Hs]. intros c Hin _. apply elem_of_app. now left.
  - set (m := add_call _ n). assert (extends n m) as He by now apply same_promises_extends. split.
    + apply Forall_app. split; [now apply (calls_ok_extends n)|]. apply list.Forall_singleton.
      apply (Hs key p Hp).
    + intros k' p' Hk'. apply (cache_ok_keeps n); [easy| |now apply Hs]. intros c Hin _. apply elem_of_app. now left.
  - set (m := {| promises := _; stored := _; callers := _ |}).
    assert (extends n m) as He by now eapply promises_app_extends.
    assert (p_key <$> promises m !! length (promises n) = Some key) as Hnew.
    { cbn. now rewrite lookup_app_r, Nat.sub_diag by lia. }
    split.
    + apply Forall_app. split; [now apply (calls_ok_extends n)|]. now apply list.Forall_singleton.
    + intros k' p' Hk'. cbn [stored m] in Hk'. apply lookup_insert_Some in Hk' as [[<- <-]|[Hne Hk']].
      * split; [exact Hnew|]. right. eexists. split; [apply elem_of_app; right; apply list_elem_of_here|easy].
      * apply (cache_ok_keeps n); [easy| |now apply Hs]. intros c Hin _. apply elem_of_app. now left.
Qed.

Lemma settle_ok p o n n' : settle_promise p o n = Some n' -> net_ok n -> net_ok n'.
Proof.
  unfold settle_promise. destruct (promises n !! p) as [[k [o'|]]|] eqn:Hp; [easy| |easy].
  intros [= <-] [Hc Hs]. set (m := {| promises := _; stored := _; callers := _ |}).
  assert (extends n m) as He.
  { unfold extends, came_to. cbn. split; intros i x Hi; (destruct (decide (i = p)) as [->|Hne];
      [rewrite list_lookup_insert_eq by now apply lookup_lt_Some in Hp|rewrite list_lookup_insert_ne by easy; easy]).
    - now rewrite Hp in Hi.
    - now rewrite Hp in Hi. }
  split; [now apply (calls_ok_extends n)|].
  intros k' p' Hk'. apply (cache_ok_keeps n); [easy|auto|now apply Hs].
Qed.

(** A call that finishes stays out of the way of the others. *)
Lemma finish_other i c l n d p :
  callers n !! i = Some c -> d ∈ callers n -> k_pc d = AwaitsOwn p -> k_pc c <> AwaitsOwn p ->
  d ∈ <[i := with_pc (Finished l) c]> (callers n).
Proof.
  intros Hi Hd Hp Hn. apply list_elem_of_lookup in Hd as [j Hj].
  apply list_elem_of_lookup. exists j. rewrite list_lookup_insert_ne; [easy|]. intros ->. congruence.
Qed.

Lemma resume_ok i n n' : resume i n = Some n' -> net_ok n -> net_ok n'.
Proof.
  unfold resume. destruct (callers n !! i) as [c|] eqn:Hi; [|easy]. cbn [mbind option_bind].
  intros Hr [Hc Hs]. assert (call_ok n c) as Hok.
  { rewrite list.Forall_forall in Hc. apply Hc. now apply list_elem_of_lookup_2 in Hi. }
  assert (forall l m, promises m = promises n -> callers m = <[i := with_pc (Finished l) c]> (callers n) ->
            answered n c l ->
            (forall k p, stored m !! k = Some p -> stored n !! k = Some p /\
               (k_pc c = AwaitsOwn p -> exists e, came_to n p = Some (Fulfilled e))) -> net_ok m) as Hfin.
  { intros l m Hp Hcs Ha Hst. assert (extends n m) as He by now apply same_promises_extends. split.
    - rewrite Hcs. apply list.Forall_insert; [now apply (calls_ok_extends n)|].
      now apply (call_ok_extends n).
    - intros k p Hk. destruct (Hst k p Hk) as [Hk' Hown]. destruct (Hs k p Hk') as [H1 H2].
      split; [now apply He|]. destruct H2 as [[e He']|(d & Hd & Hdk & Hdp)]; [left; exists e; now apply He|].
      destruct (decide (k_pc c = AwaitsOwn p)) as [Hcp|Hcp].
      + destruct (Hown Hcp) as [e He']. left. exists e. now apply He.
      + right. exists d. split_and!; [|easy..]. rewrite Hcs. eapply finish_other; [exact Hi|exact Hd|exact Hdp|exact Hcp]. }
  unfold call_ok in Hok. destruct (k_pc c) as [p|p|l] eqn:Hpc; [| |easy].
  - destruct (came_to n p) as [[e|msg]|] eqn:Hcame; [| |easy]; cbn [mbind option_bind] in Hr; injection Hr as <-.
    + apply (Hfin (Fulfilled (parseLabelsResponse e))); [now destruct (parseLabelsResponse e)|easy| |].
      * right. exists p, e. auto.
      * intros k q Hk. split; [|congruence].
        destruct (parseLabelsResponse e); [|easy]. cbn [stored set_callers set_stored] in Hk.
        now apply lookup_delete_Some in Hk as [_ Hk].
    + apply (Hfin (Rejected msg)); [easy|easy|left; now exists msg|]. intros k q Hk. split; [easy|congruence].
  - destruct (came_to n p) as [[e|msg]|] eqn:Hcame; [| |easy]; cbn [mbind option_bind] in Hr; injection Hr as <-.
    + apply (Hfin (Fulfilled (own_parser (k_kind c) e))); [easy|easy|right; exists p, e; auto|].
      intros k q Hk. split; [easy|]. intros [= <-]. now exists e.
    + apply (Hfin (Rejected msg)); [easy|easy|left; now exists msg|].
      intros k q Hk. cbn [stored set_callers set_stored] in Hk.
      apply lookup_delete_Some in Hk as [Hne Hk]. split; [easy|]. intros [= <-].
      destruct (Hs k p Hk) as [Hkey _]. congruence.
Qed.

Lemma net_run_ok base es n n' : net_run base es n = Some n' -> net_ok n -> net_ok n'.
Proof.
  revert n; induction es as [|e es IH]; intros n; cbn [net_run]; [now intros [= <-]|].
  destruct (net_step base e n) as [m|] eqn:Hm; [|easy]. cbn [mbind option_bind]. intros Hr Hn.
  apply (IH m Hr). destruct e as [[q f t|l q f t]|p o|i]; cbn in Hm.
  - injection Hm as <-. now apply invoke_ok.
  - injection Hm as <-. now apply invoke_ok.
  - now apply settle_ok in Hm.
  - now apply resume_ok in Hm.
Qed.

Lemma no_calls_ok : net_ok no_calls.
Proof. split; [constructor|apply map_Forall_empty]. Qed.

(** ** A call that no other overlaps *)

(** The cache of [Labels]: the promises in it are replaced by what they came to. *)
Definition mirrors (n : Net) (c : cache) : Prop :=
  forall k, match stored n !! k with
            | Some p => came_to n p = c !! k /\ c !! k <> None
            | None => c !! k = None
            end.

Definition kind_of (s : Start) : Kind := match s with StartLabels _ _ _ => KLabels | StartValues _ _ _ _ => KValues end.
Definition error_of (s : Start) : option bytes :=
  match s with
  | StartLabels q f t => assertParams q f t
  | StartValues l q f t =>
      match assertParams q f t with
      | Some msg => Some msg
      | None => if decide (l = []) then Some (str "Missing label value!") else None
      end
  end.
Definition key_of (base : bytes) (s : Start) : bytes :=
  match s with
  | StartLabels q f t => buildCacheKey (labels_key base q f t)
  | StartValues l q f t => buildCacheKey (values_key base l q f t)
  end.
Definition request_of (s : Start) (a : outcome response) : request :=
  match s with StartLabels q f t => Labels q f t a | StartValues l q f t => LabelValues l q f t a end.

(** Both listings of [Labels] are this one. *)
Definition list_via (k : Kind) (error : option bytes) (key : bytes) (c : cache) (a : outcome response) : listing * cache :=
  match error with
  | Some msg => (Rejected msg, c)
  | None =>
      match c !! key with
      | Some (Fulfilled e) =>
          let t := parseLabelsResponse e in
          (Fulfilled t, match t with [] => base.delete key c | _ => c end)
      | Some (Rejected msg) => (Rejected msg, c)
      | None =>
          let c := <[key := a]> c in
          match a with
          | Fulfilled e => (Fulfilled (own_parser k e), c)
          | Rejected msg => (Rejected msg, base.delete key c)
          end
      end
  end.

Lemma call_via base c s a : call base c (request_of s a) = list_via (kind_of s) (error_of s) (key_of base s) c a.
Proof.
  destruct s as [q f t|l q f t]; cbn [request_of call]; unfold list_via; cbn [kind_of error_of key_of].
  - reflexivity.
  - unfold listLabelValues. destruct (assertParams q f t); [easy|]. now destruct (decide (l = [])).
Qed.

Lemma start_invoke base s n : start_call base s n = invoke (kind_of s) (error_of s) (key_of base s) n.
Proof. now destruct s. Qed.

Lemma mirrors_same n m c : stored m = stored n -> promises m = promises n -> mirrors n c -> mirrors m c.
Proof. unfold mirrors, came_to. now intros -> ->. Qed.

Lemma mirrors_delete n m c k :
  stored m = base.delete k (stored n) -> promises m = promises n -> mirrors n c -> mirrors m (base.delete k c).
Proof.
  unfold mirrors, came_to. intros -> -> Hm k'. destruct (decide (k = k')) as [->|Hne].
  - now rewrite !lookup_delete_eq.
  - rewrite !lookup_delete_ne by easy. apply Hm.
Qed.

(** A call runs to its end by itself - after its request has come to something, if it makes
    one - and returns and caches what the listing of [Labels] does. *)
Lemma alone_via base s a n c :
  mirrors n c ->
  exists es n' cl, net_run base (StepStart s :: es) n = Some n' /\
    callers n' = callers n ++ [cl] /\
    k_pc cl = Finished (call base c (request_of s a)).1 /\ mirrors n' (call base c (request_of s a)).2.
Proof.
  intros Hm. rewrite call_via. cbn [net_run net_step mbind option_bind]. rewrite start_invoke.
  unfold invoke, list_via. destruct (error_of s) as [msg|]; [|set (key := key_of base s); pose proof (Hm key) as Hk;
    destruct (stored n !! key) as [p|] eqn:Hp].
  - exists []. do 2 eexists. split_and!; [reflexivity|reflexivity|reflexivity|]. now apply (mirrors_same n).
  - destruct Hk as [Hk Hne]. exists [StepResume (length (callers n))].
    cbn [net_run net_step mbind option_bind]. unfold resume.
    cbn [callers add_call set_callers promises stored]. rewrite lookup_app_r, Nat.sub_diag by lia.
    cbn [lookup list_lookup mbind option_bind k_pc]. unfold came_to in *. cbn [promises set_callers add_call].
    rewrite Hk. destruct (c !! key) as [[e|msg]|]; [| |easy]; cbn [mbind option_bind].
    + do 2 eexists. split_and!; [reflexivity|cbn [callers set_callers]; rewrite insert_app_r_alt, Nat.sub_diag by lia; reflexivity|reflexivity|].
      cbn [k_key]. destruct (parseLabelsResponse e); [|now apply (mirrors_same n)].
      now apply (mirrors_delete n).
    + do 2 eexists. split_and!; [reflexivity|cbn [callers set_callers]; rewrite insert_app_r_alt, Nat.sub_diag by lia; reflexivity|reflexivity|].
      now apply (mirrors_same n).
  - rewrite Hk. exists [StepSettle (length (promises n)) a; StepResume (length (callers n))].
    cbn [net_run net_step mbind option_bind]. unfold settle_promise. cbn [promises].
    rewrite lookup_app_r, Nat.sub_diag by lia. cbn [lookup list_lookup mbind option_bind].
    unfold resume. cbn [callers]. rewrite lookup_app_r, Nat.sub_diag by lia.
    cbn [lookup list_lookup mbind option_bind k_pc k_key k_kind]. unfold came_to. cbn [promises].
    rewrite insert_app_r_alt, Nat.sub_diag by lia. cbn [insert list_insert].
    rewrite lookup_app_r, Nat.sub_diag by lia. cbn [lookup list_lookup mbind option_bind p_outcome].
    assert (forall st pr, st = <[key := length (promises n)]> (stored n) ->
              pr = promises n ++ [{| p_key := key; p_outcome := Some a |}] ->
              forall cs, mirrors {| promises := pr; stored := st; callers := cs |} (<[key := a]> c)) as Hmir.
    { intros st pr -> -> cs k. unfold came_to. cbn [stored promises]. destruct (decide (key = k)) as [<-|Hne].
      - rewrite !lookup_insert_eq, lookup_app_r, Nat.sub_diag by lia. easy.
      - rewrite !lookup_insert_ne by easy. pose proof (Hm k) as Hmk.
        destruct (stored n !! k) as [p|]; [|easy]. destruct Hmk as [H1 H2]. split; [|easy].
        unfold came_to in H1. destruct (promises n !! p) eqn:Hpp; [|cbn in H1; congruence].
        now rewrite (lookup_app_l_Some _ _ _ _ Hpp). }
    destruct a as [e|msg]; cbn [mbind option_bind]; do 2 eexists;
      (split_and!; [reflexivity|cbn [callers set_callers]; rewrite insert_app_r_alt, Nat.sub_diag by lia; reflexivity|reflexivity|]).
    + now apply Hmir.
    + eapply mirrors_delete; [reflexivity|reflexivity|]. now apply (Hmir _ _ eq_refl eq_refl (callers n)).
Qed.
