(* ===== verification/CodeView.v ===== *)
(** * The code pane of the function details view (75.js of the Pyroscope bundle)

    [zs] takes the indentation that a function's lines share off them, in place,
    before they are shown.  Lines are ASCII text. *)

From S2P Require Import Prelude.

Record CodeLine := { line : bytes; number : Z; cum : Z; flat : Z }.

(** ** Strings *)

Definition TAB : ascii := "009"%char.

(** What [trim] takes off. *)
Definition is_space (c : ascii) : bool :=
  bool_decide (c ∈ [SP; TAB; LF; CR; "011"%char; "012"%char]).

(** [r.trim() === ""]. *)
Definition is_blank (s : bytes) : bool := forallb is_space s.

(** [Ys]: the match of [/^[ \t]*/]. *)
Fixpoint Ys (s : bytes) : bytes :=
  match s with
  | c :: s => if bool_decide (c ∈ [SP; TAB]) then c :: Ys s else []
  | [] => []
  end.

(** [Qs]: the loop counts equal characters up to the shorter length. *)
Fixpoint Qs (e t : bytes) : bytes :=
  match e, t with
  | a :: e, b :: t => if a =c? b then a :: Qs e t else []
  | _, _ => []
  end.

(** ** [zs] *)

Definition set_line (l : CodeLine) (s : bytes) : CodeLine :=
  {| line := s; number := number l; cum := cum l; flat := flat l |}.

(** The loop over the lines after the first. *)
Definition common_indent (e : list CodeLine) (t : bytes) : bytes :=
  fold_left (fun t l => if is_blank (line l) then t else Qs t (Ys (line l))) e t.

Definition zs (e : list CodeLine) : list CodeLine :=
  match e with
  | [] => e
  | l :: ls =>
      let t := common_indent ls (Ys (line l)) in
      match t with
      | [] => e
      | _ => (fun l => set_line l (drop (length t) (line l))) <$> e
      end
  end.

(** ** Specification: the longest indentation of all the lines that count *)

(** The first line counts, and every other that is not blank. *)
Definition counted (e : list CodeLine) : list CodeLine :=
  match e with [] => [] | l :: ls => l :: filter (fun l => is_blank (line l) = false) ls end.

Definition indentation (s : bytes) : Prop := Forall (fun c => c ∈ [SP; TAB]) s.

Definition shared_indent (e : list CodeLine) (t : bytes) : Prop :=
  indentation t /\ Forall (fun l => t `prefix_of` line l) (counted e) /\
  forall p, indentation p -> Forall (fun l => p `prefix_of` line l) (counted e) -> p `prefix_of` t.

(** ** Facts *)

Lemma Ys_prefix s : Ys s `prefix_of` s.
Proof.
  induction s as [|c s IH]; [done|]. cbn. case_bool_decide; [by apply prefix_cons|apply prefix_nil].
Qed.

Lemma Ys_indentation s : indentation (Ys s).
Proof. induction s as [|c s IH]; cbn; [constructor|]. case_bool_decide; by constructor. Qed.

Lemma Ys_longest p s : indentation p -> p `prefix_of` s -> p `prefix_of` Ys s.
Proof.
  intros Hp. revert s. induction Hp as [|c p Hc _ IH]; intros s Hs; [apply prefix_nil|].
  destruct s as [|d s]; [by apply prefix_nil_not in Hs|].
  apply prefix_cons_inv_1 in Hs as Hcd. apply prefix_cons_inv_2 in Hs. subst d. cbn.
  rewrite bool_decide_eq_true_2 by done. by apply prefix_cons, IH.
Qed.

Lemma Qs_prefix_l e t : Qs e t `prefix_of` e.
Proof.
  revert t. induction e as [|a e IH]; intros [|b t]; cbn; try apply prefix_nil.
  destruct (a =c? b); [by apply prefix_cons|apply prefix_nil].
Qed.

Lemma Qs_prefix_r e t : Qs e t `prefix_of` t.
Proof.
  revert t. induction e as [|a e IH]; intros [|b t]; cbn; try apply prefix_nil.
  destruct (a =c? b) eqn:E; [|apply prefix_nil]. apply eqb_char_true in E as ->. by apply prefix_cons.
Qed.

Lemma Qs_longest p e t : p `prefix_of` e -> p `prefix_of` t -> p `prefix_of` Qs e t.
Proof.
  revert e t. induction p as [|c p IH]; intros e t He Ht; [apply prefix_nil|].
  destruct e as [|a e]; [by apply prefix_nil_not in He|].
  destruct t as [|b t]; [by apply prefix_nil_not in Ht|].
  apply prefix_cons_inv_1 in He as H1. apply prefix_cons_inv_1 in Ht as H2.
  apply prefix_cons_inv_2 in He. apply prefix_cons_inv_2 in Ht. subst a b.
  cbn. rewrite eqb_char_refl. by apply prefix_cons, IH.
Qed.

Lemma indentation_prefix p s : p `prefix_of` s -> indentation s -> indentation p.
Proof. intros [q ->] H. by apply list.Forall_app in H as [H _]. Qed.

(** The loop keeps what is shared so far. *)
Lemma common_indent_spec ls t :
  indentation t ->
  let r := common_indent ls t in
  let counted := filter (fun l => is_blank (line l) = false) ls in
  indentation r /\ r `prefix_of` t /\ Forall (fun l => r `prefix_of` line l) counted /\
  forall p, indentation p -> p `prefix_of` t -> Forall (fun l => p `prefix_of` line l) counted ->
            p `prefix_of` r.
Proof.
  unfold common_indent. revert t. induction ls as [|l ls IH]; intros t Ht; cbn [fold_left].
  - split_and!; [done|done|constructor|done].
  - destruct (is_blank (line l)) eqn:Eb.
    + rewrite filter_cons_False by (by rewrite Eb). by apply IH.
    + rewrite filter_cons_True by done.
      destruct (IH (Qs t (Ys (line l)))) as (Hi & Hp & Hf & Hmax).
      { eapply indentation_prefix; [apply Qs_prefix_l|exact Ht]. }
      split_and!.
      * exact Hi.
      * etrans; [exact Hp|apply Qs_prefix_l].
      * constructor; [|exact Hf]. etrans; [exact Hp|]. etrans; [apply Qs_prefix_r|apply Ys_prefix].
      * intros p Hpi Hpt Hpf. apply list.Forall_cons in Hpf as [Hpl Hpf].
        apply Hmax; [done| |done]. apply Qs_longest; [done|]. by apply Ys_longest.
Qed.

Lemma shared_indent_common l ls : shared_indent (l :: ls) (common_indent ls (Ys (line l))).
Proof.
  destruct (common_indent_spec ls (Ys (line l)) (Ys_indentation _)) as (Hi & Hp & Hf & Hmax).
  split_and!; [done| |].
  - constructor; [|done]. etrans; [exact Hp|apply Ys_prefix].
  - intros p Hpi Hpf. apply list.Forall_cons in Hpf as [Hpl Hpf].
    apply Hmax; [done| |done]. by apply Ys_longest.
Qed.

Lemma set_line_same l : set_line l (line l) = l.
Proof. by destruct l. Qed.

Lemma zs_drop l ls :
  zs (l :: ls) = (fun m => set_line m (drop (length (common_indent ls (Ys (line l)))) (line m))) <$> l :: ls.
Proof.
  unfold zs. destruct (common_indent ls (Ys (line l))) as [|c t]; [|done].
  cbn [length]. symmetry. rewrite <- (list_fmap_id (l :: ls)) at 2. apply list_fmap_ext.
  intros i m _. by rewrite drop_0, set_line_same.
Qed.
