(* ===== verification/LogQL.v ===== *)
(** * The query expressions of the logs app (747.js and module.js of its bundle)

    The expression builder that turns the filters of the label, metadata and level
    variables into LogQL (747.js, module 7063, class [p]), the pattern filters (module.js,
    module 541), what a link makes of such a filter (module 8682), and the two escaping functions of
    105.js they use ([dl], [pl]).  Strings are lists of bytes in UTF-8; every character the
    code looks for is ASCII, but for one in the prefix [L], which is looked for as a whole. *)

From S2P Require Import Prelude.
From S2P Require Import JavaScript.
From S2P Require Import Json.
From S2P Require Import Filters.

(** ** Strings *)

Definition BS : ascii := "\"%char.
Definition DQ : ascii := "034"%char.

(** [e.replace(/c/g, by)]. *)
Definition replace (c : ascii) (by_ : bytes) (e : bytes) : bytes :=
  flat_map (fun x => if x =c? c then by_ else [x]) e.

(** [escapeLabelValueInExactSelector]. *)
Definition dl (e : bytes) : bytes :=
  replace DQ [BS; DQ] (replace LF (BS :: str "n") (replace BS [BS; BS] e)).

(** [fl]: the characters of the class [/[*+?()|\\.\[\]{}^$]/g]. *)
Definition fl : bytes := str "*+?()|\.[]{}^$".

(** [escapeLabelValueInRegexSelector]: [dl(e.replace(fl, "\\$&"))]. *)
Definition pl (e : bytes) : bytes :=
  dl (flat_map (fun x => if decide (x ∈ fl) then [BS; x] else [x]) e).

(** The white space [trim] strips. *)
Definition is_space (c : ascii) : bool :=
  let n := nat_of_ascii c in ((9 <=? n) && (n <=? 13) || (n =? 32))%nat.
Fixpoint trim_start (s : bytes) : bytes :=
  match s with c :: r => if is_space c then trim_start r else s | [] => [] end.
Definition trim (s : bytes) : bytes := rev (trim_start (rev (trim_start s))).

(** ** Objects by key *)

Fixpoint assoc {V} (k : bytes) (o : list (bytes * V)) : option V :=
  match o with
  | [] => None
  | (k', v) :: o => if decide (k = k') then Some v else assoc k o
  end.
(** [o[k] = v]: in place, or at the end. *)
Fixpoint put {V} (k : bytes) (v : V) (o : list (bytes * V)) : list (bytes * V) :=
  match o with
  | [] => [(k, v)]
  | (k', v') :: o => if decide (k = k') then (k, v) :: o else (k', v') :: put k v o
  end.

(** ** Filters *)

Inductive FilterOp : Type := Equal | NotEqual | RegexEqual | RegexNotEqual | gt | lt | gte | lte.

#[global] Instance FilterOp_eq_dec : EqDecision FilterOp.
Proof. solve_decision. Defined.

Definition op_string (o : FilterOp) : bytes :=
  match o with
  | Equal => str "=" | NotEqual => str "!=" | RegexEqual => str "=~" | RegexNotEqual => str "!~"
  | gt => str ">" | lt => str "<" | gte => str ">=" | lte => str "<="
  end.

(** [BG], [Lw], [SM], [iu]. *)
Definition isInclusive (o : FilterOp) : bool := bool_decide (o = Equal \/ o = RegexEqual).
Definition isExclusive (o : FilterOp) : bool := bool_decide (o = NotEqual \/ o = RegexNotEqual).
Definition isRegex (o : FilterOp) : bool := bool_decide (o = RegexEqual \/ o = RegexNotEqual).
Definition isNumeric (o : FilterOp) : bool := bool_decide (o = gt \/ o = gte \/ o = lt \/ o = lte).

(** A filter of an ad hoc variable, with the labels its values are displayed with. *)
Record AdHoc := { label : bytes; op : FilterOp; val : bytes; valueLabels : list bytes }.

(** [ZO]: an empty value; [L]: what a value the user typed starts with; [F], [I]. *)
Definition EMPTY : bytes := [DQ; DQ].
Definition L : bytes := str "__CV" ++ ["206"; "169"]%char ++ str "__".
Definition startsWith (t p : bytes) : bool := bool_decide (firstn (length p) t = p).
Definition F (t : bytes) : bool := startsWith t L.
Definition I (t : bytes) : bytes := if startsWith t L then skipn (length L) t else t.
Definition B (t : bytes) : bytes := L ++ t.

(** ** The values of field filters *)

(** A value, and the parser of log lines that finds its field. *)
Record FieldValue := { fv_value : bytes; fv_parser : bytes }.

#[global] Instance FieldValue_eq_dec : EqDecision FieldValue.
Proof. solve_decision. Defined.

Definition LOGFMT : bytes := str "logfmt".
Definition JSON : bytes := str "json".
Definition MIXED : bytes := str "mixed".
Definition METADATA : bytes := str "structuredMetadata".

(** [fS] of module 4011: an object with a string as [value] and the name of a parser as
    [parser]; [None] is [false]. *)
Definition fS (j : json) : option FieldValue :=
  match j with
  | JObject o =>
      match property (str "value") o, property (str "parser") o with
      | Some (JString v), Some (JString p) =>
          if decide (p ∈ [LOGFMT; JSON; MIXED; METADATA]) then Some {| fv_value := v; fv_parser := p |}
          else None
      | _, _ => None
      end
  | _ => None
  end.

(** [OH] of module 6001: a filter that displays its value as it is. *)
Definition OH (value : bytes) (labels : list bytes) : bool :=
  bool_decide (hd_error labels = Some (if F value then I value else value)).

(** [P] of module 4750 ([bu]); [None] is an exception.  A value that is no encoding stands for
    itself, unless it is empty. *)
Definition P (value : bytes) (labels : list bytes) : option FieldValue :=
  if OH value labels then Some {| fv_value := value; fv_parser := METADATA |}
  else
    match JSON_parse (if F value then I value else value) ≫= fS with
    | Some v => Some v
    | None => if decide (value = []) then None else Some {| fv_value := value; fv_parser := MIXED |}
    end.

(** ** The expression builder *)

Record Options := {
  filterSeparator : option bytes;
  prefix : option bytes;
  joinMatchFilters : bool;
  decodeFilters : bool
}.

(** [d] is [decodeFilters].  Where [P] throws, see [getFieldsExpr]. *)
Definition escapeFieldValue (d : bool) (e : FilterOp) (t : bytes) (n : list bytes) : bytes :=
  let a := F t in
  let t := if d then default [] (fv_value <$> P t n) else t in
  if decide (t = EMPTY) then t
  else if a then dl (I t)
  else if isRegex e then pl t
  else dl t.

(** Lodash's [groupBy]. *)
Definition groupBy (e : list AdHoc) : list (bytes * list AdHoc) :=
  fold_left (fun o f => put (label f) (default [] (assoc (label f) o) ++ [f]) o) e [].

(** One entry of [groupFiltersByKey]. *)
Definition groupFiltersByKey (filters : list AdHoc) (o : FilterOp) : list (bytes * list AdHoc) :=
  groupBy (List.filter (fun e =>
    match o with
    | Equal => isInclusive (op e) && negb (isRegex (op e))
    | RegexEqual => isInclusive (op e) && isRegex (op e)
    | NotEqual => isExclusive (op e) && negb (isRegex (op e))
    | RegexNotEqual => isExclusive (op e) && isRegex (op e)
    | _ => bool_decide (op e = o)
    end) filters).

Record Combined := { values : list bytes; operator : FilterOp }.
Definition Combineds := list (bytes * Combined).

Definition combineFiltersValues (d : bool) (e : list (bytes * list AdHoc)) (t : option FilterOp) : Combineds :=
  fold_left (fun n '(i, fs) =>
    match fs with
    | [] => n
    | [o] => put i {| operator := op o; values := [escapeFieldValue d (op o) (val o) (valueLabels o)] |} n
    | o :: _ =>
        let l := default (op o) t in
        put i {| operator := l; values := (fun f => escapeFieldValue d l (val f) (valueLabels f)) <$> fs |} n
    end) e [].

(** [mergeFilters] with [mergeCombinedFiltersValues]. *)
Definition mergeFilters (e : FilterOp) (t n : Combineds) : Combineds :=
  fold_left (fun n '(k, c) =>
    let old := default {| values := []; operator := e |} (assoc k n) in
    put k {| values := values old ++ values c; operator := operator old |} n)
    (List.filter (fun '(_, c) => bool_decide (operator c = e)) t) n.

Definition removeStaleOperators (e : Combineds) (t : FilterOp) : Combineds :=
  List.filter (fun '(_, c) => bool_decide (operator c = t)) e.

(** [getCombinedLabelFilters], by operator. *)
Definition getCombinedLabelFilters (decode joinMatch : bool) (filters : list AdHoc) (o : FilterOp) : Combineds :=
  let g := groupFiltersByKey filters in
  let c := combineFiltersValues decode (g Equal) (if joinMatch then Some RegexEqual else None) in
  let u := combineFiltersValues decode (g NotEqual) (if joinMatch then Some RegexNotEqual else None) in
  let d := combineFiltersValues decode (g RegexEqual) None in
  let p := combineFiltersValues decode (g RegexNotEqual) None in
  match o with
  | Equal => if joinMatch then removeStaleOperators c Equal else c
  | NotEqual => if joinMatch then removeStaleOperators u NotEqual else u
  | RegexEqual => if joinMatch then mergeFilters RegexEqual c d else d
  | RegexNotEqual => if joinMatch then mergeFilters RegexNotEqual u p else p
  | _ => combineFiltersValues decode (g o) None
  end.

(** [joinCombinedFiltersValues] and [getFilterValues]: entries without values go. *)
Definition getFilterValues (e : Combineds) : list (bytes * list bytes) :=
  (fun '(k, c) => (k, values c)) <$> List.filter (fun '(_, c) => bool_decide (values c <> [])) e.
Definition joinCombinedFiltersValues (e : Combineds) (t : bytes) : list (bytes * bytes) :=
  (fun '(k, vs) => (k, join t vs)) <$> getFilterValues e.

Definition buildFilterString (e : bytes) (t : FilterOp) (n r : bytes) : bytes :=
  if decide (n = EMPTY) then e ++ op_string t ++ n
  else e ++ op_string t ++ r ++ n ++ r.

Definition buildJoinedFilters (e : list (bytes * bytes)) (t : FilterOp) : list bytes :=
  (fun '(k, v) => buildFilterString k t v [DQ]) <$> e.
Definition buildFilter (e : list (bytes * list bytes)) (t : FilterOp) : list bytes :=
  (fun '(k, vs) =>
    join (str " or ") ((fun v => buildFilterString k t v (if isNumeric t then [] else [DQ])) <$> vs)) <$> e.

Definition buildLabelsLogQLFromFilters (o : Options) (c : FilterOp -> Combineds) : bytes :=
  let match_filters t :=
    if joinMatchFilters o then buildJoinedFilters (joinCombinedFiltersValues (c t) [BAR]) t
    else buildFilter (getFilterValues (c t)) t in
  let numeric t := buildFilter (getFilterValues (c t)) t in
  let b := match_filters Equal ++ match_filters NotEqual ++ match_filters RegexEqual ++
           match_filters RegexNotEqual ++ numeric lt ++ numeric lte ++ numeric gt ++ numeric gte in
  trim (join (default (str ",") (filterSeparator o) ++ [SP]) b).

Definition labels_expr (o : Options) (filters : list AdHoc) : bytes :=
  match buildLabelsLogQLFromFilters o (getCombinedLabelFilters (decodeFilters o) (joinMatchFilters o) filters) with
  | [] => []
  | s => default [] (prefix o) ++ s
  end.

(** [getLabelsExpr] of a new builder, [getMetadataExpr], [getLevelsExpr]. *)
Definition getLabelsExpr (filters : list AdHoc) : bytes :=
  labels_expr {| filterSeparator := None; prefix := None; joinMatchFilters := true;
                 decodeFilters := false |} filters.
Definition getMetadataExpr (filters : list AdHoc) : bytes :=
  labels_expr {| filterSeparator := Some (str " |"); prefix := Some (str "| "); joinMatchFilters := false;
                 decodeFilters := false |} filters.
Definition getLevelsExpr := getMetadataExpr.

(** [getFieldsExpr]; [None] is the exception of [P], which meets the value of every filter. *)
Definition getFieldsExpr (filters : list AdHoc) : option bytes :=
  if forallb (fun f => bool_decide (is_Some (P (val f) (valueLabels f)))) filters then
    Some (labels_expr {| filterSeparator := Some (str " |"); prefix := Some (str "| "); joinMatchFilters := false;
                         decodeFilters := true |} filters)
  else None.

(** [getJoinedLabelsFilters]: the matchers as filters again. *)
Definition getJoinedLabelsFilters (filters : list AdHoc) : list AdHoc :=
  flat_map (fun o =>
    let e := getCombinedLabelFilters false true filters o in
    (fun '(k, t) => {| label := k; op := default o (operator <$> assoc k e); val := t; valueLabels := [] |})
      <$> joinCombinedFiltersValues e [BAR]) [Equal; NotEqual; RegexEqual; RegexNotEqual].

(** ** Pattern filters: [M] *)

Inductive PatternType : Type := include | exclude.
Record Pattern := { type : PatternType; pattern : bytes }.

#[global] Instance PatternType_eq_dec : EqDecision PatternType.
Proof. solve_decision. Defined.

(** [i] of module 541 has the text of [dl]. *)
Definition quoted (p : Pattern) : bytes := [DQ] ++ dl (pattern p) ++ [DQ].

Definition M (t : list Pattern) : bytes :=
  let e := trim (join [SP] ((fun p => str "!> " ++ quoted p) <$>
                  List.filter (fun p => bool_decide (type p = exclude)) t)) in
  let r := List.filter (fun p => bool_decide (type p = include)) t in
  let s := match r with
           | [] => []
           | [p] => str "|> " ++ quoted p
           | _ => str "|> " ++ join (str " or ") (quoted <$> r)
           end in
  trim (e ++ [SP] ++ s).

(** ** Reading queries back: links from other panels (module.js, module 8682) *)

(** [f]: the text of a pattern filter between its quotes. *)
Fixpoint unescape_pattern (t : bytes) : bytes :=
  match t with
  | a :: ((b :: t') as r) =>
      if (a =c? BS) && (b =c? DQ) then DQ :: unescape_pattern t' else a :: unescape_pattern r
  | _ => t
  end.

(** [O]: the text of a line filter between its quotes, for a regular expression or not;
    a case-insensitive mark in it is taken off elsewhere. *)
Fixpoint unescape_quote (t : bytes) : bytes :=
  match t with
  | a :: ((b :: (c :: t')) as r) =>
      if (a =c? BS) && (b =c? BS) && (c =c? DQ) then DQ :: unescape_quote t' else a :: unescape_quote r
  | _ => t
  end.
Fixpoint unescape_backslash (t : bytes) : bytes :=
  match t with
  | a :: ((b :: t') as r) =>
      if (a =c? BS) && (b =c? BS) then BS :: unescape_backslash t' else a :: unescape_backslash r
  | _ => t
  end.
Definition unescape_line (regex : bool) (t : bytes) : bytes :=
  if regex then unescape_backslash t else unescape_backslash (unescape_quote t).
