(* ===== verification/LineFilters.v ===== *)
(** * The line filters of the logs app (747.js)

    The expression of the line filters ([O] of module 7918), their order ([f] of module
    4916), and the editor that changes them: they live in a variable of the page as a
    list, and an edit names the filter by its [keyLabel]. *)

From S2P Require Import Prelude.
From S2P Require Import Filters.
From S2P Require Import LogQL.

(** ** Line filters: [O] *)

Inductive LineOp : Type := match_ | negativeMatch | regex | negativeRegex.
(** [keyLabel] is a number, printed; [caseSensitive] says which of two keys it has. *)
Record LineFilter := { keyLabel : option nat; caseSensitive : bool; line_op : LineOp; text : bytes }.

#[global] Instance LineOp_eq_dec : EqDecision LineOp.
Proof. solve_decision. Defined.

Definition line_op_string (o : LineOp) : bytes :=
  match o with
  | match_ => str "|=" | negativeMatch => str "!=" | regex => str "|~" | negativeRegex => str "!~"
  end.

Definition line_escape (e : LineFilter) : bytes :=
  if bool_decide (line_op e <> match_ /\ line_op e <> negativeMatch) || caseSensitive e
  then dl (text e) else pl (text e).

(** The callback of [O]. *)
Definition line_filter (e : LineFilter) : bytes :=
  if decide (text e = []) then []
  else
    let t := line_escape e in
    if negb (caseSensitive e)
    then if decide (line_op e = negativeRegex \/ line_op e = negativeMatch)
         then line_op_string negativeRegex ++ [SP; DQ] ++ str "(?i)" ++ t ++ [DQ]
         else line_op_string regex ++ [SP; DQ] ++ str "(?i)" ++ t ++ [DQ]
    else line_op_string (line_op e) ++ [SP; DQ] ++ t ++ [DQ].

(** [f] of module 4916: a stable sort by [parseInt(keyLabel ?? "0")]. *)
Definition number (e : LineFilter) : nat := default 0%nat (keyLabel e).
Fixpoint insert_sorted (e : LineFilter) (l : list LineFilter) : list LineFilter :=
  match l with
  | [] => [e]
  | e' :: l' => if (number e <=? number e')%nat then e :: l else e' :: insert_sorted e l'
  end.
Definition f (e : list LineFilter) : list LineFilter := foldr insert_sorted [] e.

Definition O (e : list LineFilter) : bytes := join [SP] (line_filter <$> f e).

(** ** Editing line filters (class [m] of module 4916, and what adds filters) *)

(** [handleFilterStringClick], [handleFilterOutStringClick], [onSubmitLineFilter]. *)
Definition addFilter (fs : list LineFilter) (cs : bool) (o : LineOp) (v : bytes) : list LineFilter :=
  fs ++ [{| keyLabel := Some (length fs); caseSensitive := cs; line_op := o; text := v |}].

(** The filters whose key label is not [e]'s. *)
Definition other_labels (fs : list LineFilter) (e : LineFilter) : list LineFilter :=
  List.filter (fun t => bool_decide (keyLabel t <> None /\ keyLabel t <> keyLabel e)) fs.

Definition removeFilter (fs : list LineFilter) (e : LineFilter) : list LineFilter := other_labels fs e.

Definition updateVariableLineFilter (fs : list LineFilter) (e t : LineFilter) : list LineFilter :=
  {| keyLabel := keyLabel e; caseSensitive := caseSensitive t; line_op := line_op t; text := text t |}
    :: other_labels fs e.

Definition with_line_op (e : LineFilter) (o : LineOp) : LineFilter :=
  {| keyLabel := keyLabel e; caseSensitive := caseSensitive e; line_op := o; text := text e |}.

Definition onRegexToggle (fs : list LineFilter) (e : LineFilter) : list LineFilter :=
  updateVariableLineFilter fs e (with_line_op e
    match line_op e with
    | match_ => regex | negativeMatch => negativeRegex | regex => match_ | negativeRegex => negativeMatch
    end).
Definition onToggleExclusive (fs : list LineFilter) (e : LineFilter) : list LineFilter :=
  updateVariableLineFilter fs e (with_line_op e
    match line_op e with
    | match_ => negativeMatch | negativeMatch => match_ | regex => negativeRegex | negativeRegex => regex
    end).
Definition onCaseSensitiveToggle (fs : list LineFilter) (e : LineFilter) : list LineFilter :=
  updateVariableLineFilter fs e
    {| keyLabel := keyLabel e; caseSensitive := negb (caseSensitive e); line_op := line_op e; text := text e |}.
Definition handleEnter (fs : list LineFilter) (e : LineFilter) (v : bytes) : list LineFilter :=
  updateVariableLineFilter fs e
    {| keyLabel := keyLabel e; caseSensitive := caseSensitive e; line_op := line_op e; text := v |}.
