(* ===== verification/LogQLCorrect.v ===== *)
(** * LogQL expressions: a reader, and what the builder's expressions say

    A reader of the fragment of LogQL the builder writes: string literals, matchers,
    lists of matchers.  The escaping functions are inverted by it, whatever follows the
    literal. *)

From S2P Require Import Prelude.
From S2P Require Import Filters.
From S2P Require Import LogQL.

(** ** The reader *)

(** A string literal after its opening quote, as Go reads it: the value, and what
    follows the closing quote.  Escapes the builder does not write are not read. *)
Fixpoint literal (s : bytes) : option (bytes * bytes) :=
  match s with
  | [] => None
  | c :: r =>
      if c =c? DQ then Some ([], r)
      else if c =c? LF then None
      else if c =c? BS then
        match r with
        | d :: r =>
            '(v, r) ← literal r;
            if d =c? "n"%char then Some (LF :: v, r)
            else if (d =c? BS) || (d =c? DQ) then Some (d :: v, r)
            else None
        | [] => None
        end
      else '(v, r) ← literal r; Some (c :: v, r)
  end.

Definition is_ident (c : ascii) : bool :=
  let n := nat_of_ascii c in
  ((48 <=? n) && (n <=? 57) || (65 <=? n) && (n <=? 90) || (97 <=? n) && (n <=? 122) || (n =? 95))%nat.

Fixpoint span_ident (s : bytes) : bytes * bytes :=
  match s with
  | c :: r => if is_ident c then let '(k, r) := span_ident r in (c :: k, r) else ([], s)
  | [] => ([], [])
  end.

(** [=], [!=], [=~] and [!~]. *)
Definition read_op (s : bytes) : option (FilterOp * bytes) :=
  match s with
  | a :: ((b :: r') as r) =>
      if a =c? "="%char then
        if b =c? "~"%char then Some (RegexEqual, r') else Some (Equal, r)
      else if a =c? "!"%char then
        if b =c? "="%char then Some (NotEqual, r')
        else if b =c? "~"%char then Some (RegexNotEqual, r') else None
      else None
  | _ => None
  end.

Record Matcher := { m_label : bytes; m_op : FilterOp; m_text : bytes }.

Definition read_matcher (s : bytes) : option (Matcher * bytes) :=
  let '(k, r) := span_ident s in
  if decide (k = []) then None else
  '(o, r) ← read_op r;
  match r with
  | c :: r =>
      if c =c? DQ
      then '(v, r) ← literal r; Some ({| m_label := k; m_op := o; m_text := v |}, r)
      else None
  | [] => None
  end.

(** What follows [p] in [s]. *)
Fixpoint after (p s : bytes) : option bytes :=
  match p, s with
  | [], _ => Some s
  | a :: p, b :: s => if a =c? b then after p s else None
  | _, _ => None
  end.

(** Items that [item] reads, [sep] between them, at least one. *)
Fixpoint read_sep {A} (item : bytes -> option (A * bytes)) (sep : bytes) (fuel : nat) (s : bytes)
  : option (list A * bytes) :=
  '(a, r) ← item s;
  match fuel, after sep r with
  | S fuel, Some r' => '(l, r) ← read_sep item sep fuel r'; Some (a :: l, r)
  | _, _ => Some ([a], r)
  end.

Definition whole {A} (r : option (A * bytes)) : option A :=
  match r with Some (a, []) => Some a | _ => None end.

(** The inside of a stream selector: matchers between commas. *)
Definition read_selector (s : bytes) : option (list Matcher) :=
  if decide (s = []) then Some [] else whole (read_sep read_matcher (str ", ") (length s) s).

(** Label filter stages: each a bar and a disjunction of matchers. *)
Definition read_stages (s : bytes) : option (list (list Matcher)) :=
  if decide (s = []) then Some []
  else r ← after (str "| ") s;
       whole (read_sep (read_sep read_matcher (str " or ") (length s)) (str " | ") (length s) r).

(** ** Escapes *)

Definition escape (c : ascii) : bytes :=
  if c =c? BS then [BS; BS] else if c =c? LF then BS :: str "n" else if c =c? DQ then [BS; DQ] else [c].

Lemma dl_cons c s : dl (c :: s) = escape c ++ dl s.
Proof.
  unfold dl, replace, escape. cbn [flat_map]. rewrite !flat_map_app.
  f_equal. destruct (c =c? BS) eqn:EB; [reflexivity|].
  cbn [flat_map app]. rewrite app_nil_r.
  destruct (c =c? LF) eqn:EL; [reflexivity|].
  cbn [flat_map app]. rewrite !app_nil_r. cbn [flat_map]. rewrite ?app_nil_r. reflexivity.
Qed.

Lemma dl_app s t : dl (s ++ t) = dl s ++ dl t.
Proof. induction s as [|c s IH]; [done|]. cbn [app]. rewrite !dl_cons, IH. by rewrite app_assoc. Qed.

(** The escape of a value, and a quote, read back as the value. *)
Lemma literal_dl v r : literal (dl v ++ DQ :: r) = Some (v, r).
Proof.
  induction v as [|c v IH]; [done|]. rewrite dl_cons. unfold escape.
  destruct (c =c? BS) eqn:EB.
  { apply eqb_char_true in EB as ->. cbn. by rewrite IH. }
  destruct (c =c? LF) eqn:EL.
  { apply eqb_char_true in EL as ->. cbn. by rewrite IH. }
  destruct (c =c? DQ) eqn:ED.
  { apply eqb_char_true in ED as ->. cbn. by rewrite IH. }
  cbn [app literal]. rewrite EB, EL, ED. by rewrite IH.
Qed.

Lemma dl_not_quote v w : dl v <> DQ :: w.
Proof.
  destruct v as [|c v]; [done|]. rewrite dl_cons. unfold escape.
  destruct (c =c? BS); [done|]. destruct (c =c? LF); [done|].
  destruct (c =c? DQ) eqn:E; [done|]. intros [= ->]. by rewrite eqb_char_refl in E.
Qed.

(** ** Regular expressions that are lists of plain alternatives *)

(** Escape the metacharacters. *)
Definition resc (v : bytes) : bytes := flat_map (fun x => if decide (x ∈ fl) then [BS; x] else [x]) v.

Lemma pl_resc v : pl v = dl (resc v).
Proof. reflexivity. Qed.

(** The alternatives of a regular expression without operators but the bar. *)
Fixpoint alternatives (s : bytes) : option (list bytes) :=
  match s with
  | [] => Some [[]]
  | c :: r =>
      if c =c? BS then
        match r with
        | d :: r =>
            if decide (d ∈ fl)
            then l ← alternatives r;
                 match l with w :: ws => Some ((d :: w) :: ws) | [] => None end
            else None
        | [] => None
        end
      else if c =c? BAR then l ← alternatives r; Some ([] :: l)
      else if decide (c ∈ fl) then None
      else l ← alternatives r;
           match l with w :: ws => Some ((c :: w) :: ws) | [] => None end
  end.

Lemma alternatives_nonempty s : alternatives s <> Some [].
Proof.
  destruct s as [|c s]; [done|]. cbn [alternatives]. destruct (c =c? BS).
  { destruct s as [|d s]; [done|]. destruct (decide (d ∈ fl)); [|done].
    destruct (alternatives s) as [[|w ws]|]; cbn; congruence. }
  destruct (c =c? BAR).
  { destruct (alternatives s); cbn; congruence. }
  destruct (decide (c ∈ fl)); [done|]. destruct (alternatives s) as [[|w ws]|]; done.
Qed.

Lemma alternatives_resc v s :
  alternatives (resc v ++ s) =
  (l ← alternatives s; match l with w :: ws => Some ((v ++ w) :: ws) | [] => None end).
Proof.
  induction v as [|c v IH].
  { cbn. pose proof (alternatives_nonempty s). destruct (alternatives s) as [[|w ws]|]; done. }
  unfold resc in *. cbn [flat_map]. destruct (decide (c ∈ fl)) as [Hc|Hc].
  - cbn [app alternatives]. rewrite decide_True by done.
    change (BS =c? BS) with true. cbv iota. cbn [app] in IH. rewrite IH.
    destruct (alternatives s) as [[|w ws]|]; done.
  - cbn [app alternatives].
    assert (Hb : (c =c? BS) = false).
    { apply eqb_char_false. intros ->. apply Hc. refine (bool_decide_unpack _ _); vm_compute; exact Logic.I. }
    assert (Hr : (c =c? BAR) = false).
    { apply eqb_char_false. intros ->. apply Hc. refine (bool_decide_unpack _ _); vm_compute; exact Logic.I. }
    rewrite Hb, Hr, decide_False by done. rewrite IH.
    destruct (alternatives s) as [[|w ws]|]; done.
Qed.

Lemma join_cons sep v w l : join sep (v :: w :: l) = v ++ sep ++ join sep (w :: l).
Proof. reflexivity. Qed.

Lemma alternatives_join vs : vs <> [] -> alternatives (join [BAR] (resc <$> vs)) = Some vs.
Proof.
  induction vs as [|v [|w vs] IH]; intros H; [done| |].
  - cbn [fmap list_fmap join]. rewrite <- (app_nil_r (resc v)), alternatives_resc. cbn. by rewrite app_nil_r.
  - rewrite !fmap_cons, join_cons, alternatives_resc, <- fmap_cons.
    cbn [app alternatives]. change (BAR =c? BS) with false. change (BAR =c? BAR) with true. cbv iota.
    rewrite IH by done. cbn. by rewrite app_nil_r.
Qed.

Lemma join_dl vs : join [BAR] (dl <$> vs) = dl (join [BAR] vs).
Proof.
  induction vs as [|v [|w vs] IH]; [done..|].
  rewrite !fmap_cons, !join_cons, <- fmap_cons, IH, !dl_app. reflexivity.
Qed.

(** ** Objects by key *)

Definition keys {V} (o : list (bytes * V)) : list bytes := fst <$> o.

Lemma assoc_put {V} k k' (v : V) o : assoc k (put k' v o) = if decide (k = k') then Some v else assoc k o.
Proof.
  induction o as [|[k2 v2] o IH]; cbn [put assoc]; [by repeat case_decide|].
  destruct (decide (k' = k2)) as [<- |Hk]; cbn [assoc]; [by repeat case_decide|].
  rewrite IH. repeat case_decide; congruence.
Qed.

Lemma elem_of_keys_put {V} k k' (v : V) o : k ∈ keys (put k' v o) <-> k = k' \/ k ∈ keys o.
Proof.
  induction o as [|[k2 v2] o IH]; unfold keys in *; cbn [put].
  - rewrite list_fmap_singleton, list_elem_of_singleton. cbn. split; [auto|]. intros [|H]; [done|].
    by apply elem_of_nil in H.
  - destruct (decide (k' = k2)) as [<- |Hk]; rewrite !fmap_cons, !elem_of_cons; cbn; [tauto|].
    rewrite IH. tauto.
Qed.

Lemma NoDup_keys_put {V} k (v : V) o : NoDup (keys o) -> NoDup (keys (put k v o)).
Proof.
  induction o as [|[k2 v2] o IH]; intros Ho; cbn [put].
  - cbn. by apply NoDup_singleton.
  - unfold keys in *. rewrite fmap_cons in Ho. apply list.NoDup_cons in Ho as [Hk Ho]. cbn in Hk.
    destruct (decide (k = k2)) as [-> |Hne]; rewrite fmap_cons; apply list.NoDup_cons; cbn; [done|].
    split; [|auto]. intros H. apply (elem_of_keys_put k2 k v o) in H as [|]; [congruence|done].
Qed.

Lemma assoc_not_key {V} k (o : list (bytes * V)) : k ∉ keys o -> assoc k o = None.
Proof.
  induction o as [|[k2 v2] o IH]; intros H; [done|]. unfold keys in *. rewrite fmap_cons in H.
  apply not_elem_of_cons in H as [Hk H]. cbn in *. rewrite decide_False by done. auto.
Qed.

Lemma elem_of_assoc {V} k (v : V) o : NoDup (keys o) -> (k, v) ∈ o <-> assoc k o = Some v.
Proof.
  induction o as [|[k2 v2] o IH]; intros Ho; [split; [by intros ?%elem_of_nil|done]|].
  unfold keys in *. rewrite fmap_cons in Ho. apply list.NoDup_cons in Ho as [Hk Ho]. cbn in *.
  rewrite elem_of_cons. destruct (decide (k = k2)) as [-> |Hne].
  - split; [|by intros [= ->]; left]. intros [[= ->]|H]; [done|].
    exfalso. apply Hk. apply list_elem_of_fmap. by exists (k2, v).
  - rewrite <- IH by done. split; [by intros [[= -> ->]|]|auto].
Qed.

Lemma keys_filter {V} (P : V -> bool) (o : list (bytes * V)) :
  NoDup (keys o) -> NoDup (keys (List.filter (fun '(_, c) => P c) o)) /\
  forall k, assoc k (List.filter (fun '(_, c) => P c) o) =
            (c ← assoc k o; if P c then Some c else None).
Proof.
  induction o as [|[k2 v2] o IH]; intros Ho; [done|].
  unfold keys in *. rewrite fmap_cons in Ho. apply list.NoDup_cons in Ho as [Hk Ho]. cbn in Hk.
  destruct (IH Ho) as [Hn Ha]. cbn [List.filter]. split.
  - destruct (P v2); [|done]. rewrite fmap_cons. apply list.NoDup_cons. split; [|done]. cbn.
    intros ([k3 v3] & -> & H)%list_elem_of_fmap. apply Hk, list_elem_of_fmap. exists (k3, v3).
    split; [done|]. apply list_elem_of_In, filter_In in H as [H _]. by apply list_elem_of_In.
  - intros k. cbn [assoc]. destruct (decide (k = k2)) as [-> |Hne].
    + cbn. destruct (P v2) eqn:E; cbn [assoc]; [by rewrite decide_True|].
      rewrite Ha, assoc_not_key; done.
    + destruct (P v2); cbn [assoc]; [rewrite decide_False by done|]; apply Ha.
Qed.

(** Assigning [f a (assoc k n)] for every entry [(k, a)] of an object. *)
Lemma assoc_fold_put {V W} (f : W -> option V -> option V) (e : list (bytes * W)) (n : list (bytes * V)) :
  NoDup (keys e) -> NoDup (keys n) ->
  let r := fold_left (fun n '(k, a) => match f a (assoc k n) with Some v => put k v n | None => n end) e n in
  NoDup (keys r) /\
  forall k, assoc k r = match assoc k e with
                        | Some a => match f a (assoc k n) with Some v => Some v | None => assoc k n end
                        | None => assoc k n
                        end.
Proof.
  revert n; induction e as [|[k0 a0] e IH]; intros n He Hn; [done|].
  unfold keys in He. rewrite fmap_cons in He. apply list.NoDup_cons in He as [Hk He]. cbn in Hk.
  cbn [fold_left]. set (n' := match f a0 (assoc k0 n) with Some v => put k0 v n | None => n end).
  assert (Hn' : NoDup (keys n')) by (unfold n'; destruct (f a0 _); auto using NoDup_keys_put).
  destruct (IH n' He Hn') as [Hnd Ha]. split; [done|]. intros k. rewrite Ha. cbn [assoc].
  destruct (decide (k = k0)) as [-> |Hne].
  - rewrite assoc_not_key by done. unfold n'. destruct (f a0 (assoc k0 n)); [|done].
    rewrite assoc_put. by rewrite decide_True.
  - assert (assoc k n' = assoc k n) as ->; [|done].
    unfold n'. destruct (f a0 (assoc k0 n)); [|done]. rewrite assoc_put. by rewrite decide_False.
Qed.

Lemma fold_left_ext_in {A B} (f g : A -> B -> A) l a :
  (forall a b, In b l -> f a b = g a b) -> fold_left f l a = fold_left g l a.
Proof.
  revert a; induction l as [|b l IH]; intros a H; [done|]. cbn. rewrite H by (by left).
  apply IH. intros; apply H. by right.
Qed.

Definition on_key (k : bytes) (f : AdHoc) : bool := bool_decide (label f = k).

(** [groupBy] puts under a key the filters on it, in their order. *)
Lemma groupBy_spec l :
  NoDup (keys (groupBy l)) /\
  forall k, assoc k (groupBy l) = match List.filter (on_key k) l with [] => None | fs => Some fs end.
Proof.
  induction l as [|f l IH] using rev_ind; [split; [constructor|done]|].
  unfold groupBy in *. rewrite fold_left_app. cbn [fold_left].
  destruct IH as [Hn Ha]. split; [by apply NoDup_keys_put|].
  intros k. rewrite assoc_put, filter_app. cbn [List.filter]. unfold on_key at 2.
  destruct (decide (k = label f)) as [-> |Hne].
  - rewrite bool_decide_true by done. rewrite Ha. destruct (List.filter _ l); done.
  - rewrite bool_decide_false by congruence. rewrite app_nil_r. apply Ha.
Qed.

(** ** The combined filters *)

(** The values of the filters on [k] with operator [o]. *)
Definition with_op (o : FilterOp) (f : AdHoc) : bool := bool_decide (op f = o).
Definition vals (fs : list AdHoc) (o : FilterOp) (k : bytes) : list bytes :=
  val <$> List.filter (on_key k) (List.filter (with_op o) fs).

(** A value that needs no special treatment: not the mark of the empty value, and not
    typed by the user. *)
Definition plain (v : bytes) : Prop := v <> EMPTY /\ F v = false.
(** A filter of a stream selector. *)
Record stream_filter (f : AdHoc) : Prop := {
  sf_label : label f <> [] /\ Forall (fun c => is_ident c = true) (label f);
  sf_op : isNumeric (op f) = false;
  sf_val : plain (val f)
}.

Lemma groupFiltersByKey_op fs o : groupFiltersByKey fs o = groupBy (List.filter (with_op o) fs).
Proof.
  unfold groupFiltersByKey. f_equal. apply filter_ext. intros f.
  unfold with_op. destruct o, (op f); reflexivity.
Qed.

(** The escape of a value of a filter with operator [o]. *)
Definition esc (o : FilterOp) (v : bytes) : bytes := if isRegex o then pl v else dl v.

Lemma escape_plain o v n : plain v -> escapeFieldValue false o v n = esc o v.
Proof. intros [H1 H2]. unfold escapeFieldValue. cbv zeta. rewrite decide_False by done. by rewrite H2. Qed.

(** What [combineFiltersValues] makes of the values of the filters on a key. *)
Definition combined (o : FilterOp) (t : option FilterOp) (vs : list bytes) : option Combined :=
  match vs with
  | [] => None
  | [v] => Some {| values := [esc o v]; operator := o |}
  | _ => let l := default o t in Some {| values := esc l <$> vs; operator := l |}
  end.

Lemma combine_spec fs o t :
  Forall (fun f => plain (val f)) fs ->
  let c := combineFiltersValues false (groupFiltersByKey fs o) t in
  NoDup (keys c) /\ forall k, assoc k c = combined o t (vals fs o k).
Proof.
  intros Hfs. rewrite groupFiltersByKey_op. unfold combineFiltersValues.
  destruct (groupBy_spec (List.filter (with_op o) fs)) as [Hn Ha].
  set (g := groupBy _) in *.
  assert (Hin : forall i l, In (i, l) g -> Forall (fun f => plain (val f) /\ op f = o) l).
  { intros i l Hl%list_elem_of_In. apply elem_of_assoc in Hl; [|done]. rewrite Ha in Hl.
    apply list.Forall_forall. intros f Hf. rewrite list.Forall_forall in Hfs.
    assert (f ∈ List.filter (on_key i) (List.filter (with_op o) fs)) as H.
    { destruct (List.filter (on_key i) _); [done|]. congruence. }
    apply list_elem_of_In, filter_In in H as [H _]. apply filter_In in H as [H1 H2].
    split; [by apply Hfs, list_elem_of_In|]. unfold with_op in H2. by apply bool_decide_eq_true in H2. }
  erewrite (fold_left_ext_in _ (fun n '(i, l) =>
    match combined o t (val <$> l) with Some c => put i c n | None => n end)).
  2:{ intros n [i l] Hl. specialize (Hin i l Hl). destruct l as [|f [|f' l]]; [done| |].
      - apply list.Forall_cons in Hin as [[Hp Ho] _]. cbn. by rewrite Ho, escape_plain.
      - pose proof Hin as [[_ Ho] _]%list.Forall_cons. rewrite Ho.
        change (combined o t (val <$> f :: f' :: l)) with
          (Some {| values := esc (default o t) <$> (val <$> f :: f' :: l); operator := default o t |}).
        rewrite <- list_fmap_compose. cbv iota. do 2 f_equal. apply list_fmap_ext. intros j x Hx.
        apply escape_plain. rewrite list.Forall_forall in Hin.
        by apply Hin, (list_elem_of_lookup_2 _ j). }
  destruct (assoc_fold_put (fun l _ => combined o t (val <$> l)) g [] Hn (NoDup_nil_2)) as [Hnd Hr].
  split; [exact Hnd|]. intros k. rewrite Hr, Ha. cbn. unfold vals.
  destruct (List.filter (on_key k) _) as [|f l]; [done|].
  destruct (combined o t (val <$> (f :: l))); done.
Qed.

(** The combined filters of a stream selector under operator [o] and key [k]. *)
Definition many (l : list bytes) : list bytes := match l with [] | [_] => [] | _ => l end.
Definition joined_values (fs : list AdHoc) (o : FilterOp) (k : bytes) : list bytes :=
  match o with
  | Equal | NotEqual => match vals fs o k with [v] => [v] | _ => [] end
  | RegexEqual => vals fs RegexEqual k ++ many (vals fs Equal k)
  | RegexNotEqual => vals fs RegexNotEqual k ++ many (vals fs NotEqual k)
  | _ => []
  end.

Lemma mergeFilters_spec e t n :
  NoDup (keys t) -> NoDup (keys n) ->
  let r := mergeFilters e t n in
  NoDup (keys r) /\
  forall k, assoc k r =
    match (c ← assoc k t; if bool_decide (operator c = e) then Some c else None) with
    | Some c => Some {| values := default [] (values <$> assoc k n) ++ values c;
                        operator := default e (operator <$> assoc k n) |}
    | None => assoc k n
    end.
Proof.
  intros Ht Hn. unfold mergeFilters.
  destruct (keys_filter (fun c => bool_decide (operator c = e)) t Ht) as [Hft Ha].
  destruct (assoc_fold_put (fun (c : Combined) old =>
      Some {| values := default [] (values <$> old) ++ values c;
              operator := default e (operator <$> old) |}) _ n Hft Hn) as [Hnd Hr].
  erewrite (fold_left_ext_in _ _ _ n).
  2:{ intros m [k c] _. instantiate (1 := fun m '(k, c) => put k
        {| values := default [] (values <$> assoc k m) ++ values c;
           operator := default e (operator <$> assoc k m) |} m).
      cbn. destruct (assoc k m); reflexivity. }
  split; [exact Hnd|]. intros k. rewrite Hr, Ha. done.
Qed.

Lemma combined_labels_spec fs o :
  Forall stream_filter fs ->
  let c := getCombinedLabelFilters false true fs o in
  NoDup (keys c) /\
  forall k, assoc k c = match joined_values fs o k with
                        | [] => None
                        | vs => Some {| values := esc o <$> vs; operator := o |}
                        end.
Proof.
  intros Hsf.
  assert (Hfs : Forall (fun f => plain (val f)) fs) by (eapply Forall_impl; [|exact Hsf]; apply sf_val).
  assert (Hnum : forall o' t, isNumeric o' = true ->
    let c := combineFiltersValues false (groupFiltersByKey fs o') t in
    NoDup (keys c) /\ forall k, assoc k c = None).
  { intros o' t Ho. destruct (combine_spec fs o' t Hfs) as [Hn Ha]. split; [done|].
    intros k. rewrite Ha. unfold vals.
    assert (List.filter (with_op o') fs = []) as ->; [|done].
    clear -Hsf Ho. induction Hsf as [|f fs Hf _ IH]; [done|]. cbn. unfold with_op at 1.
    rewrite bool_decide_false; [done|]. intros E. pose proof (sf_op _ Hf). congruence. }
  unfold getCombinedLabelFilters, joined_values.
  destruct o; try (apply Hnum; reflexivity).
  - destruct (combine_spec fs Equal (Some RegexEqual) Hfs) as [Hn Ha].
    destruct (keys_filter (fun c => bool_decide (operator c = Equal)) _ Hn) as [Hfn Hfa].
    split; [exact Hfn|]. intros k. unfold removeStaleOperators. rewrite Hfa, Ha.
    destruct (vals fs Equal k) as [|v [|v' vs]]; reflexivity.
  - destruct (combine_spec fs NotEqual (Some RegexNotEqual) Hfs) as [Hn Ha].
    destruct (keys_filter (fun c => bool_decide (operator c = NotEqual)) _ Hn) as [Hfn Hfa].
    split; [exact Hfn|]. intros k. unfold removeStaleOperators. rewrite Hfa, Ha.
    destruct (vals fs NotEqual k) as [|v [|v' vs]]; reflexivity.
  - destruct (combine_spec fs Equal (Some RegexEqual) Hfs) as [Hn Ha].
    destruct (combine_spec fs RegexEqual None Hfs) as [Hn' Ha'].
    destruct (mergeFilters_spec RegexEqual _ _ Hn Hn') as [Hm Hr].
    split; [exact Hm|]. intros k. rewrite Hr, Ha, Ha'.
    destruct (vals fs Equal k) as [|v [|v' vs]], (vals fs RegexEqual k) as [|w [|w' ws]];
      cbn -[esc]; rewrite ?fmap_app, ?app_nil_r; reflexivity.
  - destruct (combine_spec fs NotEqual (Some RegexNotEqual) Hfs) as [Hn Ha].
    destruct (combine_spec fs RegexNotEqual None Hfs) as [Hn' Ha'].
    destruct (mergeFilters_spec RegexNotEqual _ _ Hn Hn') as [Hm Hr].
    split; [exact Hm|]. intros k. rewrite Hr, Ha, Ha'.
    destruct (vals fs NotEqual k) as [|v [|v' vs]], (vals fs RegexNotEqual k) as [|w [|w' ws]];
      cbn -[esc]; rewrite ?fmap_app, ?app_nil_r; reflexivity.
Qed.
