(* ===== verification/Stored.v ===== *)
(** * What the logs app keeps in the browser (747.js, module 227)

    Favourite services, tabs and the options of the panels in [localStorage]: an object of
    texts, lists being written as JSON.  A list that cannot be read counts as empty.  Writing
    is assumed to succeed (a full storage throws). *)

From S2P Require Import Prelude.
From S2P Require Import Java.
From S2P Require Import JavaScript.
From S2P Require Import Json.
From S2P Require Import LogQL.
From S2P Require Import LogQLCorrect.

Abbreviation Storage := (list (bytes * bytes)).

Definition getItem (s : Storage) (k : bytes) : option bytes := assoc k s.
Definition setItem (k v : bytes) (s : Storage) : Storage := put k v s.
Definition removeItem (k : bytes) (s : Storage) : Storage := List.filter (fun e => negb (bool_decide (e.1 = k))) s.

(** [aJ] of module 4011 (in module.js): the elements of an array, [[]] for other values. *)
Definition aJ (j : json) : list bytes :=
  match j with
  | JArray l => (fun x => match x with JString s => s | _ => [] end) <$> l
  | _ => []
  end.

(** The reading that all lists share: [JSON.parse(localStorage.getItem(n) || "[]")], with the
    error logged. *)
Definition read_list (s : Storage) (k : bytes) : list bytes :=
  let text := match getItem s k with Some (c :: t) => c :: t | _ => str "[]" end in
  match JSON_parse text with Some j => aJ j | None => [] end.
Definition write_list (k : bytes) (l : list bytes) (s : Storage) : Storage := setItem k (stringify_array l) s.

(** ** Favourite services and tabs *)

Definition pluginId : bytes := str "grafana-lokiexplore-app".
Definition SERVICE_NAME : bytes := str "service_name".

(** [f], [b]: the keys. *)
Definition favorites_key (e t : bytes) : bytes :=
  pluginId ++ str ".services.favorite_" ++ e ++ (if decide (t = SERVICE_NAME) then [] else str "_" ++ t).
Definition tabs_key (e : bytes) : bytes := pluginId ++ str ".primarylabels.tabs.favorite_" ++ e.

Definition without (n : bytes) (a : list bytes) : list bytes := List.filter (fun e => negb (bool_decide (e = n))) a.

(** [d]: the favourites of a data source for a label. *)
Definition getFavorites (e t : bytes) (s : Storage) : list bytes :=
  if decide (e = []) then [] else read_list s (favorites_key e t).

(** [p], [g]. *)
Definition addFavorite (e t n : bytes) (s : Storage) : Storage :=
  if decide (e = []) then s
  else let r := favorites_key e t in write_list r (n :: without n (read_list s r)) s.
Definition removeFavorite (e t n : bytes) (s : Storage) : Storage :=
  if decide (e = [] \/ t = [] \/ n = []) then s
  else let r := favorites_key e t in write_list r (without n (read_list s r)) s.

(** [h], [v], [m]. *)
Definition addTab (e t : bytes) (s : Storage) : Storage :=
  if decide (e = [] \/ t = []) then s
  else
    let n := tabs_key e in
    let r := read_list s n in
    if decide (t ∈ r) then s else write_list n (t :: without t r) s.
Definition removeTab (e t : bytes) (s : Storage) : Storage :=
  if decide (e = [] \/ t = []) then s
  else let n := tabs_key e in write_list n (without t (read_list s n)) s.
Definition getTabs (e : bytes) (s : Storage) : list bytes :=
  if decide (e = []) then [] else read_list s (tabs_key e).

(** ** Options *)

(** [y], [S]: the data source. *)
Definition datasource_key : bytes := pluginId ++ str ".datasource".
Definition getDatasource (s : Storage) : option bytes := getItem s datasource_key.
Definition setDatasource (e : bytes) (s : Storage) : Storage := setItem datasource_key e s.

(** [O], [x]: what a list of values is sorted by.  [split(".")] of the stored text. *)
Fixpoint split_dot (s : bytes) : list bytes :=
  match s with
  | [] => [[]]
  | c :: s =>
      if c =c? "."%char then [] :: split_dot s
      else match split_dot s with w :: ws => (c :: w) :: ws | [] => [[c]] end
  end.
Definition sort_key (e : bytes) : bytes := pluginId ++ str ".values.sort." ++ e ++ str ".by".
Definition getSorting (e t n : bytes) (s : Storage) : bytes * bytes :=
  match split_dot (default [] (getItem s (sort_key e))) with
  | a0 :: a1 :: _ => if decide (a0 <> [] /\ a1 <> []) then (a0, a1) else (t, n)
  | _ => (t, n)
  end.
Definition setSorting (e t n : bytes) (s : Storage) : Storage :=
  if decide (t <> [] /\ n <> []) then setItem (sort_key e) (t ++ str "." ++ n) s else s.

(** [L], [P]: options of the logs panel; [false] is stored as the empty text. *)
Definition option_key (e : bytes) : bytes := pluginId ++ str ".logs.option." ++ e.
Definition getLogOption (e t : bytes) (s : Storage) : bytes :=
  match getItem s (option_key e) with Some (c :: v) => c :: v | _ => t end.
Definition setLogOption (e : bytes) (t : bytes + bool) (s : Storage) : Storage :=
  setItem (option_key e) (match t with inl x => x | inr true => str "true" | inr false => [] end) s.

(** [_], [T]: whether the volume panel is collapsed. *)
Definition volume_key (e : bytes) : bytes := str "grafana.explore.logs.logsVolume." ++ e.
Definition setVolumeOption (e : bytes) (t : option bytes) (s : Storage) : Storage :=
  match t with Some t => setItem (volume_key e) t s | None => removeItem (volume_key e) s end.
Definition getVolumeOption (e : bytes) (s : Storage) : bool :=
  match getItem s (volume_key e) with Some (_ :: _) => true | _ => false end.

(** [N], [I]: table or logs. *)
Definition visualisation_key : bytes := str "grafana.explore.logs.visualisationType".
Definition getVisualisation (s : Storage) : bytes :=
  let t := default [] (getItem s visualisation_key) in
  if decide (t = str "table") then t else str "logs".
Definition setVisualisation (e : bytes) (s : Storage) : Storage := setItem visualisation_key e s.

(** [A], [M], [B] and [R], [V], [W]: the switches of the line filter, with a default. *)
Inductive Switch : Type := CaseSensitive | UseRegex | Exclusive.
Definition switch_key (w : Switch) : bytes :=
  pluginId ++ str ".linefilter.option." ++
  match w with CaseSensitive => str "caseSensitive" | UseRegex => str "regex" | Exclusive => str "exclusive" end.
Definition setSwitch (w : Switch) (e : bool) (s : Storage) : Storage :=
  setItem (switch_key w) (if e then str "true" else []) s.
Definition getSwitch (w : Switch) (e : bool) (s : Storage) : bool :=
  bool_decide (getItem s (switch_key w) = Some (str "true")) || e.

(** [H], [G]: one of the options [t] of a panel. *)
Definition panel_key (e : bytes) : bytes := pluginId ++ str ".panel.option." ++ e.
Definition getPanelOption (e : bytes) (t : list bytes) (s : Storage) : option bytes :=
  n ← getItem s (panel_key e); List.find (fun e => bool_decide (n = e)) t.
Definition setPanelOption (e t : bytes) (s : Storage) : Storage := setItem (panel_key e) t s.

(** ** What is read back *)

Lemma getItem_setItem k k' v s : getItem (setItem k' v s) k = if decide (k = k') then Some v else getItem s k.
Proof. apply assoc_put. Qed.

Lemma read_written k l s : read_list (write_list k l s) k = l.
Proof.
  unfold read_list, write_list. rewrite getItem_setItem, decide_True by done.
  change (stringify_array l) with ("["%char :: tl (stringify_array l)). cbn match.
  change ("["%char :: tl (stringify_array l)) with (stringify_array l).
  rewrite JSON_parse_array. cbn [aJ]. rewrite <- list_fmap_compose. by apply list_fmap_id.
Qed.

Lemma read_other k k' l s : k <> k' -> read_list (write_list k' l s) k = read_list s k.
Proof. intros Hk. unfold read_list, write_list. by rewrite getItem_setItem, decide_False. Qed.

Lemma elem_without x n a : x ∈ without n a <-> x ∈ a /\ x <> n.
Proof.
  unfold without. rewrite !list_elem_of_In, filter_In, negb_true_iff, bool_decide_eq_false. tauto.
Qed.
Lemma NoDup_without n a : NoDup a -> NoDup (without n a).
Proof. intros H. unfold without. apply NoDup_ListNoDup, List.NoDup_filter. by apply NoDup_ListNoDup. Qed.

(** An operation on the favourites, and a list of them in order. *)
Inductive FavoriteOp : Type := Add (e t n : bytes) | Remove (e t n : bytes).
Definition favorite_op (o : FavoriteOp) : Storage -> Storage :=
  match o with Add e t n => addFavorite e t n | Remove e t n => removeFavorite e t n end.
Definition favorite_run (ops : list FavoriteOp) (s : Storage) : Storage := fold_left (fun s o => favorite_op o s) ops s.

Lemma getFavorites_add e t n s :
  e <> [] -> getFavorites e t (addFavorite e t n s) = n :: without n (getFavorites e t s).
Proof.
  intros He. unfold getFavorites, addFavorite. rewrite !decide_False by done. by rewrite read_written.
Qed.
Lemma getFavorites_remove e t n s :
  e <> [] -> t <> [] -> n <> [] ->
  getFavorites e t (removeFavorite e t n s) = without n (getFavorites e t s).
Proof.
  intros He Ht Hn. unfold getFavorites, removeFavorite. rewrite !decide_False by tauto. by rewrite read_written.
Qed.

(** Another list is left alone: the keys have to differ, which different data sources and
    labels do not ensure. *)
Lemma getFavorites_other o e t s :
  (forall e' t' n, o = Add e' t' n \/ o = Remove e' t' n -> favorites_key e t <> favorites_key e' t') ->
  getFavorites e t (favorite_op o s) = getFavorites e t s.
Proof.
  intros H. unfold getFavorites. case_decide; [done|]. destruct o as [e' t' n|e' t' n]; cbn [favorite_op];
    unfold addFavorite, removeFavorite; case_decide; try done; apply read_other; eauto.
Qed.

(** No favourite is listed twice. *)
Lemma favorite_op_NoDup o e t s : NoDup (getFavorites e t s) -> NoDup (getFavorites e t (favorite_op o s)).
Proof.
  intros Hs. unfold getFavorites in *. destruct (decide (e = [])) as [|He]; [constructor|].
  set (k := favorites_key e t) in *.
  assert (W : forall k' l, NoDup l \/ k <> k' -> NoDup (read_list (write_list k' l s) k)).
  { intros k' l Hl. destruct (decide (k = k')) as [<-|Hk]; [rewrite read_written; tauto|by rewrite read_other]. }
  destruct o as [e' t' n|e' t' n]; cbn [favorite_op]; unfold addFavorite, removeFavorite;
    case_decide; try done; apply W; (destruct (decide (k = favorites_key e' t')) as [<-|]; [left|by right]).
  - constructor; [|by apply NoDup_without]. rewrite elem_without. tauto.
  - by apply NoDup_without.
Qed.

Lemma favorite_run_NoDup ops e t s : NoDup (getFavorites e t s) -> NoDup (getFavorites e t (favorite_run ops s)).
Proof.
  revert s. induction ops as [|o ops IH]; intros s Hs; [done|]. apply IH. by apply favorite_op_NoDup.
Qed.
