(* ===== verification/FilterButtons.v ===== *)
(** * The filter buttons of the logs app (747.js)

    What a click on Include, Exclude or a value does to the filters of the page (module 558),
    how the value of a field is encoded with the parser that finds it (modules 7097 and 7918),
    and how the page keeps its lists of filters together (module 8538).  A page has a list of
    filters per variable; field and metadata filters are edited in the variable [all-fields],
    whose changes are split into [fields] and [metadata]. *)

From S2P Require Import Prelude.
From S2P Require Import Java.
From S2P Require Import JavaScript.
From S2P Require Import Json.
From S2P Require Import Filters.
From S2P Require Import LogQL.
From S2P Require Import LogQLCorrect.
From S2P Require Import Stored.

(** ** Values (7918) *)

(** What the user typed in, [label] being what is displayed. *)
Record Custom := { c_value : bytes; c_label : option bytes }.

(** A value with its parser, as JSON. *)
Definition encoded (v parser : bytes) : bytes := stringify [(str "value", v); (str "parser", parser)].

(** [f] ([c0]): the value of a label or metadata filter, and its labels. *)
Definition label_value (e : Custom) : bytes * list bytes :=
  (match c_value e with [] => [] | v => B v end, [default (c_value e) (c_label e)]).
(** [b] ([PP]): the value of a field filter; [t] is the parser of the filter being made. *)
Definition field_value (e : Custom) (t : option bytes) : bytes * list bytes :=
  let parser := default MIXED t in
  (if decide (parser = METADATA) then B (c_value e) else B (encoded (c_value e) parser),
   [default (c_value e) (c_label e)]).

(** [x], [E] (7918 vC, sT): a text looked for anywhere, in any case; and back. *)
Definition wrapWildcardSearch (e : bytes) : bytes :=
  if decide (e = str ".+") then e
  else if decide (str "(?i).*" <> firstn 6 e) then str "(?i).*" ++ e ++ str ".*"
  else e.
Definition unwrapWildcardSearch (e : bytes) : bytes :=
  if decide (firstn 6 e = str "(?i).*") then
    if decide (skipn (length e - 2) e = str ".*") then
      let t := skipn 6 e in firstn (length t - 2) t
    else e
  else e.

(** ** Parsers (7097) *)

Definition parser_named (e : bytes) : bytes :=
  if decide (e = JSON) then JSON
  else if decide (e = LOGFMT) then LOGFMT
  else if decide (e = [] \/ e = METADATA) then METADATA
  else MIXED.

(** [y]: the one parser of several filters. *)
Definition parsers_joined (e : list bytes) : bytes :=
  match without METADATA (new_set e) with
  | [] => METADATA
  | [p] => parser_named p
  | _ => MIXED
  end.

(** ** The page *)

(** The names of the variables: [MB], [mB], [_P], [_Y], [sL]; [e4] is the level label. *)
Definition v_filters : bytes := str "filters".
Definition v_fields : bytes := str "fields".
Definition v_metadata : bytes := str "metadata".
Definition v_levels : bytes := str "levels".
Definition v_all_fields : bytes := str "all-fields".
Definition detected_level : bytes := str "detected_level".

(** What the buttons use of the page: the filters by variable, the data source and the
    stored favourites; of the answers to its queries, the names of the labels and fields
    that were found, with the parsers of the latter. *)
Record Page := {
  vars : list (bytes * list AdHoc);
  p_datasource : bytes;
  p_storage : list (bytes * bytes);
  detectedLabels : list bytes;
  detectedFields : list (bytes * bytes)
}.

Definition set_vars (v : list (bytes * list AdHoc)) (p : Page) : Page :=
  {| vars := v; p_datasource := p_datasource p; p_storage := p_storage p;
     detectedLabels := detectedLabels p; detectedFields := detectedFields p |}.
Definition set_storage (s : list (bytes * bytes)) (p : Page) : Page :=
  {| vars := vars p; p_datasource := p_datasource p; p_storage := s;
     detectedLabels := detectedLabels p; detectedFields := detectedFields p |}.

(** [S] of 7097: the parser of a field. *)
Definition parser_of_field (e : bytes) (p : Page) : bytes :=
  match assoc e (detectedFields p) with Some q => parser_named q | None => MIXED end.

(** [F]: the variable of a key; [j] with [k]: the variable a button edits. *)
Definition variable_of_key (e : bytes) (p : Page) : bytes :=
  if decide (e ∈ detectedLabels p) then v_filters else v_fields.
Definition variable_name (e t : bytes) : bytes :=
  if decide (e = v_fields \/ e = v_metadata) then v_all_fields
  else if decide (t = detected_level) then v_levels else e.
(** The variable is looked up; [None] is the exception that it is not there. *)
Definition variable (e t : bytes) (p : Page) : option (list AdHoc) := assoc (variable_name e t) (vars p).

#[global] Instance AdHoc_eq_dec : EqDecision AdHoc.
Proof. solve_decision. Defined.

(** [B] of module 833 on lists of filters: equal as sets of filters. *)
Definition count (x : AdHoc) (l : list AdHoc) : nat := length (List.filter (fun y => bool_decide (x = y)) l).
Definition same_filters (l k : list AdHoc) : bool :=
  bool_decide (length l = length k) && forallb (fun x => count x l =? count x k)%nat l.

(** [setState({filters})] on a variable; [subscribeToCombinedFieldsVariable] (8538) splits
    a change of [all-fields]. *)
Definition set_variable (name : bytes) (l : list AdHoc) (p : Page) : Page :=
  let old := default [] (assoc name (vars p)) in
  let v := put name l (vars p) in
  if bool_decide (name = v_all_fields) && negb (same_filters l old) then
    let as_is f := OH (val f) (valueLabels f) in
    set_vars (put v_metadata (List.filter as_is l)
                (put v_fields (List.filter (fun f => negb (as_is f)) l) v)) p
  else set_vars v p.

(** [z2] of 4750: the value of a filter of the variable [name]; [None] is an exception. *)
Definition filter_value (name : bytes) (f : AdHoc) : option bytes :=
  if decide (name = v_fields) then fv_value <$> P (val f) (valueLabels f) else Some (val f).

(** ** The operations (558) *)

Inductive Action : Type := Include | Exclude | Clear | Toggle.

#[global] Instance Action_eq_dec : EqDecision Action.
Proof. solve_decision. Defined.

(** [filter] with a test that may throw. *)
Fixpoint filter_m {A} (f : A -> option bool) (l : list A) : option (list A) :=
  match l with
  | [] => Some []
  | x :: l => b ← f x; l ← filter_m f l; Some (if b : bool then x :: l else l)
  end.

(** [_J] of 9055: the value becomes the first favourite of the data source. *)
Definition favor (e t : bytes) (p : Page) : Page :=
  set_storage (addFavorite (p_datasource p) e t (p_storage p)) p.

(** The value a new filter gets: JSON for a field, the value itself elsewhere. *)
Definition new_value (a e t : bytes) (p : Page) : bytes :=
  if decide (a = v_fields) then encoded t (parser_of_field e p) else t.

(** [E] ([Qt]): [e] the key, [t] the value, [n] the action, [a] the variable. *)
Definition addToFilters (e t : bytes) (n : Action) (a : option bytes) (p : Page) : option Page :=
  let a := default (variable_of_key e p) a in
  let p := if decide (a = v_filters) then favor e t p else p in
  old ← variable a e p;
  l ← filter_m (fun r =>
        v ← filter_value (variable_name a e) r;
        Some (match n with
              | Include => negb (bool_decide (label r = e /\ op r <> Equal))
              | _ => negb (bool_decide (label r = e /\ v = t))
              end)) old;
  let o := negb (length l =? length old)%nat in
  let l :=
    if bool_decide (n = Include) || bool_decide (n = Exclude) || (negb o && bool_decide (n = Toggle)) then
      l ++ [{| label := e; op := if decide (n = Exclude) then NotEqual else Equal;
               val := new_value a e t p; valueLabels := [t] |}]
    else l in
  Some (set_variable (variable_name a e) l p).

(** [S] ([hi]): remove the filters on a key, of a value, with an operator. *)
Definition removeFilters (e : bytes) (n : option bytes) (r : option bytes) (a : option FilterOp) (p : Page) : option Page :=
  let n := default (variable_of_key e p) n in
  old ← variable n e p;
  l ← filter_m (fun t =>
        v ← filter_value (variable_name n e) t;
        let has_value := match r with Some (c :: r') => bool_decide (v = c :: r') | _ => true end in
        let has_op := match a with Some a => bool_decide (op t = a) | None => true end in
        Some (negb (bool_decide (label t = e) && has_value && has_op))) old;
  Some (set_variable (variable_name n e) l p).

(** [w]: the bound a comparison sets; [O] ([VT]) and [x] ([vn]): clear and set one. *)
Inductive Bound : Type := Greater | Lesser.
#[global] Instance Bound_eq_dec : EqDecision Bound.
Proof. solve_decision. Defined.
Definition bound_of (e : FilterOp) : option Bound :=
  match e with gt | gte => Some Greater | lt | lte => Some Lesser | _ => None end.

Definition without_bound (e : bytes) (i : option Bound) (l : list AdHoc) : list AdHoc :=
  List.filter (fun t => negb (bool_decide (label t = e /\ (bound_of (op t) = i \/ op t = NotEqual)))) l.

Definition clearBound (e : bytes) (n : option FilterOp) (r : option bytes) (p : Page) : option Page :=
  let r := default (variable_of_key e p) r in
  old ← variable r e p;
  Some (set_variable (variable_name r e) (without_bound e (n ≫= bound_of) old) p).

Definition addNumericFilter (e t : bytes) (n : FilterOp) (a : option bytes) (p : Page) : option Page :=
  let a := default (variable_of_key e p) a in
  old ← variable a e p;
  Some (set_variable (variable_name a e)
    (without_bound e (bound_of n) old ++
      [{| label := e; op := n; val := new_value a e t p; valueLabels := [t] |}]) p).

(** [C] ([PT]): one filter in place of all. *)
Definition replaceFilter (e t : bytes) (n : Action) (a : bytes) (p : Page) : option Page :=
  _ ← variable a e p;
  Some (set_variable (variable_name a e)
    [{| label := e; op := if decide (n = Exclude) then NotEqual else Equal; val := t; valueLabels := [] |}] p).

(** [y] ([XI]): a filter handed in by the logs panel. *)
Definition addAdHocFilter (e : AdHoc) (n : option bytes) (p : Page) : option Page :=
  addToFilters (label e) (val e) (if decide (op e = Equal) then Include else Exclude) n p.

Fixpoint find_m {A} (f : A -> option bool) (l : list A) : option (option A) :=
  match l with
  | [] => Some None
  | x :: l => b ← f x; if b : bool then Some (Some x) else find_m f l
  end.

(** [L.isSelected]: is the value of the button's series included, excluded? *)
Definition isSelected (e t a : bytes) (p : Page) : option (bool * bool) :=
  l ← variable a e p;
  n ← find_m (fun n => v ← filter_value (variable_name a e) n; Some (bool_decide (label n = e /\ v = t))) l;
  Some (match n with
        | Some n => (bool_decide (op n = Equal), bool_decide (op n = NotEqual))
        | None => (false, false)
        end).

(** The two buttons (5218): pressed again, a button clears. *)
Definition press (include_ : bool) (e t a : bytes) (p : Page) : option Page :=
  '(i, x) ← isSelected e t a p;
  let n := if include_ then (if i : bool then Clear else Include) else (if x : bool then Clear else Exclude) in
  addToFilters e t n (Some a) p.

(** ** Levels (1383) *)

(** [o]: the levels the legend shows after a click; [a] is all of them. *)
Definition toggleLevelVisibility (e : bytes) (t : list bytes) (toggle_selection : bool) (a : list bytes) : list bytes :=
  if toggle_selection then if bool_decide (t = [e]) then [] else [e]
  else
    let i := match t with [] => a | _ => t end in
    if decide (e ∈ i) then without e i else i ++ [e].

(** [p]: lines without a level are shown as [logs]. *)
Definition shown_level (e : bytes) : bytes := if decide (e = EMPTY) then str "logs" else e.

(** [d]: the levels of a list that the filters let through.  The included levels are joined to
    one text, in which a level is looked for; the excluded ones likewise. *)
Definition joined_levels (l : list AdHoc) : bytes :=
  join [BAR] ((fun f => join (str ",") (shown_level <$> split_bar (val f))) <$> l).
Definition visible_levels (e : list bytes) (p : Page) : option (list bytes) :=
  n ← assoc v_levels (vars p);
  let r := joined_levels (List.filter (fun f => isInclusive (op f)) n) in
  let a := joined_levels (List.filter (fun f => isExclusive (op f)) n) in
  Some (List.filter (fun e => negb (includes e a) && (bool_decide (r = []) || includes e r)) e).

(** [g]: a click on a level; the result is what is reported. *)
Inductive Toggled : Type := Added | Removed.
Definition toggleLevel (e : bytes) (p : Page) : option (Page * Toggled) :=
  n ← assoc v_levels (vars p);
  let o := List.find (fun t => bool_decide (e ∈ split_bar (val t)) && isInclusive (op t)) n in
  let e := if decide (e = str "logs") then EMPTY else e in
  match n, o with
  | _ :: _, Some _ => p ← addToFilters detected_level e Toggle (Some v_levels) p; Some (p, Removed)
  | _, _ => p ← replaceFilter detected_level e Include v_levels p; Some (p, Added)
  end.

(** ** Queries (4750, 7097) *)

(** [c] ([DX]): the log lines of the page, to be completed with the texts of the variables. *)
Definition pipeline (parser : bytes) : bytes :=
  if decide (parser = METADATA) then []
  else if decide (parser = JSON) then str "| json | drop __error__, __error_details__ "
  else if decide (parser = LOGFMT) then str "| logfmt "
  else str "| json | logfmt | drop __error__, __error_details__ ".
Definition logsStreamSelector (labels metadata fields parser : bytes) : bytes :=
  str "{${filters}" ++ labels ++ str "} " ++ metadata ++ str " ${levels} ${metadata} ${patterns} ${lineFilters} "
    ++ pipeline parser ++ fields ++ str " ${fields}".

(** [k] ([Jl]): the chart of a field [e] with parser [c] and the type [fieldType]; the parsers
    of the filters count as well. *)
Definition chart (e selector : bytes) (fieldType : option bytes) : bytes :=
  match fieldType with
  | Some t =>
      if decide (t ∈ [str "bytes"; str "duration"]) then
        str "avg_over_time(" ++ selector ++ str " | unwrap " ++ t ++ str "(" ++ e ++ str ") | __error__=" ++ EMPTY
          ++ str " [$__auto]) by ()"
      else if decide (t = str "float") then
        str "avg_over_time(" ++ selector ++ str " | unwrap " ++ e ++ str " | __error__=" ++ EMPTY ++ str " [$__auto]) by ()"
      else str "sum by (" ++ e ++ str ") (count_over_time(" ++ selector ++ str " [$__auto]))"
  | None => str "sum by (" ++ e ++ str ") (count_over_time(" ++ selector ++ str " [$__auto]))"
  end.
Definition field_query (e : bytes) (filters : list AdHoc) (found : list (bytes * bytes)) (fieldType : option bytes) :
    option bytes :=
  let c := match assoc e found with Some q => parser_named q | None => MIXED end in
  p ← mapM (fun f => fv_parser <$> P (val f) (valueLabels f)) filters;
  let present := str "| " ++ e ++ str "!=" ++ EMPTY in
  let '(h, g) := if decide (c = METADATA) then (present, []) else ([], present) in
  Some (chart e (logsStreamSelector [] h g (parsers_joined (p ++ [c]))) fieldType).
