(* ===== verification/LogQLExpr.v ===== *)
(** * What the expressions of the builder select

    The label expression and the metadata expression, read back: the matchers of
    each, and the streams and lines they let through. *)

From S2P Require Import Prelude.
From S2P Require Import Filters.
From S2P Require Import LogQL.
From S2P Require Import LogQLCorrect.
#[local] Open Scope nat_scope.

(** ** Reading what was printed *)

Definition ident (k : bytes) : Prop := k <> [] /\ Forall (fun c => is_ident c = true) k.

Definition print (m : Matcher) : bytes := buildFilterString (m_label m) (m_op m) (dl (m_text m)) [DQ].

Lemma print_eq m : print m = m_label m ++ op_string (m_op m) ++ DQ :: dl (m_text m) ++ [DQ].
Proof.
  unfold print, buildFilterString. rewrite decide_False; [done|]. apply dl_not_quote.
Qed.

Lemma span_ident_app k c r :
  Forall (fun c => is_ident c = true) k -> is_ident c = false -> span_ident (k ++ c :: r) = (k, c :: r).
Proof.
  intros Hk Hc. induction Hk as [|d k Hd _ IH]; cbn [app span_ident]; [by rewrite Hc|].
  by rewrite Hd, IH.
Qed.

Definition printable (m : Matcher) : Prop := ident (m_label m) /\ isNumeric (m_op m) = false.

Lemma read_matcher_print m r : printable m -> read_matcher (print m ++ r) = Some (m, r).
Proof.
  intros [[Hne Hk] Ho]. rewrite print_eq, <- !app_assoc. cbn [app].
  rewrite <- app_assoc. unfold read_matcher. destruct m as [k o t]; cbn [m_label m_op m_text] in *.
  assert (Hspan : exists c x, op_string o ++ DQ :: dl t ++ [DQ] ++ r = c :: x /\ is_ident c = false).
  { destruct o; try discriminate Ho; eexists _, _; split; reflexivity. }
  destruct Hspan as (c & x & E & Hc). rewrite E, (span_ident_app k c x Hk Hc), <- E.
  rewrite decide_False by done.
  assert (read_op (op_string o ++ DQ :: dl t ++ [DQ] ++ r) = Some (o, DQ :: dl t ++ [DQ] ++ r)) as ->.
  { destruct o; try discriminate Ho; reflexivity. }
  cbn [mbind option_bind]. rewrite eqb_char_refl. cbn [app]. by rewrite literal_dl.
Qed.

Lemma after_app p s : after p (p ++ s) = Some s.
Proof. induction p as [|c p IH]; cbn [app after]; [by destruct s|]. by rewrite eqb_char_refl. Qed.

Lemma read_sep_join {A B} (item : bytes -> option (A * bytes)) sep (show : B -> bytes) (mean : B -> A)
    (Q : bytes -> Prop) (l : list B) fuel r :
  l <> [] -> (forall b r, b ∈ l -> Q r -> item (show b ++ r) = Some (mean b, r)) ->
  (forall b x, b ∈ l -> Q (sep ++ show b ++ x)) -> Q r -> after sep r = None -> length l <= S fuel ->
  read_sep item sep fuel (join sep (show <$> l) ++ r) = Some (mean <$> l, r).
Proof.
  intros Hl Hitem HQ Hr Hsep. revert fuel.
  induction l as [|b [|b' l] IH]; intros fuel Hlen; [done| |].
  - cbn. destruct fuel; cbn [read_sep]; rewrite (Hitem b r) by (done || by left); cbn;
      [done|by rewrite Hsep].
  - cbn [length] in Hlen. destruct fuel as [|fuel]; [lia|].
    rewrite !fmap_cons, join_cons, <- fmap_cons, <- !app_assoc. cbn [read_sep].
    rewrite (Hitem b); [|by left|].
    2:{ rewrite fmap_cons. destruct l as [|b2 l]; cbn [fmap list_fmap join]; [|rewrite <- app_assoc];
        apply HQ; right; by left. }
    cbn [mbind option_bind]. rewrite after_app.
    rewrite IH; [done|done| | |cbn; lia].
    + intros b0 r0 Hb. apply Hitem. by right.
    + intros b0 x Hb. apply HQ. by right.
Qed.

Lemma length_join sep l : sep <> [] -> length l <= S (length (join sep l)).
Proof.
  intros Hs. induction l as [|w [|w' l] IH]; [cbn; lia..|].
  rewrite join_cons, !length_app. cbn [length] in *. destruct sep; [done|]. cbn [length]. lia.
Qed.

Lemma length_in_join sep l w : w ∈ l -> length w <= length (join sep l).
Proof.
  induction l as [|v [|v' l] IH]; intros H.
  - by apply elem_of_nil in H.
  - by apply list_elem_of_singleton in H as ->.
  - rewrite join_cons, !length_app. apply elem_of_cons in H as [-> |H]; [lia|]. specialize (IH H). lia.
Qed.

(** ** Trimming does nothing *)

Lemma ident_not_space c : is_ident c = true -> is_space c = false.
Proof. destruct c as [[] [] [] [] [] [] [] []]; done. Qed.

Lemma trim_id s :
  (forall c r, s = c :: r -> is_space c = false) -> (forall c r, s = r ++ [c] -> is_space c = false) ->
  trim s = s.
Proof.
  intros Hfirst Hlast. unfold trim.
  assert (trim_start s = s) as ->.
  { destruct s as [|c s]; [done|]. cbn. by rewrite (Hfirst c s). }
  destruct s as [|c s] using rev_ind; [done|]. rewrite rev_app_distr. cbn [rev app trim_start].
  rewrite (Hlast c s) by done. cbn [rev]. by rewrite rev_involutive.
Qed.

Lemma join_ends sep l c :
  l <> [] -> (forall w, w ∈ l -> exists p, w = p ++ [c]) -> exists p, join sep l = p ++ [c].
Proof.
  induction l as [|v [|v' l] IH]; intros Hl H; [done|apply H; by left|].
  destruct IH as [p Hp]; [done|intros w Hw; apply H; by right|].
  exists (v ++ sep ++ p). by rewrite join_cons, Hp, <- !app_assoc.
Qed.

Lemma join_starts sep l (P : ascii -> Prop) :
  l <> [] -> (forall w, w ∈ l -> exists c r, w = c :: r /\ P c) -> exists c r, join sep l = c :: r /\ P c.
Proof.
  destruct l as [|v [|v' l]]; intros Hl H; [done|apply H; by left|].
  destruct (H v) as (c & r & -> & Hc); [by left|].
  exists c, (r ++ sep ++ join sep (v' :: l)). rewrite join_cons. done.
Qed.

(** A nonempty list of items that start with no space and end with a quote. *)
Lemma trim_join sep l :
  (forall w, w ∈ l -> (exists c r, w = c :: r /\ is_space c = false) /\ exists p, w = p ++ [DQ]) ->
  trim (join sep l) = join sep l.
Proof.
  intros H. destruct (decide (l = [])) as [-> |Hl]; [done|]. apply trim_id.
  - intros c r E. destruct (join_starts sep l (fun c => is_space c = false) Hl) as (c' & r' & E' & Hc).
    { intros w Hw. apply H, Hw. }
    congruence.
  - intros c r E. destruct (join_ends sep l DQ Hl) as [p E'].
    { intros w Hw. by apply H. }
    rewrite E in E'. apply app_inj_tail in E' as [_ ->]. done.
Qed.

Lemma print_ends m : printable m -> (exists c r, print m = c :: r /\ is_space c = false) /\ exists p, print m = p ++ [DQ].
Proof.
  intros [[Hne Hk] _]. rewrite print_eq. split.
  - destruct (m_label m) as [|c k]; [done|]. apply list.Forall_cons in Hk as [? _].
    eauto using ident_not_space.
  - eexists (m_label m ++ op_string (m_op m) ++ DQ :: dl (m_text m)). rewrite <- !app_assoc. done.
Qed.

(** ** The matchers of an expression *)

(** The text of a matcher of the values [vs]. *)
Definition raw (o : FilterOp) (v : bytes) : bytes := if isRegex o then resc v else v.

Lemma esc_raw o v : esc o v = dl (raw o v).
Proof. unfold esc, raw. by destruct (isRegex o). Qed.

Lemma esc_join o vs : join [BAR] (esc o <$> vs) = dl (join [BAR] (raw o <$> vs)).
Proof.
  rewrite <- join_dl, <- list_fmap_compose. f_equal. apply list_fmap_ext. intros. apply esc_raw.
Qed.

Definition match_ops : list FilterOp := [Equal; NotEqual; RegexEqual; RegexNotEqual].

Definition label_matchers_of (fs : list AdHoc) (o : FilterOp) : list Matcher :=
  (fun k => {| m_label := k; m_op := o; m_text := join [BAR] (raw o <$> joined_values fs o k) |})
    <$> keys (getCombinedLabelFilters false true fs o).
Definition label_matchers (fs : list AdHoc) : list Matcher := flat_map (label_matchers_of fs) match_ops.

Definition metadata_matchers_of (fs : list AdHoc) (o : FilterOp) : list (list Matcher) :=
  (fun k => (fun v => {| m_label := k; m_op := o; m_text := raw o v |}) <$> vals fs o k)
    <$> keys (getCombinedLabelFilters false false fs o).
Definition metadata_matchers (fs : list AdHoc) : list (list Matcher) :=
  flat_map (metadata_matchers_of fs) match_ops.

Lemma in_keys {V} k (o : list (bytes * V)) : k ∈ keys o <-> exists v, (k, v) ∈ o.
Proof.
  unfold keys. rewrite list_elem_of_fmap. split.
  - intros ([k' v] & -> & H). eauto.
  - intros [v H]. exists (k, v). done.
Qed.

Lemma ident_key fs o k : Forall stream_filter fs -> vals fs o k <> [] -> ident k.
Proof.
  intros Hfs Hv. unfold vals in Hv. destruct (List.filter (on_key k) (List.filter (with_op o) fs)) as [|f l] eqn:E; [done|].
  assert (H : In f (List.filter (on_key k) (List.filter (with_op o) fs))) by (rewrite E; by left).
  apply filter_In in H as [H Hk]. apply filter_In in H as [H _].
  unfold on_key in Hk. apply bool_decide_eq_true in Hk as <-.
  rewrite list.Forall_forall in Hfs. apply (sf_label f), Hfs. by apply list_elem_of_In.
Qed.

Lemma joined_values_key fs o k : joined_values fs o k <> [] -> exists o', vals fs o' k <> [].
Proof.
  unfold joined_values. intros H. destruct o; try done.
  - exists Equal. destruct (vals fs Equal k); done.
  - exists NotEqual. destruct (vals fs NotEqual k); done.
  - destruct (vals fs RegexEqual k) eqn:E; [exists Equal|exists RegexEqual]; [|by rewrite E].
    destruct (vals fs Equal k); done.
  - destruct (vals fs RegexNotEqual k) eqn:E; [exists NotEqual|exists RegexNotEqual]; [|by rewrite E].
    destruct (vals fs NotEqual k); done.
Qed.

(** The strings of one operator, with the values of an entry given by its key. *)
Lemma fmap_entries {A} (c : Combineds) (g : bytes -> list bytes) (h : bytes -> list bytes -> A) :
  (forall k v, (k, v) ∈ c -> values v = g k /\ g k <> []) ->
  (fun '(k, vs) => h k vs) <$> getFilterValues c = (fun k => h k (g k)) <$> keys c.
Proof.
  intros H. unfold getFilterValues, keys. induction c as [|[k v] c IH]; [done|].
  destruct (H k v) as [Hv Hne]; [by left|]. cbn [List.filter]. rewrite bool_decide_true by congruence.
  rewrite !fmap_cons, IH by (intros; apply H; by right). cbn. by rewrite Hv.
Qed.

Lemma in_combined_labels fs o k v :
  Forall stream_filter fs -> (k, v) ∈ getCombinedLabelFilters false true fs o ->
  values v = esc o <$> joined_values fs o k /\ esc o <$> joined_values fs o k <> [].
Proof.
  intros Hfs H. destruct (combined_labels_spec fs o Hfs) as [Hn Ha].
  apply elem_of_assoc in H; [|done]. rewrite Ha in H.
  destruct (joined_values fs o k); [done|]. by injection H as <-.
Qed.

(** The values of filters that are all on one label with one operator. *)
Lemma vals_only fs k o : Forall (fun f => label f = k /\ op f = o) fs ->
  forall o' k', vals fs o' k' <> [] -> o' = o /\ k' = k.
Proof.
  intros Hall o' k' Hv. unfold vals in Hv.
  destruct (List.filter (on_key k') (List.filter (with_op o') fs)) as [|f l] eqn:E; [done|].
  assert (H : In f (List.filter (on_key k') (List.filter (with_op o') fs))) by (rewrite E; by left).
  apply filter_In in H as [H Hk]. apply filter_In in H as [H Ho].
  unfold on_key, with_op in *. apply bool_decide_eq_true in Hk, Ho.
  rewrite list.Forall_forall in Hall. apply list_elem_of_In, Hall in H as [<- <-]. done.
Qed.

Lemma combined_metadata_spec fs o :
  Forall stream_filter fs -> o ∈ match_ops ->
  let c := getCombinedLabelFilters false false fs o in
  NoDup (keys c) /\
  forall k, assoc k c = match vals fs o k with
                        | [] => None
                        | vs => Some {| values := esc o <$> vs; operator := o |}
                        end.
Proof.
  intros Hsf Ho.
  assert (Hfs : Forall (fun f => plain (val f)) fs) by (eapply Forall_impl; [|exact Hsf]; apply sf_val).
  assert (Hc : getCombinedLabelFilters false false fs o = combineFiltersValues false (groupFiltersByKey fs o) None).
  { unfold match_ops in Ho. repeat (apply elem_of_cons in Ho as [-> |Ho]; [done|]). by apply elem_of_nil in Ho. }
  rewrite Hc. destruct (combine_spec fs o None Hfs) as [Hn Ha]. split; [exact Hn|].
  intros k. rewrite Ha. by destruct (vals fs o k) as [|v [|v' vs]].
Qed.

Lemma in_combined_metadata fs o k v :
  Forall stream_filter fs -> o ∈ match_ops -> (k, v) ∈ getCombinedLabelFilters false false fs o ->
  values v = esc o <$> vals fs o k /\ esc o <$> vals fs o k <> [].
Proof.
  intros Hfs Ho H. destruct (combined_metadata_spec fs o Hfs Ho) as [Hn Ha].
  apply elem_of_assoc in H; [|done]. rewrite Ha in H.
  destruct (vals fs o k); [done|]. by injection H as <-.
Qed.

Lemma label_strings fs o :
  Forall stream_filter fs ->
  buildJoinedFilters (joinCombinedFiltersValues (getCombinedLabelFilters false true fs o) [BAR]) o =
  print <$> label_matchers_of fs o.
Proof.
  intros Hfs. unfold label_matchers_of, buildJoinedFilters, joinCombinedFiltersValues. rewrite <- !list_fmap_compose.
  transitivity ((fun '(k, vs) => buildFilterString k o (join [BAR] vs) [DQ]) <$>
    getFilterValues (getCombinedLabelFilters false true fs o)).
  { apply list_fmap_ext. by intros i [k vs] _. }
  rewrite (fmap_entries _ (fun k => esc o <$> joined_values fs o k)
    (fun k vs => buildFilterString k o (join [BAR] vs) [DQ])) by (intros; by apply in_combined_labels).
  apply list_fmap_ext. intros i k _. cbn. unfold print. cbn. by rewrite esc_join.
Qed.

Definition print_stage (l : list Matcher) : bytes := join (str " or ") (print <$> l).

Lemma metadata_strings fs o :
  Forall stream_filter fs -> o ∈ match_ops ->
  buildFilter (getFilterValues (getCombinedLabelFilters false false fs o)) o =
  print_stage <$> metadata_matchers_of fs o.
Proof.
  intros Hfs Ho. unfold metadata_matchers_of, buildFilter.
  assert (Hq : isNumeric o = false).
  { unfold match_ops in Ho. repeat (apply elem_of_cons in Ho as [-> |Ho]; [done|]). by apply elem_of_nil in Ho. }
  rewrite Hq.
  rewrite (fmap_entries _ (fun k => esc o <$> vals fs o k)
    (fun k vs => join (str " or ") ((fun v => buildFilterString k o v [DQ]) <$> vs)))
    by (intros; by apply in_combined_metadata).
  rewrite <- list_fmap_compose. apply list_fmap_ext. intros i k _. cbn. unfold print_stage.
  rewrite <- !list_fmap_compose. f_equal. apply list_fmap_ext. intros j v _. cbn. unfold print. cbn.
  by rewrite esc_raw.
Qed.

(** No filter of a stream selector compares numbers. *)
Lemma numeric_strings b fs o :
  Forall stream_filter fs -> isNumeric o = true ->
  buildFilter (getFilterValues (getCombinedLabelFilters false b fs o)) o = [].
Proof.
  intros Hfs Ho.
  assert (Hg : groupFiltersByKey fs o = []).
  { rewrite groupFiltersByKey_op.
    assert (List.filter (with_op o) fs = []) as ->; [|done].
    induction Hfs as [|f fs Hf _ IH]; [done|]. cbn. unfold with_op at 1.
    rewrite bool_decide_false; [done|]. intros E. pose proof (sf_op _ Hf). congruence. }
  assert (getCombinedLabelFilters false b fs o = []) as ->; [|done].
  unfold getCombinedLabelFilters. destruct o; try discriminate Ho; by rewrite Hg.
Qed.

Lemma label_matchers_printable fs : Forall stream_filter fs -> Forall printable (label_matchers fs).
Proof.
  intros Hfs. apply list.Forall_forall. intros m Hm. unfold label_matchers in Hm.
  apply list_elem_of_In, in_flat_map in Hm as (o & Ho & Hm). apply list_elem_of_In in Hm.
  apply list_elem_of_fmap in Hm as (k & -> & Hk). apply in_keys in Hk as [v Hv].
  apply in_combined_labels in Hv as [_ Hne]; [|done]. split; cbn.
  - destruct (joined_values_key fs o k) as [o' Ho']; [by intros E; rewrite E in Hne|].
    by eapply ident_key.
  - destruct Ho as [<-|[<-|[<-|[<-|[]]]]]; done.
Qed.

Lemma metadata_matchers_printable fs :
  Forall stream_filter fs -> Forall (fun l => l <> [] /\ Forall printable l) (metadata_matchers fs).
Proof.
  intros Hfs. apply list.Forall_forall. intros l Hl. unfold metadata_matchers in Hl.
  apply list_elem_of_In, in_flat_map in Hl as (o & Ho & Hl). apply list_elem_of_In in Hl, Ho.
  apply list_elem_of_fmap in Hl as (k & -> & Hk). apply in_keys in Hk as [v Hv].
  apply in_combined_metadata in Hv as [_ Hne]; [|done..].
  assert (Hv : vals fs o k <> []) by (intros E; by rewrite E in Hne).
  split; [by destruct (vals fs o k)|]. apply list.Forall_forall. intros m (x & -> & _)%list_elem_of_fmap.
  split; cbn; [by eapply ident_key|].
  unfold match_ops in Ho. repeat (apply elem_of_cons in Ho as [-> |Ho]; [done|]). by apply elem_of_nil in Ho.
Qed.

Lemma flat_map_app_4 {A B} (f : A -> list B) a b c d : flat_map f [a; b; c; d] = f a ++ f b ++ f c ++ f d.
Proof. cbn. by rewrite app_nil_r. Qed.

Lemma getLabelsExpr_eq fs :
  Forall stream_filter fs -> getLabelsExpr fs = join (str ", ") (print <$> label_matchers fs).
Proof.
  intros Hfs. unfold getLabelsExpr, labels_expr, buildLabelsLogQLFromFilters. cbn [joinMatchFilters filterSeparator prefix decodeFilters].
  rewrite !(label_strings fs), !(numeric_strings _ fs) by done.
  rewrite !app_nil_r, <- !fmap_app. change (default (str ",") None ++ [SP]) with (str ", ").
  rewrite <- flat_map_app_4. change (flat_map _ _) with (label_matchers fs).
  rewrite trim_join; [by destruct (join _ _)|].
  intros w (m & -> & Hm)%list_elem_of_fmap. apply print_ends.
  pose proof (label_matchers_printable fs Hfs) as H. rewrite list.Forall_forall in H. by apply H.
Qed.

Lemma print_nonempty m : print m <> [].
Proof. rewrite print_eq. by destruct (m_label m), (m_op m). Qed.

Lemma join_nonempty sep w l : w <> [] -> join sep (w :: l) <> [].
Proof. intros Hw. destruct l; [done|]. rewrite join_cons. by destruct w. Qed.

(** The label expression reads as its matchers. *)
Lemma read_label_expr fs :
  Forall stream_filter fs -> read_selector (getLabelsExpr fs) = Some (label_matchers fs).
Proof.
  intros Hfs. rewrite getLabelsExpr_eq by done.
  pose proof (label_matchers_printable fs Hfs) as Hp. rewrite list.Forall_forall in Hp.
  set (l := label_matchers fs) in *. clearbody l. unfold read_selector.
  destruct l as [|m l]; [done|].
  rewrite decide_False by (apply join_nonempty, print_nonempty).
  rewrite <- (app_nil_r (join _ _)) at 2.
  erewrite (read_sep_join read_matcher (str ", ") print (fun m => m) (fun _ => True)); try done.
  - rewrite list_fmap_id. done.
  - intros b r Hb _. apply read_matcher_print. by apply Hp.
  - rewrite <- (length_fmap print). by apply length_join.
Qed.

Lemma print_stage_ends l :
  l <> [] -> Forall printable l ->
  (exists c r, print_stage l = c :: r /\ is_space c = false) /\ exists p, print_stage l = p ++ [DQ].
Proof.
  intros Hl Hp. rewrite list.Forall_forall in Hp. unfold print_stage. split.
  - apply join_starts; [by destruct l|]. intros w (m & -> & Hm)%list_elem_of_fmap. by apply print_ends, Hp.
  - apply join_ends; [by destruct l|]. intros w (m & -> & Hm)%list_elem_of_fmap. by apply print_ends, Hp.
Qed.

Lemma getMetadataExpr_eq fs :
  Forall stream_filter fs ->
  getMetadataExpr fs = match metadata_matchers fs with
                       | [] => []
                       | l => str "| " ++ join (str " | ") (print_stage <$> l)
                       end.
Proof.
  intros Hfs. unfold getMetadataExpr, labels_expr, buildLabelsLogQLFromFilters. cbn [joinMatchFilters filterSeparator prefix decodeFilters].
  rewrite !(metadata_strings fs) by (done || (apply list_elem_of_In; cbn; tauto)).
  rewrite !(numeric_strings _ fs) by done.
  rewrite !app_nil_r, <- !fmap_app. change (default (str ",") (Some (str " |")) ++ [SP]) with (str " | ").
  rewrite <- flat_map_app_4. change (flat_map _ _) with (metadata_matchers fs).
  pose proof (metadata_matchers_printable fs Hfs) as Hp. rewrite list.Forall_forall in Hp.
  rewrite trim_join.
  2:{ intros w (l & -> & Hl)%list_elem_of_fmap. destruct (Hp l Hl). by apply print_stage_ends. }
  destruct (metadata_matchers fs) as [|l ls]; [done|].
  destruct (print_stage_ends l) as [(c & r & E & _) _]; [apply Hp; by left..|].
  assert (join (str " | ") (print_stage <$> l :: ls) <> []) as Hne.
  { rewrite fmap_cons. apply join_nonempty. by rewrite E. }
  by destruct (join _ _).
Qed.

(** The metadata expression reads as its stages. *)
Lemma read_metadata_expr fs :
  Forall stream_filter fs -> read_stages (getMetadataExpr fs) = Some (metadata_matchers fs).
Proof.
  intros Hfs. rewrite getMetadataExpr_eq by done.
  pose proof (metadata_matchers_printable fs Hfs) as Hp. rewrite list.Forall_forall in Hp.
  set (ls := metadata_matchers fs) in *. clearbody ls. unfold read_stages.
  destruct ls as [|l ls]; [done|].
  rewrite decide_False by done. rewrite after_app. cbn [mbind option_bind].
  set (text := str "| " ++ join (str " | ") (print_stage <$> l :: ls)).
  assert (Hlen : forall w, w ∈ print_stage <$> l :: ls -> length w <= length text).
  { intros w Hw. unfold text. rewrite length_app. pose proof (length_in_join (str " | ") _ w Hw). lia. }
  rewrite <- (app_nil_r (join _ _)).
  erewrite (read_sep_join _ (str " | ") print_stage (fun m => m) (fun r => after (str " or ") r = None)); try done.
  - rewrite list_fmap_id. done.
  - intros b r Hb Hr. destruct (Hp b Hb) as [Hne Hpr]. rewrite list.Forall_forall in Hpr.
    unfold print_stage.
    erewrite (read_sep_join read_matcher (str " or ") print (fun m => m) (fun _ => True)); try done.
    + by rewrite list_fmap_id.
    + intros m r' Hm _. apply read_matcher_print. by apply Hpr.
    + specialize (Hlen (print_stage b)). rewrite <- (length_fmap print).
      etransitivity; [by apply (length_join (str " or "))|]. apply le_n_S, Hlen.
      apply list_elem_of_fmap. eauto.
  - rewrite <- (length_fmap print_stage). etransitivity; [by apply (length_join (str " | "))|].
    unfold text. rewrite length_app. lia.
Qed.

(** ** What filters mean *)

(** The inclusive filters on a label: its value is one of theirs; but a single [=]
    next to [=~] filters stays a matcher of its own. *)
Definition included (fs : list AdHoc) (k v : bytes) : Prop :=
  match vals fs Equal k, vals fs RegexEqual k with
  | [w], r :: rs => v = w /\ v ∈ r :: rs
  | vs, rs => vs ++ rs = [] \/ v ∈ vs ++ rs
  end.
Definition excluded (fs : list AdHoc) (k v : bytes) : Prop :=
  v ∈ vals fs NotEqual k ++ vals fs RegexNotEqual k.

Lemma included_iff fs k v :
  included fs k v <->
  (joined_values fs Equal k <> [] -> v ∈ joined_values fs Equal k) /\
  (joined_values fs RegexEqual k <> [] -> v ∈ joined_values fs RegexEqual k).
Proof.
  unfold included, joined_values.
  destruct (vals fs Equal k) as [|a [|b l]], (vals fs RegexEqual k) as [|r rs]; cbn [many];
    rewrite ?app_nil_r; cbn [app].
  - split; [done|]. by left.
  - split; [|intros [_ H]; right; by apply H]. intros [|H]; [done|]. by split.
  - split; [|intros [H _]; right; by apply H]. intros [|H]; [done|]. by split.
  - rewrite list_elem_of_singleton. split; [by intros [? ?]|]. intros [H1 H2]. auto.
  - split; [|intros [_ H]; right; by apply H]. intros [|H]; [done|]. by split.
  - split; [|intros [_ H]; right].
    + intros [|H]; [done|]. split; [done|]. intros _.
      rewrite !elem_of_cons, !elem_of_app, !elem_of_cons in *. tauto.
    + specialize (H ltac:(done)). rewrite !elem_of_cons, !elem_of_app, !elem_of_cons in *. tauto.
Qed.

Lemma excluded_iff fs k v :
  ~ excluded fs k v <->
  (joined_values fs NotEqual k <> [] -> v ∉ joined_values fs NotEqual k) /\
  (joined_values fs RegexNotEqual k <> [] -> v ∉ joined_values fs RegexNotEqual k).
Proof.
  assert (Hd : forall l : list bytes, (l <> [] -> v ∉ l) <-> v ∉ l).
  { intros l. split; [|done]. intros H Hl. apply H; [|done]. intros ->. by apply elem_of_nil in Hl. }
  rewrite !Hd. unfold excluded, joined_values.
  destruct (vals fs NotEqual k) as [|a [|b l]]; cbn [many]; rewrite ?app_nil_r; cbn [app];
    rewrite ?elem_of_app, ?elem_of_cons, ?elem_of_nil; rewrite ?elem_of_app, ?elem_of_cons, ?elem_of_nil; tauto.
Qed.

(** ** What matchers let through *)

(** Regular expressions are the server's; of them only this is used: a list of plain
    alternatives matches each of them, and nothing else, from end to end. *)
Class RegexEngine := regex_match : bytes -> bytes -> bool.
Class RegexLaws `{RegexEngine} :=
  regex_alternatives re vs v : alternatives re = Some vs -> regex_match re v = bool_decide (v ∈ vs).

Section Streams.
Context `{RegexLaws}.

Definition accepts (labels : bytes -> bytes) (m : Matcher) : bool :=
  let v := labels (m_label m) in
  match m_op m with
  | Equal => bool_decide (v = m_text m)
  | NotEqual => bool_decide (v <> m_text m)
  | RegexEqual => regex_match (m_text m) v
  | RegexNotEqual => negb (regex_match (m_text m) v)
  | _ => false
  end.

(** A stream passes when all matchers accept it; a line passes a stage when one does. *)
Definition selects (ms : list Matcher) (labels : bytes -> bytes) : bool := forallb (accepts labels) ms.
Definition passes (stages : list (list Matcher)) (labels : bytes -> bytes) : bool :=
  forallb (existsb (accepts labels)) stages.

Lemma regex_match_join vs v : vs <> [] -> regex_match (join [BAR] (resc <$> vs)) v = bool_decide (v ∈ vs).
Proof. intros Hvs. apply regex_alternatives. by apply alternatives_join. Qed.

Lemma accepts_raw labels k o v :
  o ∈ match_ops ->
  accepts labels {| m_label := k; m_op := o; m_text := raw o v |} =
  if isInclusive o then bool_decide (labels k = v) else bool_decide (labels k <> v).
Proof.
  intros Ho. pose proof (regex_match_join [v] (labels k) ltac:(done)) as Hr.
  cbn [fmap list_fmap join] in Hr.
  assert (Hb : bool_decide (labels k ∈ [v]) = bool_decide (labels k = v)).
  { apply bool_decide_ext. apply list_elem_of_singleton. }
  unfold accepts, raw. cbn [m_op m_text m_label].
  destruct o; try (exfalso; by apply list_elem_of_In in Ho; cbn in Ho; intuition discriminate).
  - reflexivity.
  - reflexivity.
  - change (regex_match (resc v) (labels k) = bool_decide (labels k = v)). by rewrite Hr, Hb.
  - change (negb (regex_match (resc v) (labels k)) = bool_decide (labels k <> v)).
    rewrite Hr, Hb. symmetry. apply bool_decide_not.
Qed.

Lemma accepts_joined labels fs k o :
  o ∈ match_ops -> joined_values fs o k <> [] ->
  accepts labels {| m_label := k; m_op := o; m_text := join [BAR] (raw o <$> joined_values fs o k) |} =
  if isInclusive o then bool_decide (labels k ∈ joined_values fs o k)
  else bool_decide (labels k ∉ joined_values fs o k).
Proof.
  intros Ho Hne. set (vs := joined_values fs o k) in *.
  assert (Hone : isRegex o = false -> exists v, vs = [v]).
  { unfold vs, joined_values in *. intros Hr. destruct o; try done.
    - destruct (vals fs Equal k) as [|v [|]]; eauto; done.
    - destruct (vals fs NotEqual k) as [|v [|]]; eauto; done. }
  clearbody vs. destruct (isRegex o) eqn:Hr.
  - pose proof (regex_match_join vs (labels k) Hne) as Hm.
    assert (Hraw : raw o <$> vs = resc <$> vs).
    { apply list_fmap_ext. intros. unfold raw. by rewrite Hr. }
    rewrite Hraw. destruct o; try done; unfold accepts; cbn; rewrite Hm;
      first [done | symmetry; apply bool_decide_not].
  - destruct (Hone eq_refl) as [v ->]. cbn [fmap list_fmap join]. rewrite accepts_raw by done.
    destruct (isInclusive o); apply bool_decide_ext; by rewrite list_elem_of_singleton.
Qed.

Lemma selects_spec fs labels :
  Forall stream_filter fs ->
  selects (label_matchers fs) labels = true <->
  forall o k, o ∈ match_ops -> joined_values fs o k <> [] ->
    if isInclusive o then labels k ∈ joined_values fs o k else labels k ∉ joined_values fs o k.
Proof.
  intros Hfs. unfold selects. rewrite forallb_forall. split.
  - intros Hall o k Ho Hne.
    assert (Hk : k ∈ keys (getCombinedLabelFilters false true fs o)).
    { destruct (combined_labels_spec fs o Hfs) as [Hn Ha]. specialize (Ha k).
      destruct (joined_values fs o k); [done|]. apply elem_of_assoc in Ha; [|done].
      apply in_keys. eauto. }
    specialize (Hall {| m_label := k; m_op := o; m_text := join [BAR] (raw o <$> joined_values fs o k) |}).
    rewrite accepts_joined in Hall by done.
    assert (Hin : In {| m_label := k; m_op := o; m_text := join [BAR] (raw o <$> joined_values fs o k) |}
                     (label_matchers fs)).
    { apply in_flat_map. exists o. split; [by apply list_elem_of_In|]. apply list_elem_of_In.
      apply list_elem_of_fmap. by exists k. }
    specialize (Hall Hin). destruct (isInclusive o); by apply bool_decide_eq_true in Hall.
  - intros Hall m (o & Ho & Hm)%in_flat_map. apply list_elem_of_In in Ho, Hm.
    apply list_elem_of_fmap in Hm as (k & -> & Hk). apply in_keys in Hk as [c Hc].
    apply in_combined_labels in Hc as [_ Hne]; [|done].
    assert (Hv : joined_values fs o k <> []) by (intros E; by rewrite E in Hne).
    rewrite accepts_joined by done. specialize (Hall o k Ho Hv).
    destruct (isInclusive o); by apply bool_decide_eq_true.
Qed.

Lemma selects_iff fs labels :
  Forall stream_filter fs ->
  selects (label_matchers fs) labels = true <->
  forall k, included fs k (labels k) /\ ~ excluded fs k (labels k).
Proof.
  intros Hfs. rewrite selects_spec by done. split.
  - intros Hall k. rewrite included_iff, excluded_iff.
    split_and!; [apply (Hall Equal k)|apply (Hall RegexEqual k)|apply (Hall NotEqual k)|apply (Hall RegexNotEqual k)];
      apply list_elem_of_In; cbn; tauto.
  - intros Hall o k Ho. destruct (Hall k) as [Hi He].
    apply included_iff in Hi as [H1 H2]. apply excluded_iff in He as [H3 H4].
    apply list_elem_of_In in Ho. destruct Ho as [<-|[<-|[<-|[<-|[]]]]]; done.
Qed.

Lemma passes_spec fs labels :
  Forall stream_filter fs ->
  passes (metadata_matchers fs) labels = true <->
  forall o k, o ∈ match_ops -> vals fs o k <> [] ->
    if isInclusive o then labels k ∈ vals fs o k else exists v, v ∈ vals fs o k /\ labels k <> v.
Proof.
  intros Hfs. unfold passes. rewrite forallb_forall.
  assert (Hstage : forall o k, o ∈ match_ops ->
    existsb (accepts labels) ((fun v => {| m_label := k; m_op := o; m_text := raw o v |}) <$> vals fs o k) = true <->
    (if isInclusive o then labels k ∈ vals fs o k else exists v, v ∈ vals fs o k /\ labels k <> v)).
  { intros o k Ho. rewrite existsb_exists. split.
    - intros (m & Hm & Ha). apply list_elem_of_In, list_elem_of_fmap in Hm as (v & -> & Hv).
      rewrite accepts_raw in Ha by done.
      destruct (isInclusive o); apply bool_decide_eq_true in Ha; [by subst|eauto].
    - intros Hx.
      assert (exists v, v ∈ vals fs o k /\ if isInclusive o then labels k = v else labels k <> v) as (v & Hv & Hc).
      { destruct (isInclusive o); eauto. }
      exists {| m_label := k; m_op := o; m_text := raw o v |}. split.
      + apply list_elem_of_In, list_elem_of_fmap. by exists v.
      + rewrite accepts_raw by done. destruct (isInclusive o); by apply bool_decide_eq_true. }
  split.
  - intros Hall o k Ho Hne. apply Hstage; [done|]. apply Hall. apply in_flat_map. exists o.
    split; [by apply list_elem_of_In|]. apply list_elem_of_In, list_elem_of_fmap. exists k. split; [done|].
    destruct (combined_metadata_spec fs o Hfs Ho) as [Hn Ha]. specialize (Ha k).
    destruct (vals fs o k); [done|]. apply elem_of_assoc in Ha; [|done]. apply in_keys. eauto.
  - intros Hall l (o & Ho & Hl)%in_flat_map. apply list_elem_of_In in Ho, Hl.
    apply list_elem_of_fmap in Hl as (k & -> & Hk). apply in_keys in Hk as [c Hc].
    apply in_combined_metadata in Hc as [_ Hne]; [|done..].
    apply Hstage; [done|]. apply Hall; [done|]. intros E. by rewrite E in Hne.
Qed.

(** Read as alternatives, exclusions are met by a value that differs from one of them. *)
Lemma passes_iff fs labels :
  Forall stream_filter fs ->
  passes (metadata_matchers fs) labels = true <->
  forall k, (vals fs Equal k = [] \/ labels k ∈ vals fs Equal k) /\
            (vals fs RegexEqual k = [] \/ labels k ∈ vals fs RegexEqual k) /\
            (vals fs NotEqual k = [] \/ exists v, v ∈ vals fs NotEqual k /\ labels k <> v) /\
            (vals fs RegexNotEqual k = [] \/ exists v, v ∈ vals fs RegexNotEqual k /\ labels k <> v).
Proof.
  intros Hfs. rewrite passes_spec by done.
  assert (Hd : forall (l : list bytes) P, (l <> [] -> P) <-> l = [] \/ P).
  { intros l P. destruct l; split; intros H1; [by left| |right; by apply H1|by destruct H1]; done. }
  split.
  - intros Hall k. rewrite <- !Hd.
    split_and!; [apply (Hall Equal k)|apply (Hall RegexEqual k)|apply (Hall NotEqual k)|apply (Hall RegexNotEqual k)];
      apply list_elem_of_In; cbn; tauto.
  - intros Hall o k Ho. destruct (Hall k) as (H1 & H2 & H3 & H4). rewrite <- Hd in H1, H2, H3, H4.
    apply list_elem_of_In in Ho. destruct Ho as [<-|[<-|[<-|[<-|[]]]]]; done.
Qed.

End Streams.
