(* ===== verification/ButtonsCorrect.v ===== *)
(** * What field filters and the filter buttons come to

    The values of field filters decoded, the fields expression as a metadata expression of
    what its filters stand for, and the states of the two buttons. *)

From S2P Require Import Prelude.
From S2P Require Import Java.
From S2P Require Import JavaScript.
From S2P Require Import Json.
From S2P Require Import Filters.
From S2P Require Import LogQL.
From S2P Require Import LogQLCorrect.
From S2P Require Import LogQLExpr.
From S2P Require Import Stored.
From S2P Require Import FilterButtons.

(** ** Decoding *)

Definition field_parsers : list bytes := [LOGFMT; JSON; MIXED; METADATA].

Lemma encoded_decodes v q : q ∈ field_parsers -> JSON_parse (encoded v q) ≫= fS = Some {| fv_value := v; fv_parser := q |}.
Proof.
  intros Hq. unfold encoded. rewrite JSON_parse_stringify. cbn [mbind option_bind fmap list_fmap fst snd]. unfold fS.
  set (o := [_; _]). assert (property (str "value") o = Some (JString v)) as -> by reflexivity.
  assert (property (str "parser") o = Some (JString q)) as -> by reflexivity. by rewrite decide_True.
Qed.

Lemma encoded_unmarked v q : F (encoded v q) = false.
Proof. reflexivity. Qed.

Lemma json_literal_longer s : (length s <= length (flat_map json_char s))%nat.
Proof.
  induction s as [|c s IH]; [done|]. cbn [flat_map length]. rewrite length_app.
  enough (1 <= length (json_char c))%nat by lia. destruct c as [[] [] [] [] [] [] [] []]; apply Nat.leb_le; reflexivity.
Qed.

(** An encoding is longer than what it encodes. *)
Lemma encoded_longer v q : (length v < length (encoded v q))%nat.
Proof.
  unfold encoded, stringify. cbn [json_pairs length]. unfold json_pair, json_string. cbn [fst snd].
  rewrite !length_app. pose proof (json_literal_longer v). cbn [length]. lia.
Qed.
Lemma encoded_ne v q : v <> encoded v q.
Proof. intros E. pose proof (encoded_longer v q). rewrite <- E in *. lia. Qed.

(** The value of a filter that a click adds, displayed as it is ... *)
Lemma P_clicked v q : q ∈ field_parsers -> P (encoded v q) [v] = Some {| fv_value := v; fv_parser := q |}.
Proof.
  intros Hq. unfold P, OH. rewrite encoded_unmarked. cbn [hd_error].
  rewrite bool_decide_false by (intros [= E]; by apply (encoded_ne v q)).
  by rewrite encoded_decodes.
Qed.

Lemma B_marked v : F (B v) = true /\ I (B v) = v.
Proof.
  unfold F, I, B, startsWith. rewrite take_app_length, bool_decide_true by done. by rewrite drop_app_length.
Qed.

(** ... and of one that the user typed in. *)
Lemma P_typed v q l :
  q ∈ field_parsers -> hd_error l = Some v ->
  P (B (encoded v q)) l = Some {| fv_value := v; fv_parser := q |}.
Proof.
  intros Hq Hl. unfold P, OH. destruct (B_marked (encoded v q)) as [-> ->]. rewrite Hl.
  rewrite bool_decide_false by (intros [= E]; by apply (encoded_ne v q)).
  by rewrite encoded_decodes.
Qed.

(** ** The fields expression *)

(** The filter [f] of the fields reads like the filter [g] of the metadata. *)
Record stands_for (f g : AdHoc) : Prop := {
  st_label : label f = label g;
  st_op : op f = op g;
  st_decodes : is_Some (P (val f) (valueLabels f));
  st_text : forall e, escapeFieldValue true e (val f) (valueLabels f) = escapeFieldValue false e (val g) (valueLabels g)
}.

Lemma clicked_stands_for k o v q :
  plain v -> q ∈ field_parsers ->
  stands_for {| label := k; op := o; val := encoded v q; valueLabels := [v] |}
    {| label := k; op := o; val := v; valueLabels := [] |}.
Proof.
  intros [H1 H2] Hq. split; cbn [label op val valueLabels]; try done.
  - rewrite P_clicked by done. by eexists.
  - intros e. unfold escapeFieldValue. rewrite P_clicked by done. cbn [fmap option_fmap option_map default fv_value].
    by rewrite encoded_unmarked, H2.
Qed.

(** What the user types in, in the fields and in the metadata. *)
Definition typed (k : bytes) (o : FilterOp) (w : bytes * list bytes) : AdHoc :=
  {| label := k; op := o; val := w.1; valueLabels := w.2 |}.

Lemma typed_stands_for k o v t :
  plain v -> default MIXED t ∈ field_parsers -> v <> [] ->
  stands_for (typed k o (field_value {| c_value := v; c_label := None |} t))
    (typed k o (label_value {| c_value := v; c_label := None |})).
Proof.
  intros [H1 H2] Hq Hv. unfold field_value. cbn [c_value c_label default fst snd].
  set (q := default MIXED t) in *.
  assert (Ev : label_value {| c_value := v; c_label := None |} = (B v, [v])) by (by destruct v).
  unfold typed. rewrite Ev. clear Ev. cbn [fst snd].
  assert (Bne : forall w, B w <> EMPTY) by done.
  destruct (B_marked v) as [Fv Iv]. destruct (decide (q = METADATA)) as [E|E].
  - assert (EP : P (B v) [v] = Some {| fv_value := B v; fv_parser := METADATA |}).
    { unfold P, OH. rewrite Fv, Iv. by rewrite bool_decide_true. }
    split; cbn [label op val valueLabels]; [done|done|rewrite EP; by eexists|].
    intros e. unfold escapeFieldValue. by rewrite EP.
  - pose proof (P_typed v q [v] Hq eq_refl) as EP. destruct (B_marked (encoded v q)) as [Fe Ie].
    split; cbn [label op val valueLabels]; [done|done|rewrite EP; by eexists|].
    intros e. unfold escapeFieldValue. rewrite EP, Fe, Fv, Iv. cbn [fmap option_fmap option_map default fv_value].
    rewrite !decide_False by done. change (id v) with v. unfold I. unfold F in H2. by rewrite H2.
Qed.

(** Lists of filters by key that agree. *)
Definition groups_agree : list (bytes * list AdHoc) -> list (bytes * list AdHoc) -> Prop :=
  Forall2 (fun a b => a.1 = b.1 /\ Forall2 stands_for a.2 b.2).

Lemma assoc_agree k o o' :
  groups_agree o o' -> Forall2 stands_for (default [] (assoc k o)) (default [] (assoc k o')).
Proof.
  induction 1 as [|[a l] [b l'] o o' [E H] _ IH]; [constructor|]. cbn in E, H. subst b. cbn [assoc].
  destruct (decide (k = a)); [exact H|exact IH].
Qed.

Lemma put_agree k l l' o o' :
  Forall2 stands_for l l' -> groups_agree o o' -> groups_agree (put k l o) (put k l' o').
Proof.
  intros Hl. induction 1 as [|[a m] [b m'] o o' [E H] Ho IH]; cbn [put].
  - constructor; [done|constructor].
  - cbn in E, H. subst b. destruct (decide (k = a)); constructor; done.
Qed.

Lemma groupBy_agree fs gs : Forall2 stands_for fs gs -> groups_agree (groupBy fs) (groupBy gs).
Proof.
  intros H. unfold groupBy. assert (Hn : groups_agree [] []) by constructor. revert Hn.
  generalize (@nil (bytes * list AdHoc)) at 1 3. generalize (@nil (bytes * list AdHoc)).
  induction H as [|f g fs gs Hf _ IH]; intros o o' Ho; [done|]. cbn [fold_left]. apply IH.
  rewrite (st_label _ _ Hf). apply put_agree; [|done].
  apply Forall2_app; [by apply assoc_agree|by constructor].
Qed.

Lemma filter_agree (t : FilterOp -> bool) fs gs :
  Forall2 stands_for fs gs ->
  Forall2 stands_for (List.filter (fun f => t (op f)) fs) (List.filter (fun f => t (op f)) gs).
Proof.
  induction 1 as [|f g fs gs Hf _ IH]; [constructor|]. cbn [List.filter]. rewrite (st_op _ _ Hf).
  destruct (t (op g)); [by constructor|done].
Qed.

Lemma combine_agree g g' :
  groups_agree g g' -> forall t, combineFiltersValues true g t = combineFiltersValues false g' t.
Proof.
  intros H t. unfold combineFiltersValues. generalize (@nil (bytes * Combined)).
  induction H as [|[k l] [k' l'] g g' [E Hl] _ IH]; intros n; [done|]. cbn in E, Hl. subst k'. cbn [fold_left].
  assert (Ef : forall e, (fun f => escapeFieldValue true e (val f) (valueLabels f)) <$> l =
                         (fun f => escapeFieldValue false e (val f) (valueLabels f)) <$> l').
  { intros e. clear -Hl. induction Hl as [|f f' l l' Hf _ IH]; [done|]. cbn [fmap list_fmap].
    by rewrite (st_text _ _ Hf e), IH. }
  destruct Hl as [|f f' l l' Hf Hl]; [by apply IH|].
  destruct Hl as [|f2 f2' l l' Hf2 Hl].
  - rewrite (st_op _ _ Hf), (st_text _ _ Hf). apply IH.
  - rewrite (st_op _ _ Hf), (Ef (default (op f') t)). apply IH.
Qed.

Lemma getFieldsExpr_stands fs gs :
  Forall2 stands_for fs gs -> getFieldsExpr fs = Some (getMetadataExpr gs).
Proof.
  intros H. unfold getFieldsExpr.
  assert (Hd : forallb (fun f => bool_decide (is_Some (P (val f) (valueLabels f)))) fs = true).
  { induction H as [|f g fs gs Hf _ IH]; [done|]. cbn [forallb]. rewrite IH, andb_true_r.
    apply bool_decide_eq_true. apply (st_decodes _ _ Hf). }
  rewrite Hd. f_equal. unfold getMetadataExpr, labels_expr, buildLabelsLogQLFromFilters.
  cbn [joinMatchFilters filterSeparator prefix decodeFilters].
  assert (Ec : forall o, getCombinedLabelFilters true false fs o = getCombinedLabelFilters false false gs o).
  { intros o. assert (Eg : forall o' t, combineFiltersValues true (groupFiltersByKey fs o') t =
      combineFiltersValues false (groupFiltersByKey gs o') t).
    { intros o' t. apply combine_agree. unfold groupFiltersByKey. apply groupBy_agree.
      set (h := fun p => match o' with
        | Equal => isInclusive p && negb (isRegex p) | RegexEqual => isInclusive p && isRegex p
        | NotEqual => isExclusive p && negb (isRegex p) | RegexNotEqual => isExclusive p && isRegex p
        | _ => bool_decide (p = o') end).
      exact (filter_agree h fs gs H). }
    unfold getCombinedLabelFilters. destruct o; apply Eg. }
  by rewrite !Ec.
Qed.

(** ** The buttons *)

Lemma filter_m_some {A} (f : A -> option bool) g l :
  (forall x, f x = Some (g x)) -> filter_m f l = Some (List.filter g l).
Proof.
  intros H. induction l as [|x l IH]; [done|]. cbn [filter_m List.filter]. rewrite H, IH. cbn. by destruct (g x).
Qed.
Lemma find_m_some {A} (f : A -> option bool) g l : (forall x, f x = Some (g x)) -> find_m f l = Some (List.find g l).
Proof. intros H. induction l as [|x l IH]; [done|]. cbn [find_m List.find]. rewrite H. cbn. by destruct (g x). Qed.

(** No button edits the variable whose values [z2] decodes. *)
Lemma filter_value_raw a e f : filter_value (variable_name a e) f = Some (val f).
Proof.
  unfold filter_value, variable_name. rewrite decide_False; [done|].
  destruct (decide (a = v_fields \/ a = v_metadata)) as [|Ha]; [done|].
  destruct (decide (e = detected_level)); [done|]. tauto.
Qed.

Definition hit (e t : bytes) (f : AdHoc) : bool := bool_decide (label f = e /\ val f = t).

Definition selection (e t : bytes) (l : list AdHoc) : bool * bool :=
  match List.find (hit e t) l with
  | Some f => (bool_decide (op f = Equal), bool_decide (op f = NotEqual))
  | None => (false, false)
  end.

Lemma isSelected_eq e t a p l : variable a e p = Some l -> isSelected e t a p = Some (selection e t l).
Proof.
  intros Hl. unfold isSelected. rewrite Hl. cbn [mbind option_bind].
  rewrite (find_m_some _ (hit e t)); [done|]. intros f. by rewrite filter_value_raw.
Qed.

(** The list [addToFilters] makes of [l]. *)
Definition kept (e t : bytes) (n : Action) (f : AdHoc) : bool :=
  match n with
  | Include => negb (bool_decide (label f = e /\ op f <> Equal))
  | _ => negb (hit e t f)
  end.
Definition with_click (e t : bytes) (n : Action) (new : AdHoc) (l : list AdHoc) : list AdHoc :=
  let k := List.filter (kept e t n) l in
  if bool_decide (n = Include) || bool_decide (n = Exclude) ||
     (length k =? length l)%nat && bool_decide (n = Toggle) then k ++ [new] else k.
Definition new_filter (e t : bytes) (n : Action) (v : bytes) : AdHoc :=
  {| label := e; op := if decide (n = Exclude) then NotEqual else Equal; val := v; valueLabels := [t] |}.

Definition favored (a e t : bytes) (p : Page) : Page := if decide (a = v_filters) then favor e t p else p.

Lemma addToFilters_eq e t n a p l :
  variable a e p = Some l ->
  addToFilters e t n (Some a) p =
    Some (set_variable (variable_name a e) (with_click e t n (new_filter e t n (new_value a e t p)) l) (favored a e t p)).
Proof.
  intros Hl. unfold addToFilters. cbn [default from_option]. fold (favored a e t p).
  change (id a) with a. fold (favored a e t p).
  assert (Ev : vars (favored a e t p) = vars p) by (unfold favored; by case_decide).
  assert (En : new_value a e t (favored a e t p) = new_value a e t p) by (unfold favored; by case_decide).
  unfold variable in *. rewrite Ev, Hl. cbn [mbind option_bind].
  rewrite (filter_m_some _ (kept e t n)) by (intros f; rewrite filter_value_raw; by destruct n).
  cbn [mbind option_bind]. rewrite negb_involutive, En. done.
Qed.

Lemma vars_set_variable name l p : assoc name (vars (set_variable name l p)) = Some l.
Proof.
  unfold set_variable. destruct (bool_decide (name = v_all_fields) && _) eqn:E; cbn [vars set_vars].
  - apply andb_true_iff in E as [->%bool_decide_eq_true _]. rewrite !assoc_put.
    by rewrite !decide_False, decide_True by done.
  - rewrite assoc_put. by rewrite decide_True.
Qed.

Lemma find_app {A} (f : A -> bool) l k :
  List.find f (l ++ k) = match List.find f l with Some x => Some x | None => List.find f k end.
Proof. induction l as [|x l IH]; [done|]. cbn. by destruct (f x). Qed.

Lemma find_none {A} (f : A -> bool) l : (forall x, In x l -> f x = false) -> List.find f l = None.
Proof.
  intros H. induction l as [|x l IH]; [done|]. cbn. rewrite H by (by left). apply IH. intros; apply H. by right.
Qed.

Lemma hit_new e t n : hit e t (new_filter e t n t) = true.
Proof. by apply bool_decide_eq_true. Qed.

(** Each click leaves the button in the state it stands for. *)
Lemma selection_click e t n l :
  n <> Toggle ->
  selection e t (with_click e t n (new_filter e t n t) l) =
    match n with Include => (true, false) | Exclude => (false, true) | _ => (false, false) end.
Proof.
  intros Hn. unfold selection, with_click.
  assert (Hno : n <> Include -> List.find (hit e t) (List.filter (kept e t n) l) = None).
  { intros Hi. apply find_none. intros f [_ Hf]%filter_In. destruct n; try done; cbn [kept] in Hf;
      by apply negb_true_iff in Hf. }
  destruct n; try done; cbn [bool_decide orb].
  - rewrite bool_decide_true by done. cbn [orb]. rewrite find_app.
    destruct (List.find (hit e t) _) as [f|] eqn:Ef.
    + apply List.find_some in Ef as [[_ Hk]%filter_In Hf]. unfold hit in Hf. apply bool_decide_eq_true in Hf as [Hl _].
      cbn [kept] in Hk. apply negb_true_iff, bool_decide_eq_false in Hk.
      assert (op f = Equal) as -> by (destruct (decide (op f = Equal)); [done|tauto]). done.
    + cbn [List.find]. by rewrite hit_new.
  - rewrite (bool_decide_false (Exclude = Include)), bool_decide_true by done. cbn [orb].
    rewrite find_app, Hno by done. cbn [List.find]. by rewrite hit_new.
  - rewrite !bool_decide_false by done. cbn [orb andb]. rewrite andb_false_r. by rewrite Hno.
Qed.

(** Filters on other keys stay, in their order. *)
Lemma click_elsewhere e t n v l k :
  k <> e -> List.filter (on_key k) (with_click e t n (new_filter e t n v) l) = List.filter (on_key k) l.
Proof.
  intros Hk. assert (Hf : List.filter (on_key k) (List.filter (kept e t n) l) = List.filter (on_key k) l).
  { induction l as [|f l IH]; [done|]. cbn [List.filter].
    destruct (kept e t n f) eqn:Ek; cbn [List.filter]; [by rewrite IH|]. rewrite IH.
    assert (label f = e) as Hl.
    { destruct n; cbn [kept hit] in Ek; apply negb_false_iff in Ek; apply bool_decide_eq_true in Ek; tauto. }
    unfold on_key. by rewrite bool_decide_false by congruence. }
  unfold with_click. destruct (_ || _); [|done]. rewrite filter_app, Hf. cbn [List.filter]. unfold on_key at 2.
  cbn [label new_filter]. rewrite bool_decide_false by congruence. by rewrite app_nil_r.
Qed.

Lemma press_eq b e t a p l :
  variable a e p = Some l ->
  press b e t a p =
    addToFilters e t (if b then if (selection e t l).1 then Clear else Include
                      else if (selection e t l).2 then Clear else Exclude) (Some a) p.
Proof. intros Hl. unfold press. rewrite (isSelected_eq _ _ _ _ l) by done. by destruct (selection e t l). Qed.

Lemma variable_set_variable a e l p : variable a e (set_variable (variable_name a e) l p) = Some l.
Proof. apply vars_set_variable. Qed.

Lemma p_storage_set_variable name l p : p_storage (set_variable name l p) = p_storage p.
Proof. unfold set_variable. by destruct (_ && _). Qed.
