(* ===== verification/LineFiltersCorrect.v ===== *)
(** * Pattern and line filters: reading them back, and editing them

    The expressions of the pattern and line filters read as the filters, whatever their
    texts; an edit by key label changes the filter it names as long as labels are
    distinct. *)

From Stdlib Require Import Sorted.
From S2P Require Import Prelude.
From S2P Require Import Filters.
From S2P Require Import LogQL.
From S2P Require Import LineFilters.
From S2P Require Import LogQLCorrect.
From S2P Require Import LogQLExpr.
#[local] Open Scope nat_scope.

(** ** The reader of line filters *)

(** An operator and the texts it takes. *)
Abbreviation ReadFilter := (bytes * list bytes)%type.

Definition filter_ops : list bytes := [str "|="; str "!="; str "|~"; str "!~"; str "|>"; str "!>"].

Definition read_string (s : bytes) : option (bytes * bytes) :=
  match s with c :: r => if c =c? DQ then literal r else None | [] => None end.

Definition read_filter (s : bytes) : option (ReadFilter * bytes) :=
  match s with
  | a :: b :: c :: r =>
      if decide ([a; b] ∈ filter_ops /\ c = SP)
      then '(vs, r) ← read_sep read_string (str " or ") (length r) r; Some (([a; b], vs), r)
      else None
  | _ => None
  end.

Definition read_filters (s : bytes) : option (list ReadFilter) :=
  if decide (s = []) then Some [] else whole (read_sep read_filter [SP] (length s) s).

Definition quote (v : bytes) : bytes := DQ :: dl v ++ [DQ].
Definition print_filter (f : ReadFilter) : bytes := f.1 ++ SP :: join (str " or ") (quote <$> f.2).
Definition filter_ok (f : ReadFilter) : Prop := f.1 ∈ filter_ops /\ f.2 <> [].

Lemma read_string_quote v r : read_string (quote v ++ r) = Some (v, r).
Proof.
  unfold quote. cbn [app read_string]. rewrite eqb_char_refl, <- app_assoc. apply literal_dl.
Qed.

Lemma filter_ops_two o : o ∈ filter_ops -> exists a b, o = [a; b] /\ is_space a = false /\ a <> "o"%char.
Proof.
  unfold filter_ops. intros H.
  repeat (apply elem_of_cons in H as [-> |H]; [eexists _, _; split; [reflexivity|done]|]).
  by apply elem_of_nil in H.
Qed.

Lemma read_filter_print f r :
  filter_ok f -> after (str " or ") r = None -> read_filter (print_filter f ++ r) = Some (f, r).
Proof.
  intros [Ho Hv] Hr. destruct f as [o vs]. cbn [fst snd] in *.
  destruct (filter_ops_two o Ho) as (a & b & -> & _). unfold print_filter. cbn [fst snd app read_filter].
  rewrite decide_True by done.
  rewrite (read_sep_join read_string (str " or ") quote (fun v => v) (fun _ => True)); try done.
  - cbn. by rewrite list_fmap_id.
  - intros v r' _ _. apply read_string_quote.
  - rewrite <- (length_fmap quote). etransitivity; [by apply (length_join (str " or "))|].
    rewrite length_app. lia.
Qed.

Lemma print_filter_ends f :
  filter_ok f ->
  (exists c r, print_filter f = c :: r /\ is_space c = false /\ c <> "o"%char) /\ exists p, print_filter f = p ++ [DQ].
Proof.
  intros [Ho Hv]. destruct (filter_ops_two _ Ho) as (a & b & E & Ha & Hn).
  unfold print_filter. rewrite E. split; [cbn [app]; eauto|].
  destruct (join_ends (str " or ") (quote <$> f.2) DQ) as [p ->].
  - by destruct (f.2).
  - intros w (v & -> & _)%list_elem_of_fmap. by exists (DQ :: dl v).
  - by exists (a :: b :: SP :: p).
Qed.

(** A list of filters reads back. *)
Lemma read_filters_print l :
  Forall filter_ok l -> read_filters (join [SP] (print_filter <$> l)) = Some l.
Proof.
  intros Hl. rewrite list.Forall_forall in Hl. unfold read_filters. destruct l as [|f l]; [done|].
  rewrite decide_False.
  2:{ rewrite fmap_cons. apply join_nonempty. destruct (print_filter_ends f) as [(c & r & -> & _) _]; [apply Hl; by left|done]. }
  rewrite <- (app_nil_r (join _ _)) at 2.
  rewrite (read_sep_join read_filter [SP] print_filter (fun f => f) (fun r => after (str " or ") r = None)); try done.
  - cbn. by rewrite list_fmap_id.
  - intros b r Hb Hr. by apply read_filter_print, Hr; apply Hl.
  - intros b x Hb. destruct (print_filter_ends b) as [(c & r & -> & _ & Hc) _]; [by apply Hl|].
    change (after (str " or ") ([SP] ++ (c :: r) ++ x))
      with (if ("o"%char =c? c) then after (str "r ") (r ++ x) else None).
    destruct (Ascii.eqb_spec "o"%char c); congruence.
  - rewrite <- (length_fmap print_filter). by apply length_join.
Qed.

(** ** Pattern filters *)

Definition patterns_of (t : PatternType) (ps : list Pattern) : list bytes :=
  pattern <$> List.filter (fun p => bool_decide (type p = t)) ps.
Definition pattern_filters (ps : list Pattern) : list ReadFilter :=
  ((fun p => (str "!>", [p])) <$> patterns_of exclude ps) ++
  match patterns_of include ps with [] => [] | vs => [(str "|>", vs)] end.

Lemma trim_items l : Forall filter_ok l -> trim (join [SP] (print_filter <$> l)) = join [SP] (print_filter <$> l).
Proof.
  intros Hl. rewrite list.Forall_forall in Hl. apply trim_join. intros w (f & -> & Hf)%list_elem_of_fmap.
  destruct (print_filter_ends f (Hl f Hf)) as [(c & r & E & Hc & _) Hp]. eauto.
Qed.

Lemma trim_start_app s c : is_space c = true -> trim_start (c :: s) = trim_start s.
Proof. intros Hc. cbn. by rewrite Hc. Qed.

Lemma trim_space_r s : trim (s ++ [SP]) = trim s.
Proof.
  unfold trim. induction s as [|c s IH]; [done|]. cbn [app trim_start].
  destruct (is_space c); [done|]. change (c :: s ++ [SP]) with ((c :: s) ++ [SP]).
  rewrite rev_app_distr. cbn [rev app trim_start]. done.
Qed.
Lemma trim_space_l s : trim (SP :: s) = trim s.
Proof. reflexivity. Qed.

Lemma join_app sep l k : l <> [] -> k <> [] -> join sep (l ++ k) = join sep l ++ sep ++ join sep k.
Proof.
  intros Hl Hk. induction l as [|v [|w l] IH]; [done| |].
  - destruct k; [done|]. cbn [app]. by rewrite join_cons.
  - cbn [app] in *. rewrite !join_cons, IH by done. by rewrite <- !app_assoc.
Qed.

Lemma included_eq r :
  match r with
  | [] => []
  | [p] => str "|> " ++ quoted p
  | _ => str "|> " ++ join (str " or ") (quoted <$> r)
  end = match r with [] => [] | _ => print_filter (str "|>", pattern <$> r) end.
Proof.
  destruct r as [|p [|p' r]]; [done..|]. unfold print_filter. cbn [fst snd].
  by rewrite <- list_fmap_compose.
Qed.

Lemma pattern_filters_ok ps : Forall filter_ok (pattern_filters ps).
Proof.
  apply Forall_app. split.
  - apply list.Forall_forall. intros x (y & -> & _)%list_elem_of_fmap. split; [|done].
    apply list_elem_of_In. cbn. tauto.
  - destruct (patterns_of include ps); [constructor|]. apply list.Forall_singleton. split; [|done].
    apply list_elem_of_In. cbn. tauto.
Qed.

Lemma M_eq ps : M ps = join [SP] (print_filter <$> pattern_filters ps).
Proof.
  pose proof (pattern_filters_ok ps) as Hok. unfold M, pattern_filters, patterns_of in *.
  rewrite included_eq.
  set (ex := List.filter (fun p => bool_decide (type p = exclude)) ps) in *.
  set (inc := List.filter (fun p => bool_decide (type p = include)) ps) in *.
  set (E := (fun p => (str "!>", [p])) <$> (pattern <$> ex)) in *.
  assert (HE : (fun p => str "!> " ++ quoted p) <$> ex = print_filter <$> E).
  { unfold E. rewrite <- !list_fmap_compose. by apply list_fmap_ext. }
  apply Forall_app in Hok as [HEok HI].
  rewrite HE, trim_items by done. destruct inc as [|p inc].
  { cbn [fmap list_fmap]. rewrite !app_nil_r, trim_space_r. by apply trim_items. }
  change (match pattern <$> p :: inc with [] => [] | vs => [(str "|>", vs)] end)
    with [(str "|>", pattern <$> p :: inc)] in *.
  set (F := (str "|>", pattern <$> p :: inc)) in *.
  destruct E as [|x E].
  { cbn [fmap list_fmap join app]. rewrite trim_space_l. by apply (trim_items [F]). }
  rewrite fmap_app, join_app by done. change (join [SP] (print_filter <$> [F])) with (print_filter F).
  change (print_filter F) with (join [SP] (print_filter <$> [F])).
  rewrite <- join_app by done. rewrite <- fmap_app. apply trim_items. by apply Forall_app.
Qed.

(** ** Line filters *)

(** What the server is to look for: a text, or a regular expression. *)
Definition line_meaning (e : LineFilter) : ReadFilter :=
  if caseSensitive e then (line_op_string (line_op e), [text e])
  else let t := match line_op e with match_ | negativeMatch => resc (text e) | _ => text e end in
       match line_op e with
       | match_ | regex => (str "|~", [str "(?i)" ++ t])
       | _ => (str "!~", [str "(?i)" ++ t])
       end.

Lemma line_meaning_ok e : filter_ok (line_meaning e).
Proof.
  unfold line_meaning. destruct (caseSensitive e), (line_op e);
    (split; [apply list_elem_of_In; cbn; tauto|done]).
Qed.

Lemma line_filter_print e : text e <> [] -> line_filter e = print_filter (line_meaning e).
Proof.
  intros Ht. unfold line_filter, line_escape, line_meaning. rewrite decide_False by done.
  destruct e as [l cs o t]; cbn [caseSensitive line_op text] in *.
  destruct cs, o; cbn [negb orb]; unfold print_filter, quote; cbn -[dl resc pl];
    rewrite ?pl_resc; reflexivity.
Qed.

Lemma elem_of_insert_sorted x e l : x ∈ insert_sorted e l <-> x = e \/ x ∈ l.
Proof.
  induction l as [|e' l IH]; cbn [insert_sorted]; [by rewrite list_elem_of_singleton, elem_of_nil; tauto|].
  destruct (_ <=? _); rewrite !elem_of_cons; [tauto|]. rewrite IH. tauto.
Qed.

Lemma elem_of_f x fs : x ∈ f fs <-> x ∈ fs.
Proof.
  induction fs as [|e fs IH]; [done|]. unfold f in *. cbn [foldr].
  by rewrite elem_of_insert_sorted, IH, elem_of_cons.
Qed.

Lemma O_eq fs :
  Forall (fun e => text e <> []) fs -> O fs = join [SP] (print_filter <$> (line_meaning <$> f fs)).
Proof.
  intros Ht. rewrite list.Forall_forall in Ht. unfold O. f_equal. rewrite <- list_fmap_compose.
  apply list_fmap_ext. intros i e He. cbn. apply line_filter_print, Ht, elem_of_f.
  by eapply list_elem_of_lookup_2.
Qed.

(** ** Edits *)

(** In the order of their labels, which are distinct. *)
Definition ordered (fs : list LineFilter) : Prop :=
  Forall (fun e => keyLabel e <> None) fs /\ StronglySorted (fun a b => number a < number b) fs.
(** Labelled as they were added. *)
Definition numbered (fs : list LineFilter) : Prop := keyLabel <$> fs = Some <$> seq 0 (length fs).

#[global] Instance LineFilter_eq_dec : EqDecision LineFilter.
Proof. solve_decision. Defined.

Lemma number_label a b :
  keyLabel a <> None -> keyLabel b <> None -> keyLabel a = keyLabel b <-> number a = number b.
Proof. unfold number. destruct (keyLabel a), (keyLabel b); cbn; intuition congruence. Qed.

Lemma insert_sorted_middle e pre post :
  Forall (fun x => number x < number e) pre -> Forall (fun x => number e < number x) post ->
  insert_sorted e (pre ++ post) = pre ++ e :: post.
Proof.
  intros Hpre Hpost. induction Hpre as [|x pre Hx _ IH]; cbn [app insert_sorted].
  - destruct Hpost as [|y post Hy _]; [done|]. cbn [insert_sorted].
    destruct (Nat.leb_spec (number e) (number y)); [done|lia].
  - destruct (Nat.leb_spec (number e) (number x)); [lia|]. by rewrite IH.
Qed.

Lemma sort_sorted fs : StronglySorted (fun a b => number a < number b) fs -> f fs = fs.
Proof.
  induction 1 as [|e fs _ IH He]; [done|]. unfold f in *. cbn [foldr]. rewrite IH.
  by apply (insert_sorted_middle e []).
Qed.

(** The parts of an ordered list around an element. *)
Lemma ordered_split pre e post :
  ordered (pre ++ e :: post) ->
  Forall (fun x => number x < number e) pre /\ Forall (fun x => number e < number x) post /\
  ordered (pre ++ post) /\ keyLabel e <> None.
Proof.
  intros [Hl Hs]. induction pre as [|x pre IH]; cbn [app] in *.
  - apply list.Forall_cons in Hl as [He Hl]. apply StronglySorted_inv in Hs as [Hs Hp].
    repeat split; auto.
  - apply list.Forall_cons in Hl as [Hx Hl]. apply StronglySorted_inv in Hs as [Hs Hp].
    destruct (IH Hl Hs) as (Hpre & Hpost & [Hl' Hs'] & He).
    apply Forall_app in Hp as [Hp1 Hp2]. apply list.Forall_cons in Hp2 as [Hxe Hp2].
    split; [by constructor|]. split; [done|]. split; [|done]. split; [by constructor|].
    constructor; [done|]. by apply Forall_app.
Qed.

Lemma other_labels_split pre e post :
  ordered (pre ++ e :: post) -> other_labels (pre ++ e :: post) e = pre ++ post.
Proof.
  intros Ho. destruct (ordered_split _ _ _ Ho) as (Hpre & Hpost & [Hl _] & He).
  apply Forall_app in Hl as [Hl1 Hl2].
  assert (Hkeep : forall l, Forall (fun x => keyLabel x <> None) l -> Forall (fun x => number x <> number e) l ->
    other_labels l e = l).
  { intros l H1 H2. unfold other_labels. induction H1 as [|x l Hx _ IH]; [done|].
    apply list.Forall_cons in H2 as [Hne H2]. cbn [List.filter]. rewrite bool_decide_true.
    - by rewrite IH.
    - split; [done|]. by rewrite number_label. }
  unfold other_labels in *. rewrite filter_app. cbn [List.filter].
  rewrite bool_decide_false by tauto. rewrite !Hkeep; [done|done| |done|].
  - eapply Forall_impl; [|exact Hpost]. cbn. lia.
  - eapply Forall_impl; [|exact Hpre]. cbn. lia.
Qed.

Lemma numbered_ordered fs : numbered fs -> ordered fs.
Proof.
  unfold numbered. assert (H : forall n, keyLabel <$> fs = Some <$> seq n (length fs) ->
    ordered fs /\ Forall (fun e => n <= number e) fs).
  { induction fs as [|e fs IH]; intros n E; [repeat constructor|].
    cbn [length seq] in E. rewrite !fmap_cons in E. injection E as He E.
    destruct (IH (S n) E) as [[Hl Hs] Hn].
    assert (number e = n) as Hne by (unfold number; by rewrite He).
    split; [split|]; constructor; try done.
    - congruence.
    - eapply Forall_impl; [|exact Hn]. cbn. lia.
    - lia.
    - eapply Forall_impl; [|exact Hn]. cbn. lia. }
  intros E. by apply (H 0).
Qed.

Lemma numbered_add fs cs o v : numbered fs -> numbered (addFilter fs cs o v).
Proof.
  unfold numbered, addFilter. intros E. rewrite length_app. cbn [length].
  rewrite Nat.add_1_r, seq_S, !fmap_app, E. done.
Qed.

(** Removing a filter that is not the last one and adding one makes two filters with
    one label. *)
Lemma labels_clash pre e post l cs o v :
  numbered (pre ++ e :: post ++ [l]) ->
  let new := {| keyLabel := Some (length (pre ++ post) + 1); caseSensitive := cs; line_op := o; text := v |} in
  addFilter (removeFilter (pre ++ e :: post ++ [l]) e) cs o v = pre ++ post ++ [l; new] /\
  removeFilter (pre ++ post ++ [l; new]) new = pre ++ post.
Proof.
  intros Hn new. pose proof (numbered_ordered _ Hn) as Ho. split.
  - unfold removeFilter. rewrite other_labels_split by done. unfold addFilter.
    rewrite <- !app_assoc. cbn [app]. do 4 f_equal. unfold new. f_equal.
    rewrite !length_app. cbn [length]. f_equal. lia.
  - assert (Hl : keyLabel l = keyLabel new).
    { assert (Hlook : (pre ++ e :: post ++ [l]) !! (length (pre ++ post) + 1) = Some l).
      { rewrite app_comm_cons, app_assoc. apply list_lookup_middle. rewrite !length_app. cbn. lia. }
      unfold numbered in Hn. apply (f_equal (.!! (length (pre ++ post) + 1))) in Hn.
      rewrite !list_lookup_fmap, Hlook, lookup_seq_lt in Hn; [by injection Hn|].
      rewrite !length_app. cbn. rewrite length_app. cbn. lia. }
    destruct (ordered_split _ _ _ Ho) as (_ & _ & Ho' & _). rewrite app_assoc in Ho'.
    destruct (ordered_split _ _ _ Ho') as (_ & _ & _ & Hlne).
    pose proof (other_labels_split _ _ _ Ho') as Hlast. rewrite app_nil_r in Hlast.
    change [l; new] with ([l] ++ [new]). rewrite app_assoc, app_assoc.
    unfold removeFilter, other_labels in *. rewrite filter_app, <- Hl, Hlast. cbn [List.filter].
    rewrite bool_decide_false by (rewrite <- Hl; tauto). apply app_nil_r.
Qed.

Lemma update_in_place fs e t :
  ordered fs -> e ∈ fs ->
  f (updateVariableLineFilter fs e t) =
  (fun x => if decide (x = e)
            then {| keyLabel := keyLabel e; caseSensitive := caseSensitive t; line_op := line_op t; text := text t |}
            else x) <$> fs.
Proof.
  intros Ho (pre & post & ->)%list_elem_of_split. unfold updateVariableLineFilter.
  rewrite other_labels_split by done.
  destruct (ordered_split _ _ _ Ho) as (Hpre & Hpost & [_ Hs] & _).
  set (e' := {| keyLabel := keyLabel e; caseSensitive := _; line_op := _; text := _ |}).
  unfold f. cbn [foldr]. fold (f (pre ++ post)). rewrite sort_sorted by done.
  rewrite insert_sorted_middle by done.
  assert (Hkeep : forall l, Forall (fun x => number x <> number e) l ->
    (fun x => if decide (x = e) then e' else x) <$> l = l).
  { intros l H. induction H as [|x l Hx _ IH]; [done|]. rewrite fmap_cons, IH.
    by rewrite decide_False by (intros ->; done). }
  rewrite fmap_app, fmap_cons, decide_True by done. rewrite !Hkeep; [done| |].
  - eapply Forall_impl; [|exact Hpost]. cbn. lia.
  - eapply Forall_impl; [|exact Hpre]. cbn. lia.
Qed.

Lemma remove_exactly fs e :
  ordered fs -> e ∈ fs -> removeFilter fs e = List.filter (fun x => bool_decide (x <> e)) fs.
Proof.
  intros Ho (pre & post & ->)%list_elem_of_split. unfold removeFilter.
  rewrite other_labels_split by done.
  destruct (ordered_split _ _ _ Ho) as (Hpre & Hpost & _ & _).
  assert (Hkeep : forall l, Forall (fun x => number x <> number e) l ->
    List.filter (fun x => bool_decide (x <> e)) l = l).
  { intros l H. induction H as [|x l Hx _ IH]; [done|]. cbn [List.filter].
    rewrite bool_decide_true by (intros ->; done). by rewrite IH. }
  rewrite filter_app. cbn [List.filter]. rewrite bool_decide_false by tauto. rewrite !Hkeep; [done| |].
  - eapply Forall_impl; [|exact Hpost]. cbn. lia.
  - eapply Forall_impl; [|exact Hpre]. cbn. lia.
Qed.

(** ** Links *)

(** A link unescapes the quotes of a pattern and nothing else. *)
Lemma link_pattern_backslash :
  unescape_pattern (dl (str "a\b")) = str "a\\b" /\ unescape_line false (dl [DQ]) = [BS; DQ].
Proof. split; reflexivity. Qed.
