(* ===== verification/Regex.v ===== *)
(** * Regular expressions of JavaScript, as far as the bundles use them

    A pattern is a sequence of items: one character of a class, a greedy run of a class,
    one of several texts (tried in order), or the end of the input.  [match_here] is the
    backtracking matcher of the language on such a pattern: it tries the longest run first
    and the texts in order, and gives the text each item took; a capture group is one or
    several of these pieces.  [search] is [s.match(r)], [match_all] is [s.matchAll(r)],
    and [substitute] expands the replacement text of [s.replace(r, text)].

    [parses] is what it means that a pattern takes a text; [match_here] finds a parse if
    there is one ([match_here_sound], [match_here_complete]), so where all parses agree on a
    piece it is known without following the backtracking. *)

From S2P Require Import Prelude JavaScript.
#[local] Open Scope nat_scope.

Inductive item : Type :=
  | One (p : ascii -> bool)
  | Run (p : ascii -> bool)
  | Among (l : list bytes)
  | End_.

Definition with_piece (w : bytes) (r : option (list bytes * bytes)) : option (list bytes * bytes) :=
  match r with Some (ps, t) => Some (w :: ps, t) | None => None end.

(** One more character for the run that starts the pieces. *)
Definition longer (c : ascii) (r : option (list bytes * bytes)) : option (list bytes * bytes) :=
  match r with Some (w :: ps, t) => Some ((c :: w) :: ps, t) | _ => None end.

Definition or_else {A} (a b : option A) : option A := match a with Some _ => a | None => b end.

Fixpoint first_of (l : list bytes) (s : bytes) (k : bytes -> option (list bytes * bytes)) :
    option (list bytes * bytes) :=
  match l with
  | [] => None
  | w :: l =>
      or_else (if starts w s then with_piece w (k (skipn (length w) s)) else None) (first_of l s k)
  end.

(** A run of [p], as long as the rest of the pattern allows. *)
Fixpoint run_of (p : ascii -> bool) (k : bytes -> option (list bytes * bytes)) (s : bytes) :
    option (list bytes * bytes) :=
  match s with
  | [] => with_piece [] (k [])
  | c :: s' => or_else (if p c then longer c (run_of p k s') else None) (with_piece [] (k s))
  end.

(** The pattern at the start of [s]: the pieces and what is left. *)
Fixpoint match_here (r : list item) (s : bytes) : option (list bytes * bytes) :=
  match r with
  | [] => Some ([], s)
  | One p :: r =>
      match s with
      | c :: s => if p c then with_piece [c] (match_here r s) else None
      | [] => None
      end
  | Run p :: r => run_of p (match_here r) s
  | Among l :: r => first_of l s (match_here r)
  | End_ :: r => match s with [] => with_piece [] (match_here r []) | _ :: _ => None end
  end.

(** The leftmost match: the text in front of it, its pieces, the text behind it. *)
Fixpoint search (r : list item) (s : bytes) : option (bytes * list bytes * bytes) :=
  match match_here r s with
  | Some (ps, t) => Some ([], ps, t)
  | None =>
      match s with
      | [] => None
      | c :: s => match search r s with Some (a, ps, t) => Some (c :: a, ps, t) | None => None end
      end
  end.

(** All matches, each searched for behind the last; none of the patterns matches the
    empty text, so a round for every character is enough. *)
Fixpoint match_all_fuel (n : nat) (r : list item) (s : bytes) : list (list bytes) :=
  match n with
  | O => []
  | S n => match search r s with Some (_, ps, t) => ps :: match_all_fuel n r t | None => [] end
  end.
Definition match_all (r : list item) (s : bytes) : list (list bytes) := match_all_fuel (S (length s)) r s.

(** ** Replacement texts *)

Definition DOLLAR : ascii := "$"%char.
Definition digit (c : ascii) : option nat :=
  let n := nat_of_ascii c in if (48 <=? n) && (n <=? 57) then Some (n - 48) else None.

(** The number of a capture at the start of [s] - two digits if there are so many
    captures, else one - and the length of its text. *)
Definition capture_number (m : nat) (s : bytes) : option (nat * nat) :=
  match s with
  | a :: s =>
      match digit a with
      | Some x =>
          let two := match s with
                     | b :: _ => match digit b with Some y => Some (10 * x + y) | None => None end
                     | [] => None
                     end in
          match two with
          | Some n => if (1 <=? n) && (n <=? m) then Some (n, 2)
                      else if (1 <=? x) && (x <=? m) then Some (x, 1) else None
          | None => if (1 <=? x) && (x <=? m) then Some (x, 1) else None
          end
      | None => None
      end
  | [] => None
  end.

(** [text] with its dollar patterns expanded, for a match of [matched] between [before]
    and [after] with the [captures]; [skip] characters of a pattern are left. *)
Fixpoint substitute (before matched after : bytes) (captures : list bytes) (skip : nat) (text : bytes) : bytes :=
  match text with
  | [] => []
  | c :: s =>
      match skip with
      | S k => substitute before matched after captures k s
      | O =>
          if negb (c =c? DOLLAR) then c :: substitute before matched after captures 0 s else
          match s with
          | d :: _ =>
              if d =c? DOLLAR then DOLLAR :: substitute before matched after captures 1 s
              else if d =c? "&"%char then matched ++ substitute before matched after captures 1 s
              else if d =c? "`"%char then before ++ substitute before matched after captures 1 s
              else if d =c? "'"%char then after ++ substitute before matched after captures 1 s
              else match capture_number (length captures) s with
                   | Some (n, len) =>
                       nth (n - 1) captures [] ++ substitute before matched after captures len s
                   | None => c :: substitute before matched after captures 0 s
                   end
          | [] => [c]
          end
      end
  end.

(** [s.replace(r, text)] for a pattern without the flag [g]; [groups] picks the captures
    from the pieces. *)
Definition replace_match (r : list item) (groups : list bytes -> list bytes) (text s : bytes) : bytes :=
  match search r s with
  | Some (before, ps, after) =>
      before ++ substitute before (concat ps) after (groups ps) 0 text ++ after
  | None => s
  end.

(** ** Character classes *)

Definition char (a c : ascii) : bool := a =c? c.
Definition but (a c : ascii) : bool := negb (a =c? c).
(** [.]: all but the ends of lines; text is bytes here, of which only these two end one. *)
Definition dot (c : ascii) : bool := negb ((c =c? LF) || (c =c? CR)).
(** [\w]. *)
Definition word_char (c : ascii) : bool :=
  let n := nat_of_ascii c in
  ((48 <=? n) && (n <=? 57)) || ((65 <=? n) && (n <=? 90)) || ((97 <=? n) && (n <=? 122)) || (n =? 95).

Definition all (p : ascii -> bool) (s : bytes) : Prop := Forall (fun c => p c = true) s.

(** The pattern of a fixed text. *)
Definition text_ (w : bytes) : item := Among [w].

(** ** What a pattern takes *)

Inductive parses : list item -> bytes -> list bytes -> bytes -> Prop :=
  | parses_nil s : parses [] s [] s
  | parses_one p r c s ps t :
      p c = true -> parses r s ps t -> parses (One p :: r) (c :: s) ([c] :: ps) t
  | parses_run p r w s ps t :
      all p w -> parses r s ps t -> parses (Run p :: r) (w ++ s) (w :: ps) t
  | parses_among l r w s ps t :
      w ∈ l -> parses r s ps t -> parses (Among l :: r) (w ++ s) (w :: ps) t
  | parses_end r ps t : parses r [] ps t -> parses (End_ :: r) [] ([] :: ps) t.

Lemma with_piece_some w r ps t :
  with_piece w r = Some (ps, t) -> exists ps', ps = w :: ps' /\ r = Some (ps', t).
Proof. destruct r as [[ps' t']|]; cbn; [|easy]. intros [= <- <-]. eauto. Qed.

Lemma run_of_sound p k (P : bytes -> list bytes -> bytes -> Prop) s ps t :
  (forall s ps t, k s = Some (ps, t) -> P s ps t) ->
  run_of p k s = Some (ps, t) ->
  exists w s' ps', s = w ++ s' /\ all p w /\ ps = w :: ps' /\ P s' ps' t.
Proof.
  intros Hk. revert ps t; induction s as [|c s IH]; intros ps t; cbn [run_of].
  - intros (ps' & -> & Hr)%with_piece_some. exists [], [], ps'. split_and!; try easy; [constructor|auto].
  - unfold or_else. destruct (if p c then _ else None) as [[qs u]|] eqn:Hc.
    + intros [= -> ->]. destruct (p c) eqn:Hp; [|easy].
      destruct (run_of p k s) as [[[|w qs] u]|] eqn:Hr; try easy.
      cbn in Hc. injection Hc as <- <-.
      destruct (IH _ _ eq_refl) as (w' & s' & ps' & -> & Hw & [= <- <-] & HP).
      exists (c :: w), s', qs. split_and!; try easy. now constructor.
    + intros (ps' & -> & Hr)%with_piece_some. exists [], (c :: s), ps'.
      split_and!; try easy; [constructor|auto].
Qed.

Lemma first_of_sound l k (P : bytes -> list bytes -> bytes -> Prop) s ps t :
  (forall s ps t, k s = Some (ps, t) -> P s ps t) ->
  first_of l s k = Some (ps, t) ->
  exists w s' ps', s = w ++ s' /\ w ∈ l /\ ps = w :: ps' /\ P s' ps' t.
Proof.
  intros Hk. induction l as [|w l IH]; cbn [first_of]; [easy|]. unfold or_else.
  destruct (if starts w s then _ else None) as [[qs u]|] eqn:Hc.
  - intros [= -> ->]. destruct (starts w s) eqn:Hs; [|easy].
    apply starts_spec in Hs as [s' ->]. rewrite skipn_app, skipn_all, Nat.sub_diag in Hc. cbn in Hc.
    apply with_piece_some in Hc as (ps' & -> & Hr). exists w, s', ps'.
    split_and!; try easy; [now left|auto].
  - intros (w' & s' & ps' & -> & Hw & -> & HP)%IH. exists w', s', ps'.
    split_and!; try easy. now right.
Qed.

Lemma match_here_sound r s ps t : match_here r s = Some (ps, t) -> parses r s ps t.
Proof.
  revert s ps t; induction r as [|[p|p|l|] r IH]; intros s ps t; cbn [match_here].
  - intros [= <- <-]. constructor.
  - destruct s as [|c s]; [easy|]. destruct (p c) eqn:Hp; [|easy].
    intros (ps' & -> & Hr)%with_piece_some. constructor; auto.
  - intros (w & s' & ps' & -> & Hw & -> & HP)%(run_of_sound _ _ _ _ _ _ IH). now constructor.
  - intros (w & s' & ps' & -> & Hw & -> & HP)%(first_of_sound _ _ _ _ _ _ IH). now constructor.
  - destruct s; [|easy]. intros (ps' & -> & Hr)%with_piece_some. constructor; auto.
Qed.

Lemma with_piece_is_some w r : is_Some r -> is_Some (with_piece w r).
Proof. intros [[ps t] ->]. now eexists. Qed.

Lemma run_of_head p k s ps t : run_of p k s = Some (ps, t) -> exists w ps', ps = w :: ps'.
Proof.
  intros Hr. destruct (run_of_sound p k (fun _ _ _ => True) s ps t) as (w & s' & ps' & _ & _ & -> & _);
    [easy..|eauto].
Qed.

Lemma run_of_complete p k w s : all p w -> is_Some (k s) -> is_Some (run_of p k (w ++ s)).
Proof.
  intros Hw Hs. induction Hw as [|c w Hc Hw IH]; cbn [app].
  - destruct s; cbn [run_of]; [now apply with_piece_is_some|]. unfold or_else.
    destruct (if p a then _ else None); [now eexists|now apply with_piece_is_some].
  - cbn [run_of]. rewrite Hc. destruct IH as [[ps t] IH]. rewrite IH.
    destruct (run_of_head _ _ _ _ _ IH) as (w' & ps' & ->). now eexists.
Qed.

Lemma first_of_complete l k w s : w ∈ l -> is_Some (k s) -> is_Some (first_of l (w ++ s) k).
Proof.
  intros Hw Hs. induction l as [|v l IH]; [now apply elem_of_nil in Hw|].
  cbn [first_of]. unfold or_else. destruct (if starts v (w ++ s) then _ else None) eqn:Hc; [now eexists|].
  apply elem_of_cons in Hw as [<-|Hw]; [|auto]. exfalso.
  destruct Hs as [[ps t] Hs]. rewrite starts_app, skipn_app, skipn_all, Nat.sub_diag in Hc.
  rewrite drop_0 in Hc. cbn [app] in Hc. now rewrite Hs in Hc.
Qed.

Lemma match_here_complete r s ps t : parses r s ps t -> is_Some (match_here r s).
Proof.
  induction 1 as [s|p r c s ps t Hp _ IH|p r w s ps t Hw _ IH|l r w s ps t Hw _ IH|r ps t _ IH];
    cbn [match_here].
  - now eexists.
  - rewrite Hp. now apply with_piece_is_some.
  - now apply run_of_complete.
  - now apply first_of_complete.
  - now apply with_piece_is_some.
Qed.

(** The only parse is the one found. *)
Lemma match_here_unique r s ps t :
  parses r s ps t -> (forall ps' t', parses r s ps' t' -> ps' = ps /\ t' = t) ->
  match_here r s = Some (ps, t).
Proof.
  intros Hp Hu. destruct (match_here_complete _ _ _ _ Hp) as [[ps' t'] Hm]. rewrite Hm.
  now destruct (Hu _ _ (match_here_sound _ _ _ _ Hm)) as [-> ->].
Qed.

Lemma match_here_none r s : (forall ps t, ~ parses r s ps t) -> match_here r s = None.
Proof.
  intros Hn. destruct (match_here r s) as [[ps t]|] eqn:Hm; [|easy].
  now apply match_here_sound, Hn in Hm.
Qed.

Lemma parses_text r s ps t : parses r s ps t -> s = concat ps ++ t.
Proof.
  induction 1 as [s|p r c s ps t Hp _ IH|p r w s ps t Hw _ IH|l r w s ps t Hw _ IH|r ps t _ IH];
    cbn [concat app]; rewrite <- ?app_assoc; congruence.
Qed.

(** The pieces of a parse, item by item; a pattern that ends with [End_] leaves nothing. *)
Definition piece_ok (i : item) (w : bytes) : Prop :=
  match i with
  | One p => exists c, w = [c] /\ p c = true
  | Run p => all p w
  | Among l => w ∈ l
  | End_ => w = []
  end.

Lemma parses_pieces r s ps t :
  parses r s ps t -> Forall2 piece_ok r ps /\ s = concat ps ++ t /\ (list.last r = Some End_ -> t = []).
Proof.
  intros Hp. split_and!; [| now apply (parses_text r)|].
  - induction Hp; constructor; cbn; eauto.
  - induction Hp as [s|p r c s ps t Hc Hp IH|p r w s ps t Hw Hp IH|l r w s ps t Hw Hp IH|r ps t Hp IH];
      [easy|..]; (destruct r as [|i r]; [|exact IH]); try easy. now inversion Hp.
Qed.

(** And back, for a pattern without [End_]. *)
Lemma parses_intro r ps t :
  Forall (fun i => i <> End_) r -> Forall2 piece_ok r ps -> parses r (concat ps ++ t) ps t.
Proof.
  intros Hr Hp. induction Hp as [|i w r ps Hi _ IH]; [constructor|].
  apply list.Forall_cons in Hr as [Hi' Hr]. specialize (IH Hr). cbn [concat]. rewrite <- app_assoc.
  destruct i as [p|p|l|]; cbn in Hi; [|now constructor..|easy].
  destruct Hi as (c & -> & Hc). now constructor.
Qed.

(** Takes apart what is known of the pieces of a fixed pattern. *)
Ltac pieces H :=
  let rec go H :=
    lazymatch type of H with
    | Forall2 _ [] _ => apply Forall2_nil_inv_l in H
    | Forall2 _ (_ :: _) _ =>
        let w := fresh "w" in let ps := fresh "ps" in let Hw := fresh "Hw" in let E := fresh "E" in
        apply Forall2_cons_inv_l in H as (w & ps & Hw & H & E); cbn [piece_ok] in Hw; go H
    end in
  go H; subst;
  repeat match goal with
  | H : exists c, _ = [c] /\ _ |- _ => destruct H as (? & -> & ?)
  end.

Lemma search_sound r s a ps t :
  search r s = Some (a, ps, t) -> exists s', s = a ++ s' /\ match_here r s' = Some (ps, t).
Proof.
  revert a; induction s as [|c s IH]; intros a; cbn [search].
  - destruct (match_here r []) as [[ps' t']|] eqn:Hm; [|easy]. intros [= <- <- <-]. now exists [].
  - destruct (match_here r (c :: s)) as [[ps' t']|] eqn:Hm.
    + intros [= <- <- <-]. now exists (c :: s).
    + destruct (search r s) as [[[a' ps'] t']|]; [|easy]. intros [= <- <- <-].
      destruct (IH _ eq_refl) as (s' & -> & Hm'). now exists s'.
Qed.

Lemma search_at r a s ps t :
  (forall x y, a = x ++ y -> y <> [] -> match_here r (y ++ s) = None) ->
  match_here r s = Some (ps, t) -> search r (a ++ s) = Some (a, ps, t).
Proof.
  intros Ha Hm. induction a as [|c a IH]; cbn [app].
  - destruct s; cbn [search]; now rewrite Hm.
  - cbn [search]. change (c :: a ++ s) with ((c :: a) ++ s). rewrite (Ha [] (c :: a) eq_refl); [|easy].
    rewrite IH; [easy|]. intros x y -> Hy. now apply (Ha (c :: x) y).
Qed.

Lemma search_first r s ps t : match_here r s = Some (ps, t) -> search r s = Some ([], ps, t).
Proof. intros Hm. destruct s; cbn [search]; now rewrite Hm. Qed.

Lemma search_none r s : (forall a b, s = a ++ b -> match_here r b = None) -> search r s = None.
Proof.
  induction s as [|c s IH]; intros Hn; cbn [search]; rewrite (Hn [] _ eq_refl); [easy|].
  rewrite IH; [easy|]. intros a b ->. now apply (Hn (c :: a)).
Qed.

(** Text in which the pattern cannot start is skipped. *)
Lemma search_skip r a s :
  (forall x y, a = x ++ y -> y <> [] -> match_here r (y ++ s) = None) ->
  search r (a ++ s) = match search r s with Some (b, ps, t) => Some (a ++ b, ps, t) | None => None end.
Proof.
  intros Ha. induction a as [|c a IH]; cbn [app].
  - now destruct (search r s) as [[[? ?] ?]|].
  - cbn [search]. change (c :: a ++ s) with ((c :: a) ++ s). rewrite (Ha [] (c :: a) eq_refl); [|easy].
    rewrite IH; [|intros x y -> Hy; now apply (Ha (c :: x) y)].
    now destruct (search r s) as [[[? ?] ?]|].
Qed.

Lemma search_length r s a ps t :
  search r s = Some (a, ps, t) -> s = a ++ concat ps ++ t.
Proof.
  intros (s' & -> & Hm)%search_sound. now apply match_here_sound, parses_text in Hm as ->.
Qed.

(** More rounds than characters make no difference, if no match is empty. *)
Lemma match_all_enough r n m s :
  (forall s t ps, match_here r s = Some (ps, t) -> concat ps <> []) ->
  length s < n -> length s < m -> match_all_fuel n r s = match_all_fuel m r s.
Proof.
  intros Hne. revert m s; induction n as [|n IH]; intros m s Hn Hm; [lia|].
  destruct m as [|m]; [lia|]. cbn [match_all_fuel].
  destruct (search r s) as [[[a ps] t]|] eqn:Hs; [|easy]. f_equal.
  pose proof (search_length _ _ _ _ _ Hs) as Hl.
  apply search_sound in Hs as (s' & _ & Hs). apply Hne in Hs.
  assert (length t < length s).
  { rewrite Hl, !length_app. destruct (concat ps); [easy|cbn; lia]. }
  apply IH; lia.
Qed.

Lemma match_all_step r s :
  (forall s t ps, match_here r s = Some (ps, t) -> concat ps <> []) ->
  match_all r s = match search r s with Some (_, ps, t) => ps :: match_all r t | None => [] end.
Proof.
  intros Hne. unfold match_all at 1. cbn [match_all_fuel].
  destruct (search r s) as [[[a ps] t]|] eqn:Hs; [|easy]. f_equal.
  pose proof (search_length _ _ _ _ _ Hs) as Hl.
  apply search_sound in Hs as (s' & _ & Hs). apply Hne in Hs.
  apply match_all_enough; [easy| |lia].
  rewrite Hl, !length_app. destruct (concat ps); [easy|cbn; lia].
Qed.

(** A text without a dollar stands for itself. *)
Lemma substitute_plain b m a cs text : DOLLAR ∉ text -> substitute b m a cs 0 text = text.
Proof.
  induction text as [|c s IH]; intros Hn; cbn [substitute]; [easy|].
  apply not_elem_of_cons in Hn as [Hc Hn].
  assert ((c =c? DOLLAR) = false) as -> by (apply eqb_char_false; congruence). cbn [negb]. f_equal. auto.
Qed.
