(* ===== verification/QueryBuilder.v ===== *)
(** * The query builder of the profiles explorer (75.js): filters and queries

    The builder keeps a list of filters, each being built (partial) or complete, and a
    query of the form profile type, brace, matchers, brace.  [W] writes the complete
    filters into a query, [se] reads filters from one, [H] ([H_same]) says whether two lists of filters
    are the same to the server, and [fe] computes all that depends on the filters.  The
    context of the builder's state machine and the functions it changes the context with
    follow; the machine itself is in QueryMachine.v. *)

From S2P Require Import Prelude JavaScript Regex.
From S2P Require Import LogQL.
From S2P Require Import Filters.

(** Errors of JavaScript: reading a property of [undefined] or [null], [new Error(msg)]. *)
Definition type_error {A} : result A := Throw (RuntimeException (str "TypeError")).
Definition js_error {A} (msg : string) : result A := Throw (RuntimeException (str msg)).

(** [l.map(f)] for an [f] that may throw. *)
Fixpoint map_result {A B} (f : A -> result B) (l : list A) : result (list B) :=
  match l with
  | [] => Ok []
  | x :: l => let* y := f x in let* ys := map_result f l in Ok (y :: ys)
  end.

(** ** Filters of the builder *)

(** A value and how it is shown. *)
Record Choice := { c_value : bytes; c_label : bytes }.
Inductive FilterType := partial | attribute_operator_value | attribute_operator.
Record QFilter := {
  q_id : bytes; q_type : FilterType; q_active : bool;
  q_attribute : Choice; q_operator : option Choice; q_value : option Choice }.

#[global] Instance Choice_eq_dec : EqDecision Choice.
Proof. solve_decision. Defined.
#[global] Instance FilterType_eq_dec : EqDecision FilterType.
Proof. solve_decision. Defined.
#[global] Instance QFilter_eq_dec : EqDecision QFilter.
Proof. solve_decision. Defined.

Definition with_type (t : FilterType) (e : QFilter) : QFilter :=
  {| q_id := q_id e; q_type := t; q_active := q_active e; q_attribute := q_attribute e;
     q_operator := q_operator e; q_value := q_value e |}.
Definition with_active (a : bool) (e : QFilter) : QFilter :=
  {| q_id := q_id e; q_type := q_type e; q_active := a; q_attribute := q_attribute e;
     q_operator := q_operator e; q_value := q_value e |}.
Definition with_attribute (a : Choice) (e : QFilter) : QFilter :=
  {| q_id := q_id e; q_type := q_type e; q_active := q_active e; q_attribute := a;
     q_operator := q_operator e; q_value := q_value e |}.
Definition with_op (o : option Choice) (e : QFilter) : QFilter :=
  {| q_id := q_id e; q_type := q_type e; q_active := q_active e; q_attribute := q_attribute e;
     q_operator := o; q_value := q_value e |}.
Definition with_val (v : option Choice) (e : QFilter) : QFilter :=
  {| q_id := q_id e; q_type := q_type e; q_active := q_active e; q_attribute := q_attribute e;
     q_operator := q_operator e; q_value := v |}.

(** [Q]: an "is empty" filter, with the properties of [Y]. *)
Definition Q (e : QFilter) : QFilter :=
  with_type attribute_operator
    (with_op (Some {| c_value := IS_EMPTY; c_label := str "is empty" |})
      (with_val (Some {| c_value := IS_EMPTY; c_label := [] |}) e)).

(** [Z]. *)
Definition isPartial (e : QFilter) : bool := bool_decide (q_type e = partial).
(** [J]. *)
Definition J (e : list QFilter) : option QFilter := list.last e.
(** [X]: the operators that take several values. *)
Definition X (e : bytes) : bool := bool_decide (e = IN) || bool_decide (e = NOT_IN).

(** [ee]: whether another value must be chosen when operator [e] becomes [t]. *)
Definition ee (e t : bytes) : bool :=
  negb (bool_decide (e = t)) &&
  (negb (bool_decide (t = IS_EMPTY)) && bool_decide (e ∈ [RE; NRE; IN; NOT_IN; IS_EMPTY])
   || bool_decide (t ∈ [RE; NRE; IN; NOT_IN])).
Definition te (e : QFilter) (t : bytes) : result bool :=
  match q_operator e with
  | None => js_error "No operator for the filter under edition!"
  | Some o => Ok (ee (c_value o) t)
  end.

(** ** Comparing filters: [H] *)

Definition completed (e : list QFilter) : list QFilter := List.filter (fun f => negb (isPartial f)) e.

(** The callback of [find]. *)
Definition same_filter (e f : QFilter) : bool :=
  bool_decide (q_type f = q_type e /\ c_value (q_attribute f) = c_value (q_attribute e) /\
               c_value <$> q_operator f = c_value <$> q_operator e /\
               c_value <$> q_value f = c_value <$> q_value e).

Definition H_same (e t : list QFilter) : bool :=
  let n := completed e in
  let r := completed t in
  bool_decide (length n = length r) && forallb (fun f => existsb (same_filter f) r) n.

(** ** Writing filters into a query: [W] *)

Definition in_quotes (s : bytes) : bytes := [QUOTE] ++ s ++ [QUOTE].

(** The callback of [map]: the text of a filter. *)
Definition matcher_text (e : QFilter) : result bytes :=
  match q_operator e with
  | None => type_error
  | Some n =>
      let t := c_value (q_attribute e) in
      if decide (c_value n = IS_EMPTY) then Ok (t ++ str "=" ++ in_quotes [])
      else match q_value e with
           | None => type_error
           | Some r =>
               let o := if decide (c_value n = IN) then RE
                        else if decide (c_value n = NOT_IN) then NRE else c_value n in
               Ok (t ++ o ++ in_quotes (c_value r))
           end
  end.

Definition OPEN : ascii := "{"%char.
Definition CLOSE : ascii := "}"%char.
Definition SERVICE : bytes := str "service_name=" ++ [QUOTE].

(** The pattern of [W] for the service name in the braces - the last one - and the
    pattern of the braces at the end, which it replaces. *)
Definition service_pattern : list item :=
  [One (char OPEN); Run dot; text_ SERVICE; Run (but QUOTE); One (char QUOTE); Run dot; One (char CLOSE)].
Definition braces_pattern : list item := [One (char OPEN); Run dot; One (char CLOSE); End_].

Definition service_part (e : bytes) : option bytes :=
  match search service_pattern e with
  | Some (_, ps, _) => Some (concat (firstn 3 (skipn 2 ps)))
  | None => None
  end.

Definition W (e : bytes) (t : list QFilter) : result bytes :=
  let* n := map_result matcher_text (completed t) in
  let n := match service_part e with Some o => o :: n | None => n end in
  Ok (replace_match braces_pattern (fun ps => [nth 1 ps []])
        ([OPEN] ++ join (str ",") n ++ [CLOSE]) e).

(** ** Reading filters from a query: [se] *)

(** The pattern of [oe]: a name, an operator, a in_quotes text. *)
Definition matcher_pattern : list item :=
  [One word_char; Run word_char; Among [EQ; NE; RE; NRE]; One (char QUOTE); Run (but QUOTE); One (char QUOTE)].

Definition oe (e : bytes) : list (bytes * bytes * bytes) :=
  (fun ps => (concat (firstn 2 ps), nth 2 ps [], nth 4 ps [])) <$> match_all matcher_pattern e.

(** [ae]: [/.+:[^{]+\{(.+)\}$/]. *)
Definition ae : list item :=
  [One dot; Run dot; One (char ":"%char); One (but OPEN); Run (but OPEN); One (char OPEN);
   One dot; Run dot; One (char CLOSE); End_].

(** [ie]: the value has a character of a regular expression. *)
Definition ie (s : bytes) : bool := existsb (fun c => bool_decide (c ∈ list_ascii_of_string "^$*+{}?")) s.

(** [n.split("|").map((e => e.trim())).join(", ")]. *)
Definition values_label (n : bytes) : bytes := join (str ", ") (trim <$> split_bar n).

(** The callback of [map]. *)
Definition read_filter (id : bytes) (m : bytes * bytes * bytes) : QFilter :=
  let '(e, t, n) := m in
  let r := {| q_id := id; q_type := attribute_operator_value; q_active := true;
              q_attribute := {| c_value := e; c_label := e |};
              q_operator := Some {| c_value := t; c_label := t |};
              q_value := Some {| c_value := n; c_label := n |} |} in
  if decide (t = EQ /\ n = []) then Q r
  else if decide ((t = RE \/ t = NRE) /\ ie n = false) then
    with_op (Some (if decide (t = RE) then {| c_value := IN; c_label := str "in" |}
                   else {| c_value := NOT_IN; c_label := str "not in" |}))
      (with_val (Some {| c_value := n; c_label := values_label n |}) r)
  else r.

(** The matchers of a query: [se] up to [map]. *)
Definition query_matchers (e : bytes) : list (bytes * bytes * bytes) :=
  match e with
  | [] => []
  | _ => match search ae e with
         | Some (_, ps, _) =>
             List.filter (fun m => negb (bool_decide (m.1.1 = str "service_name")))
               (oe (concat (firstn 2 (skipn 6 ps))))
         | None => []
         end
  end.

(** [Ak n] is the id that the [n]th call of [nanoid] returns. *)
Definition se (Ak : nat -> bytes) (n : nat) (e : bytes) : list QFilter :=
  imap (fun i => read_filter (Ak (n + i)%nat)) (query_matchers e).

Definition ue (e : list QFilter) (t : bool) : list QFilter :=
  (fun e => if negb (isPartial e) then with_active t e else e) <$> e.

(** ** The context of the state machine *)

Record Params := { p_query : bytes; p_from : Z; p_to : Z; p_dataSourceUid : option bytes }.
(** [S] and [w]. *)
Inductive Part := Pattribute | Poperator | Pvalue.
Record Edition := { filterId : bytes; part : Part }.
Record Suggestion := { s_choice : Choice; s_description : option bytes }.
Record Suggestions := {
  s_type : option Part; s_items : list Suggestion; s_isVisible : bool; s_isLoading : bool;
  s_error : option bytes; s_placeholder : bytes; s_noOptionsMessage : bytes;
  s_allowCustomValue : bool; s_multiple : bool; s_disabled : bool }.
(** [calls] counts the ids given out, [labelSource] is the data source the label
    repository [K] asks, once one has been set. *)
Record Context := {
  inputParams : Params; query : bytes; filters : list QFilter; isQueryUpToDate : bool;
  edition : option Edition; suggestions : Suggestions; calls : nat; labelSource : option bytes }.

#[global] Instance Part_eq_dec : EqDecision Part.
Proof. solve_decision. Defined.
#[global] Instance Edition_eq_dec : EqDecision Edition.
Proof. solve_decision. Defined.
#[global] Instance Suggestion_eq_dec : EqDecision Suggestion.
Proof. solve_decision. Defined.
#[global] Instance Suggestions_eq_dec : EqDecision Suggestions.
Proof. solve_decision. Defined.
#[global] Instance Params_eq_dec : EqDecision Params.
Proof. solve_decision. Defined.
#[global] Instance Context_eq_dec : EqDecision Context.
Proof. solve_decision. Defined.

(** [Ye.suggestions]. *)
Definition Ye_suggestions : Suggestions :=
  {| s_type := None; s_items := []; s_isVisible := false; s_isLoading := false; s_error := None;
     s_placeholder := []; s_noOptionsMessage := []; s_allowCustomValue := false;
     s_multiple := false; s_disabled := false |}.

Definition set_filters (fs : list QFilter) (q : bytes) (up : bool) (c : Context) : Context :=
  {| inputParams := inputParams c; query := q; filters := fs; isQueryUpToDate := up;
     edition := edition c; suggestions := suggestions c; calls := calls c; labelSource := labelSource c |}.
Definition set_edition (e : option Edition) (c : Context) : Context :=
  {| inputParams := inputParams c; query := query c; filters := filters c;
     isQueryUpToDate := isQueryUpToDate c; edition := e; suggestions := suggestions c;
     calls := calls c; labelSource := labelSource c |}.
Definition set_suggestions (s : Suggestions) (c : Context) : Context :=
  {| inputParams := inputParams c; query := query c; filters := filters c;
     isQueryUpToDate := isQueryUpToDate c; edition := edition c; suggestions := s;
     calls := calls c; labelSource := labelSource c |}.
Definition add_calls (n : nat) (c : Context) : Context :=
  {| inputParams := inputParams c; query := query c; filters := filters c;
     isQueryUpToDate := isQueryUpToDate c; edition := edition c; suggestions := suggestions c;
     calls := (calls c + n)%nat; labelSource := labelSource c |}.

Section Actions.
Context (Ak : nat -> bytes).

(** [H(fs, se(c.inputParams.query))]; the ids of these filters are not kept. *)
Definition up_to_date (fs : list QFilter) (c : Context) : bool :=
  H_same fs (se Ak 0 (p_query (inputParams c))).

(** [fe], put into the context. *)
Definition fe (e : list QFilter) (t : Context) : result Context :=
  let n := up_to_date e t in
  let* q := W (query t) e in
  Ok (set_filters (if n then ue e true else e) q n t).

(** ** What the machine does to the context: [he] *)

Definition setFilterAttribute (data : Choice) (e : Context) : result Context :=
  let n := filters e ++ [{| q_id := Ak (calls e); q_type := partial; q_active := false;
                            q_attribute := data; q_operator := None; q_value := None |}] in
  Ok (add_calls 1 (set_filters n (query e) (up_to_date n e) e)).

Definition editFilterAttribute (data : Choice) (e : Context) : result Context :=
  match edition e with
  | None => js_error "Cannot edit filter attribute without edition data!"
  | Some ed =>
      let r := (fun f => if decide (q_id f = filterId ed)
                         then with_attribute data (with_op None (with_val None f)) else f) <$> filters e in
      Ok (set_edition None (set_filters r (query e) (up_to_date r e) e))
  end.

Definition setFilterOperator (data : Choice) (e : Context) : result Context :=
  let n := (fun f => if negb (isPartial f) then f
                     else if decide (c_value data = IS_EMPTY) then Q f
                     else with_op (Some data) (with_val None f)) <$> filters e in
  fe n e.

Definition NO_VALUE : Choice := {| c_value := str "(no value)"; c_label := str "(no value)" |}.

(** [s.split(sep).shift()]. *)
Fixpoint first_piece (sep s : bytes) : bytes :=
  match s with
  | [] => []
  | c :: r => if starts sep s then [] else c :: first_piece sep r
  end.

(** The callback of [map] on the filter under edition; [a] is its operator.  An empty
    filter's value is written into the old filter, which is not used after this. *)
Definition change_operator (a : bytes) (r : Choice) (t : QFilter) : QFilter :=
  if decide (c_value r = IS_EMPTY) then Q (with_active false t)
  else
    let v := if decide (a = IS_EMPTY) then Some NO_VALUE else q_value t in
    let v := if X a && negb (X (c_value r)) then
               match v with
               | Some v => Some {| c_value := first_piece [BAR] (c_value v);
                                   c_label := first_piece (str ", ") (c_label v) |}
               | None => None
               end
             else v in
    with_op (Some r) (with_val v (with_active false t)).

Definition edit_operator (n : bytes) (r : Choice) (t : QFilter) : result QFilter :=
  match q_operator t with
  | None => type_error
  | Some o =>
      if decide (q_id t <> n \/ c_value o = c_value r) then Ok t
      else Ok (change_operator (c_value o) r t)
  end.

(** Whether a value must be chosen next: the callback assigned [o]. *)
Definition needs_value (n : bytes) (r : Choice) (t : QFilter) : bool :=
  match q_operator t with
  | None => false
  | Some o =>
      negb (bool_decide (q_id t <> n \/ c_value o = c_value r)) &&
      (negb (bool_decide (c_value r = IS_EMPTY)) && (negb (isPartial t) && ee (c_value o) (c_value r)))
  end.

Definition editFilterOperator (r : Choice) (e : Context) : result Context :=
  match edition e with
  | None => js_error "Cannot edit filter operator without edition data!"
  | Some ed =>
      let* a := map_result (edit_operator (filterId ed) r) (filters e) in
      let o := if existsb (needs_value (filterId ed) r) (filters e)
               then Some {| filterId := filterId ed; part := Pvalue |} else None in
      let* c := fe a e in
      Ok (set_edition o c)
  end.

(** A value makes the filter complete. *)
Definition give_value (data : Choice) (f : QFilter) : QFilter :=
  with_type attribute_operator_value (with_active false (with_val (Some data) f)).

Definition setFilterValue (data : Choice) (e : Context) : result Context :=
  fe ((fun f => if isPartial f then give_value data f else f) <$> filters e) e.

Definition editFilterValue (data : Choice) (e : Context) : result Context :=
  match edition e with
  | None => js_error "Cannot edit filter value without edition data!"
  | Some ed =>
      let* c := fe ((fun f => if decide (q_id f = filterId ed) then give_value data f else f) <$> filters e) e in
      Ok (set_edition None c)
  end.

(** [removeFilter]. *)
Definition removeFilter_ (n : bytes) (e : Context) : result Context :=
  fe (ue (List.filter (fun f => negb (bool_decide (q_id f = n))) (filters e)) false) e.

Definition removeLastFilter (e : Context) : result Context :=
  let t := filters e in
  match J t with
  | None => Ok e
  | Some n =>
      match isPartial n, q_operator n with
      | true, Some _ => Ok (set_filters (removelast t ++ [with_op None n]) (query e) true e)
      | _, _ => fe (with_active false <$> removelast t) e
      end
  end.

Definition setEdition (data : Edition) (e : Context) : result Context := Ok (set_edition (Some data) e).

(** An empty data source does not replace the one before. *)
Definition changeInputParams (data : Params) (e : Context) : result Context :=
  Ok {| inputParams := data; query := p_query data; filters := se Ak (calls e) (p_query data);
        isQueryUpToDate := true; edition := edition e; suggestions := suggestions e;
        calls := (calls e + length (query_matchers (p_query data)))%nat;
        labelSource := match p_dataSourceUid data with
                       | None | Some [] => labelSource e
                       | Some u => Some u
                       end |}.

Definition activateFilters (e : Context) : result Context := fe (filters e) e.

(** [Je]: the context before the machine starts. *)
Definition Je (e : Params) : Context :=
  {| inputParams := e; query := p_query e; filters := se Ak 0 (p_query e); isQueryUpToDate := true;
     edition := None; suggestions := Ye_suggestions;
     calls := length (query_matchers (p_query e)); labelSource := None |}.
End Actions.

(** [ge]: the filter under edition. *)
Definition ge (e : Context) : result QFilter :=
  match edition e with
  | None => js_error (String QUOTE ("edition" ++ String QUOTE " is null!"))
  | Some t =>
      match List.find (fun f => bool_decide (q_id f = filterId t)) (filters e) with
      | Some r => Ok r
      | None => js_error "Cannot find the filter under edition!"
      end
  end.
