(* ===== verification/QueryMachine.v ===== *)
(** * The query builder's state machine (75.js: Qe, We and the states je to Te)

    The eight states with their entry actions, and for every state and event the candidate
    transitions, each a guard, actions and a target: these tables are the configuration the
    program gives to XState.  [send] is how XState runs such a flat configuration: the first
    candidate whose guard holds is taken, its actions and the entry actions of the target
    change the context one after the other, and a target with transitions for no event goes
    on with those; if a guard or an action throws, nothing has changed.  The promise a
    loading state starts ends as an event of that state, [Done] or [Failed]; a result that
    comes after the state was left is dropped.  [offered] says which events the page sends. *)

From S2P Require Import Prelude JavaScript Regex.
From S2P Require Import LogQL.
From S2P Require Import Filters.
From S2P Require Import QueryBuilder.

Inductive QState :=
  | idle | loadLabels | displayLabels | loadOperators | displayOperators
  | loadLabelValues | displayLabelValues | autoSuggestProxy.

Inductive QEvent :=
  | START_INPUT
  | EDIT_FILTER (data : Edition)
  | REMOVE_FILTER (data : bytes)
  | REMOVE_LAST_FILTER
  | CHANGE_INPUT_PARAMS (data : Params)
  | EXECUTE_QUERY
  | DISCARD_SUGGESTIONS
  | SELECT_SUGGESTION (data : Choice)
  | Done (items : list Suggestion)
  | Failed (error : bytes).

#[global] Instance QState_eq_dec : EqDecision QState.
Proof. solve_decision. Defined.
#[global] Instance QEvent_eq_dec : EqDecision QEvent.
Proof. solve_decision. Defined.

(** ** Guards: [ye] *)

Definition shouldSuggestAttributes (e : Context) : bool :=
  match J (filters e) with None => true | Some t => negb (isPartial t) end.
(** True as well when there is no filter. *)
Definition shouldSuggestOperators (e : Context) : bool :=
  match J (filters e) with
  | Some t => match q_operator t with Some _ => false | None => true end
  | None => true
  end.
Definition shouldSuggestValues (e : Context) : bool :=
  match J (filters e) with
  | Some t => match q_operator t, q_value t with Some _, None => true | _, _ => false end
  | None => false
  end.
Definition isEditing (e : Context) : bool := bool_decide (edition e <> None).
Definition shouldSuggestValuesAfterOperatorEdition (data : Choice) (e : Context) : result bool :=
  match edition e with
  | None => Ok false
  | Some _ => let* f := ge e in te f (c_value data)
  end.
Definition shouldNotSuggestValuesAfterOperatorEdition (data : Choice) (e : Context) : result bool :=
  match edition e with
  | None => Ok false
  | Some _ => let* f := ge e in let* b := te f (c_value data) in Ok (negb b)
  end.
Definition hasPartialFilter (e : Context) : bool :=
  match J (filters e) with Some t => isPartial t | None => false end.

(** ** Services: [xe] *)

(** [ve.list()]. *)
Definition operator_list : list Suggestion :=
  (fun '(v, l, d) => {| s_choice := {| c_value := v; c_label := str l |}; s_description := str <$> d |}) <$>
  [(EQ, "=", None); (NE, "!=", None); (IS_EMPTY, "is empty", None); (IN, "in", Some "Is one of");
   (NOT_IN, "not in", Some "Is not one of"); (RE, "=~", Some "Matches regex");
   (NRE, "!~", Some "Does not match regex")]%string.

(** [Ee]. *)
Definition isPrivateLabel (e : bytes) : bool := starts (str "__") e.

(** [fetchLabels] on the labels the repository lists: private ones last. *)
Definition order_labels (l : list Suggestion) : list Suggestion :=
  List.filter (fun e => negb (isPrivateLabel (c_value (s_choice e)))) l ++
  List.filter (fun e => isPrivateLabel (c_value (s_choice e))) l.

(** What [fetchLabelValues] asks the repository for: a label and a query; [None] where it
    returns no values without asking. *)
Definition fetchLabelValues (e : Context) : result (option (bytes * bytes)) :=
  let* p := match edition e with
            | Some r =>
                let mine f := bool_decide (q_id f = filterId r) in
                match list.last (List.filter mine (filters e)) with
                | None => Throw (RuntimeException (str "Impossible to edit filter id=" ++
                                    in_quotes (filterId r) ++ str ": no filter found!"))
                | Some t =>
                    let* n := W (query e) (List.filter (fun f => negb (mine f)) (filters e)) in
                    Ok (t, n)
                end
            | None =>
                match J (filters e) with
                | Some t =>
                    if isPartial t then Ok (t, query e)
                    else js_error "Impossible to load label values: no partial filter found!"
                | None => js_error "Impossible to load label values: no partial filter found!"
                end
            end in
  let '(t, n) := p in
  if s_disabled (suggestions e) then Ok None else Ok (Some (c_value (q_attribute t), n)).

(** ** Entry actions *)

(** [Ce]. *)
Definition is_regex (e : bytes) : bool := bool_decide (e = RE) || bool_decide (e = NRE).

Definition visible (s : Suggestions) : Suggestions :=
  {| s_type := s_type s; s_items := s_items s; s_isVisible := true; s_isLoading := s_isLoading s;
     s_error := s_error s; s_placeholder := s_placeholder s; s_noOptionsMessage := s_noOptionsMessage s;
     s_allowCustomValue := s_allowCustomValue s; s_multiple := s_multiple s; s_disabled := s_disabled s |}.
Definition loading (l : bool) (s : Suggestions) : Suggestions :=
  {| s_type := s_type s; s_items := s_items s; s_isVisible := s_isVisible s; s_isLoading := l;
     s_error := s_error s; s_placeholder := s_placeholder s; s_noOptionsMessage := s_noOptionsMessage s;
     s_allowCustomValue := s_allowCustomValue s; s_multiple := s_multiple s; s_disabled := s_disabled s |}.
Definition with_items (l : list Suggestion) (s : Suggestions) : Suggestions :=
  {| s_type := s_type s; s_items := l; s_isVisible := s_isVisible s; s_isLoading := s_isLoading s;
     s_error := s_error s; s_placeholder := s_placeholder s; s_noOptionsMessage := s_noOptionsMessage s;
     s_allowCustomValue := s_allowCustomValue s; s_multiple := s_multiple s; s_disabled := s_disabled s |}.
Definition with_error (x : bytes) (s : Suggestions) : Suggestions :=
  {| s_type := s_type s; s_items := s_items s; s_isVisible := s_isVisible s; s_isLoading := s_isLoading s;
     s_error := Some x; s_placeholder := s_placeholder s; s_noOptionsMessage := s_noOptionsMessage s;
     s_allowCustomValue := s_allowCustomValue s; s_multiple := s_multiple s; s_disabled := s_disabled s |}.
Definition with_menu (t : option Part) (p : bytes) (s : Suggestions) : Suggestions :=
  {| s_type := t; s_items := s_items s; s_isVisible := s_isVisible s; s_isLoading := s_isLoading s;
     s_error := s_error s; s_placeholder := p; s_noOptionsMessage := s_noOptionsMessage s;
     s_allowCustomValue := s_allowCustomValue s; s_multiple := s_multiple s; s_disabled := s_disabled s |}.
Definition with_input (custom multiple : bool) (s : Suggestions) : Suggestions :=
  {| s_type := s_type s; s_items := s_items s; s_isVisible := s_isVisible s; s_isLoading := s_isLoading s;
     s_error := s_error s; s_placeholder := s_placeholder s; s_noOptionsMessage := s_noOptionsMessage s;
     s_allowCustomValue := custom; s_multiple := multiple; s_disabled := s_disabled s |}.
Definition with_message (m : bytes) (s : Suggestions) : Suggestions :=
  {| s_type := s_type s; s_items := s_items s; s_isVisible := s_isVisible s; s_isLoading := s_isLoading s;
     s_error := s_error s; s_placeholder := s_placeholder s; s_noOptionsMessage := m;
     s_allowCustomValue := s_allowCustomValue s; s_multiple := s_multiple s; s_disabled := s_disabled s |}.
Definition with_disabled (d : bool) (s : Suggestions) : Suggestions :=
  {| s_type := s_type s; s_items := s_items s; s_isVisible := s_isVisible s; s_isLoading := s_isLoading s;
     s_error := s_error s; s_placeholder := s_placeholder s; s_noOptionsMessage := s_noOptionsMessage s;
     s_allowCustomValue := s_allowCustomValue s; s_multiple := s_multiple s; s_disabled := d |}.

Definition enter_idle (e : Context) : result Context :=
  let '(t, n) :=
    match J (filters e) with
    | Some r =>
        if isPartial r then
          match q_operator r with
          | Some o => let n := is_regex (c_value o) in
                      (if X (c_value o) then str "Select values..."
                       else if n then str "Type a regex..." else str "Select a value...", n)
          | None => (str "Select an operator...", false)
          end
        else (str "Filter by label values...", false)
    | None => (str "Filter by label values...", false)
    end in
  Ok (set_edition None (set_suggestions (with_input n false (with_menu None t Ye_suggestions)) e)).

Definition enter_loading (e : Context) : result Context :=
  Ok (set_suggestions (loading true (visible Ye_suggestions)) e).

Definition enter_displayLabels (e : Context) : result Context :=
  Ok (set_suggestions (visible (with_menu (Some Pattribute) (str "Select a label...") (suggestions e))) e).

Definition enter_displayOperators (e : Context) : result Context :=
  Ok (set_suggestions (with_input false false (visible
        (with_menu (Some Poperator) (str "Select an operator...") (suggestions e)))) e).

(** The filter whose values are chosen: [e.edition ? ge(e) : J(e.filters)]; its operator
    is read, which the assertion in front of it does not ensure. *)
Definition target_operator (e : Context) : result (QFilter * Choice) :=
  let* t := match edition e with
            | Some _ => ge e
            | None => match J (filters e) with Some t => Ok t | None => type_error end
            end in
  match q_operator t with Some o => Ok (t, o) | None => type_error end.

Definition enter_loadLabelValues (e : Context) : result Context :=
  let* p := target_operator e in
  let d := is_regex (c_value p.2) || isPrivateLabel (c_value (q_attribute p.1)) in
  Ok (set_suggestions (loading true (visible (with_disabled d Ye_suggestions))) e).

Definition enter_displayLabelValues (e : Context) : result Context :=
  let* p := target_operator e in
  let n := c_value p.2 in
  let s := suggestions e in
  let r := is_regex n || s_disabled s in
  let a := if r then str "Type a regex..." else if X n then str "Select values..." else str "Select a value..." in
  let i := match s_error s with
           | Some _ => str "An unexpected error occurred while loading! Please try again."
           | None => if s_disabled s then str "Suggestions are disabled for this label."
                     else str "No suggestions available."
           end in
  Ok (set_suggestions (with_input r (X n) (with_message i (visible (with_menu (Some Pvalue) a s)))) e).

Definition entry (s : QState) : Context -> result Context :=
  match s with
  | idle => enter_idle
  | loadLabels | loadOperators => enter_loading
  | displayLabels => enter_displayLabels
  | displayOperators => enter_displayOperators
  | loadLabelValues => enter_loadLabelValues
  | displayLabelValues => enter_displayLabelValues
  | autoSuggestProxy => Ok
  end.

(** ** Transitions *)

Record Branch := { guard : Context -> result bool; target : QState; action : Context -> result Context }.

Definition go (t : QState) : Branch := {| guard := fun _ => Ok true; target := t; action := Ok |}.
Definition go_if (b : Context -> bool) (t : QState) : Branch :=
  {| guard := fun c => Ok (b c); target := t; action := Ok |}.
Definition go_do (t : QState) (a : Context -> result Context) : Branch :=
  {| guard := fun _ => Ok true; target := t; action := a |}.
Definition go_if_do (b : Context -> result bool) (t : QState) (a : Context -> result Context) : Branch :=
  {| guard := b; target := t; action := a |}.

Definition pure_guard (b : Context -> bool) (c : Context) : result bool := Ok (b c).
(** An action that changes the suggestions only. *)
Definition on_suggestions (f : Context -> Suggestions -> Suggestions) (c : Context) : result Context :=
  Ok (set_suggestions (f c (suggestions c)) c).

(** Labels that have a filter are not suggested. *)
Definition unused_labels (c : Context) (l : list Suggestion) : list Suggestion :=
  List.filter (fun x => negb (existsb (fun f => bool_decide (c_value (q_attribute f) = c_value (s_choice x)))
                                (filters c))) l.

Section Machine.
Context (Ak : nat -> bytes).

(** The candidates of a state for an event. *)
Definition on (s : QState) (e : QEvent) : list Branch :=
  match s, e with
  | idle, START_INPUT =>
      [go_if shouldSuggestAttributes loadLabels; go_if shouldSuggestOperators loadOperators;
       go_if shouldSuggestValues loadLabelValues]
  | idle, EDIT_FILTER d =>
      [go_if_do (fun _ => Ok (bool_decide (part d = Pattribute))) loadLabels (setEdition d);
       go_if_do (fun _ => Ok (bool_decide (part d = Poperator))) loadOperators (setEdition d);
       go_if_do (fun _ => Ok (bool_decide (part d = Pvalue))) loadLabelValues (setEdition d)]
  | idle, REMOVE_FILTER d =>
      [go_if_do (pure_guard hasPartialFilter) autoSuggestProxy (removeFilter_ Ak d);
       go_do idle (removeFilter_ Ak d)]
  | idle, REMOVE_LAST_FILTER => [go_do idle (removeLastFilter Ak)]
  | idle, CHANGE_INPUT_PARAMS d => [go_do idle (changeInputParams Ak d)]
  | idle, EXECUTE_QUERY => [go_do idle (activateFilters Ak)]
  | loadLabels, Done l =>
      [go_do displayLabels (on_suggestions (fun c s => loading false (with_items (unused_labels c l) s)))]
  | loadLabels, Failed x =>
      [go_do displayLabels (on_suggestions (fun _ s => with_error x (loading false s)))]
  | loadOperators, Done l =>
      [go_do displayOperators (on_suggestions (fun _ s => loading false (with_items l s)))]
  | loadOperators, Failed x =>
      [go_do displayOperators (on_suggestions (fun _ s => with_error x (loading false (with_items [] s))))]
  | loadLabelValues, Done l =>
      [go_do displayLabelValues (on_suggestions (fun _ s => loading false (with_items l s)))]
  | loadLabelValues, Failed x =>
      [go_do displayLabelValues (on_suggestions (fun _ s => with_error x (loading false (with_items [] s))))]
  | displayLabels, SELECT_SUGGESTION d =>
      [go_if_do (pure_guard isEditing) loadOperators (editFilterAttribute Ak d);
       go_do loadOperators (setFilterAttribute Ak d)]
  | displayLabels, REMOVE_LAST_FILTER => [go_do idle (removeLastFilter Ak)]
  | displayOperators, SELECT_SUGGESTION d =>
      [go_if_do (shouldSuggestValuesAfterOperatorEdition d) loadLabelValues (editFilterOperator Ak d);
       go_if_do (shouldNotSuggestValuesAfterOperatorEdition d) autoSuggestProxy (editFilterOperator Ak d);
       go_if_do (pure_guard hasPartialFilter) autoSuggestProxy (setFilterOperator Ak d);
       go_do loadLabelValues (setFilterOperator Ak d)]
  | displayOperators, REMOVE_LAST_FILTER => [go_do loadLabels (removeLastFilter Ak)]
  | displayLabelValues, SELECT_SUGGESTION d =>
      [go_if_do (pure_guard isEditing) autoSuggestProxy (editFilterValue Ak d);
       go_do idle (setFilterValue Ak d)]
  | displayLabelValues, REMOVE_LAST_FILTER => [go_do loadOperators (removeLastFilter Ak)]
  | (loadLabels | loadOperators | loadLabelValues | displayLabels | displayOperators | displayLabelValues),
    DISCARD_SUGGESTIONS => [go idle]
  | _, _ => []
  end.

(** The transitions of a state that need no event. *)
Definition always (s : QState) : list Branch :=
  match s with
  | autoSuggestProxy =>
      [go_if shouldSuggestOperators loadOperators; go_if shouldSuggestValues loadLabelValues; go idle]
  | _ => []
  end.

(** ** Running the machine *)

Fixpoint choose (l : list Branch) (c : Context) : result (option Branch) :=
  match l with
  | [] => Ok None
  | b :: l => let* g := guard b c in if g then Ok (Some b) else choose l c
  end.

Definition take (b : Branch) (c : Context) : result (QState * Context) :=
  let* c := action b c in
  let* c := entry (target b) c in
  Ok (target b, c).

(** No target of [always] has such transitions itself, so one round settles. *)
Definition settle (p : QState * Context) : result (QState * Context) :=
  let* b := choose (always p.1) p.2 in
  match b with None => Ok p | Some b => take b p.2 end.

Definition send (p : QState * Context) (e : QEvent) : result (QState * Context) :=
  let* b := choose (on p.1 e) p.2 in
  match b with
  | None => Ok p
  | Some b => let* p' := take b p.2 in settle p'
  end.

Fixpoint send_all (p : QState * Context) (es : list QEvent) : result (QState * Context) :=
  match es with [] => Ok p | e :: es => let* p := send p e in send_all p es end.

Definition start (e : Params) : result (QState * Context) :=
  let* c := entry idle (Je Ak e) in Ok (idle, c).

(** ** The page *)

(** What the page lets the user do: the input field is disabled while a filter is
    edited, the parts of a filter can be clicked where they are shown, and a partial
    filter has no button that removes it. *)
Definition offered (c : Context) (e : QEvent) : Prop :=
  match e with
  | START_INPUT | REMOVE_LAST_FILTER => edition c = None
  | EDIT_FILTER d =>
      exists f, f ∈ filters c /\ q_id f = filterId d /\
        match part d with
        | Pattribute => q_type f = partial
        | Poperator => q_operator f <> None
        | Pvalue => q_type f = attribute_operator_value
        end
  | REMOVE_FILTER d => exists f, f ∈ filters c /\ q_id f = d /\ q_type f <> partial
  | _ => True
  end.

Inductive reachable (e : Params) : QState * Context -> Prop :=
  | reach_start p : start e = Ok p -> reachable e p
  | reach_send p ev p' : reachable e p -> offered p.2 ev -> send p ev = Ok p' -> reachable e p'.
End Machine.

(** An event that takes a branch to a state other than the proxy. *)
Lemma send_branch Ak s c e b c1 c2 :
  choose (on Ak s e) c = Ok (Some b) -> action b c = Ok c1 -> entry (target b) c1 = Ok c2 ->
  target b <> autoSuggestProxy -> send Ak (s, c) e = Ok (target b, c2).
Proof.
  intros Hc Ha He Hp. unfold send. cbn [fst snd]. rewrite Hc. cbn [rbind]. unfold take. rewrite Ha.
  cbn [rbind]. rewrite He. cbn [rbind]. unfold settle. cbn [fst snd].
  destruct (target b); try reflexivity. easy.
Qed.

(** ** Running the machine from the page *)

Definition offeredb (c : Context) (e : QEvent) : bool :=
  match e with
  | START_INPUT | REMOVE_LAST_FILTER => bool_decide (edition c = None)
  | EDIT_FILTER d =>
      existsb (fun f => bool_decide (q_id f = filterId d) &&
        match part d with
        | Pattribute => bool_decide (q_type f = partial)
        | Poperator => bool_decide (q_operator f <> None)
        | Pvalue => bool_decide (q_type f = attribute_operator_value)
        end) (filters c)
  | REMOVE_FILTER d =>
      existsb (fun f => bool_decide (q_id f = d) && bool_decide (q_type f <> partial)) (filters c)
  | _ => true
  end.

Lemma offeredb_spec c e : offeredb c e = true -> offered c e.
Proof.
  destruct e as [|d|d| |d| | |d|l|x]; cbn [offeredb offered]; try done; try apply bool_decide_eq_true_1.
  - intros (f & Hf & Hb)%existsb_exists. exists f. rewrite list_elem_of_In.
    apply andb_true_iff in Hb as [Hi Hb]. apply bool_decide_eq_true_1 in Hi.
    split; [done|split; [done|]]. destruct (part d); now apply bool_decide_eq_true_1 in Hb.
  - intros (f & Hf & [Hi Hb]%andb_true_iff)%existsb_exists. exists f. rewrite list_elem_of_In.
    now apply bool_decide_eq_true_1 in Hi, Hb.
Qed.

(** The state after events that the page offers, one after the other. *)
Fixpoint play (Ak : nat -> bytes) (p : QState * Context) (es : list QEvent) : option (QState * Context) :=
  match es with
  | [] => Some p
  | e :: es =>
      if offeredb p.2 e then match send Ak p e with Ok p' => play Ak p' es | _ => None end else None
  end.

Lemma play_reachable Ak e p es p' : reachable Ak e p -> play Ak p es = Some p' -> reachable Ak e p'.
Proof.
  revert p; induction es as [|ev es IH]; intros p Hp; cbn [play]; [now intros [= <-]|].
  destruct (offeredb p.2 ev) eqn:Ho; [|done]. destruct (send Ak p ev) as [q| | |] eqn:Hs; [|done..].
  apply IH. apply (reach_send Ak e p ev q Hp); [exact (offeredb_spec _ _ Ho)|exact Hs].
Qed.
