(* ===== verification/QueryMachineCorrect.v ===== *)
(** * The query builder's state machine: its invariant

    At most one filter is partial, and it is the last; ids are distinct; the filter under
    edition exists and has what its state reads of it ([fits]).  Every event the page offers
    keeps this, but for one on which the code throws ([send_offered]). *)

From S2P Require Import Prelude JavaScript Regex.
From S2P Require Import LogQL.
From S2P Require Import Filters.
From S2P Require Import QueryBuilder.
From S2P Require Import QueryMachine.

(** ** Filters *)

Definition complete (f : QFilter) : Prop :=
  q_type f <> partial /\ is_Some (q_operator f) /\ is_Some (q_value f).
Definition pending (f : QFilter) : Prop :=
  q_type f = partial /\ q_value f = None /\ forall o, q_operator f = Some o -> c_value o <> IS_EMPTY.

Definition awaiting (P : QFilter -> Prop) (fs : list QFilter) : Prop :=
  exists a p, fs = a ++ [p] /\ Forall complete a /\ pending p /\ P p.
Definition no_pending (fs : list QFilter) : Prop := Forall complete fs.
Definition awaiting_operator : list QFilter -> Prop := awaiting (fun p => q_operator p = None).
Definition awaiting_value : list QFilter -> Prop := awaiting (fun p => q_operator p <> None).
Definition shape (fs : list QFilter) : Prop := no_pending fs \/ awaiting_operator fs \/ awaiting_value fs.

Definition has (i : bytes) (P : QFilter -> Prop) (fs : list QFilter) : Prop :=
  exists f, f ∈ fs /\ q_id f = i /\ P f.

(** Filters that are the same but for being active. *)
Definition same_parts (f g : QFilter) : Prop := with_active false f = with_active false g.
Definition same_list : list QFilter -> list QFilter -> Prop := Forall2 same_parts.

#[global] Instance same_parts_equiv : Equivalence same_parts.
Proof. unfold same_parts. split; congruence. Qed.

#[global] Instance same_list_equiv : Equivalence same_list.
Proof. unfold same_list. apply _. Qed.

Lemma same_parts_fields f g : same_parts f g ->
  q_id f = q_id g /\ q_type f = q_type g /\ q_attribute f = q_attribute g /\
  q_operator f = q_operator g /\ q_value f = q_value g.
Proof. destruct f, g. unfold same_parts, with_active; cbn. intros Hfg; injection Hfg as -> -> -> -> ->; auto. Qed.

#[global] Instance complete_proper : Proper (same_parts ==> iff) complete.
Proof. intros f g (_ & Ht & _ & Ho & Hv)%same_parts_fields. unfold complete. now rewrite Ht, Ho, Hv. Qed.
#[global] Instance pending_proper : Proper (same_parts ==> iff) pending.
Proof. intros f g (_ & Ht & _ & Ho & Hv)%same_parts_fields. unfold pending. now rewrite Ht, Ho, Hv. Qed.

Lemma same_complete a b : same_list a b -> Forall complete a -> Forall complete b.
Proof. induction 1 as [|f g a b Hfg _ IH]; [easy|]. rewrite !list.Forall_cons, Hfg. intros [? ?]; auto. Qed.

Lemma same_awaiting P fs gs :
  (forall f g, same_parts f g -> P f -> P g) -> same_list fs gs -> awaiting P fs -> awaiting P gs.
Proof.
  intros HP Hs (a & p & -> & Ha & Hp & HPp).
  apply Forall2_app_inv_l in Hs as (a' & p' & Haa & Hpp & ->).
  inversion Hpp as [|? q ? q' Hq Hnil]; subst. inversion Hnil; subst.
  exists a', q. split_and!; [easy|now apply (same_complete a)|now rewrite <- Hq|now apply (HP p)].
Qed.

(** What holds of a list whichever of its filters are active. *)
Definition stable (P : list QFilter -> Prop) : Prop := forall fs gs, same_list fs gs -> P fs -> P gs.

Lemma stable_no_pending : stable no_pending.
Proof. exact same_complete. Qed.
Lemma stable_awaiting_operator : stable awaiting_operator.
Proof. intros fs gs. apply same_awaiting. now intros f g (_ & _ & _ & -> & _)%same_parts_fields. Qed.
Lemma stable_awaiting_value : stable awaiting_value.
Proof. intros fs gs. apply same_awaiting. now intros f g (_ & _ & _ & -> & _)%same_parts_fields. Qed.
#[export] Hint Resolve stable_no_pending stable_awaiting_operator stable_awaiting_value : mc.
Lemma stable_shape : stable shape.
Proof. intros fs gs Hs [?|[?|?]]; [left|right; left|right; right]; eauto using stable_no_pending, stable_awaiting_operator, stable_awaiting_value. Qed.
Lemma stable_and P Q : stable P -> stable Q -> stable (fun fs => P fs /\ Q fs).
Proof. intros HP HQ fs gs Hs [? ?]. eauto. Qed.
#[export] Hint Resolve stable_shape stable_and : mc.

Lemma same_ids fs gs : same_list fs gs -> q_id <$> fs = q_id <$> gs.
Proof.
  induction 1 as [|f g fs gs Hfg _ IH]; [easy|]. rewrite !fmap_cons, IH.
  now destruct (same_parts_fields _ _ Hfg) as (-> & _).
Qed.

Lemma same_has i P fs gs :
  (forall f g, same_parts f g -> P f -> P g) -> same_list fs gs -> has i P fs -> has i P gs.
Proof.
  intros HP Hs (f & Hf & Hi & Hp).
  apply list_elem_of_lookup in Hf as [k Hk].
  destruct (Forall2_lookup_l _ _ _ _ _ Hs Hk) as (g & Hg & Hfg).
  exists g. split_and!; [now apply list_elem_of_lookup_2 in Hg| |now apply (HP f)].
  destruct (same_parts_fields _ _ Hfg) as (<- & _). easy.
Qed.

Lemma stable_has i : stable (has i complete).
Proof. intros fs gs. apply same_has. now intros f g ->. Qed.
#[export] Hint Resolve stable_has : mc.

Lemma same_refl fs : same_list fs fs.
Proof. induction fs; constructor; easy. Qed.

Lemma same_map (g : QFilter -> QFilter) fs : (forall f, same_parts f (g f)) -> same_list fs (g <$> fs).
Proof. intros Hg. induction fs; constructor; auto. Qed.

Lemma ue_same fs t : same_list fs (ue fs t).
Proof. apply same_map. intros f. destruct (negb (isPartial f)); [|easy]. now destruct f. Qed.

Lemma same_active fs t : same_list fs (with_active t <$> fs).
Proof. apply same_map. intros f. now destruct f. Qed.

Lemma awaiting_app P a p : Forall complete a -> pending p -> P p -> awaiting P (a ++ [p]).
Proof. now exists a, p. Qed.

Lemma shape_cases fs : shape fs ->
  exists a b, fs = a ++ b /\ Forall complete a /\ (b = [] \/ exists p, b = [p] /\ pending p).
Proof.
  intros [Hc|[(a & p & -> & Ha & Hp & _)|(a & p & -> & Ha & Hp & _)]].
  - exists fs, []. rewrite app_nil_r. split_and!; [easy..|now left].
  - exists a, [p]. split_and!; [easy..|right; now exists p].
  - exists a, [p]. split_and!; [easy..|right; now exists p].
Qed.

Lemma shape_intro a p : Forall complete a -> pending p -> shape (a ++ [p]).
Proof.
  intros Ha Hp. right. destruct (q_operator p) eqn:Ho; [right|left]; exists a, p; split_and!; try easy.
  now rewrite Ho.
Qed.

(** A map that keeps complete and partial filters what they are. *)
Lemma shape_map (g : QFilter -> QFilter) fs :
  (forall f, complete f -> complete (g f)) -> (forall f, pending f -> pending (g f) \/ complete (g f)) ->
  shape fs -> shape (g <$> fs).
Proof.
  intros Hc Hp (a & b & -> & Ha & Hb)%shape_cases. rewrite fmap_app.
  assert (Forall complete (g <$> a)) as Ha'.
  { rewrite Forall_fmap. eapply list.Forall_impl; [exact Ha|]. exact Hc. }
  destruct Hb as [->|(p & -> & Hpp)]; [left; rewrite app_nil_r; exact Ha'|].
  destruct (Hp p Hpp) as [Hq|Hq]; [now apply shape_intro|].
  left. apply Forall_app. split; [easy|]. now rewrite fmap_cons, list.Forall_singleton.
Qed.

Lemma complete_not_partial f : complete f -> isPartial f = false.
Proof. intros (Ht & _). unfold isPartial. now apply bool_decide_eq_false. Qed.
Lemma pending_partial f : pending f -> isPartial f = true.
Proof. intros (Ht & _). unfold isPartial. now apply bool_decide_eq_true. Qed.

Lemma completed_complete a : Forall complete a -> completed a = a.
Proof.
  induction 1 as [|f a Hf _ IH]; [easy|]. unfold completed in *. cbn.
  rewrite complete_not_partial by easy. cbn. now rewrite IH.
Qed.

Lemma completed_app a b : completed (a ++ b) = completed a ++ completed b.
Proof. apply List.filter_app. Qed.

Lemma completed_shape fs : shape fs -> Forall complete (completed fs).
Proof.
  intros (a & b & -> & Ha & Hb)%shape_cases. rewrite completed_app, completed_complete by easy.
  destruct Hb as [->|(p & -> & Hp)]; [now rewrite app_nil_r|].
  unfold completed; cbn. rewrite pending_partial by easy. cbn. now rewrite app_nil_r.
Qed.

(** ** Throwing *)

Lemma map_result_ok {A B} (f : A -> result B) (g : A -> B) l :
  (forall x, x ∈ l -> f x = Ok (g x)) -> map_result f l = Ok (g <$> l).
Proof.
  induction l as [|x l IH]; intros Hf; [easy|]. cbn [map_result].
  rewrite Hf by apply list_elem_of_here. cbn [rbind].
  rewrite IH by (intros y Hy; apply Hf; now apply elem_of_cons; right). easy.
Qed.

Definition filter_text (e : QFilter) : bytes :=
  match q_operator e, q_value e with
  | Some n, Some r =>
      if decide (c_value n = IS_EMPTY) then c_value (q_attribute e) ++ str "=" ++ in_quotes []
      else c_value (q_attribute e) ++
           (if decide (c_value n = IN) then RE else if decide (c_value n = NOT_IN) then NRE else c_value n) ++
           in_quotes (c_value r)
  | _, _ => []
  end.

Lemma matcher_text_complete f : complete f -> matcher_text f = Ok (filter_text f).
Proof.
  intros (_ & [o Ho] & [v Hv]). unfold matcher_text, filter_text. rewrite Ho, Hv.
  now destruct (decide (c_value o = IS_EMPTY)).
Qed.

Lemma matcher_texts fs :
  Forall complete (completed fs) -> map_result matcher_text (completed fs) = Ok (filter_text <$> completed fs).
Proof.
  intros Hs. apply map_result_ok. intros f Hf. apply matcher_text_complete.
  rewrite list.Forall_forall in Hs. auto.
Qed.

Lemma W_ok q fs : Forall complete (completed fs) -> exists q', W q fs = Ok q'.
Proof. intros Hs. unfold W. rewrite matcher_texts by easy. cbn [rbind]. now eexists. Qed.

Lemma completed_filter (P : QFilter -> bool) fs : completed (List.filter P fs) = List.filter P (completed fs).
Proof.
  unfold completed. induction fs as [|f fs IH]; cbn; [easy|].
  destruct (P f) eqn:HP, (negb (isPartial f)) eqn:Hp; cbn; rewrite ?HP, ?Hp, ?IH; easy.
Qed.

Lemma W_filter_ok q (P : QFilter -> bool) fs : shape fs -> exists q', W q (List.filter P fs) = Ok q'.
Proof.
  intros Hs%completed_shape. apply W_ok. rewrite completed_filter.
  rewrite list.Forall_forall in *. intros f Hf. apply Hs.
  now apply list_elem_of_In, List.filter_In, proj1, list_elem_of_In in Hf.
Qed.

(** ** Actions *)

Section Actions.
Context (Ak : nat -> bytes) (Ak_inj : Inj (=) (=) Ak).

(** What every action that computes the query leaves: the same filters up to being
    active, and the rest of the context as it was. *)
Lemma fe_ok e t : shape e ->
  exists c, fe Ak e t = Ok c /\ same_list e (filters c) /\ edition c = edition t /\ calls c = calls t.
Proof.
  intros Hs. unfold fe. destruct (W_ok (query t) e (completed_shape _ Hs)) as [q ->]. cbn [rbind].
  eexists. split; [reflexivity|]. cbn. split_and!; [|easy..].
  destruct (up_to_date Ak e t); [apply ue_same|apply same_refl].
Qed.

(** Ids were given out by [nanoid], and none twice. *)
Definition ids_ok (n : nat) (fs : list QFilter) : Prop :=
  NoDup (q_id <$> fs) /\ Forall (fun f => exists k, (k < n)%nat /\ q_id f = Ak k) fs.

Lemma ids_same n fs gs : q_id <$> fs = q_id <$> gs -> ids_ok n fs -> ids_ok n gs.
Proof.
  intros Hi [Hd Hf]. split; [now rewrite <- Hi|].
  rewrite list.Forall_forall in *. intros g Hg.
  assert (q_id g ∈ q_id <$> fs) as Hin by (rewrite Hi; now apply list_elem_of_fmap_2).
  apply list_elem_of_fmap in Hin as (f & -> & Hfin). auto.
Qed.

Lemma ids_sublist n fs gs : gs `sublist_of` fs -> ids_ok n fs -> ids_ok n gs.
Proof.
  intros Hs [Hd Hf]. split.
  - eapply sublist_NoDup; [exact Hd|]. now apply fmap_sublist.
  - rewrite list.Forall_forall in *. intros f Hin. apply Hf. now apply (elem_of_sublist gs).
Qed.

Lemma ids_map n g fs : (forall f, q_id (g f) = q_id f) -> ids_ok n fs -> ids_ok n (g <$> fs).
Proof.
  intros Hg. apply ids_same. rewrite <- list_fmap_compose. apply list_fmap_ext. intros i f _. now rewrite <- Hg.
Qed.

Lemma ids_has n fs f g : ids_ok n fs -> f ∈ fs -> g ∈ fs -> q_id f = q_id g -> f = g.
Proof.
  intros [Hd _] Hf Hg Hi.
  apply list_elem_of_lookup in Hf as [i Hf], Hg as [j Hg].
  assert (i = j) as ->; [|congruence].
  apply (NoDup_lookup _ i j (q_id f) Hd); rewrite list_lookup_fmap; [now rewrite Hf|now rewrite Hg, Hi].
Qed.

Lemma ids_snoc n fs p : ids_ok n fs -> q_id p = Ak n -> ids_ok (n + 1) (fs ++ [p]).
Proof.
  intros [Hd Hf] Hp. split.
  - rewrite fmap_app. apply list.NoDup_app. split_and!; [easy| |apply NoDup_singleton].
    intros i (f & -> & Hin)%list_elem_of_fmap Hi. apply list_elem_of_singleton in Hi.
    rewrite list.Forall_forall in Hf. destruct (Hf f Hin) as (k & Hk & Hfk).
    assert (k = n) by (apply Ak_inj; congruence). lia.
  - apply Forall_app. split; [|rewrite list.Forall_singleton; exists n; split; [lia|easy]].
    eapply list.Forall_impl; [exact Hf|]. intros f (k & Hk & Hfk). exists k. split; [lia|easy].
Qed.

(** [r] succeeds and leaves filters with [P], the edition [ed] and valid ids. *)
Definition leaves (r : result Context) (P : list QFilter -> Prop) (ed : option Edition) : Prop :=
  exists c, r = Ok c /\ P (filters c) /\ edition c = ed /\ ids_ok (calls c) (filters c).

Lemma fe_leaves e t P :
  shape e -> stable P -> P e -> ids_ok (calls t) e -> leaves (fe Ak e t) P (edition t).
Proof.
  intros Hs Hst HP Hi. destruct (fe_ok e t Hs) as (c & -> & Hsame & He & Hc).
  exists c. split_and!; [easy|now apply (Hst e)|easy|].
  rewrite Hc. now apply (ids_same _ e); [apply same_ids|].
Qed.

Lemma setFilterAttribute_leaves d c :
  no_pending (filters c) -> ids_ok (calls c) (filters c) ->
  leaves (setFilterAttribute Ak d c) awaiting_operator (edition c).
Proof.
  intros Hn Hi. eexists. split; [reflexivity|]. cbn. split_and!; [|easy|now apply ids_snoc].
  now apply awaiting_app.
Qed.

Lemma shape_snoc_partial fs f : shape fs -> f ∈ fs -> q_type f = partial ->
  exists a, fs = a ++ [f] /\ Forall complete a /\ pending f.
Proof.
  intros (a & b & -> & Ha & Hb)%shape_cases Hf Ht.
  assert (f ∉ a) as Hna.
  { intros Hin. rewrite list.Forall_forall in Ha. now destruct (Ha f Hin). }
  apply elem_of_app in Hf as [Hf|Hf]; [easy|].
  destruct Hb as [->|(p & -> & Hp)]; [now apply elem_of_nil in Hf|].
  apply list_elem_of_singleton in Hf as ->. now exists a.
Qed.

(** A map that changes the filter with one id only. *)
Lemma map_others n a p (g : QFilter -> QFilter) i :
  ids_ok n (a ++ [p]) -> q_id p = i -> (forall f, q_id f <> i -> g f = f) -> g <$> (a ++ [p]) = a ++ [g p].
Proof.
  intros [Hd _] Hp Hg. rewrite fmap_app in Hd. rewrite fmap_app, fmap_cons. f_equal.
  apply list.NoDup_app in Hd as (_ & Hd & _).
  rewrite <- (list_fmap_id a) at 2. apply list_fmap_ext. intros k f Hf. apply Hg.
  change (q_id f <> i). intros Hi. apply (Hd (q_id f)); [apply list_elem_of_fmap_2; now apply list_elem_of_lookup_2 in Hf|].
  rewrite Hi, <- Hp. apply list_elem_of_here.
Qed.

Lemma editFilterAttribute_leaves d c ed :
  edition c = Some ed -> shape (filters c) -> ids_ok (calls c) (filters c) ->
  has (filterId ed) (fun f => q_type f = partial) (filters c) ->
  leaves (editFilterAttribute Ak d c) awaiting_operator None.
Proof.
  intros He Hs Hi (f & Hf & Hfi & Ht). unfold editFilterAttribute. rewrite He.
  eexists. split; [reflexivity|]. cbn [filters edition calls set_edition set_filters].
  split_and!; [|easy|].
  - destruct (shape_snoc_partial _ _ Hs Hf Ht) as (a & Ha & Hc & Hp). rewrite Ha in *.
    rewrite (map_others (calls c) a f _ (filterId ed)); [|easy|easy|].
    + apply awaiting_app; [easy| |]; rewrite decide_True by easy; [|easy].
      destruct Hp as (Hp1 & _). repeat split; easy.
    + intros g Hg. now rewrite decide_False.
  - apply ids_map; [|easy]. intros g. now case_decide.
Qed.

(** The partial filter is mapped, the others are not. *)
Lemma map_partial P fs (g : QFilter -> QFilter) :
  awaiting P fs -> (forall f, isPartial f = false -> g f = f) ->
  exists a p, fs = a ++ [p] /\ Forall complete a /\ pending p /\ P p /\ g <$> fs = a ++ [g p].
Proof.
  intros (a & p & -> & Ha & Hp & HP) Hg. exists a, p. split_and!; try easy.
  rewrite fmap_app, fmap_cons. f_equal. rewrite <- (list_fmap_id a) at 2.
  apply list_fmap_ext. intros k f Hf%list_elem_of_lookup_2. apply Hg.
  rewrite list.Forall_forall in Ha. now apply complete_not_partial, Ha.
Qed.

Lemma no_pending_snoc a f : Forall complete a -> complete f -> no_pending (a ++ [f]).
Proof. intros Ha Hf. apply Forall_app. split; [easy|now rewrite list.Forall_singleton]. Qed.

Lemma Q_complete f : complete (Q f).
Proof. repeat split; [easy|now eexists..]. Qed.

Definition operator_post (d : Choice) (fs : list QFilter) : Prop :=
  (if decide (c_value d = IS_EMPTY) then no_pending fs else awaiting_value fs) /\ fs <> [].

Lemma stable_nonempty : stable (fun fs => fs <> []).
Proof. intros fs gs Hs Hn ->. now inversion Hs; subst. Qed.

Lemma setFilterOperator_leaves d c :
  awaiting_operator (filters c) -> ids_ok (calls c) (filters c) ->
  leaves (setFilterOperator Ak d c) (operator_post d) (edition c).
Proof.
  intros Ha Hi. unfold setFilterOperator. set (g := fun f => _).
  assert (forall f, isPartial f = false -> g f = f) as Hg.
  { intros f Hf. unfold g. now rewrite Hf. }
  assert (operator_post d (g <$> filters c)) as Hpost.
  { destruct (map_partial _ _ g Ha Hg) as (a & p & _ & Hc & Hp & _ & ->).
    unfold operator_post. split; [|now destruct a].
    unfold g. rewrite pending_partial by easy. cbn [negb].
    case_decide; [apply no_pending_snoc; [easy|apply Q_complete]|].
    apply awaiting_app; [easy| |easy]. destruct Hp as (Hp & _). repeat split; [easy|].
    now intros o [= <-]. }
  apply fe_leaves; [| |exact Hpost|].
  - destruct Hpost as [Hpost _]. unfold shape. case_decide; auto.
  - apply stable_and; [|apply stable_nonempty]. case_decide; auto with mc.
  - apply ids_map; [|easy]. intros f. unfold g. now destruct (isPartial f); [case_decide|].
Qed.

Lemma setFilterValue_leaves d c :
  awaiting_value (filters c) -> ids_ok (calls c) (filters c) ->
  leaves (setFilterValue Ak d c) no_pending (edition c).
Proof.
  intros Ha Hi. unfold setFilterValue. set (g := fun f => _).
  assert (forall f, isPartial f = false -> g f = f) as Hg.
  { intros f Hf. unfold g. now rewrite Hf. }
  assert (no_pending (g <$> filters c)) as Hpost.
  { destruct (map_partial _ _ g Ha Hg) as (a & p & _ & Hc & Hp & Ho & ->).
    apply no_pending_snoc; [easy|]. unfold g. rewrite pending_partial by easy.
    repeat split; [easy| |now eexists].
    change (is_Some (q_operator p)). destruct (q_operator p); [now eexists|easy]. }
  apply fe_leaves; [now left|auto with mc|exact Hpost|].
  apply ids_map; [|easy]. intros f. unfold g. now destruct (isPartial f).
Qed.

Lemma has_map i P R (g : QFilter -> QFilter) fs :
  (forall f, q_id (g f) = q_id f) -> (forall f, q_id f = i -> P f -> R (g f)) ->
  has i P fs -> has i R (g <$> fs).
Proof.
  intros Hg HR (f & Hf & Hi & Hp). exists (g f).
  split_and!; [now apply list_elem_of_fmap_2|now rewrite Hg|auto].
Qed.

Lemma editFilterValue_leaves d c ed :
  edition c = Some ed -> shape (filters c) -> ids_ok (calls c) (filters c) ->
  has (filterId ed) complete (filters c) ->
  leaves (editFilterValue Ak d c) (fun fs => shape fs /\ has (filterId ed) complete fs) None.
Proof.
  intros He Hs Hi Hh. unfold editFilterValue. rewrite He. set (g := fun f => _).
  assert (forall f, q_id (g f) = q_id f) as Hg.
  { intros f. unfold g. now case_decide. }
  assert (has (filterId ed) complete (g <$> filters c)) as Hh'.
  { eapply (has_map _ _ _ _ _ Hg); [|exact Hh]. intros f Hf (_ & Ho & _).
    unfold g. rewrite decide_True by easy. repeat split; [easy|easy|now eexists]. }
  assert (shape (g <$> filters c)) as Hs'.
  { destruct Hh as (f0 & Hf0 & Hfi & Hfc).
    assert (forall f, f ∈ filters c -> q_type f = partial -> g f = f) as Hp.
    { intros f Hf Hfp. unfold g. rewrite decide_False; [easy|]. intros Hid.
      rewrite (ids_has _ _ f f0 Hi Hf Hf0) in Hfp by congruence. now destruct Hfc. }
    destruct (shape_cases _ Hs) as (a & b & Hab & Ha & Hb). rewrite Hab in *. rewrite fmap_app.
    assert (Forall complete (g <$> a)) as Ha'.
    { rewrite Forall_fmap. eapply list.Forall_impl; [exact Ha|]. intros f (Ht & Ho & Hv).
      unfold g. cbn. case_decide; [|easy]. repeat split; [easy|easy|now eexists]. }
    destruct Hb as [->|(p & -> & Hpp)]; [left; now rewrite app_nil_r|].
    rewrite fmap_cons, (Hp p); [now apply shape_intro| |now destruct Hpp].
    apply elem_of_app. right. apply list_elem_of_here. }
  destruct (fe_leaves (g <$> filters c) c (fun fs => shape fs /\ has (filterId ed) complete fs))
    as (c' & -> & Hc' & _ & Hi'); [easy|auto with mc|easy|now apply ids_map|].
  cbn [rbind]. eexists. split; [reflexivity|]. cbn. auto.
Qed.

Lemma removeFilter_leaves i c :
  ids_ok (calls c) (filters c) -> shape (filters c) ->
  has i (fun f => q_type f <> partial) (filters c) ->
  leaves (removeFilter_ Ak i c)
    (fun fs => shape fs /\ (hasPartialFilter c = true -> fs <> [])) (edition c).
Proof.
  intros Hi Hs (f0 & Hf0 & Hfi & Hft). unfold removeFilter_. set (r := List.filter _ _).
  assert (r `sublist_of` filters c) as Hsub.
  { unfold r. clear. induction (filters c) as [|f fs IH]; cbn; [constructor|].
    case_match; now constructor. }
  assert (shape r /\ (hasPartialFilter c = true -> r <> [])) as Hr.
  { destruct (shape_cases _ Hs) as (a & b & Hab & Ha & Hb). unfold r, hasPartialFilter, J. rewrite Hab in *.
    rewrite List.filter_app.
    assert (Forall complete (List.filter (fun f => negb (bool_decide (q_id f = i))) a)) as Ha'.
    { rewrite list.Forall_forall in *. intros f Hf. apply Ha. now apply list_elem_of_In, List.filter_In, proj1, list_elem_of_In in Hf. }
    destruct Hb as [->|(p & -> & Hpp)].
    - rewrite app_nil_r. split; [now left|]. rewrite app_nil_r. intros Hl.
      destruct (list.last a) as [t|] eqn:Hla; [|easy]. apply last_Some_elem_of in Hla.
      rewrite list.Forall_forall in Ha. rewrite (complete_not_partial t (Ha t Hla)) in Hl. discriminate.
    - cbn [List.filter]. rewrite bool_decide_eq_false_2; [cbn [negb]; split; [now apply shape_intro|intros _; now destruct (List.filter _ a)]|].
      intros Hid. apply Hft. replace f0 with p; [now destruct Hpp|].
      apply (ids_has _ _ _ _ Hi); [apply elem_of_app; right; apply list_elem_of_here|easy|congruence]. }
  destruct Hr as [Hr1 Hr2].
  apply fe_leaves.
  - now apply (stable_shape r), Hr1; apply ue_same.
  - intros fs gs Hfg [H1 H2]. split; [now apply (stable_shape fs)|]. intros Hp ->.
    inversion Hfg; subst. now apply H2.
  - split; [now apply (stable_shape r), Hr1; apply ue_same|]. intros Hp Hu. apply (Hr2 Hp).
    now apply fmap_nil_inv in Hu.
  - apply (ids_same _ r); [apply same_ids, ue_same|]. now apply (ids_sublist _ (filters c)).
Qed.

Lemma activateFilters_leaves c :
  shape (filters c) -> ids_ok (calls c) (filters c) -> leaves (activateFilters Ak c) shape (edition c).
Proof. intros Hs Hi. now apply fe_leaves; [|auto with mc|..]. Qed.

Lemma removelast_snoc (a : list QFilter) p : removelast (a ++ [p]) = a.
Proof. rewrite List.removelast_app by discriminate. apply app_nil_r. Qed.

(** Dropping the last filter, from a list without a partial filter or one that awaits
    its operator. *)
Lemma drop_last_leaves fs c :
  (fs = [] \/ exists a p, fs = a ++ [p] /\ Forall complete a /\ (isPartial p = false \/ q_operator p = None)) ->
  filters c = fs -> ids_ok (calls c) fs -> leaves (removeLastFilter Ak c) no_pending (edition c).
Proof.
  unfold removeLastFilter, J. intros [->|(a & p & -> & Ha & Hp)] Hf Hi; rewrite Hf.
  - exists c. rewrite Hf. split_and!; [easy|apply Forall_nil; exact Logic.I|easy|exact Hi].
  - rewrite last_snoc, removelast_snoc.
    assert (leaves (fe Ak (with_active false <$> a) c) no_pending (edition c)) as Hl.
    { assert (no_pending (with_active false <$> a)) as Hn
        by now apply (stable_no_pending a); [apply same_active|].
      apply fe_leaves; [now left|auto with mc|easy|].
      apply ids_map; [easy|]. eapply ids_sublist; [|exact Hi]. now apply sublist_inserts_r. }
    destruct Hp as [->| ->]; [easy|]. now destruct (isPartial p).
Qed.

Lemma removeLastFilter_none c :
  no_pending (filters c) -> ids_ok (calls c) (filters c) ->
  leaves (removeLastFilter Ak c) no_pending (edition c).
Proof.
  intros Hn Hi. apply (drop_last_leaves (filters c)); [|easy..].
  destruct (filters c) as [|f fs _] using rev_ind; [now left|right].
  apply Forall_app in Hn as [Ha Hf]. exists fs, f. split_and!; [easy..|].
  left. apply complete_not_partial. now inversion Hf.
Qed.

Lemma removeLastFilter_operator c :
  awaiting_operator (filters c) -> ids_ok (calls c) (filters c) ->
  leaves (removeLastFilter Ak c) no_pending (edition c).
Proof.
  intros (a & p & Hf & Ha & Hp & Ho) Hi. apply (drop_last_leaves (filters c)); [|easy..].
  right. exists a, p. auto.
Qed.

Lemma removeLastFilter_value c :
  awaiting_value (filters c) -> ids_ok (calls c) (filters c) ->
  leaves (removeLastFilter Ak c) awaiting_operator (edition c).
Proof.
  intros (a & p & Hf & Ha & Hp & Ho) Hi. unfold removeLastFilter, J.
  rewrite Hf, last_snoc, pending_partial by easy. destruct (q_operator p) as [o|] eqn:Hop; [|easy].
  eexists. split; [reflexivity|]. cbn [filters edition calls set_filters]. rewrite removelast_snoc.
  split_and!; [|easy|].
  - apply awaiting_app; [easy| |easy]. destruct Hp as (Hp1 & Hp2 & _). repeat split; easy.
  - eapply ids_same; [|exact Hi]. now rewrite Hf, !fmap_app.
Qed.

Lemma read_complete i m : complete (read_filter i m).
Proof.
  destruct m as [[e t] n]. unfold read_filter.
  case_decide; [apply Q_complete|]. case_decide; repeat split; (easy || now eexists).
Qed.

Lemma read_id i m : q_id (read_filter i m) = i.
Proof. destruct m as [[e t] n]. unfold read_filter. now repeat case_decide. Qed.

Lemma se_ok n q : no_pending (se Ak n q) /\ ids_ok (n + length (query_matchers q)) (se Ak n q).
Proof.
  unfold se. set (ms := query_matchers q).
  assert (forall k f, imap (fun i => read_filter (Ak (n + i))) ms !! k = Some f ->
            (k < length ms)%nat /\ complete f /\ q_id f = Ak (n + k)%nat) as Hl.
  { intros k f. rewrite list_lookup_imap. destruct (ms !! k) as [m|] eqn:Hk; [|easy].
    cbn. intros [= <-]. apply lookup_lt_Some in Hk. split_and!; [easy|apply read_complete|apply read_id]. }
  split; [|split].
  - apply list.Forall_forall. intros f [k Hk]%list_elem_of_lookup. now destruct (Hl k f Hk).
  - apply list.NoDup_alt. intros i j x. rewrite !list_lookup_fmap.
    intros (f & Hf & ->)%fmap_Some (g & Hg & Hfg)%fmap_Some.
    destruct (Hl i f Hf) as (_ & _ & Hi), (Hl j g Hg) as (_ & _ & Hj).
    assert (n + i = n + j)%nat by (apply Ak_inj; congruence). lia.
  - apply list.Forall_forall. intros f [k Hk]%list_elem_of_lookup.
    destruct (Hl k f Hk) as (Hlt & _ & ->). exists (n + k)%nat. split; [lia|easy].
Qed.

Lemma changeInputParams_leaves d c :
  leaves (changeInputParams Ak d c) no_pending (edition c).
Proof. eexists. split; [reflexivity|]. destruct (se_ok (calls c) (p_query d)). easy. Qed.

(** ** Editing an operator *)

Definition settled (fs : list QFilter) : Prop := no_pending fs \/ awaiting_value fs.
Lemma stable_settled : stable settled.
Proof.
  intros fs gs Hs [?|?]; [left|right]; eauto using stable_no_pending, stable_awaiting_value.
Qed.
Lemma settled_shape fs : settled fs -> shape fs.
Proof. intros [?|?]; [now left|now right; right]. Qed.

Lemma settled_operator fs f : settled fs -> f ∈ fs -> exists o, q_operator f = Some o.
Proof.
  intros Hs Hf. assert (forall a, Forall complete a -> f ∈ a -> exists o, q_operator f = Some o) as Hc.
  { intros a Ha Hin. rewrite list.Forall_forall in Ha. now destruct (Ha f Hin) as (_ & [o ?] & _); exists o. }
  destruct Hs as [Hn|(a & p & -> & Ha & _ & Hp)]; [now apply (Hc fs)|].
  apply elem_of_app in Hf as [Hf|Hf%list_elem_of_singleton]; [now apply (Hc a)|]. subst f.
  destruct (q_operator p); [now eexists|easy].
Qed.

Lemma ee_empty a : ee a IS_EMPTY = false.
Proof. unfold ee. now rewrite andb_false_r. Qed.
Lemma ee_same a : ee a a = false.
Proof. unfold ee. now rewrite bool_decide_eq_true_2. Qed.

Lemma change_complete a r t : complete t -> complete (change_operator a r t).
Proof.
  intros (Ht & Ho & [v Hv]). unfold change_operator. case_decide; [apply Q_complete|].
  split; [exact Ht|split; [now exists r|]].
  cbn [q_value with_op with_val with_active]. rewrite Hv.
  destruct (decide (a = IS_EMPTY)), (X a && negb (X (c_value r))); eexists; reflexivity.
Qed.

Lemma change_pending o r t :
  pending t -> q_operator t = Some o ->
  if decide (c_value r = IS_EMPTY) then complete (change_operator (c_value o) r t)
  else pending (change_operator (c_value o) r t) /\ q_operator (change_operator (c_value o) r t) <> None.
Proof.
  intros (Ht & Hv & Ho) Hop. unfold change_operator. case_decide; [apply Q_complete|].
  rewrite (decide_False (P := c_value o = IS_EMPTY)) by now apply Ho.
  split; [|easy]. split_and!; [exact Ht| |].
  - cbn. rewrite Hv. now destruct (_ && _).
  - now intros o' [= <-].
Qed.

(** What the action makes of each filter, when all have operators. *)
Definition edited_operator (n : bytes) (r : Choice) (t : QFilter) : QFilter :=
  match edit_operator n r t with Ok t' => t' | _ => t end.

Lemma edited_operator_eq n r t :
  edited_operator n r t = t \/
  exists o, q_operator t = Some o /\ q_id t = n /\ edited_operator n r t = change_operator (c_value o) r t.
Proof.
  unfold edited_operator, edit_operator. destruct (q_operator t) as [o|] eqn:Ho; [|now left].
  case_decide as Hd; [now left|]. right. exists o.
  split_and!; [easy|destruct (decide (q_id t = n)); [easy|tauto]|easy].
Qed.

Lemma edited_id n r t : q_id (edited_operator n r t) = q_id t.
Proof.
  destruct (edited_operator_eq n r t) as [->|(o & _ & _ & ->)]; [easy|].
  unfold change_operator. now case_decide.
Qed.

Lemma edited_complete n r t : complete t -> complete (edited_operator n r t).
Proof.
  intros Ht. destruct (edited_operator_eq n r t) as [->|(o & _ & _ & ->)]; [easy|now apply change_complete].
Qed.

Lemma edited_settled n r fs : settled fs -> settled (edited_operator n r <$> fs).
Proof.
  intros Hs. assert (forall a, Forall complete a -> Forall complete (edited_operator n r <$> a)) as Hc.
  { intros a Ha. rewrite Forall_fmap. eapply list.Forall_impl; [exact Ha|]. apply edited_complete. }
  destruct Hs as [Hn|(a & p & -> & Ha & Hp & Hop)]; [left; now apply Hc|].
  rewrite fmap_app, fmap_cons.
  destruct (edited_operator_eq n r p) as [->|(o & Ho & _ & ->)]; [right; apply awaiting_app; auto|].
  pose proof (change_pending o r p Hp Ho) as Hch. case_decide.
  - left. apply no_pending_snoc; auto.
  - right. destruct Hch. apply awaiting_app; auto.
Qed.

Lemma existsb_one {A} (P : A -> bool) l x :
  x ∈ l -> (forall y, y ∈ l -> P y = true -> y = x) -> existsb P l = P x.
Proof.
  intros Hx Hu. destruct (P x) eqn:Hp.
  - apply existsb_exists. exists x. now rewrite <- list_elem_of_In.
  - apply not_true_iff_false. intros (y & Hy & Hpy)%existsb_exists.
    apply list_elem_of_In in Hy. rewrite (Hu y Hy Hpy) in Hpy. congruence.
Qed.

(** The filter under edition after the edit: still complete; or still partial, and then
    with an operator. *)
Definition edit_post (n : bytes) (f : QFilter) (next : bool) (fs : list QFilter) : Prop :=
  settled fs /\ fs <> [] /\ (isPartial f = false -> has n complete fs) /\
  (isPartial f = true -> next = true -> awaiting_value fs).

Lemma stable_edit_post n f next : stable (edit_post n f next).
Proof.
  intros fs gs Hs (H1 & H2 & H3 & H4). split_and!.
  - now apply (stable_settled fs).
  - intros ->. inversion Hs; subst. easy.
  - intros Hf. now apply (stable_has n fs); auto.
  - intros Hf Hn. now apply (stable_awaiting_value fs); auto.
Qed.

Lemma editFilterOperator_leaves r c ed f o :
  edition c = Some ed -> settled (filters c) -> ids_ok (calls c) (filters c) ->
  f ∈ filters c -> q_id f = filterId ed -> q_operator f = Some o ->
  leaves (editFilterOperator Ak r c) (edit_post (filterId ed) f (ee (c_value o) (c_value r)))
    (if negb (isPartial f) && ee (c_value o) (c_value r)
     then Some {| filterId := filterId ed; part := Pvalue |} else None).
Proof.
  intros He Hs Hi Hf Hid Ho. unfold editFilterOperator. rewrite He.
  rewrite (map_result_ok _ (edited_operator (filterId ed) r)).
  2:{ intros g Hg. destruct (settled_operator _ g Hs Hg) as [og Hog].
      unfold edited_operator, edit_operator. rewrite Hog. now case_decide. }
  cbn [rbind].
  assert (existsb (needs_value (filterId ed) r) (filters c) =
          negb (isPartial f) && ee (c_value o) (c_value r)) as ->.
  { rewrite (existsb_one _ _ f Hf).
    - unfold needs_value. rewrite Ho.
      destruct (ee (c_value o) (c_value r)) eqn:Hee; [|now rewrite !andb_false_r].
      rewrite !bool_decide_eq_false_2; [now rewrite !andb_true_r| |].
      + intros Hn. revert Hee. now rewrite Hn, ee_empty.
      + intros [Hn|Hn]; [easy|]. revert Hee. now rewrite Hn, ee_same.
    - intros g Hg Hn. apply (ids_has _ _ _ _ Hi); [easy..|]. rewrite Hid.
      unfold needs_value in Hn. destruct (q_operator g); [|easy].
      apply andb_true_iff in Hn as [Hn _]. apply negb_true_iff, bool_decide_eq_false in Hn.
      destruct (decide (q_id g = filterId ed)); [easy|]. tauto. }
  set (fs' := edited_operator (filterId ed) r <$> filters c).
  assert (edit_post (filterId ed) f (ee (c_value o) (c_value r)) fs') as Hp.
  { split_and!.
    - now apply edited_settled.
    - intros Hn%fmap_nil_inv. rewrite Hn in Hf. now apply elem_of_nil in Hf.
    - intros Hpart. apply (has_map _ complete); [apply edited_id|intros; now apply edited_complete|].
      exists f. split_and!; [easy..|].
      destruct Hs as [Hn|(a & p & Hfs & Ha & Hp & _)].
      + unfold no_pending in Hn. rewrite list.Forall_forall in Hn. auto.
      + rewrite Hfs in Hf. apply elem_of_app in Hf as [Hf|Hf%list_elem_of_singleton].
        * rewrite list.Forall_forall in Ha. auto.
        * subst f. rewrite pending_partial in Hpart; easy.
    - intros Hpart Hee. unfold fs'.
      destruct (shape_snoc_partial _ f (settled_shape _ Hs) Hf) as (a & Hfs & Ha & Hpe).
      { now apply bool_decide_eq_true in Hpart. }
      rewrite Hfs in *. rewrite (map_others (calls c) a f _ (filterId ed)); [|easy..|].
      + pose proof (change_pending o r f Hpe Ho) as Hch.
        unfold edited_operator, edit_operator. rewrite Ho.
        rewrite !decide_False in *; [|intros Hn; revert Hee; now rewrite Hn, ee_empty|].
        * destruct Hch. now apply awaiting_app.
        * intros [Hn|Hn]; [easy|]. revert Hee. now rewrite Hn, ee_same.
      + intros g Hg. destruct (edited_operator_eq (filterId ed) r g) as [Hg'|(? & _ & ? & _)]; easy. }
  destruct (fe_leaves fs' c _ (settled_shape _ (proj1 Hp)) (stable_edit_post _ _ _) Hp) as (c' & -> & Hc & _ & Hi').
  { now apply ids_map; [intros; apply edited_id|]. }
  cbn [rbind]. eexists. split; [reflexivity|]. cbn. auto.
Qed.
End Actions.
