(* ===== verification/QuerySafety.v ===== *)
(** * The query builder's state machine: what its states rely on

    [fits] is what each state relies on, [ready] what entering it needs, [sound] the
    invariant of the machine.  Each event the page offers is one lemma per state; the one
    event that throws is [edits_while_awaiting]. *)

From S2P Require Import Prelude JavaScript Regex.
From S2P Require Import LogQL.
From S2P Require Import Filters.
From S2P Require Import QueryBuilder.
From S2P Require Import QueryMachine QueryMachineCorrect.

Section Safety.
Context (Ak : nat -> bytes) (Ak_inj : Inj (=) (=) Ak).

Definition ready (s : QState) (c : Context) : Prop :=
  let fs := filters c in
  match s, edition c with
  | idle, _ => shape fs
  | (loadLabels | displayLabels), None => no_pending fs
  | (loadLabels | displayLabels), Some ed =>
      shape fs /\ has (filterId ed) (fun f => q_type f = partial) fs
  | (loadOperators | displayOperators), None => awaiting_operator fs
  | (loadOperators | displayOperators), Some ed =>
      shape fs /\ has (filterId ed) (fun f => q_operator f <> None) fs
  | (loadLabelValues | displayLabelValues), None => awaiting_value fs
  | (loadLabelValues | displayLabelValues), Some ed => shape fs /\ has (filterId ed) complete fs
  | autoSuggestProxy, None => shape fs /\ fs <> []
  | autoSuggestProxy, Some _ => False
  end.

Definition sound (p : QState * Context) : Prop :=
  ready p.1 p.2 /\ ids_ok Ak (calls p.2) (filters p.2) /\ (p.1 = idle -> edition p.2 = None) /\
  p.1 <> autoSuggestProxy.

(** What an action leaves is what entering the target needs. *)
Definition prepares (r : result Context) (s : QState) : Prop :=
  exists c, r = Ok c /\ ready s c /\ ids_ok Ak (calls c) (filters c).

Lemma leaves_prepares r P ed s :
  (forall c, P (filters c) -> edition c = ed -> ready s c) -> leaves Ak r P ed -> prepares r s.
Proof. intros HP (c & -> & Hc & He & Hi). exists c. auto. Qed.

Lemma has_find i P c :
  ids_ok Ak (calls c) (filters c) -> has i P (filters c) ->
  exists f, List.find (fun f => bool_decide (q_id f = i)) (filters c) = Some f /\
            f ∈ filters c /\ q_id f = i /\ P f.
Proof.
  intros Hi (f & Hf & Hid & HP).
  destruct (List.find _ (filters c)) as [g|] eqn:Hfind.
  - apply List.find_some in Hfind as [Hg Hgi]. apply list_elem_of_In in Hg.
    apply bool_decide_eq_true in Hgi.
    assert (g = f) as -> by (apply (ids_has Ak _ _ _ _ Hi); congruence).
    now exists f.
  - apply (List.find_none _ _) with (x := f) in Hfind; [|now apply list_elem_of_In].
    now apply bool_decide_eq_false in Hfind.
Qed.

Lemma ge_has c ed P :
  edition c = Some ed -> ids_ok Ak (calls c) (filters c) -> has (filterId ed) P (filters c) ->
  exists f, ge c = Ok f /\ f ∈ filters c /\ q_id f = filterId ed /\ P f.
Proof.
  intros He Hi Hh. destruct (has_find _ _ _ Hi Hh) as (f & Hf & Hr).
  exists f. split; [|easy]. unfold ge. now rewrite He, Hf.
Qed.

Lemma target_ok c s :
  s = loadLabelValues \/ s = displayLabelValues -> ready s c -> ids_ok Ak (calls c) (filters c) ->
  exists f o, target_operator c = Ok (f, o).
Proof.
  intros Hs Hr Hi. unfold target_operator.
  assert (match edition c with
          | None => awaiting_value (filters c)
          | Some ed => shape (filters c) /\ has (filterId ed) complete (filters c)
          end) as Hr' by now destruct Hs as [-> | ->].
  destruct (edition c) as [ed|] eqn:He.
  - destruct (ge_has c ed _ He Hi (proj2 Hr')) as (f & -> & _ & _ & (_ & [o Ho] & _)).
    cbn [rbind]. rewrite Ho. eauto.
  - destruct Hr' as (a & p & -> & _ & _ & Ho). unfold J. rewrite last_snoc. cbn [rbind].
    destruct (q_operator p) as [o|]; [eauto|easy].
Qed.

(** Entering a state changes the suggestions, and in [idle] ends the edition. *)
Lemma entry_ok s c :
  ready s c -> ids_ok Ak (calls c) (filters c) ->
  exists c', entry s c = Ok c' /\ filters c' = filters c /\ query c' = query c /\
    inputParams c' = inputParams c /\ isQueryUpToDate c' = isQueryUpToDate c /\ calls c' = calls c /\
    edition c' = match s with idle => None | _ => edition c end.
Proof.
  intros Hr Hi.
  assert (forall g : Suggestions, exists c',
    @Ok Context (set_suggestions g c) = Ok c' /\ filters c' = filters c /\ query c' = query c /\
    inputParams c' = inputParams c /\ isQueryUpToDate c' = isQueryUpToDate c /\ calls c' = calls c /\
    edition c' = edition c) as Hset by (intros g; eexists; split; [reflexivity|easy]).
  destruct s; try exact (Hset _).
  - unfold entry, enter_idle. case_match.
    eexists. split; [reflexivity|easy].
  - cbn [entry]. unfold enter_loadLabelValues.
    destruct (target_ok c loadLabelValues) as (f & o & ->); [auto..|]. exact (Hset _).
  - cbn [entry]. unfold enter_displayLabelValues.
    destruct (target_ok c displayLabelValues) as (f & o & ->); [auto..|]. exact (Hset _).
  - now exists c.
Qed.

Lemma ready_fields s c c' :
  filters c' = filters c -> edition c' = match s with idle => None | _ => edition c end ->
  ready s c -> ready s c'.
Proof. intros Hf He. unfold ready. rewrite Hf, He. now destruct s. Qed.

(** Arriving at a state: the promise [take] keeps. *)
Definition arrives (r : result (QState * Context)) (s : QState) : Prop :=
  exists c, r = Ok (s, c) /\ ready s c /\ ids_ok Ak (calls c) (filters c) /\
    (s = idle -> edition c = None).

Lemma take_ok g s a c : prepares (a c) s -> arrives (take {| guard := g; target := s; action := a |} c) s.
Proof.
  intros (c1 & Ha & Hr & Hi). unfold take. cbn [action target]. rewrite Ha. cbn [rbind].
  destruct (entry_ok s c1 Hr Hi) as (c2 & -> & Hf & _ & _ & _ & Hc & He). cbn [rbind].
  exists c2. split_and!; [easy|now apply (ready_fields s c1)|now rewrite Hf, Hc|].
  intros ->. easy.
Qed.

Lemma arrives_sound r s : arrives r s -> s <> autoSuggestProxy -> exists p, r = Ok p /\ sound p.
Proof. intros (c & -> & Hr & Hi & He) Hs. exists (s, c). split; [easy|]. now split_and!. Qed.

Lemma settle_other s c : s <> autoSuggestProxy -> settle (s, c) = Ok (s, c).
Proof. intros Hs. now destruct s. Qed.

(** What the guards see of the last filter. *)
Lemma last_filter fs : shape fs ->
  fs = [] \/
  (no_pending fs /\ exists f o v, list.last fs = Some f /\ isPartial f = false /\
     q_operator f = Some o /\ q_value f = Some v) \/
  (awaiting_operator fs /\ exists f, list.last fs = Some f /\ isPartial f = true /\ q_operator f = None) \/
  (awaiting_value fs /\ exists f o, list.last fs = Some f /\ isPartial f = true /\
     q_operator f = Some o /\ q_value f = None).
Proof.
  intros [Hn|[Hw|Hw]].
  - destruct fs as [|f fs _] using rev_ind; [now left|]. right; left. split; [exact Hn|].
    apply Forall_app in Hn as [_ Hf]. inversion Hf as [|? ? Hc _]; subst.
    pose proof (complete_not_partial f Hc) as Hp. destruct Hc as (_ & [o Ho] & [v Hv]).
    exists f, o, v. now rewrite last_snoc.
  - right; right; left. split; [exact Hw|]. destruct Hw as (a & p & -> & _ & Hp & Ho).
    exists p. now rewrite last_snoc, pending_partial.
  - right; right; right. split; [exact Hw|]. destruct Hw as (a & p & -> & _ & Hp & Ho).
    destruct (q_operator p) as [o|] eqn:Hop; [|easy]. exists p, o.
    rewrite last_snoc, pending_partial by easy. now destruct Hp as (_ & -> & _).
Qed.

(** From the proxy the machine goes on to what the last filter lacks. *)
Lemma settle_proxy c :
  ready autoSuggestProxy c -> ids_ok Ak (calls c) (filters c) ->
  exists p, settle (autoSuggestProxy, c) = Ok p /\ sound p.
Proof.
  intros Hr Hi. unfold ready in Hr. destruct (edition c) as [ed|] eqn:He; [easy|].
  destruct Hr as [Hs Hne]. unfold settle. cbn [fst snd always choose go_if go guard].
  assert (forall s, ready s c -> prepares (@Ok Context c) s) as Hp by (intros s Hr; now exists c).
  destruct (last_filter _ Hs) as
    [Hnil|[(Hn & f & o & v & Hl & _ & Ho & Hv)|[(Hw & f & Hl & _ & Ho)|(Hw & f & o & Hl & _ & Ho & Hv)]]];
    [easy|unfold shouldSuggestOperators, shouldSuggestValues, J; rewrite Hl, Ho, ?Hv; cbn [rbind]..].
  - apply (arrives_sound _ idle); [|easy]. apply take_ok, Hp. now left.
  - apply (arrives_sound _ loadOperators); [|easy]. apply take_ok, Hp. unfold ready. now rewrite He.
  - apply (arrives_sound _ loadLabelValues); [|easy]. apply take_ok, Hp. unfold ready. now rewrite He.
Qed.

(** A transition whose action prepares its target keeps the invariant. *)
Lemma taken g s a c :
  prepares (a c) s ->
  exists p, (let* p' := take {| guard := g; target := s; action := a |} c in settle p') = Ok p /\ sound p.
Proof.
  intros Hp. destruct (take_ok g s a c Hp) as (c' & -> & Hr & Hi & He). cbn [rbind].
  destruct (decide (s = autoSuggestProxy)) as [->|Hs]; [now apply settle_proxy|].
  rewrite settle_other by easy. exists (s, c'). split; [easy|]. now split_and!.
Qed.

(** ** The events of each state *)

Definition keeps (p : QState * Context) (e : QEvent) : Prop :=
  exists p', send Ak p e = Ok p' /\ sound p'.

(** An event without a transition. *)
Lemma keeps_ignored p e : on Ak p.1 e = [] -> sound p -> keeps p e.
Proof. intros Ho Hs. exists p. unfold send. now rewrite Ho. Qed.

Lemma keeps_one s c e t a :
  on Ak s e = [go_do t a] -> prepares (a c) t -> keeps (s, c) e.
Proof.
  intros Ho Hp. unfold keeps, send. cbn [fst snd]. rewrite Ho.
  cbn [choose go_do guard rbind]. now apply taken.
Qed.

Lemma keeps_first s c e t g a l :
  on Ak s e = go_if_do g t a :: l -> g c = Ok true -> prepares (a c) t -> keeps (s, c) e.
Proof.
  intros Ho Hg Hp. unfold keeps, send. cbn [fst snd]. rewrite Ho.
  cbn [choose go_if_do guard]. rewrite Hg. cbn [rbind]. now apply taken.
Qed.

Lemma suggestions_prepares f s c :
  ready s c -> ids_ok Ak (calls c) (filters c) -> prepares (on_suggestions f c) s.
Proof. intros Hr Hi. eexists. split; [reflexivity|]. easy. Qed.

Lemma shape_start c : shape (filters c) -> edition c = None -> ids_ok Ak (calls c) (filters c) ->
  keeps (idle, c) START_INPUT.
Proof.
  intros Hs He Hi. unfold keeps, send. cbn [fst snd on choose go_if guard].
  assert (forall s, ready s c -> prepares (@Ok Context c) s) as Hp by (intros s Hr; now exists c).
  unfold shouldSuggestAttributes, shouldSuggestOperators, shouldSuggestValues, J.
  destruct (last_filter _ Hs) as
    [Hnil|[(Hn & f & o & v & Hl & Hpt & Ho & Hv)|[(Hw & f & Hl & Hpt & Ho)|(Hw & f & o & Hl & Hpt & Ho & Hv)]]];
    [rewrite Hnil; cbn [list.last rbind]|rewrite Hl, Hpt; cbn [negb rbind]; rewrite ?Ho, ?Hv; cbn [rbind]..];
    apply taken, Hp; unfold ready; rewrite He; [|easy..].
  now rewrite Hnil; apply Forall_nil.
Qed.

Lemma idle_edit c d :
  shape (filters c) -> ids_ok Ak (calls c) (filters c) -> offered c (EDIT_FILTER d) ->
  keeps (idle, c) (EDIT_FILTER d).
Proof.
  intros Hs Hi (f & Hf & Hid & Hpart). unfold keeps, send. cbn [fst snd on choose go_if_do guard rbind].
  destruct d as [i pt]. cbn [part filterId] in *.
  destruct pt; rewrite ?bool_decide_eq_false_2, ?bool_decide_eq_true_2 by easy; cbn [rbind];
    apply taken; eexists; (split; [reflexivity|]); (split; [|exact Hi]); unfold ready; cbn;
    (split; [exact Hs|]); exists f; (split; [easy|split; [easy|]]); [exact Hpart..|].
  destruct (shape_cases _ Hs) as (a & b & Hab & Ha & Hb). rewrite Hab in Hf.
  apply elem_of_app in Hf as [Hf|Hf]; [rewrite list.Forall_forall in Ha; auto|].
  destruct Hb as [->|(p & -> & (Hp & _))]; [now apply elem_of_nil in Hf|].
  apply list_elem_of_singleton in Hf as ->. congruence.
Qed.

Lemma keeps_idle c e : sound (idle, c) -> offered c e -> keeps (idle, c) e.
Proof.
  intros Hsound. pose proof Hsound as (Hr & Hi & He & _). cbn in Hr, Hi. specialize (He eq_refl). cbn in He.
  assert (shape (filters c)) as Hs by exact Hr.
  destruct e as [|d|d| |d| | |d|l|x]; intros Hoff; try now apply keeps_ignored.
  - now apply shape_start.
  - now apply idle_edit.
  - pose proof (removeFilter_leaves Ak d c Hi Hs) as Hl. cbn in Hoff.
    unfold keeps, send. cbn [fst snd on choose go_if_do go_do guard rbind]. unfold pure_guard.
    destruct (hasPartialFilter c) eqn:Hh; cbn [rbind]; apply taken;
      (eapply leaves_prepares; [|apply Hl; exact Hoff]); intros c' [Hs' Hn'] He';
      unfold ready; [rewrite He', He; auto|exact Hs'].
  - eapply keeps_one; [reflexivity|].
    destruct Hs as [Hn|[Ho|Hv]].
    + eapply leaves_prepares; [|now apply removeLastFilter_none]. intros c' Hc _. now left.
    + eapply leaves_prepares; [|now apply removeLastFilter_operator]. intros c' Hc _. now left.
    + eapply leaves_prepares; [|now apply removeLastFilter_value]. intros c' Hc _. now right; left.
  - eapply keeps_one; [reflexivity|].
    eapply leaves_prepares; [|now apply changeInputParams_leaves]. intros c' Hc _. now left.
  - eapply keeps_one; [reflexivity|].
    eapply leaves_prepares; [|now apply activateFilters_leaves]. now intros c' Hc _.
Qed.

Lemma ready_shape s c : ready s c -> s <> autoSuggestProxy -> shape (filters c).
Proof.
  unfold ready. intros Hr Hs. destruct s, (edition c); try easy; try apply Hr;
    unfold shape; auto.
Qed.

Lemma discards s c :
  on Ak s DISCARD_SUGGESTIONS = [go idle] -> sound (s, c) -> keeps (s, c) DISCARD_SUGGESTIONS.
Proof.
  intros Ho (Hr & Hi & _ & Hs). cbn in Hr, Hi, Hs. eapply keeps_one; [exact Ho|].
  exists c. split_and!; [easy|now apply (ready_shape s)|easy].
Qed.

(** The promise of a loading state ends. *)
Lemma keeps_loading s t c e a :
  (s, t) ∈ [(loadLabels, displayLabels); (loadOperators, displayOperators); (loadLabelValues, displayLabelValues)] ->
  on Ak s e = [go_do t (on_suggestions a)] -> sound (s, c) -> keeps (s, c) e.
Proof.
  intros Hst Ho (Hr & Hi & _). cbn in Hr, Hi. eapply keeps_one; [exact Ho|].
  apply suggestions_prepares; [|easy]. revert Hr. unfold ready.
  repeat (apply elem_of_cons in Hst as [[= -> ->]|Hst]; [easy|]). now apply elem_of_nil in Hst.
Qed.

Lemma keeps_displayLabels c e : sound (displayLabels, c) -> offered c e -> keeps (displayLabels, c) e.
Proof.
  intros Hsound. pose proof Hsound as (Hr & Hi & _). cbn in Hi. pose proof (ready_shape _ _ Hr ltac:(easy)) as Hs.
  cbn in Hs. destruct e as [|d|d| |d| | |d|l|x]; intros Hoff; try now apply keeps_ignored.
  - unfold ready in Hr. cbn in Hr, Hoff. rewrite Hoff in Hr.
    eapply keeps_one; [reflexivity|]. eapply leaves_prepares; [|now apply removeLastFilter_none].
    intros c' Hc _. now left.
  - now apply discards.
  - unfold ready in Hr. cbn in Hr. destruct (edition c) as [ed|] eqn:He.
    + eapply keeps_first; [reflexivity|unfold pure_guard, isEditing; now rewrite He|].
      eapply leaves_prepares; [|now apply (editFilterAttribute_leaves Ak d c ed)].
      intros c' Hc He'. unfold ready. now rewrite He'.
    + unfold keeps, send. cbn [fst snd on choose go_if_do go_do guard]. unfold pure_guard, isEditing.
      rewrite He. cbn [rbind]. apply taken. eapply leaves_prepares; [|now apply setFilterAttribute_leaves].
      intros c' Hc He'. unfold ready. now rewrite He', He.
Qed.

Lemma keeps_displayLabelValues c e :
  sound (displayLabelValues, c) -> offered c e -> keeps (displayLabelValues, c) e.
Proof.
  intros Hsound. pose proof Hsound as (Hr & Hi & _). cbn in Hi. pose proof (ready_shape _ _ Hr ltac:(easy)) as Hs.
  cbn in Hs. destruct e as [|d|d| |d| | |d|l|x]; intros Hoff; try now apply keeps_ignored.
  - unfold ready in Hr. cbn in Hr, Hoff. rewrite Hoff in Hr.
    eapply keeps_one; [reflexivity|]. eapply leaves_prepares; [|now apply removeLastFilter_value].
    intros c' Hc He'. unfold ready. now rewrite He', Hoff.
  - now apply discards.
  - unfold ready in Hr. cbn in Hr. destruct (edition c) as [ed|] eqn:He.
    + eapply keeps_first; [reflexivity|unfold pure_guard, isEditing; now rewrite He|].
      eapply leaves_prepares; [|now apply (editFilterValue_leaves Ak d c ed)].
      intros c' [Hc (f & Hf & _)] He'. unfold ready. rewrite He'. split; [easy|].
      intros Hn. rewrite Hn in Hf. now apply elem_of_nil in Hf.
    + unfold keeps, send. cbn [fst snd on choose go_if_do go_do guard]. unfold pure_guard, isEditing.
      rewrite He. cbn [rbind]. apply taken. eapply leaves_prepares; [|now apply setFilterValue_leaves].
      intros c' Hc _. now left.
Qed.

(** ** Selecting an operator *)

(** Some filter has no operator yet. *)
Definition unfinished (fs : list QFilter) : bool :=
  existsb (fun f => match q_operator f with None => true | Some _ => false end) fs.
(** The one event that throws: an operator is selected for a filter under edition while
    another filter awaits its operator. *)
Definition edits_while_awaiting (p : QState * Context) (e : QEvent) : bool :=
  match p.1, e with
  | displayOperators, SELECT_SUGGESTION _ => isEditing p.2 && unfinished (filters p.2)
  | _, _ => false
  end.

Lemma unfinished_false fs : shape fs -> unfinished fs = false -> settled fs.
Proof.
  intros [Hn|[(a & p & -> & _ & _ & Ho)|Hv]] Hu; [now left| |now right].
  unfold unfinished in Hu. rewrite existsb_app in Hu. apply orb_false_iff in Hu as [_ Hu].
  cbn in Hu. rewrite Ho in Hu. easy.
Qed.

Lemma edit_throws r n fs :
  unfinished fs = true -> map_result (edit_operator n r) fs = type_error.
Proof.
  induction fs as [|f fs IH]; [easy|]. unfold unfinished. cbn [existsb map_result].
  unfold edit_operator at 1. destruct (q_operator f) as [o|]; [|easy]. intros Hu. cbn [orb] in Hu.
  rewrite IH by exact Hu. now case_decide.
Qed.

Lemma operator_guards d c ed f o :
  edition c = Some ed -> ge c = Ok f -> q_operator f = Some o ->
  shouldSuggestValuesAfterOperatorEdition d c = Ok (ee (c_value o) (c_value d)) /\
  shouldNotSuggestValuesAfterOperatorEdition d c = Ok (negb (ee (c_value o) (c_value d))).
Proof.
  intros He Hg Ho. unfold shouldSuggestValuesAfterOperatorEdition, shouldNotSuggestValuesAfterOperatorEdition.
  rewrite He, Hg. cbn [rbind]. unfold te. now rewrite Ho.
Qed.

Lemma select_operator_edited d c ed :
  sound (displayOperators, c) -> edition c = Some ed ->
  if unfinished (filters c) then send Ak (displayOperators, c) (SELECT_SUGGESTION d) = type_error
  else keeps (displayOperators, c) (SELECT_SUGGESTION d).
Proof.
  intros (Hr & Hi & _) He. cbn in Hr, Hi. unfold ready in Hr. rewrite He in Hr. destruct Hr as [Hs Hh].
  destruct (ge_has c ed _ He Hi Hh) as (f & Hg & Hf & Hid & Ho).
  destruct (q_operator f) as [o|] eqn:Hop; [|easy].
  destruct (operator_guards d c ed f o He Hg Hop) as [G1 G2].
  destruct (unfinished (filters c)) eqn:Hu.
  - assert (forall t g, take {| guard := g; target := t; action := editFilterOperator Ak d |} c = type_error) as Hth.
    { intros t g. unfold take, editFilterOperator. cbn [action]. rewrite He, edit_throws by easy. easy. }
    unfold send. cbn [fst snd on choose go_if_do guard]. rewrite G1. cbn [rbind].
    destruct (ee _ _); cbn [choose guard rbind]; [now rewrite Hth|].
    rewrite G2. cbn [rbind negb]. now rewrite Hth.
  - pose proof (editFilterOperator_leaves Ak d c ed f o He (unfinished_false _ Hs Hu) Hi Hf Hid Hop) as Hl.
    unfold keeps, send. cbn [fst snd on choose go_if_do guard]. rewrite G1. cbn [rbind].
    destruct (ee _ _) eqn:Hee.
    + apply taken. eapply leaves_prepares; [|exact Hl].
      intros c' (H1 & H2 & H3 & H4) He'. unfold ready. rewrite He'. cbn [andb].
      destruct (isPartial f) eqn:Hp; cbn [negb andb]; [now apply H4|].
      split; [now apply settled_shape|now apply H3].
    + cbn [choose guard]. rewrite G2. cbn [rbind negb]. apply taken.
      eapply leaves_prepares; [|exact Hl].
      intros c' (H1 & H2 & _) He'. unfold ready. rewrite He', andb_false_r.
      split; [now apply settled_shape|easy].
Qed.

Lemma select_operator_new d c :
  sound (displayOperators, c) -> edition c = None -> keeps (displayOperators, c) (SELECT_SUGGESTION d).
Proof.
  intros (Hr & Hi & _) He. cbn in Hr, Hi. unfold ready in Hr. rewrite He in Hr.
  unfold keeps, send. cbn [fst snd on choose go_if_do guard].
  unfold shouldSuggestValuesAfterOperatorEdition, shouldNotSuggestValuesAfterOperatorEdition, pure_guard.
  rewrite He. cbn [rbind].
  assert (hasPartialFilter c = true) as ->.
  { destruct Hr as (a & p & Hf & _ & Hp & _). unfold hasPartialFilter, J.
    now rewrite Hf, last_snoc, pending_partial. }
  cbn [rbind]. apply taken. eapply leaves_prepares; [|now apply setFilterOperator_leaves].
  intros c' [Hc Hn] He'. unfold ready. rewrite He', He. split; [|exact Hn].
  unfold shape. case_decide; auto.
Qed.

Lemma keeps_displayOperators c e :
  sound (displayOperators, c) -> offered c e -> edits_while_awaiting (displayOperators, c) e = false ->
  keeps (displayOperators, c) e.
Proof.
  intros Hsound. pose proof Hsound as (Hr & Hi & _). cbn in Hi. pose proof (ready_shape _ _ Hr ltac:(easy)) as Hs.
  cbn in Hs. destruct e as [|d|d| |d| | |d|l|x]; intros Hoff Hw; try now apply keeps_ignored.
  - unfold ready in Hr. cbn in Hr, Hoff. rewrite Hoff in Hr.
    eapply keeps_one; [reflexivity|]. eapply leaves_prepares; [|now apply removeLastFilter_operator].
    intros c' Hc He'. unfold ready. now rewrite He', Hoff.
  - now apply discards.
  - destruct (edition c) as [ed|] eqn:He; [|now apply select_operator_new].
    pose proof (select_operator_edited d c ed Hsound He) as Hsel.
    unfold edits_while_awaiting, isEditing in Hw. cbn [fst snd] in Hw. rewrite He in Hw. cbn in Hw.
    now rewrite Hw in Hsel.
Qed.

(** ** Every event the page offers *)

Lemma send_offered p e : sound p -> offered p.2 e ->
  if edits_while_awaiting p e then send Ak p e = type_error else keeps p e.
Proof.
  destruct p as [s c]. intros Hs Hoff. destruct (edits_while_awaiting (s, c) e) eqn:Hw.
  - destruct s, e; try easy. unfold edits_while_awaiting, isEditing in Hw. cbn [fst snd] in Hw.
    apply andb_true_iff in Hw as [He Hu]. apply bool_decide_eq_true in He.
    destruct (edition c) as [ed|] eqn:Hed; [|easy].
    pose proof (select_operator_edited data c ed Hs Hed) as Hsel. now rewrite Hu in Hsel.
  - destruct s.
    + now apply keeps_idle.
    + destruct e; try now apply keeps_ignored.
      * now apply discards.
      * eapply (keeps_loading loadLabels displayLabels); [repeat constructor|reflexivity|easy].
      * eapply (keeps_loading loadLabels displayLabels); [repeat constructor|reflexivity|easy].
    + now apply keeps_displayLabels.
    + destruct e; try now apply keeps_ignored.
      * now apply discards.
      * eapply (keeps_loading loadOperators displayOperators); [repeat constructor|reflexivity|easy].
      * eapply (keeps_loading loadOperators displayOperators); [repeat constructor|reflexivity|easy].
    + now apply keeps_displayOperators.
    + destruct e; try now apply keeps_ignored.
      * now apply discards.
      * eapply (keeps_loading loadLabelValues displayLabelValues); [repeat constructor|reflexivity|easy].
      * eapply (keeps_loading loadLabelValues displayLabelValues); [repeat constructor|reflexivity|easy].
    + now apply keeps_displayLabelValues.
    + now destruct Hs as (_ & _ & _ & Hs).
Qed.

Lemma start_sound e : exists p, start Ak e = Ok p /\ sound p.
Proof.
  destruct (se_ok Ak Ak_inj 0 (p_query e)) as [Hn Hid].
  assert (ready idle (Je Ak e)) as Hr by now left.
  destruct (entry_ok idle _ Hr Hid) as (c' & Hc' & Hf & _ & _ & _ & Hcalls & He).
  exists (idle, c'). unfold start. rewrite Hc'. split; [easy|].
  split_and!; cbn; [|now rewrite Hf, Hcalls|easy|easy]. now apply (ready_fields idle (Je Ak e)).
Qed.

Lemma reachable_sound e p : reachable Ak e p -> sound p.
Proof.
  induction 1 as [p Hp|p ev p' _ IH Hoff Hsend].
  - destruct (start_sound e) as (q & Hq & Hs). rewrite Hp in Hq. now injection Hq as ->.
  - pose proof (send_offered p ev IH Hoff) as Hk. destruct (edits_while_awaiting p ev); [rewrite Hk in Hsend; discriminate|].
    destruct Hk as (q & Hq & Hs). rewrite Hsend in Hq. now injection Hq as ->.
Qed.

(** In [loadLabelValues] the request for the values can be made. *)
Lemma fetch_ok c : sound (loadLabelValues, c) -> exists r, fetchLabelValues c = Ok r.
Proof.
  intros (Hr & Hi & _). cbn in Hr, Hi. unfold ready in Hr. unfold fetchLabelValues.
  destruct (edition c) as [ed|].
  - destruct Hr as [Hs (f & Hf & Hid & _)].
    destruct (list.last (List.filter _ (filters c))) as [t|] eqn:Hl.
    + destruct (W_filter_ok (query c) (fun g => negb (bool_decide (q_id g = filterId ed))) _ Hs) as [q ->].
      cbn [rbind]. destruct (s_disabled _); eauto.
    + apply last_None in Hl. exfalso.
      assert (f ∈ List.filter (fun f => bool_decide (q_id f = filterId ed)) (filters c)) as Hin.
      { apply list_elem_of_In, List.filter_In. split; [now apply list_elem_of_In|now apply bool_decide_eq_true]. }
      rewrite Hl in Hin. now apply elem_of_nil in Hin.
  - destruct Hr as (a & p & Hf & _ & Hp & _). unfold J. rewrite Hf, last_snoc, pending_partial by easy.
    cbn [rbind]. destruct (s_disabled _); eauto.
Qed.
End Safety.
