(* ===== verification/QueryText.v ===== *)
(** * The query builder: queries as texts

    What [W] writes and what [se] reads from it.  A query is a profile type and matchers in
    braces ([good_query]); a filter is [plain] if its texts have none of the characters that
    mean something to the patterns or to [replace].  For those [W] replaces the matchers by
    the service name's and the filters' ([W_text]), keeps the service name
    ([service_part_W]), and the matchers read back are the filters' ([query_matchers_W]). *)

From S2P Require Import Prelude JavaScript Regex.
From S2P Require Import LogQL.
From S2P Require Import Filters.
From S2P Require Import QueryBuilder.
From S2P Require Import QueryMachine QueryMachineCorrect.

(** ** Words and separators *)

Lemma unique_sep {A} (c : A) a b x y : c ∉ a -> c ∉ b -> a ++ c :: b = x ++ c :: y -> a = x /\ b = y.
Proof.
  revert x; induction a as [|d a IH]; intros [|e x] Ha Hb He; cbn in He.
  - now injection He as ->.
  - injection He as <- ->. exfalso. apply Hb, elem_of_app. right. apply list_elem_of_here.
  - injection He as -> He. exfalso. apply Ha, list_elem_of_here.
  - injection He as -> He. apply not_elem_of_cons in Ha as [_ Ha].
    now destruct (IH x Ha Hb He) as [-> ->].
Qed.

(** A run of a class that ends where the class ends is unique. *)
Definition ends_run (p : ascii -> bool) (s : bytes) : Prop :=
  match s with [] => True | c :: _ => p c = false end.

Lemma run_unique p a b x y :
  all p a -> all p x -> ends_run p b -> ends_run p y -> a ++ b = x ++ y -> a = x /\ b = y.
Proof.
  intros Ha. revert x; induction Ha as [|c a Hc Ha IH]; intros x Hx Hb Hy He.
  - destruct x as [|d x]; [easy|]. cbn in He. subst b. cbn in Hb. inversion Hx. congruence.
  - destruct x as [|d x]; cbn in He.
    + subst y. cbn in Hy. congruence.
    + injection He as <- He. inversion Hx; subst. now destruct (IH x) as [-> ->].
Qed.

(** ** Matchers *)

Definition matcher : Type := bytes * bytes * bytes.
Definition matcher_string (m : matcher) : bytes := m.1.1 ++ m.1.2 ++ in_quotes m.2.

Definition NAME : bytes := str "service_name".

Definition plain_value (v : bytes) : Prop :=
  all dot v /\ (QUOTE ∉ v) /\ (OPEN ∉ v) /\ (DOLLAR ∉ v) /\ includes NAME v = false.
Definition plain_matcher (m : matcher) : Prop :=
  m.1.1 <> [] /\ all word_char m.1.1 /\ includes NAME m.1.1 = false /\
  m.1.2 ∈ [EQ; NE; RE; NRE] /\ plain_value m.2.

#[global] Instance plain_value_dec v : Decision (plain_value v).
Proof. unfold plain_value, all. apply _. Defined.
#[global] Instance plain_matcher_dec m : Decision (plain_matcher m).
Proof. unfold plain_matcher, all. apply _. Defined.

(** What [W] makes of a filter. *)
Definition matcher_of (f : QFilter) : matcher :=
  let v := default [] (c_value <$> q_value f) in
  let o := default [] (c_value <$> q_operator f) in
  if decide (o = IS_EMPTY) then (c_value (q_attribute f), EQ, [])
  else (c_value (q_attribute f), if decide (o = IN) then RE else if decide (o = NOT_IN) then NRE else o, v).

Lemma filter_text_matcher f : complete f -> filter_text f = matcher_string (matcher_of f).
Proof.
  intros (_ & [o Ho] & [v Hv]). unfold filter_text, matcher_of. rewrite Ho, Hv.
  change (default [] (c_value <$> Some o)) with (c_value o).
  change (default [] (c_value <$> Some v)) with (c_value v). now case_decide.
Qed.

Definition service_matcher (s : bytes) : matcher := (NAME, EQ, s).

(** The text in the braces. *)
Definition inner_text (ms : list matcher) : bytes := join (str ",") (matcher_string <$> ms).

(** A property of characters that all of these have. *)
Lemma inner_chars (P : ascii -> Prop) ms :
  Forall P (str ",") -> Forall P [QUOTE] -> Forall (Forall P) [EQ; NE; RE; NRE] ->
  Forall (fun m => Forall P m.1.1 /\ m.1.2 ∈ [EQ; NE; RE; NRE] /\ Forall P m.2) ms -> Forall P (inner_text ms).
Proof.
  intros Hc Hq Ho Hms. unfold inner_text.
  induction Hms as [|[[a o] v] ms (Ha & Hin & Hv) _ IH]; cbn [fmap list_fmap join]; [constructor|].
  rewrite list.Forall_forall in Ho. specialize (Ho o Hin). cbn in Ha, Hv.
  assert (Forall P (matcher_string (a, o, v))) as Hm.
  { unfold matcher_string, in_quotes. cbn [fst snd]. now repeat (apply Forall_app; split). }
  destruct (matcher_string <$> ms); [exact Hm|]. now repeat (apply Forall_app; split).
Qed.

Lemma not_in_forall (c : ascii) s : c ∉ s <-> Forall (fun x => x <> c) s.
Proof.
  rewrite list.Forall_forall. split; [intros Hc x Hx ->; easy|intros Hc Hin; now apply (Hc c)].
Qed.

Lemma word_dot c : word_char c = true -> dot c = true.
Proof. destruct c as [[] [] [] [] [] [] [] []]; vm_compute; congruence. Qed.
Lemma word_not c d : word_char d = true -> word_char c = false -> d <> c.
Proof. intros Hd Hc ->. congruence. Qed.

Lemma all_impl p q s : (forall c, p c = true -> q c = true) -> all p s -> all q s.
Proof. intros Hpq Hs. eapply list.Forall_impl; [exact Hs|]. exact Hpq. Qed.

(** ** Good queries *)

(** [prof] is a profile type: it has a colon inside, and no brace. *)
Definition profile_type (prof : bytes) : Prop :=
  (OPEN ∉ prof) /\ all dot prof /\ exists a b, prof = a ++ ":"%char :: b /\ a <> [] /\ b <> [].

Definition braces (prof inner : bytes) : bytes := prof ++ OPEN :: inner ++ [CLOSE].

(** The service name in front of the matchers. *)
Definition services (svc : option bytes) : list matcher :=
  match svc with Some s => [service_matcher s] | None => [] end.

Record good_query (prof : bytes) (svc : option bytes) (q : bytes) : Prop := {
  good_prof : profile_type prof;
  good_service : match svc with Some s => plain_value s | None => True end;
  good_text : exists inner, q = braces prof inner /\ all dot inner;
  good_part : service_part q = matcher_string <$> (service_matcher <$> svc) }.

Lemma search_braces prof inner :
  OPEN ∉ prof -> all dot inner ->
  search braces_pattern (braces prof inner) = Some (prof, [[OPEN]; inner; [CLOSE]; []], []).
Proof.
  intros Hp Hi. unfold braces. apply search_at.
  - intros x [|c y] -> Hy; [easy|]. cbn [match_here braces_pattern app].
    unfold char. assert ((OPEN =c? c) = false) as ->; [|easy].
    apply eqb_char_false. intros <-. apply Hp, elem_of_app. right. apply list_elem_of_here.
  - apply match_here_unique.
    + apply parses_one; [easy|]. apply (parses_run dot _ inner); [easy|].
      apply (parses_one _ _ CLOSE []); [easy|]. apply parses_end, parses_nil.
    + intros ps t (Hps & Ht & Hend)%parses_pieces. specialize (Hend eq_refl) as ->. unfold braces_pattern in Hps.
      pieces Hps. cbn in Ht. rewrite !app_nil_r in Ht. injection Ht as <- Ht.
      apply app_inj_2 in Ht as [-> [= <-]]; easy.
Qed.

(** [W] on a good query. *)
Lemma W_text prof svc q fs :
  good_query prof svc q -> shape fs -> Forall (fun f => plain_matcher (matcher_of f)) (completed fs) ->
  W q fs = Ok (braces prof (inner_text (services svc ++ (matcher_of <$> completed fs)))).
Proof.
  intros [Hp Hs (inner & -> & Hi) Hpart] Hsh Hfs. unfold W.
  rewrite matcher_texts by now apply completed_shape. cbn [rbind]. rewrite Hpart.
  assert ((match matcher_string <$> (service_matcher <$> svc) with
           | Some o => o :: (filter_text <$> completed fs) | None => filter_text <$> completed fs end) =
          matcher_string <$> services svc ++ (matcher_of <$> completed fs)) as Hms.
  { assert (filter_text <$> completed fs = matcher_string <$> (matcher_of <$> completed fs)) as ->.
    { rewrite <- list_fmap_compose. apply list_fmap_ext. intros i f Hf%list_elem_of_lookup_2.
      apply filter_text_matcher. apply completed_shape in Hsh. rewrite list.Forall_forall in Hsh. auto. }
    now destruct svc. }
  rewrite Hms. unfold replace_match. rewrite search_braces; [|apply Hp|easy].
  rewrite app_nil_r, substitute_plain; [easy|].
  fold (inner_text (services svc ++ (matcher_of <$> completed fs))).
  apply not_in_forall. rewrite !Forall_app. split_and!; [now repeat constructor| |now repeat constructor].
  apply inner_chars; [now repeat constructor..|].
  apply Forall_app. split.
  - destruct svc as [s|]; [|constructor]. apply list.Forall_singleton. cbn. split_and!.
    + now repeat constructor.
    + apply list_elem_of_here.
    + apply not_in_forall. now destruct Hs as (_ & _ & _ & ? & _).
  - rewrite Forall_fmap. eapply list.Forall_impl; [exact Hfs|].
    intros f (_ & Hw & _ & Ho & (_ & _ & _ & Hd & _)). cbn. split_and!; [|exact Ho|now apply not_in_forall].
    eapply list.Forall_impl; [exact Hw|]. intros c Hc. now apply word_not.
Qed.

(** ** The service name *)

Lemma NAME_word : all word_char NAME.
Proof. now repeat constructor. Qed.

Lemma not_in_name c : word_char c = false -> c ∉ NAME.
Proof.
  intros Hc Hin. pose proof NAME_word as Hn. unfold all in Hn. rewrite list.Forall_forall in Hn.
  specialize (Hn c Hin). cbn in Hn. congruence.
Qed.

(** A separator ends an occurrence of the name. *)
Lemma name_sep x c y : word_char c = false -> includes NAME (x ++ c :: y) = includes NAME x || includes NAME y.
Proof. intros Hc. apply includes_sep; [now apply not_in_name|easy]. Qed.

Lemma name_head c y : word_char c = false -> includes NAME (c :: y) = includes NAME y.
Proof. intros Hc. now rewrite (name_sep [] c y Hc : includes NAME (c :: y) = _). Qed.

Lemma name_matcher m rest :
  plain_matcher m -> includes NAME (matcher_string m ++ rest) = includes NAME rest.
Proof.
  intros (_ & _ & Ha & Ho & (_ & _ & _ & _ & Hv)). destruct m as [[a o] v]. cbn [fst snd] in *.
  unfold matcher_string, in_quotes. cbn [fst snd]. rewrite <- !app_assoc.
  assert (forall r, includes NAME (a ++ o ++ r) = includes NAME r) as ->.
  { intros r. repeat (apply elem_of_cons in Ho as [->|Ho]); [..|now apply elem_of_nil in Ho];
      cbn [EQ NE RE NRE str list_ascii_of_string app]; rewrite name_sep, Ha by easy; [easy|..];
      cbn [orb]; now rewrite name_head. }
  cbn [app]. rewrite name_head, (name_sep v QUOTE), Hv by easy. easy.
Qed.

Lemma name_inner ms rest :
  Forall plain_matcher ms -> includes NAME (inner_text ms ++ CLOSE :: rest) = includes NAME rest.
Proof.
  unfold inner_text. induction 1 as [|m ms Hm Hms IH]; cbn [fmap list_fmap join app].
  - now rewrite name_head.
  - destruct (matcher_string <$> ms) as [|w l] eqn:Hl.
    + rewrite name_matcher by easy. now rewrite name_head.
    + rewrite <- Hl in *. rewrite <- app_assoc, name_matcher by easy.
      rewrite <- app_assoc. change (str ",") with [","%char]. cbn [app].
      now rewrite name_head.
Qed.

(** In front of the braces no pattern that starts with one is found. *)
Lemma search_brace r prof s :
  OPEN ∉ prof ->
  search (One (char OPEN) :: r) (prof ++ s) =
  match search (One (char OPEN) :: r) s with Some (b, ps, t) => Some (prof ++ b, ps, t) | None => None end.
Proof.
  intros Hp. apply search_skip. intros x [|c y] -> Hy; [easy|]. cbn [match_here app]. unfold char.
  assert ((OPEN =c? c) = false) as ->; [|easy]. apply eqb_char_false. intros <-.
  apply Hp, elem_of_app. right. apply list_elem_of_here.
Qed.

Lemma search_no_brace r s : OPEN ∉ s -> search (One (char OPEN) :: r) s = None.
Proof.
  intros Hs. rewrite <- (app_nil_r s), search_brace by easy. easy.
Qed.

Lemma search_service prof s :
  OPEN ∉ prof -> search service_pattern (prof ++ s) =
  match search service_pattern s with Some (b, ps, t) => Some (prof ++ b, ps, t) | None => None end.
Proof. intros Hp. now apply search_brace. Qed.

Lemma match_no_name s : includes NAME s = false -> match_here service_pattern s = None.
Proof.
  intros Hn. apply match_here_none. intros ps t (Hps & -> & _)%parses_pieces.
  unfold service_pattern, text_ in Hps. pieces Hps. apply list_elem_of_singleton in Hw1 as ->.
  apply not_true_iff_false in Hn. apply Hn, includes_spec.
  match goal with |- exists a b, concat (?x :: ?w :: _ :: ?rest) ++ ?t = _ =>
    exists (x ++ w), (str "=" ++ [QUOTE] ++ concat rest ++ t) end.
  cbn [concat]. unfold SERVICE, NAME. rewrite <- !app_assoc. easy.
Qed.

(** The service name is found where [W] puts it, and nowhere else. *)
Lemma service_part_none prof ms :
  OPEN ∉ prof -> OPEN ∉ inner_text ms -> Forall plain_matcher ms ->
  service_part (braces prof (inner_text ms)) = None.
Proof.
  intros Hp Ho Hms. unfold service_part, braces. rewrite search_service by easy.
  assert (search service_pattern (OPEN :: inner_text ms ++ [CLOSE]) = None) as Hn; [|now rewrite Hn].
  cbn [search]. rewrite match_no_name.
  - unfold service_pattern. rewrite search_no_brace; [easy|].
    intros [Hin|Hin]%elem_of_app; [easy|]. now apply list_elem_of_singleton in Hin.
  - now rewrite name_head, name_inner.
Qed.

Lemma service_part_some prof s rest :
  OPEN ∉ prof -> plain_value s -> all dot rest -> includes NAME rest = false ->
  service_part (braces prof (matcher_string (service_matcher s) ++ rest)) =
  Some (matcher_string (service_matcher s)).
Proof.
  intros Hp (Hd & Hq & _ & _ & Hn) Hr Hnr. unfold service_part, braces.
  rewrite search_service by easy. set (tail := (matcher_string (service_matcher s) ++ rest) ++ [CLOSE]).
  assert (tail = SERVICE ++ s ++ QUOTE :: rest ++ [CLOSE]) as Htail.
  { unfold tail, matcher_string, service_matcher, in_quotes, SERVICE, NAME. cbn [fst snd].
    now rewrite <- !app_assoc. }
  assert (all (but QUOTE) s) as Hqs.
  { apply list.Forall_forall. intros c Hc. unfold but. apply negb_true_iff, eqb_char_false. congruence. }
  assert (parses service_pattern (OPEN :: tail) [[OPEN]; []; SERVICE; s; [QUOTE]; rest; [CLOSE]] []) as Hparse.
  { rewrite Htail. change (OPEN :: SERVICE ++ s ++ QUOTE :: rest ++ [CLOSE]) with
      ([OPEN] ++ [] ++ SERVICE ++ s ++ [QUOTE] ++ rest ++ [CLOSE]).
    replace ([OPEN] ++ [] ++ SERVICE ++ s ++ [QUOTE] ++ rest ++ [CLOSE]) with
      (concat [[OPEN]; []; SERVICE; s; [QUOTE]; rest; [CLOSE]] ++ [])
      by (cbn [concat]; now rewrite !app_nil_r).
    apply parses_intro; [now repeat constructor|].
    repeat constructor; cbn [piece_ok]; try easy; try (eexists; split; reflexivity). }
  destruct (match_here_complete _ _ _ _ Hparse) as [[ps t] Hm].
  rewrite (search_first _ _ ps t Hm). 
  apply match_here_sound, parses_pieces in Hm as (Hps & Ht & _).
  unfold service_pattern, text_ in Hps. pieces Hps. apply list_elem_of_singleton in Hw1 as ->.
  unfold char in *.
  repeat match goal with H : (_ =c? _) = true |- _ => apply eqb_char_true in H as <- end.
  assert (SERVICE ++ s ++ QUOTE :: rest ++ [CLOSE] = w0 ++ SERVICE ++ w2 ++ QUOTE :: w4 ++ CLOSE :: t) as Heq.
  { rewrite <- Htail. apply (f_equal (@tl ascii)) in Ht. cbn [tl] in Ht. rewrite Ht.
    cbn [concat tl app]. rewrite <- ?app_assoc. cbn [app]. rewrite <- ?app_assoc. cbn [app].
    now rewrite <- ?app_assoc. }
  clear Ht. rename Heq into Ht.
  assert (w0 = []) as ->.
  { destruct w0 as [|c w0]; [easy|]. exfalso.
    assert (str "ervice_name" ++ "="%char :: QUOTE :: s ++ QUOTE :: rest ++ [CLOSE] =
            w0 ++ SERVICE ++ w2 ++ QUOTE :: w4 ++ CLOSE :: t) as Ht' by exact (f_equal (@tl ascii) Ht).
    assert (includes NAME (w0 ++ SERVICE ++ w2 ++ QUOTE :: w4 ++ CLOSE :: t) = true) as Hin.
    { apply includes_spec. exists w0, (str "=" ++ [QUOTE] ++ w2 ++ QUOTE :: w4 ++ CLOSE :: t).
      unfold SERVICE, NAME. now rewrite <- !app_assoc. }
    rewrite <- Ht' in Hin. revert Hin.
    rewrite name_sep, name_head, (name_sep s), Hn, (name_sep rest), Hnr by easy. easy. }
  cbn [app] in Ht. apply app_inv_head in Ht.
  destruct (run_unique (but QUOTE) s (QUOTE :: rest ++ [CLOSE]) w2 (QUOTE :: w4 ++ CLOSE :: t)) as [<- _]; [easy..|].
  reflexivity.
Qed.

Lemma plain_inner_chars (P : ascii -> Prop) ms :
  P ","%char -> P QUOTE -> Forall (Forall P) [EQ; NE; RE; NRE] ->
  (forall c, word_char c = true -> P c) -> Forall plain_matcher ms ->
  Forall (fun m => Forall P m.2) ms -> Forall P (inner_text ms).
Proof.
  intros Hc Hq Ho Hw Hms Hv. apply inner_chars; [now repeat constructor..|exact Ho|].
  induction Hms as [|m ms (_ & Ha & _ & Hin & _) _ IH]; [constructor|].
  inversion Hv; subst. constructor; [|auto]. split_and!; [|easy..].
  eapply list.Forall_impl; [exact Ha|]. exact Hw.
Qed.

Lemma values_forall (P : ascii -> Prop) ms :
  (forall v, plain_value v -> Forall P v) -> Forall plain_matcher ms -> Forall (fun m => Forall P m.2) ms.
Proof. intros HP Hms. eapply list.Forall_impl; [exact Hms|]. intros m (_ & _ & _ & _ & Hv). auto. Qed.

Lemma inner_dot ms : Forall plain_matcher ms -> all dot (inner_text ms).
Proof.
  intros Hms. apply plain_inner_chars; [easy|easy|now repeat constructor|apply word_dot|easy|].
  apply values_forall; [|easy]. now intros v (Hv & _).
Qed.

Lemma inner_no_brace ms : Forall plain_matcher ms -> OPEN ∉ inner_text ms.
Proof.
  intros Hms. apply not_in_forall.
  apply plain_inner_chars; [easy|easy|now repeat constructor|intros c Hc; now apply word_not|easy|].
  apply values_forall; [|easy]. intros v (_ & _ & Hv & _). now apply not_in_forall.
Qed.

(** The matchers with the service name in front. *)
Lemma inner_service s ms :
  inner_text (service_matcher s :: ms) =
  matcher_string (service_matcher s) ++ match ms with [] => [] | _ => ","%char :: inner_text ms end.
Proof. destruct ms; unfold inner_text; cbn [fmap list_fmap join]; now rewrite ?app_nil_r. Qed.

Lemma service_char c : c ∈ QUOTE :: "="%char :: NAME -> dot c = true /\ c <> OPEN.
Proof.
  intros Hc. assert (Forall (fun c => dot c = true /\ c <> OPEN) (QUOTE :: "="%char :: NAME)) as Hall
    by now repeat constructor.
  rewrite list.Forall_forall in Hall. auto.
Qed.

Lemma services_chars svc ms :
  match svc with Some s => plain_value s | None => True end -> Forall plain_matcher ms ->
  all dot (inner_text (services svc ++ ms)) /\ OPEN ∉ inner_text (services svc ++ ms).
Proof.
  intros Hs Hms. destruct svc as [s|]; [|split; [now apply inner_dot|now apply inner_no_brace]].
  cbn [services app]. rewrite inner_service. destruct Hs as (Hd & _ & Ho & _).
  assert (Forall (fun c => dot c = true /\ c <> OPEN) (matcher_string (service_matcher s))) as Hm.
  { unfold matcher_string, in_quotes. cbn [fst snd service_matcher]. rewrite !Forall_app.
    split_and!; [now repeat constructor..| |now repeat constructor].
    apply list.Forall_forall. intros c Hc. unfold all in Hd. rewrite list.Forall_forall in Hd.
    split; [auto|]. congruence. }
  assert (all dot (match ms with [] => [] | _ => ","%char :: inner_text ms end) /\
          OPEN ∉ (match ms with [] => [] | _ => ","%char :: inner_text ms end)) as [Hr1 Hr2].
  { pose proof (inner_dot ms Hms). pose proof (inner_no_brace ms Hms).
    destruct ms; [split; [constructor|apply not_elem_of_nil]|].
    split; [now constructor|]. now apply not_elem_of_cons. }
  split.
  - apply Forall_app. split; [|easy]. eapply list.Forall_impl; [exact Hm|]. now intros c [Hc _].
  - intros [Hin|Hin]%elem_of_app; [|easy]. rewrite list.Forall_forall in Hm. now destruct (Hm OPEN Hin).
Qed.

(** The query [W] writes is a good one with the same profile type and service name. *)
Lemma good_braces prof svc ms :
  profile_type prof -> match svc with Some s => plain_value s | None => True end -> Forall plain_matcher ms ->
  good_query prof svc (braces prof (inner_text (services svc ++ ms))).
Proof.
  intros Hp Hs Hms. destruct (services_chars svc ms Hs Hms) as [Hd Ho].
  split; [easy..|now eexists|].
  destruct svc as [s|]; cbn [services app fmap option_fmap option_map] in *.
  - rewrite inner_service in *. apply service_part_some; [apply Hp|easy| |].
    + destruct ms; [constructor|]. constructor; [easy|]. now apply inner_dot.
    + destruct ms as [|m ms]; [easy|]. rewrite name_head by easy.
      rewrite <- (app_nil_r (inner_text (m :: ms))).
      pose proof (name_inner (m :: ms) [] Hms) as Hn. rewrite name_sep in Hn by easy.
      apply orb_false_iff in Hn as [Hn _]. now rewrite app_nil_r.
  - apply service_part_none; [apply Hp|easy..].
Qed.

(** ** Reading matchers *)

Lemma word_not_op o : o ∈ [EQ; NE; RE; NRE] -> exists c r, o = c :: r /\ word_char c = false.
Proof.
  intros Ho. repeat (apply elem_of_cons in Ho as [->|Ho]); [..|now apply elem_of_nil in Ho]; now do 2 eexists.
Qed.

Lemma op_unique o o' r r' :
  o ∈ [EQ; NE; RE; NRE] -> o' ∈ [EQ; NE; RE; NRE] -> o ++ QUOTE :: r = o' ++ QUOTE :: r' -> o = o' /\ r = r'.
Proof.
  intros Ho Ho' He.
  repeat (apply elem_of_cons in Ho as [->|Ho]); [..|now apply elem_of_nil in Ho];
    (repeat (apply elem_of_cons in Ho' as [->|Ho']); [..|now apply elem_of_nil in Ho']);
    cbn in He; try discriminate He; injection He as ->; easy.
Qed.

Definition pieces_of (m : matcher) : list bytes :=
  match m.1.1 with
  | a :: r => [[a]; r; m.1.2; [QUOTE]; m.2; [QUOTE]]
  | [] => []
  end.

Definition readable (m : matcher) : Prop :=
  m.1.1 <> [] /\ all word_char m.1.1 /\ m.1.2 ∈ [EQ; NE; RE; NRE] /\ QUOTE ∉ m.2.

Lemma plain_readable m : plain_matcher m -> readable m.
Proof. now intros (? & ? & _ & ? & (_ & ? & _)). Qed.

Lemma but_quote v : QUOTE ∉ v -> all (but QUOTE) v.
Proof.
  intros Hv. apply list.Forall_forall. intros c Hc. unfold but. apply negb_true_iff, eqb_char_false. congruence.
Qed.

Lemma match_matcher m rest :
  readable m -> match_here matcher_pattern (matcher_string m ++ rest) = Some (pieces_of m, rest).
Proof.
  intros (Hne & Hw & Ho & Hq). destruct m as [[[|a n] o] v]; [easy|]. cbn [fst snd] in *.
  unfold pieces_of. cbn [fst snd]. inversion Hw as [|? ? Ha Hn]; subst.
  assert (matcher_string (a :: n, o, v) ++ rest = concat [[a]; n; o; [QUOTE]; v; [QUOTE]] ++ rest) as Htext.
  { unfold matcher_string, in_quotes. cbn [fst snd concat app]. now rewrite ?app_nil_r, <- !app_assoc. }
  rewrite Htext. apply match_here_unique.
  - apply parses_intro; [now repeat constructor|]. unfold matcher_pattern.
    apply Forall2_cons_2; [now exists a|]. apply Forall2_cons_2; [exact Hn|].
    apply Forall2_cons_2; [exact Ho|]. apply Forall2_cons_2; [now exists QUOTE|].
    apply Forall2_cons_2; [now apply but_quote|]. apply Forall2_cons_2; [now exists QUOTE|constructor].
  - intros ps t (Hps & Ht & _)%parses_pieces. unfold matcher_pattern in Hps. pieces Hps.
    unfold char in *.
    repeat match goal with H : (_ =c? _) = true |- _ => apply eqb_char_true in H as <- end.
    cbn [concat app] in Ht. rewrite <- ?app_assoc in Ht. cbn [app] in Ht. rewrite <- ?app_assoc in Ht. cbn [app] in Ht.
    injection Ht as -> Ht.
    destruct (word_not_op o Ho) as (c1 & r1 & Hc1 & Hx1), (word_not_op w1 Hw2) as (c2 & r2 & Hc2 & Hx2).
    apply run_unique with (p := word_char) in Ht as [-> Ht]; [|easy|easy|now subst o|now subst w1].
    apply op_unique in Ht as [-> Ht]; [|easy..].
    apply run_unique with (p := but QUOTE) in Ht as [-> Ht]; [|now apply but_quote|easy|easy|easy].
    now injection Ht as ->.
Qed.

Lemma matcher_nonempty s t ps : match_here matcher_pattern s = Some (ps, t) -> concat ps <> [].
Proof.
  intros (Hps & _ & _)%match_here_sound%parses_pieces. unfold matcher_pattern in Hps. pieces Hps. easy.
Qed.

Lemma match_all_nil : match_all matcher_pattern [] = [].
Proof. reflexivity. Qed.

Lemma match_all_matcher m rest :
  readable m -> match_all matcher_pattern (matcher_string m ++ rest) = pieces_of m :: match_all matcher_pattern rest.
Proof.
  intros Hm. rewrite match_all_step by apply matcher_nonempty.
  now rewrite (search_first _ _ _ _ (match_matcher m rest Hm)).
Qed.

Lemma match_all_comma rest : match_all matcher_pattern (","%char :: rest) = match_all matcher_pattern rest.
Proof.
  rewrite (match_all_step _ (","%char :: rest)), (match_all_step _ rest) by apply matcher_nonempty.
  change (","%char :: rest) with ([","%char] ++ rest). rewrite search_skip.
  - now destruct (search matcher_pattern rest) as [[[b ps] t]|].
  - intros x [|c y] Hxy Hy; [easy|]. destruct x as [|d x]; cbn in Hxy; [|now destruct x].
    injection Hxy as <- <-. reflexivity.
Qed.

Lemma match_all_inner ms :
  Forall readable ms -> match_all matcher_pattern (inner_text ms) = pieces_of <$> ms.
Proof.
  unfold inner_text. induction 1 as [|m ms Hm _ IH]; [apply match_all_nil|].
  cbn [fmap list_fmap join]. destruct (matcher_string <$> ms) as [|w l] eqn:Hl.
  - apply fmap_nil_inv in Hl as ->. rewrite <- (app_nil_r (matcher_string m)).
    now rewrite match_all_matcher, match_all_nil.
  - rewrite <- Hl in *. rewrite match_all_matcher by easy.
    change (str "," ++ ?r) with (","%char :: r). now rewrite match_all_comma, IH.
Qed.

Lemma oe_inner ms : Forall readable ms -> oe (inner_text ms) = ms.
Proof.
  intros Hms. unfold oe. rewrite match_all_inner by easy. rewrite <- list_fmap_compose.
  rewrite <- (list_fmap_id ms) at 2. apply list_fmap_ext.
  intros i [[[|a n] o] v] Hm%list_elem_of_lookup_2; rewrite list.Forall_forall in Hms;
    destruct (Hms _ Hm) as (Hne & _); [easy|]. cbn. now rewrite app_nil_r.
Qed.

(** The braces of a good query hold what [se] reads. *)
Lemma search_ae prof inner :
  profile_type prof -> all dot inner -> OPEN ∉ inner ->
  match search ae (braces prof inner) with
  | Some (_, ps, _) => inner <> [] /\ concat (firstn 2 (skipn 6 ps)) = inner
  | None => inner = []
  end.
Proof.
  intros (Ho & Hd & a & b & Hab & Ha & Hb) Hi Hio.
  assert (forall x s ps t, braces prof inner = x ++ s -> parses ae s ps t ->
            inner <> [] /\ concat (firstn 2 (skipn 6 ps)) = inner) as Hparse.
  { clear a b Hab Ha Hb. intros x s ps t Hs (Hps & Ht & Hend)%parses_pieces. specialize (Hend eq_refl) as ->.
    unfold ae in Hps. pieces Hps. unfold char in *.
    repeat match goal with H : (_ =c? _) = true |- _ => apply eqb_char_true in H as <- end.
    match type of Hs with _ = x ++ concat [[?p]; ?u; _; [?q]; ?v; _; [?g]; ?w; _; _] ++ _ =>
      assert (prof ++ OPEN :: inner ++ [CLOSE] =
              (x ++ p :: u ++ ":"%char :: q :: v) ++ OPEN :: (g :: w) ++ [CLOSE]) as He
    end.
    { transitivity (braces prof inner); [easy|]. rewrite Hs. cbn [concat app].
      rewrite <- ?app_assoc. cbn [app]. rewrite <- ?app_assoc. cbn [app]. now rewrite <- ?app_assoc. }
    apply unique_sep in He as [_ He]; [|easy|].
    - apply app_inj_2 in He as [-> _]; [|easy]. split; [easy|]. cbn. now rewrite app_nil_r.
    - intros [Hin|Hin%list_elem_of_singleton]%elem_of_app; easy. }
  destruct (search ae (braces prof inner)) as [[[x ps] t]|] eqn:Hs.
  - apply search_sound in Hs as (s & Hs & Hm). apply (Hparse x s ps t); [easy|].
    now apply match_here_sound.
  - destruct inner as [|g w]; [easy|]. exfalso.
    destruct a as [|a0 a']; [easy|]. destruct b as [|b0 b']; [easy|].
    assert (exists ps, parses ae (braces prof (g :: w)) ps []) as (ps & Hps).
    { subst prof. unfold all in Hd. apply Forall_app in Hd as [Hda Hdb].
      inversion Hda; inversion Hi; subst. unfold braces. rewrite <- app_assoc.
      apply not_elem_of_app in Ho as [_ Ho]. rewrite !not_elem_of_cons in Ho. destruct Ho as (_ & Hob & Ho).
      eexists. unfold ae. cbn [app]. apply parses_one; [easy|]. apply parses_run; [easy|].
      apply parses_one; [easy|]. cbn [app]. apply parses_one; [unfold but; apply negb_true_iff, eqb_char_false; congruence|].
      apply parses_run.
      { apply list.Forall_forall. intros c Hc. unfold but. apply negb_true_iff, eqb_char_false. congruence. }
      apply parses_one; [easy|]. apply parses_one; [easy|]. apply parses_run; [easy|].
      apply parses_one; [easy|]. apply parses_end, parses_nil. }
    destruct (match_here_complete _ _ _ _ Hps) as [[ps' t] Hm]. now rewrite (search_first _ _ _ _ Hm) in Hs.
Qed.

(** What [se] reads from the query [W] writes. *)
Lemma query_matchers_braces prof svc ms :
  profile_type prof -> match svc with Some s => plain_value s | None => True end -> Forall plain_matcher ms ->
  query_matchers (braces prof (inner_text (services svc ++ ms))) = ms.
Proof.
  intros Hp Hs Hms. unfold query_matchers.
  destruct (services_chars svc ms Hs Hms) as [Hd Ho].
  assert (List.filter (fun m : matcher => negb (bool_decide (m.1.1 = NAME))) (services svc ++ ms) = ms) as Hf.
  { assert (List.filter (fun m : matcher => negb (bool_decide (m.1.1 = NAME))) ms = ms) as Hf.
    { clear -Hms. induction Hms as [|m ms (_ & _ & Hn & _) _ IH]; [easy|]. cbn [List.filter].
      rewrite bool_decide_eq_false_2; [cbn [negb]; now rewrite IH|]. intros Hm. rewrite Hm in Hn. easy. }
    destruct svc; cbn [services app List.filter]; [|easy]. now rewrite Hf. }
  pose proof (search_ae prof (inner_text (services svc ++ ms)) Hp Hd Ho) as Hsearch.
  destruct (braces prof _) eqn:Hb; [unfold braces in Hb; now destruct prof|]. rewrite <- Hb in *.
  destruct (search ae _) as [[[x ps] t]|].
  - destruct Hsearch as [_ ->]. rewrite oe_inner; [exact Hf|]. apply Forall_app. split.
    + destruct svc as [s|]; [|constructor]. apply list.Forall_singleton.
      split_and!; [easy|apply NAME_word|apply list_elem_of_here|now destruct Hs as (_ & ? & _)].
    + eapply list.Forall_impl; [exact Hms|]. apply plain_readable.
  - destruct svc; cbn [services app] in Hsearch; [rewrite inner_service in Hsearch; easy|].
    destruct ms as [|[[n o] v] ms]; [easy|]. exfalso. revert Hsearch.
    inversion Hms as [|? ? (Hne & _) _]; subst. unfold inner_text. cbn [fmap list_fmap join].
    unfold matcher_string. cbn [fst snd] in *. destruct n; [easy|]. cbn [app]. case_match; easy.
Qed.
