(* ===== verification/QueryTheorems.v ===== *)
(** * Properties of the query expressions

    What the label, metadata, pattern and line filter expressions of the logs app mean,
    and the edits of line filters. *)

From S2P Require Import Prelude.
From S2P Require Import Filters.
From S2P Require Import LogQL.
From S2P Require Import LineFilters.
From S2P Require Import LogQLCorrect.
From S2P Require Import LogQLExpr.
From S2P Require Import LineFiltersCorrect.

Definition filter_of (k : bytes) (o : FilterOp) (v : bytes) : AdHoc := {| label := k; op := o; val := v; valueLabels := [] |}.

(** C13.  The label expression of a list of filters is a stream selector, whatever the
    characters of the values - chosen from those that are listed, not typed in - and selects the streams that the filters describe: on
    each label a value that is included and not excluded. *)
Theorem labels_expr_selects `{RegexLaws} fs :
  Forall stream_filter fs ->
  exists ms, read_selector (getLabelsExpr fs) = Some ms /\
    forall labels, selects ms labels = true <->
      forall k, included fs k (labels k) /\ ~ excluded fs k (labels k).
Proof.
  intros Hfs. exists (label_matchers fs). split; [by apply read_label_expr|].
  intros labels. by apply selects_iff.
Qed.

(** The metadata and level expressions read as one disjunction per label and
    operator.  So the values included on a label are alternatives, as they are meant
    to be, but so are the values excluded: two of them exclude nothing. *)
Theorem metadata_exclusions_vanish `{RegexLaws} fs :
  Forall stream_filter fs ->
  exists stages, read_stages (getMetadataExpr fs) = Some stages /\
    (forall labels, passes stages labels = true <->
      forall k, (vals fs Equal k = [] \/ labels k ∈ vals fs Equal k) /\
                (vals fs RegexEqual k = [] \/ labels k ∈ vals fs RegexEqual k) /\
                (vals fs NotEqual k = [] \/ exists v, v ∈ vals fs NotEqual k /\ labels k <> v) /\
                (vals fs RegexNotEqual k = [] \/ exists v, v ∈ vals fs RegexNotEqual k /\ labels k <> v)) /\
    (forall k v w, v <> w -> v ∈ vals fs NotEqual k -> w ∈ vals fs NotEqual k ->
       Forall (fun f => label f = k /\ op f = NotEqual) fs -> forall labels, passes stages labels = true).
Proof.
  intros Hfs. exists (metadata_matchers fs). split; [by apply read_metadata_expr|].
  split; [intros labels; by apply passes_iff|].
  intros k v w Hvw Hv Hw Hall labels. apply passes_iff; [done|]. intros k'.
  pose proof (vals_only fs k NotEqual Hall) as Honly.
  assert (Hnil : forall o k', o <> NotEqual \/ k' <> k -> vals fs o k' = []).
  { intros o k0 Hne. destruct (decide (vals fs o k0 = [])) as [|Hk]; [done|]. apply Honly in Hk. tauto. }
  split_and!; [left; apply Hnil; by left..| |left; apply Hnil; by left].
  destruct (decide (k' = k)) as [-> |]; [|left; apply Hnil; by right].
  right. destruct (decide (labels k = v)) as [Hl|]; [exists w|exists v]; split; congruence.
Qed.

(** C30.  No text of a pattern or line filter escapes from its quotes: the expression of
    a list of pattern filters reads as one exclusion per excluded pattern and one
    disjunction of the included ones; that of line filters reads as the filters, in the
    order of their labels, with the text or its regular expression; a line filter has a text
    that is not empty. *)
Theorem filter_texts_read_back ps fs :
  Forall (fun e => text e <> []) fs ->
  read_filters (M ps) = Some (pattern_filters ps) /\
  read_filters (O fs) = Some (line_meaning <$> f fs).
Proof.
  intros Ht. rewrite M_eq, O_eq by done. split; apply read_filters_print; [apply pattern_filters_ok|].
  apply list.Forall_forall. intros x (e & -> & _)%list_elem_of_fmap. apply line_meaning_ok.
Qed.

(** While line filters have distinct labels, an edit changes the filter it is made
    on, in its place, and a removal removes that filter only; a list labelled as it was
    built stays so when a filter is added.  But after the removal of a filter other than
    the last one, the next filter added gets the last one's label: removing it removes
    both. *)
Theorem line_filter_edits fs e :
  ordered fs -> e ∈ fs ->
  (forall t, f (updateVariableLineFilter fs e t) =
     (fun x => if decide (x = e)
               then {| keyLabel := keyLabel e; caseSensitive := caseSensitive t; line_op := line_op t; text := text t |}
               else x) <$> fs) /\
  removeFilter fs e = List.filter (fun x => bool_decide (x <> e)) fs /\
  (forall cs o v, numbered fs ->
     numbered (addFilter fs cs o v) /\
     forall pre post l, fs = pre ++ e :: post ++ [l] ->
       exists new, addFilter (removeFilter fs e) cs o v = pre ++ post ++ [l; new] /\ text new = v /\
                   removeFilter (pre ++ post ++ [l; new]) new = pre ++ post).
Proof.
  intros Ho He. split; [intros t; by apply update_in_place|]. split; [by apply remove_exactly|].
  intros cs o v Hn. split; [by apply numbered_add|]. intros pre post l ->.
  destruct (labels_clash pre e post l cs o v Hn) as [H1 H2]. eauto.
Qed.

(** ** Witnesses *)

(** A regular expression engine for the plain alternatives. *)
#[local] Instance plain_engine : RegexEngine := fun re v =>
  match alternatives re with Some vs => bool_decide (v ∈ vs) | None => false end.
#[local] Instance plain_laws : RegexLaws.
Proof. intros re vs v E. unfold regex_match, plain_engine. by rewrite E. Qed.

Definition stream_filters : list AdHoc :=
  [filter_of (str "app") Equal (str "a.b"); filter_of (str "app") Equal [DQ; BS];
   filter_of (str "env") NotEqual (str "x|y")].

Lemma labels_expr_selects_witness :
  exists ms, read_selector (getLabelsExpr stream_filters) = Some ms /\
    forall labels, selects ms labels = true <->
      forall k, included stream_filters k (labels k) /\ ~ excluded stream_filters k (labels k).
Proof.
  apply labels_expr_selects.
  repeat (apply list.Forall_cons; split); [..|apply list.Forall_nil; exact Logic.I];
    (split; [split; [discriminate|]|reflexivity|split; [discriminate|reflexivity]]);
    refine (bool_decide_unpack _ _); vm_compute; exact Logic.I.
Defined.

Lemma metadata_exclusions_vanish_witness :
  exists stages, read_stages (getMetadataExpr
      [filter_of (str "pod") NotEqual (str "a"); filter_of (str "pod") NotEqual (str "b")]) = Some stages /\
    forall labels, passes stages labels = true.
Proof.
  set (fs := [filter_of (str "pod") NotEqual (str "a"); filter_of (str "pod") NotEqual (str "b")]).
  destruct (metadata_exclusions_vanish fs) as (stages & Hs & _ & Hv).
  { repeat (apply list.Forall_cons; split); [..|apply list.Forall_nil; exact Logic.I];
      (split; [split; [discriminate|]|reflexivity|split; [discriminate|reflexivity]]);
      refine (bool_decide_unpack _ _); vm_compute; exact Logic.I. }
  exists stages. split; [exact Hs|].
  apply (Hv (str "pod") (str "a") (str "b")); [discriminate| | |];
    refine (bool_decide_unpack _ _); vm_compute; exact Logic.I.
Defined.

Definition line (n : nat) (v : bytes) : LineFilter :=
  {| keyLabel := Some n; caseSensitive := true; line_op := match_; text := v |}.

Lemma filter_texts_read_back_witness :
  read_filters (M [{| type := include; pattern := [DQ; BS] |}; {| type := exclude; pattern := str "<_> x" |}])
    = Some [(str "!>", [str "<_> x"]); (str "|>", [[DQ; BS]])] /\
  read_filters (O [line 1 (str "b"); line 0 [DQ]]) = Some [(str "|=", [[DQ]]); (str "|=", [str "b"])].
Proof.
  apply (filter_texts_read_back [{| type := include; pattern := [DQ; BS] |}; {| type := exclude; pattern := str "<_> x" |}]
           [line 1 (str "b"); line 0 [DQ]]).
  refine (bool_decide_unpack _ _); vm_compute; exact Logic.I.
Defined.

Lemma line_filter_edits_witness :
  exists new,
    addFilter (removeFilter [line 0 (str "a"); line 1 (str "b")] (line 0 (str "a"))) true match_ (str "c")
      = [line 1 (str "b"); new] /\ text new = str "c" /\
    removeFilter [line 1 (str "b"); new] new = [].
Proof.
  destruct (line_filter_edits [line 0 (str "a"); line 1 (str "b")] (line 0 (str "a"))) as (_ & _ & H).
  - apply numbered_ordered. reflexivity.
  - by left.
  - destruct (H true match_ (str "c")) as [_ H']; [reflexivity|].
    exact (H' [] [] (line 1 (str "b")) eq_refl).
Defined.
