(* ===== verification/LogsTheorems.v ===== *)
(** * The properties of the logs app's filters and stored preferences

    Field filters and the expression they make, the filter buttons, levels, favourites. *)

From S2P Require Import Prelude.
From S2P Require Import Java.
From S2P Require Import JavaScript.
From S2P Require Import Json.
From S2P Require Import Filters.
From S2P Require Import LogQL.
From S2P Require Import LogQLCorrect.
From S2P Require Import LogQLExpr.
From S2P Require Import Stored.
From S2P Require Import FilterButtons.
From S2P Require Import ButtonsCorrect.
From S2P Require Import QueryTheorems.

(** ** Field filters *)

(** A click on a value of a field, with the parser that finds it. *)
Record Click := { k_key : bytes; k_op : FilterOp; k_value : bytes; k_parser : bytes }.

Definition clicked (c : Click) : AdHoc :=
  {| label := k_key c; op := k_op c; val := encoded (k_value c) (k_parser c); valueLabels := [k_value c] |}.
Definition meant (c : Click) : AdHoc :=
  {| label := k_key c; op := k_op c; val := k_value c; valueLabels := [] |}.
Definition click_ok (c : Click) : Prop := stream_filter (meant c) /\ k_parser c ∈ field_parsers.

(** C28.  Field filters are decoded to what they were made of.  A value may contain whatever
    it likes, JSON included: the expression of filters made by clicks is the metadata
    expression of the plain values and reads as the matchers of these, and values typed in
    give the expression they would give for metadata. *)
Theorem fields_expr_decodes (cs : list Click) (ts : list (bytes * FilterOp * bytes * option bytes)) :
  Forall click_ok cs ->
  Forall (fun '(_, _, v, q) => plain v /\ v <> [] /\ default MIXED q ∈ field_parsers) ts ->
  getFieldsExpr (clicked <$> cs) = Some (getMetadataExpr (meant <$> cs)) /\
  read_stages (getMetadataExpr (meant <$> cs)) = Some (metadata_matchers (meant <$> cs)) /\
  getFieldsExpr ((fun '(k, o, v, q) => typed k o (field_value {| c_value := v; c_label := None |} q)) <$> ts) =
    Some (getMetadataExpr ((fun '(k, o, v, _) => typed k o (label_value {| c_value := v; c_label := None |})) <$> ts)).
Proof.
  intros Hcs Hts. split; [|split].
  - apply getFieldsExpr_stands. induction Hcs as [|c cs [Hs Hq] _ IH]; [constructor|].
    cbn [fmap list_fmap]. constructor; [|exact IH]. apply clicked_stands_for; [apply Hs|done].
  - apply read_metadata_expr. induction Hcs as [|c cs [Hs _] _ IH]; constructor; done.
  - apply getFieldsExpr_stands. induction Hts as [|[[[k o] v] q] ts (Hv & Hn & Hq) _ IH]; [constructor|].
    cbn [fmap list_fmap]. constructor; [|exact IH]. by apply typed_stands_for.
Qed.

(** ** Buttons *)

(** C29.  The Include and Exclude buttons of a label or metadata value are switches: each press
    turns its own state over, turns the other one off, and leaves the filters on other keys as
    they are.  Each press on a label, excluding and clearing included, makes the value the
    first favourite. *)
Theorem filter_buttons_switch b e t a p l :
  a <> v_fields -> variable a e p = Some l ->
  let '(i, x) := selection e t l in
  exists p' l', isSelected e t a p = Some (i, x) /\ press b e t a p = Some p' /\
    isSelected e t a p' = Some (if b then (negb i, false) else (false, negb x)) /\
    variable a e p' = Some l' /\
    (forall k, k <> e -> List.filter (on_key k) l' = List.filter (on_key k) l) /\
    (a = v_filters -> p_datasource p <> [] ->
       getFavorites (p_datasource p) e (p_storage p') =
         t :: without t (getFavorites (p_datasource p) e (p_storage p))).
Proof.
  intros Ha Hl. destruct (selection e t l) as [i x] eqn:Es.
  set (n := if b then if i then Clear else Include else if x then Clear else Exclude).
  set (l' := with_click e t n (new_filter e t n t) l).
  exists (set_variable (variable_name a e) l' (favored a e t p)), l'.
  rewrite (isSelected_eq e t a p l), (press_eq b e t a p l), Es by done. cbn [fst snd]. fold n.
  rewrite (addToFilters_eq e t n a p l) by done.
  assert (Ev : new_value a e t p = t) by (unfold new_value; by rewrite decide_False).
  rewrite Ev. fold l'. split; [done|]. split; [done|].
  rewrite (isSelected_eq e t a _ l') by apply variable_set_variable.
  split; [|split; [apply variable_set_variable|split]].
  - unfold l'. rewrite selection_click by (unfold n; by destruct b, i, x). unfold n. by destruct b, i, x.
  - intros k Hk. by apply click_elsewhere.
  - intros -> Hd. rewrite p_storage_set_variable. unfold favored. rewrite decide_True by done.
    cbn [favor set_storage p_storage]. by apply getFavorites_add.
Qed.

(** The filter a button adds for a field. *)
Definition field_click (e t : bytes) (n : Action) (p : Page) : Click :=
  {| k_key := e; k_op := if decide (n = Exclude) then NotEqual else Equal; k_value := t; k_parser := parser_of_field e p |}.

Lemma parser_of_field_ok e p : parser_of_field e p ∈ field_parsers.
Proof.
  unfold parser_of_field, parser_named. destruct (assoc e (detectedFields p)); [|apply list_elem_of_In; cbn; tauto].
  repeat case_decide; apply list_elem_of_In; cbn; tauto.
Qed.

Lemma field_no_hit e t c : hit e t (clicked c) = true -> k_value c <> t.
Proof.
  unfold hit. intros [_ E]%bool_decide_eq_true Hv. cbn [val clicked] in E. subst t. by apply (encoded_ne (k_value c) (k_parser c)).
Qed.

(** A press on a field whose filters are all of that field and value. *)
Lemma field_press (b : bool) e t p cs :
  variable v_fields e p = Some (clicked <$> cs) -> Forall (fun c => k_key c = e /\ k_value c = t /\ k_op c = Equal) cs ->
  let n := if b then Include else Exclude in
  let l := clicked <$> (cs ++ [field_click e t n p]) in
  press b e t v_fields p = Some (set_variable v_all_fields l p) /\
  isSelected e t v_fields p = Some (false, false).
Proof.
  intros Hv Hc n l. rewrite list.Forall_forall in Hc.
  assert (Hhit : forall f, In f (clicked <$> cs) -> hit e t f = false).
  { intros f (c & -> & Hin)%list_elem_of_In%list_elem_of_fmap. destruct (hit e t (clicked c)) eqn:E; [|done].
    apply field_no_hit in E. by destruct (Hc c Hin) as (_ & ? & _). }
  assert (Hs : selection e t (clicked <$> cs) = (false, false)).
  { unfold selection. by rewrite find_none. }
  rewrite (isSelected_eq e t v_fields p _ Hv), (press_eq b e t v_fields p _ Hv), Hs. split; [|done].
  assert (En : (if b then if (false, false).1 then Clear else Include
                else if (false, false).2 then Clear else Exclude) = n) by (by destruct b).
  rewrite En, (addToFilters_eq e t n v_fields p _ Hv). do 2 f_equal.
  assert (Ek : List.filter (kept e t n) (clicked <$> cs) = clicked <$> cs).
  { assert (Hk : forall f, In f (clicked <$> cs) -> kept e t n f = true).
    { intros f Hf. pose proof (Hhit f Hf) as Hh. apply list_elem_of_In, list_elem_of_fmap in Hf as (c & -> & Hin).
      destruct (Hc c Hin) as (_ & _ & Ho). unfold n. destruct b; cbn [kept]; [|by rewrite Hh].
      rewrite bool_decide_false; [done|]. cbn. tauto. }
    revert Hk. generalize (clicked <$> cs). intros l0. induction l0 as [|f l0 IH]; intros Hk; [done|].
    cbn [List.filter]. rewrite Hk by (by left). f_equal. apply IH. intros; apply Hk. by right. }
  unfold with_click. rewrite Ek. assert (Hb : bool_decide (n = Include) || bool_decide (n = Exclude) = true) by (by destruct b).
  rewrite Hb. cbn [orb]. unfold l. rewrite fmap_app. f_equal.
Qed.

(** The buttons of a field never light up: the filters they add hold the value encoded,
    and it is compared as it is.  Pressed again, Include adds the filter once more; Include
    and then Exclude leave both filters, and no line passes the expression of such filters. *)
Theorem field_buttons_blind `{RegexLaws} e t p :
  variable v_fields e p = Some [] ->
  stream_filter {| label := e; op := Equal; val := t; valueLabels := [] |} ->
  exists p1 p2 p3 new,
    press true e t v_fields p = Some p1 /\ isSelected e t v_fields p1 = Some (false, false) /\
    variable v_fields e p1 = Some [new] /\
    press true e t v_fields p1 = Some p2 /\ variable v_fields e p2 = Some [new; new] /\
    press false e t v_fields p1 = Some p3 /\
    exists fs text stages, assoc v_fields (vars p3) = Some fs /\ getFieldsExpr fs = Some text /\
      read_stages text = Some stages /\ forall labels, passes stages labels = false.
Proof.
  intros Hv Hs. set (c := field_click e t Include p). set (x := field_click e t Exclude p).
  destruct (field_press true e t p [] Hv) as [E1 _]; [constructor|].
  set (p1 := set_variable v_all_fields (clicked <$> ([] ++ [c])) p) in *.
  assert (V1 : variable v_fields e p1 = Some (clicked <$> [c])) by apply vars_set_variable.
  assert (Hc : Forall (fun c => k_key c = e /\ k_value c = t /\ k_op c = Equal) [c]) by (by repeat constructor).
  assert (Ec : forall n, field_click e t n p1 = field_click e t n p).
  { intros n. unfold field_click, parser_of_field, p1, set_variable. by destruct (_ && _). }
  destruct (field_press true e t p1 [c] V1 Hc) as [E2 S1]. destruct (field_press false e t p1 [c] V1 Hc) as [E3 _].
  rewrite Ec in E2, E3. fold c in E2. fold x in E3.
  exists p1, (set_variable v_all_fields (clicked <$> ([c] ++ [c])) p1),
    (set_variable v_all_fields (clicked <$> ([c] ++ [x])) p1), (clicked c).
  split_and!; [done|done|done|done|apply vars_set_variable|done|].
  exists (clicked <$> [c; x]), (getMetadataExpr (meant <$> [c; x])), (metadata_matchers (meant <$> [c; x])).
  assert (Hok : Forall click_ok [c; x]).
  { assert (Hn : forall n, click_ok (field_click e t n p)).
    { intros n. destruct Hs as [H1 _ H3]. split; [|apply parser_of_field_ok]. split; [done| |done].
      cbn. by case_decide. }
    by repeat (apply list.Forall_cons; split; [apply Hn|]). }
  destruct (fields_expr_decodes [c; x] [] Hok) as (Ef & Er & _); [constructor|].
  split_and!; [|exact Ef|exact Er|].
  - assert (Hl : forall y, OH (val (clicked y)) (valueLabels (clicked y)) = false).
    { intros y. unfold OH. cbn [clicked val valueLabels hd_error]. rewrite encoded_unmarked.
      apply bool_decide_false. intros [= E]. by apply (encoded_ne (k_value y) (k_parser y)). }
    unfold set_variable. change (default [] (assoc v_all_fields (vars p1))) with (default [] (variable v_fields e p1)).
    rewrite V1. cbn [default from_option]. rewrite bool_decide_true by done.
    assert (Hd : same_filters (clicked <$> ([c] ++ [x])) (id (clicked <$> [c])) = false).
    { unfold same_filters. by rewrite bool_decide_false. }
    rewrite Hd. cbn [negb andb vars set_vars]. rewrite !assoc_put, decide_False, decide_True by done.
    cbn [app fmap list_fmap List.filter]. by rewrite !Hl.
  - assert (Hm : Forall stream_filter (meant <$> [c; x])).
    { rewrite Forall_fmap. eapply list.Forall_impl; [exact Hok|]. by intros y []. }
    intros labels. apply not_true_iff_false. rewrite passes_iff by done. intros Hp.
    destruct (Hp e) as (H1 & _ & H3 & _).
    assert (One : forall y, k_key y = e -> k_value y = t -> val <$> List.filter (on_key e) [meant y] = [t]).
    { intros y Ky Vy. cbn [List.filter]. unfold on_key. rewrite bool_decide_true by done. cbn. by rewrite Vy. }
    assert (Ve : vals (meant <$> [c; x]) Equal e = [t]) by exact (One c eq_refl eq_refl).
    assert (Vn : vals (meant <$> [c; x]) NotEqual e = [t]) by exact (One x eq_refl eq_refl).
    rewrite Ve in H1. rewrite Vn in H3. destruct H1 as [H1|H1]; [done|]. destruct H3 as [H3|(v & H3 & Hne)]; [done|].
    apply list_elem_of_singleton in H1. apply list_elem_of_singleton in H3. congruence.
Qed.

(** ** Levels *)

(** A click on a level shows it alone and a second click takes that back, but not for
    the lines without a level: they are included under another name than the one that is
    looked for, so every further click only includes them again. *)
Theorem level_clicks e p :
  assoc v_levels (vars p) = Some [] -> bar_free e ->
  exists p1 p2, toggleLevel e p = Some (p1, Added) /\
    assoc v_levels (vars p1) =
      Some [{| label := detected_level; op := Equal;
               val := if decide (e = str "logs") then EMPTY else e; valueLabels := [] |}] /\
    toggleLevel e p1 = Some (p2, if decide (e = str "logs") then Added else Removed) /\
    assoc v_levels (vars p2) = if decide (e = str "logs") then assoc v_levels (vars p1) else Some [].
Proof.
  intros Hv He.
  set (v := if decide (e = str "logs") then EMPTY else e).
  set (f := {| label := detected_level; op := Equal; val := v; valueLabels := [] |}).
  set (p1 := set_variable v_levels [f] p).
  assert (Rep : forall q l, assoc v_levels (vars q) = Some l ->
    replaceFilter detected_level v Include v_levels q = Some (set_variable v_levels [f] q)).
  { intros q l Hq. unfold replaceFilter, variable. change (variable_name v_levels detected_level) with v_levels.
    by rewrite Hq. }
  assert (V1 : assoc v_levels (vars p1) = Some [f]) by apply vars_set_variable.
  assert (E1 : toggleLevel e p = Some (p1, Added)).
  { unfold toggleLevel. rewrite Hv. cbn [mbind option_bind]. fold v. by rewrite (Rep p [] Hv). }
  destruct (decide (e = str "logs")) as [El|El].
  - exists p1, (set_variable v_levels [f] p1). split; [done|]. split; [done|]. split; [|by rewrite V1; apply vars_set_variable].
    unfold toggleLevel. rewrite V1. cbn [mbind option_bind].
    assert (Ef : List.find (fun t => bool_decide (e ∈ split_bar (val t)) && isInclusive (op t)) [f] = None).
    { cbn [List.find val f]. rewrite bool_decide_false; [done|]. subst e. unfold v.
      rewrite list_elem_of_In. intros [Hi|[]]. discriminate Hi. }
    rewrite Ef. rewrite decide_True by done. change EMPTY with v. by rewrite (Rep p1 [f] V1).
  - exists p1, (set_variable v_levels [] p1). split; [done|]. split; [done|].
    split; [|apply vars_set_variable]. unfold toggleLevel. rewrite V1. cbn [mbind option_bind].
    assert (Ef : List.find (fun t => bool_decide (e ∈ split_bar (val t)) && isInclusive (op t)) [f] = Some f).
    { cbn [List.find]. change (val f) with e. rewrite split_bar_free by done.
      rewrite bool_decide_true by apply list_elem_of_here. done. }
    rewrite Ef, decide_False by done.
    rewrite (addToFilters_eq detected_level e Toggle v_levels p1 [f]) by exact V1.
    assert (Ek : List.filter (kept detected_level e Toggle) [f] = []).
    { cbn [List.filter kept]. unfold hit. rewrite bool_decide_true; [done|]. by split. }
    unfold with_click. rewrite Ek. reflexivity.
Qed.

(** ** Favourites *)

(** C36.  The favourites of a data source for a label are the values added, the last one first
    and none twice, less those removed, whatever else is added and removed in between under
    other keys and whatever the storage held before. *)
Theorem favorites_kept ops e t n s :
  e <> [] ->
  getFavorites e t (addFavorite e t n s) = n :: without n (getFavorites e t s) /\
  (t <> [] -> n <> [] -> getFavorites e t (removeFavorite e t n s) = without n (getFavorites e t s)) /\
  (NoDup (getFavorites e t s) -> NoDup (getFavorites e t (favorite_run ops s))) /\
  ((forall o e' t' m, In o ops -> o = Add e' t' m \/ o = Remove e' t' m -> favorites_key e t <> favorites_key e' t') ->
   getFavorites e t (favorite_run ops s) = getFavorites e t s).
Proof.
  intros He. split; [by apply getFavorites_add|]. split; [by apply getFavorites_remove|].
  split; [apply favorite_run_NoDup|]. revert s. induction ops as [|o ops IH]; intros s Ho; [done|].
  cbn [favorite_run fold_left]. unfold favorite_run in IH. rewrite IH by (intros; eapply Ho; [by right|done]).
  apply getFavorites_other. intros e' t' m Hm. by apply (Ho o e' t' m); [left|].
Qed.

(** Two data sources can share a list: the key runs the two names together. *)
Theorem favorites_collide s : getFavorites (str "a") (str "b_c") s = getFavorites (str "a_b") (str "c") s.
Proof. reflexivity. Qed.

(** A switch that is on by default cannot be stored off. *)
Theorem switch_off_forgotten w s : getSwitch w true (setSwitch w false s) = true.
Proof. apply orb_true_r. Qed.

(** ** Witnesses *)

(** A value that looks like the encoding of another. *)
Definition tricky : bytes := encoded (str "x") MIXED.

Ltac by_decision := refine (bool_decide_unpack _ _); vm_compute; exact Logic.I.

#[local] Instance plain_dec v : Decision (plain v).
Proof. unfold plain. apply _. Defined.

Lemma fields_expr_decodes_witness :
  getFieldsExpr [clicked {| k_key := str "msg"; k_op := NotEqual; k_value := tricky; k_parser := JSON |}] =
    Some (getMetadataExpr [{| label := str "msg"; op := NotEqual; val := tricky; valueLabels := [] |}]).
Proof.
  apply (fields_expr_decodes [{| k_key := str "msg"; k_op := NotEqual; k_value := tricky; k_parser := JSON |}]
           [(str "n", gt, str "5", None)]).
  - apply list.Forall_cons. split; [|by apply list.Forall_nil]. split; [|by_decision].
    split; [split; [discriminate|]|reflexivity|]; by_decision.
  - apply list.Forall_cons. split; [|by apply list.Forall_nil]. split; [by_decision|]. split; [discriminate|by_decision].
Defined.

Definition page (v : list (bytes * list AdHoc)) : Page :=
  {| vars := v; p_datasource := str "loki"; p_storage := []; detectedLabels := [str "pod"];
     detectedFields := [(str "msg", LOGFMT)] |}.

Lemma filter_buttons_switch_witness :
  exists p', press true (str "pod") (str "a") v_filters (page [(v_filters, [])]) = Some p' /\
    isSelected (str "pod") (str "a") v_filters p' = Some (true, false) /\
    getFavorites (str "loki") (str "pod") (p_storage p') = [str "a"].
Proof.
  destruct (filter_buttons_switch true (str "pod") (str "a") v_filters (page [(v_filters, [])]) [])
    as (p' & l' & _ & Hp & Hs & _ & _ & Hf).
  - discriminate.
  - reflexivity.
  - exists p'. split; [exact Hp|]. split; [exact Hs|]. apply Hf; [reflexivity|discriminate].
Defined.

Lemma field_buttons_blind_witness :
  exists p1, press true (str "msg") (str "a") v_fields (page [(v_all_fields, [])]) = Some p1 /\
    isSelected (str "msg") (str "a") v_fields p1 = Some (false, false).
Proof.
  destruct (field_buttons_blind (H:=plain_engine) (H0:=plain_laws) (str "msg") (str "a") (page [(v_all_fields, [])]))
    as (p1 & p2 & p3 & new & H1 & H2 & _).
  - reflexivity.
  - split; [split; [discriminate|]|reflexivity|]; by_decision.
  - exists p1. by split.
Defined.

Lemma level_clicks_witness :
  exists p1 p2, toggleLevel (str "logs") (page [(v_levels, [])]) = Some (p1, Added) /\
    toggleLevel (str "logs") p1 = Some (p2, Added).
Proof.
  destruct (level_clicks (str "logs") (page [(v_levels, [])])) as (p1 & p2 & H1 & _ & H2 & _).
  - reflexivity.
  - by_decision.
  - exists p1, p2. by split.
Defined.

Lemma favorites_kept_witness :
  getFavorites (str "loki") (str "pod") (addFavorite (str "loki") (str "pod") (str "b")
    (addFavorite (str "loki") (str "pod") (str "a") [])) = [str "b"; str "a"].
Proof.
  rewrite (proj1 (favorites_kept [] (str "loki") (str "pod") (str "b")
    (addFavorite (str "loki") (str "pod") (str "a") []) ltac:(discriminate))).
  vm_compute. reflexivity.
Defined.
