(* ===== verification/Flame.v ===== *)
(** * Flame graphs (75.js of the Pyroscope bundle, module 8629)

    The profiles the server sends are lists of levels, each a list of numbers, four or
    seven for a frame, its offset counted from the end of the frame before.  [C] reads
    a level; the effect of component [k] finds for every frame the parent whose
    interval it starts in, and lists the tree from its root, parents first.

    The objects of a level are shared: [children] of a frame of one level holds frames
    of the next, whose own children are added later.  Here [children] holds their
    positions in the next level.  Sizes and offsets are numbers below 2^53, sums
    included, where JavaScript's arithmetic is exact. *)

From S2P Require Import Prelude.

Record Frame := {
  level : nat;
  label : option bytes;  (* undefined if there is no such name *)
  offset : Z; val : Z; self : Z; selfRight : Z; valRight : Z;
  valTotal : Z; offsetRight : Z; offsetTotal : Z;
  children : list nat
}.

(** [t[i]]. *)
Definition name_at (t : list bytes) (i : Z) : option bytes :=
  if i <? 0 then None else t !! Z.to_nat i.

(** [C(e, t, n)]; [None] if the last frame of the level is cut short. *)
Fixpoint C (t : list bytes) (n : bool) (e : list Z) : option (list Frame) :=
  match e with
  | [] => Some []
  | e0 :: e1 :: e2 :: e3 :: r =>
      if n then
        match r with
        | e4 :: e5 :: e6 :: r =>
            l ← C t n r;
            Some ({| level := 0; label := name_at t e6; offset := e0; val := e1; self := e2;
                     selfRight := e5; valRight := e4; valTotal := e1 + e4; offsetRight := e3;
                     offsetTotal := e0 + e3; children := [] |} :: l)
        | _ => None
        end
      else
        l ← C t n r;
        Some ({| level := 0; label := name_at t e3; offset := e0; val := e1; self := e2;
                 selfRight := 0; valRight := 0; valTotal := e1; offsetRight := 0;
                 offsetTotal := e0; children := [] |} :: l)
  | _ => None
  end.

Definition set_level (n : nat) (r : Frame) : Frame :=
  {| level := n; label := label r; offset := offset r; val := val r; self := self r;
     selfRight := selfRight r; valRight := valRight r; valTotal := valTotal r;
     offsetRight := offsetRight r; offsetTotal := offsetTotal r; children := children r |}.
Definition set_children (r : Frame) (l : list nat) : Frame :=
  {| level := level r; label := label r; offset := offset r; val := val r; self := self r;
     selfRight := selfRight r; valRight := valRight r; valTotal := valTotal r;
     offsetRight := offsetRight r; offsetTotal := offsetTotal r; children := l |}.

(** The loop over the level above, [o] the end of the frames passed: the first frame
    whose interval holds [e] gets the child [r]. *)
Fixpoint find_parent (o e : Z) (r : nat) (t : list Frame) : list Frame :=
  match t with
  | [] => []
  | n :: t' =>
      let from := o + offsetTotal n in
      let upto := from + valTotal n in
      if (from <=? e) && (upto >? e) then set_children n (children n ++ [r]) :: t'
      else n :: find_parent (o + (offsetTotal n + valTotal n)) e r t'
  end.

(** The loop over the frames [rs] of level [n]: the level so far, and the one above. *)
Fixpoint add_frames (n : nat) (cur above rs : list Frame) : list Frame * list Frame :=
  match rs with
  | [] => (cur, above)
  | r :: rs =>
      let cur' := cur ++ [set_level n r] in
      if (0 <? n)%nat then
        let e := fold_left (fun e t => offsetTotal t + valTotal t + e) cur 0 + offsetTotal r in
        add_frames n cur' (find_parent 0 e (length cur) above) rs
      else add_frames n cur' above rs
  end.

(** One round of the loop over the levels. *)
Definition add_level (t : list bytes) (n : bool) (a : option (list (list Frame))) (e : list Z)
  : option (list (list Frame)) :=
  a ← a; rs ← C t n e;
  let k := length a in
  let '(cur, above) := add_frames k [] (default [] (a !! pred k)) rs in
  Some ((if (0 <? k)%nat then <[pred k := above]> a else a) ++ [cur]).

(** The six columns, by rows. *)
Record Row := {
  r_label : option bytes; r_level : nat; r_self : Z; r_value : Z; r_selfRight : Z; r_valueRight : Z
}.

Definition row (e : Frame) : Row :=
  {| r_label := label e; r_level := level e; r_self := self e; r_value := val e;
     r_selfRight := selfRight e; r_valueRight := valRight e |}.

(** [while (i.length)]: [i] holds frames, as the number of their level and their
    position in it.  A position that does not exist is [undefined], which throws. *)
Fixpoint walk (fuel : nat) (a : list (list Frame)) (i : list (nat * nat)) : result (list Row) :=
  match i with
  | [] => Ok []
  | (n, k) :: i =>
      match fuel with
      | O => OutOfFuel
      | S fuel =>
          match a !! n ≫= (.!! k) with
          | Some e =>
              let* rows := walk fuel a (((fun c => (S n, c)) <$> children e) ++ i) in
              Ok (row e :: rows)
          | None => Throw (RuntimeException (str "TypeError"))
          end
      end
  end.

(** The number of frames. *)
Definition frames (a : list (list Frame)) : nat := length (mjoin a).

(** From the levels to the rows of the data frame; [None] if there are no levels, or
    a frame is cut short. *)
Definition flame_rows (levels : list (list Z)) (t : list bytes) (n : bool) : option (result (list Row)) :=
  match levels with
  | [] => None
  | _ => a ← fold_left (add_level t n) levels (Some []); Some (walk (frames a) a [(0, 0)%nat])
  end.

(** The unit of the columns. *)
Definition unit_of (n : bytes) : bytes :=
  if decide (n ∈ [str "samples"; str "trace_samples"; str "lock_nanoseconds"; str "nanoseconds"])
  then str "ns"
  else if decide (n = str "bytes") then str "bytes" else str "short".
