(* ===== verification/FlameCorrect.v ===== *)
(** * Flame graphs: decoding inverts the encoding

    A reference tree, its encoding by levels, and the proof that [flame_rows] gives the
    tree back, parents first.  [pos] is a node with its place on the axis; a level is
    a list of places in order, and the children of a level are the next one. *)

From S2P Require Import Prelude.
From S2P Require Import Flame.

(** ** Trees *)

(** A node: the index of its name, the gap before it, its size and its own part of it,
    on the left and (in a comparison) on the right. *)
Inductive Tree :=
  Node (name : Z) (gapL gapR sizeL sizeR selfL selfR : Z) (kids : list Tree).

Definition kids (t : Tree) : list Tree := let '(Node _ _ _ _ _ _ _ l) := t in l.

Section Encoding.
(** The names, and whether the profile is a comparison. *)
Variables (names : list bytes) (diff : bool).

Definition gap (t : Tree) : Z := let '(Node _ gl gr _ _ _ _ _) := t in if diff then gl + gr else gl.
Definition size (t : Tree) : Z := let '(Node _ _ _ sl sr _ _ _) := t in if diff then sl + sr else sl.

(** The part of the axis that trees side by side take up. *)
Fixpoint extent (l : list Tree) : Z :=
  match l with [] => 0 | t :: l => gap t + size t + extent l end.

(** Nodes are not empty, gaps not negative, and children fit in their parent. *)
Fixpoint fits (t : Tree) : bool :=
  let '(Node _ _ _ _ _ _ _ l) := t in
  (0 <? size t) && (0 <=? gap t) && (extent l <=? size t) && forallb fits l.

(** The nodes of a tree, parents first. *)
Definition node_row (n : nat) (t : Tree) : Row :=
  let '(Node i _ _ sl sr fl fr _) := t in
  {| r_label := name_at names i; r_level := n; r_self := fl; r_value := sl;
     r_selfRight := if diff then fr else 0; r_valueRight := if diff then sr else 0 |}.
Fixpoint preorder (n : nat) (t : Tree) : list Row :=
  let '(Node _ _ _ _ _ _ _ l) := t in node_row n t :: flat_map (preorder (S n)) l.

(** ** Encoding *)

(** A node and where it begins, on the left and on the right. *)
Record pos := { tree : Tree; atL : Z; atR : Z }.

Fixpoint place (xL xR : Z) (l : list Tree) : list pos :=
  match l with
  | [] => []
  | Node i gl gr sl sr fl fr k as t :: l =>
      {| tree := t; atL := xL + gl; atR := xR + gr |} :: place (xL + gl + sl) (xR + gr + sr) l
  end.
Definition below (p : pos) : list pos := place (atL p) (atR p) (kids (tree p)).

(** The numbers of a level, from the ends of the frame before. *)
Fixpoint encode_level (xL xR : Z) (l : list pos) : list Z :=
  match l with
  | [] => []
  | {| tree := Node i _ _ sl sr fl fr _; atL := aL; atR := aR |} :: l =>
      (if diff then [aL - xL; sl; fl; aR - xR; sr; fr; i] else [aL - xL; sl; fl; i])
        ++ encode_level (aL + sl) (aR + sr) l
  end.

Fixpoint levels (d : nat) (l : list pos) : list (list pos) :=
  match d with O => [] | S d => l :: levels d (flat_map below l) end.
Fixpoint depth (t : Tree) : nat :=
  let '(Node _ _ _ _ _ _ _ l) := t in S (fold_right Nat.max 0%nat (depth <$> l)).

(** The levels of a profile. *)
Definition encode (t : Tree) : list (list Z) := encode_level 0 0 <$> levels (depth t) (place 0 0 [t]).

(** ** Places *)

Definition from (p : pos) : Z := if diff then atL p + atR p else atL p.
Definition upto (p : pos) : Z := from p + size (tree p).
Fixpoint end_of (x : Z) (l : list pos) : Z := match l with [] => x | p :: l => end_of (upto p) l end.

(** Side by side, in order, from [x] on. *)
Fixpoint chain (x : Z) (l : list pos) : Prop :=
  match l with [] => True | p :: l => x <= from p /\ from p < upto p /\ chain (upto p) l end.

Lemma fits_inv t :
  fits t = true -> 0 < size t /\ 0 <= gap t /\ extent (kids t) <= size t /\ Forall (fun t => fits t = true) (kids t).
Proof.
  destruct t as [i gl gr sl sr fl fr l]. cbn [fits kids].
  rewrite !andb_true_iff, Z.ltb_lt, !Z.leb_le, forallb_forall. intros [[[H1 H2] H3] Hk].
  repeat split; try done. apply list.Forall_forall. intros x Hx. by apply Hk, list_elem_of_In.
Qed.

Lemma chain_weaken x y l : chain x l -> y <= x -> chain y l.
Proof. destruct l; cbn; [done|]. intuition lia. Qed.

Lemma end_of_app x l k : end_of x (l ++ k) = end_of (end_of x l) k.
Proof. revert x; induction l as [|p l IH]; intros x; [done|]. apply IH. Qed.

Lemma chain_app x l k : chain x (l ++ k) <-> chain x l /\ chain (end_of x l) k.
Proof.
  revert x; induction l as [|p l IH]; intros x; cbn [app chain end_of]; [tauto|].
  rewrite IH. tauto.
Qed.

Lemma chain_end x l : chain x l -> x <= end_of x l.
Proof.
  revert x; induction l as [|p l IH]; intros x; cbn [chain end_of]; [lia|].
  intros (H1 & H2 & H3). specialize (IH _ H3). lia.
Qed.

Definition axis (xL xR : Z) : Z := if diff then xL + xR else xL.

Lemma place_chain xL xR l :
  Forall (fun t => fits t = true) l ->
  chain (axis xL xR) (place xL xR l) /\ end_of (axis xL xR) (place xL xR l) = axis xL xR + extent l /\
  Forall (fun p => fits (tree p) = true) (place xL xR l).
Proof.
  revert xL xR; induction l as [|t l IH]; intros xL xR Hl.
  { cbn. split; [done|]. split; [cbn; lia|constructor]. }
  apply list.Forall_cons in Hl as [Ht Hl]. pose proof (fits_inv t Ht) as (Hs & Hg & _).
  destruct t as [i gl gr sl sr fl fr k]. cbn [place chain end_of].
  destruct (IH (xL + gl + sl) (xR + gr + sr) Hl) as (Hc & He & Hf).
  assert (Hup : upto {| tree := Node i gl gr sl sr fl fr k; atL := xL + gl; atR := xR + gr |}
                = axis (xL + gl + sl) (xR + gr + sr)).
  { unfold upto, from, axis, size. cbn. destruct diff; lia. }
  split; [|split].
  - split; [unfold from, axis, gap in *; cbn in *; destruct diff; lia|].
    split; [unfold upto; cbn [tree]; lia|]. by rewrite Hup.
  - rewrite Hup, He. cbn [extent]. unfold axis, gap, size. destruct diff; lia.
  - constructor; [done|]. exact Hf.
Qed.

Lemma below_chain p :
  fits (tree p) = true ->
  chain (from p) (below p) /\ end_of (from p) (below p) <= upto p /\
  Forall (fun q => fits (tree q) = true) (below p).
Proof.
  intros Hp. pose proof (fits_inv _ Hp) as (_ & _ & He & Hk).
  destruct (place_chain (atL p) (atR p) _ Hk) as (H1 & H2 & H3).
  unfold below. change (axis (atL p) (atR p)) with (from p) in *.
  split; [done|]. split; [|done]. unfold upto. lia.
Qed.

Lemma flat_chain x l :
  chain x l -> Forall (fun p => fits (tree p) = true) l ->
  chain x (flat_map below l) /\ end_of x (flat_map below l) <= end_of x l /\
  Forall (fun q => fits (tree q) = true) (flat_map below l).
Proof.
  revert x; induction l as [|p l IH]; intros x Hc Hl; [split_and!; [done|done|constructor]|].
  apply list.Forall_cons in Hl as [Hp Hl]. cbn [chain] in Hc. destruct Hc as (Hx & Hpp & Hc).
  destruct (below_chain p Hp) as (H1 & H2 & H3). destruct (IH _ Hc Hl) as (H4 & H5 & H6).
  cbn [flat_map].
  assert (Hb : end_of x (below p) <= upto p).
  { destruct (below p); cbn [end_of] in *; [|done]. lia. }
  split; [|split].
  - apply chain_app. split; [by apply (chain_weaken (from p))|]. by apply (chain_weaken (upto p)).
  - rewrite end_of_app. cbn [end_of]. pose proof (chain_end _ _ Hc).
    destruct (flat_map below l); cbn [end_of] in *; [lia|done].
  - by apply Forall_app.
Qed.

(** ** Reading a level *)

(** A frame stands for a node; [x] is the end of the frame before. *)
Record stands (x : Z) (r : Frame) (p : pos) : Prop := {
  st_offset : x + offsetTotal r = from p;
  st_val : valTotal r = size (tree p);
  st_row n : row (set_level n r) = node_row n (tree p);
  st_children : children r = []
}.
Fixpoint stand (x : Z) (rs : list Frame) (l : list pos) : Prop :=
  match rs, l with
  | [], [] => True
  | r :: rs, p :: l => stands x r p /\ stand (upto p) rs l
  | _, _ => False
  end.

(** The place of a node agrees with what was read of it. *)
Lemma C_encode xL xR l :
  exists rs, C names diff (encode_level xL xR l) = Some rs /\ stand (axis xL xR) rs l.
Proof.
  revert xL xR; induction l as [|[[i gl gr sl sr fl fr k] aL aR] l IH]; intros xL xR; [by exists []|].
  cbn [encode_level]. destruct (IH (aL + sl) (aR + sr)) as (rs & Hrs & Hst).
  assert (Hup : axis (aL + sl) (aR + sr) = upto {| tree := Node i gl gr sl sr fl fr k; atL := aL; atR := aR |}).
  { unfold axis, upto, from, size. cbn. destruct diff; lia. }
  rewrite Hup in Hst. clear IH Hup.
  unfold axis, from, size in *. destruct diff eqn:Ed; cbn [app C]; rewrite Hrs; cbn [mbind option_bind];
    eexists; (split; [done|]); (split; [|done]);
    (split; unfold from, size, node_row, row; rewrite ?Ed; cbn; try lia; done).
Qed.

Lemma stand_app x rs l k :
  stand x rs (l ++ k) ->
  exists r1 r2, rs = r1 ++ r2 /\ stand x r1 l /\ stand (end_of x l) r2 k.
Proof.
  revert x rs; induction l as [|q l IH]; intros x rs; cbn [app end_of]; [by exists [], rs|].
  destruct rs as [|r rs]; [done|]. cbn [stand]. intros [H1 H2].
  destruct (IH _ _ H2) as (r1 & r2 & -> & H3 & H4). by exists (r :: r1), r2.
Qed.

Lemma stand_app_2 x r1 r2 l k : stand x r1 l -> stand (end_of x l) r2 k -> stand x (r1 ++ r2) (l ++ k).
Proof.
  revert x l; induction r1 as [|r r1 IH]; intros x [|p l]; try done. cbn. intros [? ?] ?. split; auto.
Qed.

Lemma stand_set_level x rs l n : stand x rs l -> stand x (set_level n <$> rs) l.
Proof.
  revert x l; induction rs as [|r rs IH]; intros x [|p l]; try done. cbn. intros [[? ? ? ?] ?].
  split; [by split|]. by apply IH.
Qed.

Lemma stand_length x rs l : stand x rs l -> length rs = length l.
Proof.
  revert x l; induction rs as [|r rs IH]; intros x [|p l]; try done. cbn. intros [_ H]. f_equal. eauto.
Qed.

(** The sum of offsets and sizes is the place where the next frame begins. *)
Lemma stand_sum x rs l n :
  stand x rs l ->
  fold_left (fun e t => offsetTotal t + valTotal t + e) (set_level n <$> rs) x = end_of x l.
Proof.
  revert x l; induction rs as [|r rs IH]; intros x [|p l]; try done. cbn [stand fold_left fmap list_fmap end_of].
  intros [[Ho Hv _ _] H]. cbn [set_level offsetTotal valTotal].
  replace (offsetTotal r + valTotal r + x) with (upto p) by (unfold upto; lia). by apply IH.
Qed.

(** ** Finding parents *)

(** Frames with their lists of children. *)
Definition with_children (rs : list Frame) (ls : list (list nat)) : list Frame := zip_with set_children rs ls.

Lemma find_parent_spec x rs l ls A p B e k :
  stand x rs l -> l = A ++ p :: B -> length ls = length l ->
  Forall (fun a => upto a <= e) A -> from p <= e < upto p ->
  find_parent x e k (with_children rs ls) = with_children rs (alter (fun c => c ++ [k]) (length A) ls).
Proof.
  revert x rs l ls; induction A as [|a A IH]; intros x rs l ls Hst -> Hlen HA He;
    destruct rs as [|r rs]; try done; destruct ls as [|c ls]; try done; cbn [app stand] in Hst;
    destruct Hst as [[Ho Hv _ _] Hst]; unfold with_children; cbn [zip_with find_parent length alter list_alter];
    cbn [set_children offsetTotal valTotal].
  - destruct He as [He1 He2]. rewrite Ho, Hv.
    destruct (Z.leb_spec (from p) e); [|lia]. rewrite Z.gtb_ltb.
    change (from p + size (tree p)) with (upto p). destruct (Z.ltb_spec e (upto p)); [done|lia].
  - apply list.Forall_cons in HA as [Ha HA]. rewrite Ho, Hv, Z.gtb_ltb.
    change (from a + size (tree a)) with (upto a). destruct (Z.ltb_spec e (upto a)); [lia|].
    rewrite andb_false_r. replace (x + (offsetTotal r + size (tree a))) with (upto a) by (unfold upto; lia).
    f_equal. by apply (IH (upto a) rs (A ++ p :: B)); [| |injection Hlen|..].
Qed.

Lemma chain_bounds x l p : chain x l -> p ∈ l -> x <= from p /\ from p < upto p /\ upto p <= end_of x l.
Proof.
  revert x; induction l as [|q l IH]; intros x Hc Hp; [by apply elem_of_nil in Hp|].
  cbn [chain end_of] in *. destruct Hc as (H1 & H2 & H3). apply elem_of_cons in Hp as [-> |Hp].
  - split_and!; try done. by apply chain_end.
  - destruct (IH _ H3 Hp) as (? & ? & ?). lia.
Qed.

(** The children of a node begin within it, and after the nodes before it. *)
Lemma below_inside x A p B k :
  chain x (A ++ p :: B) -> fits (tree p) = true -> k ∈ below p ->
  from p <= from k < upto p /\ Forall (fun a => upto a <= from k) A.
Proof.
  intros Hc Hf Hk. apply chain_app in Hc as [HA Hp]. cbn [chain] in Hp. destruct Hp as (Hp & _).
  destruct (below_chain p Hf) as (H1 & H2 & _). destruct (chain_bounds _ _ _ H1 Hk) as (H3 & H4 & H5).
  split; [lia|]. apply list.Forall_forall. intros a Ha.
  destruct (chain_bounds _ _ _ HA Ha) as (_ & _ & H6). lia.
Qed.

(** The frames of [ks], children of one node, are put into its list. *)
Lemma add_kids n ra l A p B ks r1 r2 dn q ls :
  stand 0 ra l -> l = A ++ p :: B -> length ls = length l -> (0 < n)%nat ->
  Forall (fun k => from p <= from k < upto p /\ Forall (fun a => upto a <= from k) A) ks ->
  stand 0 dn q -> stand (end_of 0 q) r1 ks ->
  add_frames n (set_level n <$> dn) (with_children ra ls) (r1 ++ r2) =
  add_frames n (set_level n <$> (dn ++ r1))
    (with_children ra (alter (fun c => c ++ seq (length dn) (length r1)) (length A) ls)) r2.
Proof.
  intros Hra Hl Hlen Hn. revert r1 dn q ls Hlen.
  induction ks as [|k ks IH]; intros [|r r1] dn q ls Hlen Hks Hdone Hr; try done.
  - cbn [app length seq]. rewrite app_nil_r. rewrite list_alter_id; [done|]. intros. by apply app_nil_r.
  - cbn [stand] in Hr. destruct Hr as [Hr Hr1]. apply list.Forall_cons in Hks as [[Hk HkA] Hks].
    cbn [app add_frames]. destruct (Nat.ltb_spec 0 n) as [_|]; [|lia].
    rewrite (stand_sum 0 dn q n Hdone), (st_offset _ _ _ Hr), length_fmap.
    rewrite (find_parent_spec 0 ra l ls A p B) by done.
    change ([set_level n r]) with (set_level n <$> [r]). rewrite <- fmap_app.
    rewrite (IH r1 (dn ++ [r]) (q ++ [k]));
      [|by rewrite length_alter|done|apply stand_app_2; [done|by split]|].
    2:{ assert (end_of 0 (q ++ [k]) = upto k) as ->; [|done]. clear. generalize 0. induction q; intros; cbn; auto. }
    rewrite <- app_assoc, list_alter_alter_eq. cbn [app]. do 2 f_equal. apply list_alter_ext; [|done].
    intros c Hc. cbn. rewrite length_app. cbn [length seq]. rewrite Nat.add_1_r, <- app_assoc. done.
Qed.

(** Consecutive numbers from [k] on, in groups. *)
Fixpoint segments (k : nat) (ms : list nat) : list (list nat) :=
  match ms with [] => [] | m :: ms => seq k m :: segments (k + m) ms end.

Lemma add_groups n ra l A B rs dn ls :
  stand 0 ra l -> l = A ++ B -> length ls = length A -> (0 < n)%nat ->
  chain 0 l -> Forall (fun p => fits (tree p) = true) l ->
  stand 0 dn (flat_map below A) -> stand (end_of 0 (flat_map below A)) rs (flat_map below B) ->
  add_frames n (set_level n <$> dn) (with_children ra (ls ++ replicate (length B) [])) rs =
  (set_level n <$> (dn ++ rs),
   with_children ra (ls ++ segments (length dn) ((fun p => length (below p)) <$> B))).
Proof.
  intros Hra Hl Hlen Hn Hc Hf. revert A ls rs dn Hl Hlen.
  induction B as [|p B IH]; intros A ls rs dn Hl Hlen Hdone Hrs.
  { cbn in Hrs. destruct rs; [|done]. cbn. by rewrite !app_nil_r. }
  cbn [flat_map] in Hrs. apply stand_app in Hrs as (r1 & r2 & -> & H1 & H2).
  rewrite (add_kids n ra l A p B (below p) r1 r2 dn (flat_map below A)); try done.
  2:{ rewrite Hl, !length_app, length_replicate. lia. }
  2:{ apply list.Forall_forall. intros k Hk. rewrite Hl in Hc, Hf. apply (below_inside 0 A p B); try done.
      apply Forall_app in Hf as [_ Hf]. by apply list.Forall_cons in Hf as [? _]. }
  rewrite <- Hlen at 1. rewrite <- (Nat.add_0_r (length ls)), alter_app_r.
  cbn [length replicate alter list_alter]. rewrite (stand_length _ _ _ H1).
  change (ls ++ ([] ++ seq (length dn) (length (below p))) :: replicate (length B) [])
    with (ls ++ [seq (length dn) (length (below p))] ++ replicate (length B) []).
  rewrite app_assoc, (IH (A ++ [p])).
  - rewrite <- !app_assoc, length_app, (stand_length _ _ _ H1). done.
  - by rewrite <- app_assoc.
  - rewrite !length_app. cbn. lia.
  - rewrite flat_map_app. cbn [flat_map]. rewrite app_nil_r. by apply stand_app_2.
  - rewrite flat_map_app, end_of_app. cbn [flat_map]. by rewrite app_nil_r.
Qed.

(** ** All levels *)

Lemma with_children_none rs : Forall (fun r => children r = []) rs -> with_children rs (replicate (length rs) []) = rs.
Proof.
  induction 1 as [|r rs Hr _ IH]; [done|]. unfold with_children in *. cbn. rewrite IH. f_equal.
  destruct r. unfold set_children. cbn in *. by rewrite Hr.
Qed.

Lemma stand_none x rs l n : stand x rs l -> Forall (fun r => children r = []) (set_level n <$> rs).
Proof.
  revert x l; induction rs as [|r rs IH]; intros x [|p l]; try done.
  cbn. intros [[_ _ _ H] ?]. constructor; [done|]. by eapply IH.
Qed.

Definition counts (l : list pos) : list nat := (fun p => length (below p)) <$> l.

(** The lists of frames from level [m] on, for the nodes [l] and those below them. *)
Fixpoint built (m : nat) (l : list pos) (a : list (list Frame)) : Prop :=
  match a with
  | [] => l = []
  | fs :: a =>
      (exists rs, stand 0 rs l /\ fs = with_children (set_level m <$> rs) (segments 0 (counts l))) /\
      built (S m) (flat_map below l) a
  end.

Fixpoint exhausted (d : nat) (l : list pos) : Prop :=
  match d with O => l = [] | S d => exhausted d (flat_map below l) end.

Lemma segments_none k l : flat_map below l = [] -> segments k (counts l) = replicate (length l) [].
Proof.
  revert k; induction l as [|p l IH]; intros k; [done|]. cbn [flat_map].
  intros [Hp Hl]%app_eq_nil. cbn. rewrite Hp. cbn. by rewrite IH.
Qed.

Lemma axis_0 : axis 0 0 = 0.
Proof. unfold axis. by destruct diff. Qed.

Lemma add_level_step fin m l ra :
  length fin = m -> stand 0 ra l -> chain 0 l -> Forall (fun p => fits (tree p) = true) l ->
  exists rs, stand 0 rs (flat_map below l) /\
    add_level names diff (Some (fin ++ [set_level m <$> ra])) (encode_level 0 0 (flat_map below l)) =
    Some ((fin ++ [with_children (set_level m <$> ra) (segments 0 (counts l))]) ++ [set_level (S m) <$> rs]).
Proof.
  intros Hm Hra Hc Hf. destruct (C_encode 0 0 (flat_map below l)) as (rs & Hrs & Hst).
  rewrite axis_0 in Hst. exists rs. split; [done|]. unfold add_level. cbn [mbind option_bind].
  rewrite Hrs. cbn [mbind option_bind]. rewrite length_app. cbn [length].
  replace (length fin + 1)%nat with (S m) by lia. cbn [pred].
  assert (((fin ++ [set_level m <$> ra]) !! m) = Some (set_level m <$> ra)) as ->.
  { by apply list_lookup_middle. }
  change (default [] (Some (set_level m <$> ra))) with (set_level m <$> ra).
  pose proof (add_groups (S m) (set_level m <$> ra) l [] l rs [] []) as H.
  cbn [app length fmap list_fmap flat_map end_of] in H.
  rewrite <- (stand_length _ _ _ Hra), <- (length_fmap (set_level m) ra) in H.
  rewrite with_children_none in H by (by eapply stand_none).
  rewrite H; try done; [|by apply stand_set_level|lia].
  destruct (Nat.ltb_spec 0 (S m)) as [_|]; [|lia].
  do 2 f_equal. rewrite <- Hm at 1. rewrite <- (Nat.add_0_r (length fin)), insert_app_r. done.
Qed.

Lemma build_levels d fin m l ra :
  length fin = m -> stand 0 ra l -> chain 0 l -> Forall (fun p => fits (tree p) = true) l ->
  exhausted d (flat_map below l) ->
  exists a, fold_left (add_level names diff) (encode_level 0 0 <$> levels d (flat_map below l))
              (Some (fin ++ [set_level m <$> ra])) = Some (fin ++ a) /\ built m l a.
Proof.
  revert fin m l ra; induction d as [|d IH]; intros fin m l ra Hm Hra Hc Hf Hd; cbn [exhausted levels] in *.
  - exists [set_level m <$> ra]. split; [done|]. cbn [built]. split; [|done]. exists ra. split; [done|].
    rewrite segments_none by done. rewrite <- (stand_length _ _ _ Hra), <- (length_fmap (set_level m) ra).
    symmetry. apply with_children_none. by eapply stand_none.
  - rewrite fmap_cons. cbn [fold_left].
    destruct (add_level_step fin m l ra Hm Hra Hc Hf) as (rs & Hst & ->).
    destruct (flat_chain 0 l Hc Hf) as (Hc' & _ & Hf').
    destruct (IH (fin ++ [with_children (set_level m <$> ra) (segments 0 (counts l))]) (S m)
                 (flat_map below l) rs) as (a & Ha & Hb); try done.
    { rewrite length_app. cbn. lia. }
    exists (with_children (set_level m <$> ra) (segments 0 (counts l)) :: a).
    split; [rewrite Ha, <- app_assoc; done|]. cbn [built]. split; [|done]. by exists ra.
Qed.

Lemma add_frames_0 cur rs : add_frames 0 cur [] rs = (cur ++ (set_level 0 <$> rs), []).
Proof.
  revert cur; induction rs as [|r rs IH]; intros cur; cbn [add_frames]; [by rewrite app_nil_r|].
  destruct (Nat.ltb_spec 0 0); [lia|]. rewrite IH, <- app_assoc. done.
Qed.

Lemma place_trees xL xR l : tree <$> place xL xR l = l.
Proof.
  revert xL xR; induction l as [|[i gl gr sl sr fl fr k] l IH]; intros; [done|]. cbn [place].
  by rewrite fmap_cons, IH.
Qed.
Lemma below_trees p : tree <$> below p = kids (tree p).
Proof. apply place_trees. Qed.

Lemma depth_exhausted d l : Forall (fun p => (depth (tree p) <= d)%nat) l -> exhausted d l.
Proof.
  revert l; induction d as [|d IH]; intros l Hl; cbn [exhausted].
  - destruct l as [|p l]; [done|]. apply list.Forall_cons in Hl as [Hp _].
    destruct (tree p); cbn in Hp. lia.
  - apply IH. apply list.Forall_forall. intros q Hq.
    apply list_elem_of_In, in_flat_map in Hq as (p & Hp & Hq). apply list_elem_of_In in Hp, Hq.
    rewrite list.Forall_forall in Hl. specialize (Hl p Hp).
    assert (Hk : tree q ∈ kids (tree p)) by (rewrite <- below_trees; by apply list_elem_of_fmap_2).
    destruct (tree p) as [i gl gr sl sr fl fr k]. cbn [depth kids] in *.
    assert (depth (tree q) <= fold_right Nat.max 0 (depth <$> k))%nat; [|lia].
    clear -Hk. induction k as [|t k IH]; [by apply elem_of_nil in Hk|].
    apply elem_of_cons in Hk as [-> |Hk]; cbn; [lia|]. specialize (IH Hk). lia.
Qed.

(** The levels of a tree are built from its encoding. *)
Lemma build_tree t :
  fits t = true ->
  exists a, fold_left (add_level names diff) (encode t) (Some []) = Some a /\ built 0 (place 0 0 [t]) a.
Proof.
  intros Ht.
  destruct (place_chain 0 0 [t]) as (Hc & _ & Hf); [by constructor|]. rewrite axis_0 in Hc.
  assert (Hd : Forall (fun p => (depth (tree p) <= depth t)%nat) (place 0 0 [t])).
  { destruct t. constructor; [done|constructor]. }
  apply depth_exhausted in Hd. unfold encode.
  assert (exists d, depth t = S d) as [d Ed] by (destruct t; cbn; eauto).
  rewrite Ed in *. cbn [exhausted levels] in *. set (l := place 0 0 [t]) in *.
  rewrite fmap_cons. cbn [fold_left].
  destruct (C_encode 0 0 l) as (ra & Hra & Hst). rewrite axis_0 in Hst.
  assert (add_level names diff (Some []) (encode_level 0 0 l) = Some [set_level 0 <$> ra]) as ->.
  { unfold add_level. cbn [mbind option_bind]. rewrite Hra. cbn [mbind option_bind length pred].
    change (default [] ([] !! 0%nat)) with (@nil Frame). by rewrite add_frames_0. }
  exact (build_levels d [] 0 l ra eq_refl Hst Hc Hf Hd).
Qed.

(** ** The walk *)

(** The frame at level [n] and position [k] is the node [p]. *)
Definition at_node (a : list (list Frame)) (n k : nat) (p : pos) : Prop :=
  exists l, built n l (drop n a) /\ l !! k = Some p.

Lemma stand_lookup x rs l k p :
  stand x rs l -> l !! k = Some p ->
  exists r, rs !! k = Some r /\ forall n, row (set_level n r) = node_row n (tree p).
Proof.
  revert x rs k; induction l as [|q l IH]; intros x [|r rs] k; try done. cbn [stand].
  intros [[_ _ Hrow _] Hst]. destruct k as [|k]; cbn; [intros [= ->]; eauto|]. by apply (IH (upto q)).
Qed.

(** The members of a group have the positions of its segment. *)
Lemma segments_spec k l i p :
  l !! i = Some p ->
  exists s, segments k (counts l) !! i = Some (seq (k + s) (length (below p))) /\
            forall j q, below p !! j = Some q -> flat_map below l !! (s + j)%nat = Some q.
Proof.
  revert k i; induction l as [|q l IH]; intros k i; [done|]. destruct i as [|i]; cbn.
  - intros [= ->]. exists 0%nat. rewrite Nat.add_0_r. split; [done|]. intros j q' Hq.
    rewrite lookup_app_l; [done|]. by eapply lookup_lt_Some.
  - intros Hi. destruct (IH (k + length (below q))%nat i Hi) as (s & Hs & Hb).
    exists (length (below q) + s)%nat. rewrite Nat.add_assoc. split; [done|]. intros j q' Hq.
    rewrite lookup_app_r by lia. rewrite <- (Hb j q' Hq). f_equal. lia.
Qed.

Lemma at_node_inv a n k p :
  at_node a n k p ->
  exists e, a !! n ≫= (.!! k) = Some e /\ row e = node_row n (tree p) /\
    Forall2 (fun c q => at_node a (S n) c q) (children e) (below p).
Proof.
  intros (l & Hb & Hk). destruct (drop n a) as [|fs a'] eqn:E; cbn [built] in Hb; [by subst|].
  destruct Hb as ((rs & Hst & ->) & Hb).
  assert (Hn : a !! n = Some (with_children (set_level n <$> rs) (segments 0 (counts l)))).
  { rewrite <- (Nat.add_0_r n) at 1. rewrite <- lookup_drop, E. done. }
  assert (Hd : drop (S n) a = a').
  { rewrite <- Nat.add_1_r, <- drop_drop, E. done. }
  destruct (stand_lookup _ _ _ _ _ Hst Hk) as (r & Hr & Hrow).
  destruct (segments_spec 0 l k p Hk) as (s & Hs & Hsub).
  exists (set_children (set_level n r) (seq (0 + s) (length (below p)))). rewrite Hn. cbn [mbind option_bind].
  split; [|split].
  - unfold with_children. rewrite lookup_zip_with, list_lookup_fmap, Hr, Hs. done.
  - exact (Hrow n).
  - cbn [children set_children]. apply Forall2_same_length_lookup_2; [by rewrite length_seq|].
    intros j c q Hc Hq. apply lookup_seq in Hc as [-> _]. exists (flat_map below l).
    rewrite Hd. split; [done|]. by apply Hsub.
Qed.

Fixpoint nodes (t : Tree) : nat := let '(Node _ _ _ _ _ _ _ l) := t in S (list_sum (nodes <$> l)).

Lemma nodes_kids t : nodes t = S (list_sum (nodes <$> kids t)).
Proof. by destruct t. Qed.
Lemma preorder_kids n t : preorder n t = node_row n t :: flat_map (preorder (S n)) (kids t).
Proof. by destruct t. Qed.

(** What is left of the walk: a position, and the node it stands for. *)
Definition todo_rows (i : list (nat * nat * pos)) : list Row := flat_map (fun '(n, _, p) => preorder n (tree p)) i.
Definition todo_nodes (i : list (nat * nat * pos)) : nat := list_sum ((fun '(_, _, p) => nodes (tree p)) <$> i).

Lemma walk_preorder a fuel i :
  Forall (fun '(n, k, p) => at_node a n k p) i -> (todo_nodes i <= fuel)%nat ->
  walk fuel a (fst <$> i) = Ok (todo_rows i).
Proof.
  revert i; induction fuel as [|fuel IH]; intros [|[[n k] p] i] Hi Hfuel; try done.
  { unfold todo_nodes in Hfuel. cbn in Hfuel. rewrite nodes_kids in Hfuel. lia. }
  apply list.Forall_cons in Hi as [Hp Hi].
  destruct (at_node_inv a n k p Hp) as (e & He & Hrow & Hk).
  rewrite fmap_cons. cbn [walk fst]. rewrite He.
  set (ks := zip_with (fun c q => (S n, c, q)) (children e) (below p)).
  assert (Hlen : length (children e) = length (below p)) by (by eapply Forall2_length).
  assert (Hfst : ((fun c => (S n, c)) <$> children e) ++ (fst <$> i) = fst <$> (ks ++ i)).
  { rewrite fmap_app. f_equal. unfold ks. clear -Hlen. revert Hlen. generalize (below p). generalize (children e).
    intros l. induction l as [|c l IH]; intros [|q l'] Hl; try done. cbn. f_equal. apply IH. by injection Hl. }
  assert (Hsnd : (fun '(_, _, q) => tree q) <$> ks = kids (tree p)).
  { rewrite <- below_trees. unfold ks. clear -Hlen. revert Hlen. generalize (below p). generalize (children e).
    intros l. induction l as [|c l IH]; intros [|q l'] Hl; try done. cbn. f_equal. apply IH. by injection Hl. }
  rewrite Hfst, IH.
  - cbn [rbind]. f_equal. unfold todo_rows. cbn [flat_map]. rewrite preorder_kids, flat_map_app, Hrow.
    cbn [app]. do 2 f_equal. rewrite <- Hsnd. clear. unfold ks. generalize (below p). generalize (children e).
    intros l. induction l as [|c l IH]; intros [|q l']; try done. cbn. f_equal. apply IH.
  - apply Forall_app. split; [|done]. unfold ks. clear -Hk.
    induction Hk as [|c q l l' Hc _ IH]; cbn; [constructor|by constructor].
  - unfold todo_nodes in *. rewrite fmap_app, list_sum_app. cbn in Hfuel. rewrite nodes_kids, <- Hsnd in Hfuel.
    rewrite <- list_fmap_compose in Hfuel.
    assert (((fun '(_, _, p0) => nodes (tree p0)) <$> ks) = (nodes ∘ (fun '(_, _, q) => tree q)) <$> ks) as ->.
    { apply list_fmap_ext. by intros ? [[? ?] ?]. }
    unfold list_sum in *. lia.
Qed.

Lemma segments_length k ms : length (segments k ms) = length ms.
Proof. revert k; induction ms as [|m ms IH]; intros; cbn; auto. Qed.

Lemma mjoin_cons {A} (l : list A) ls : mjoin (l :: ls) = l ++ mjoin ls.
Proof. reflexivity. Qed.

Lemma built_frames m l a : built m l a -> frames a = list_sum ((fun p => nodes (tree p)) <$> l).
Proof.
  revert m l; induction a as [|fs a IH]; intros m l; cbn [built]; [by intros ->|].
  intros [(rs & Hst & ->) Hb]. unfold frames in *. rewrite mjoin_cons, length_app, (IH _ _ Hb).
  unfold with_children. rewrite length_zip_with, length_fmap, (stand_length _ _ _ Hst).
  rewrite segments_length. unfold counts. rewrite length_fmap, Nat.min_id. clear. induction l as [|p l IH]; [done|].
  cbn [length fmap list_fmap list_sum fold_right flat_map]. rewrite nodes_kids, <- below_trees, fmap_app, list_sum_app.
  rewrite <- list_fmap_compose. unfold list_sum, compose in *. lia.
Qed.

(** The rows of the encoding of a tree are the tree's nodes. *)
Lemma decode_encode t : fits t = true -> flame_rows (encode t) names diff = Some (Ok (preorder 0 t)).
Proof.
  intros Ht. destruct (build_tree t Ht) as (a & Ha & Hb). unfold flame_rows.
  assert (exists e es, encode t = e :: es) as (e & es & E) by (unfold encode; destruct t; cbn; eauto).
  rewrite E in *. rewrite Ha. cbn [mbind option_bind].
  pose proof (walk_preorder a (frames a) [(0%nat, 0%nat, hd {| tree := t; atL := 0; atR := 0 |} (place 0 0 [t]))]) as Hw.
  destruct t as [i gl gr sl sr fl fr k]. cbn [place hd] in *. cbn [fmap list_fmap fst] in Hw.
  rewrite Hw.
  - unfold todo_rows. cbn [flat_map tree]. by rewrite app_nil_r.
  - constructor; [|constructor]. eexists. split; [exact Hb|done].
  - rewrite (built_frames _ _ _ Hb). done.
Qed.

End Encoding.
