(* ===== verification/Theorems.v ===== *)
(** * The properties

    The theorems of the development, stated for any memory, store and record
    writer that keep the laws of the interfaces, each with a run on the concrete
    instances of [Reference] in which its hypotheses hold. *)

From S2P Require Import Prelude.
From S2P Require Import Memory.
From S2P Require Import Java.
From S2P Require Import CarrotCache.
From S2P Require Import Reference.
From S2P Require Import Utils.
From S2P Require Import Command.
From S2P Require Import CommandParse.
From S2P Require Import CommandParser.
From S2P Require Import Client.
From S2P Require Import ParseCorrect.
From S2P Require Import ParseSafety.
From S2P Require Import CommandTypes.
From S2P Require Import World.
From S2P Require Import Execute.
From S2P Require Import Protocol.
From S2P Require Import ExecuteCorrect.
From S2P Require Import CommandProcessor.
From S2P Require Import ProcessCorrect.
From S2P Require Import Stream.
From S2P Require Import WorkThread.
From S2P Require Import Network.
From S2P Require Import Termination.
From S2P Require Import ServeCorrect.
From S2P Require Import ServeErrors.
From S2P Require Import ServerCommands.
From S2P Require Import UtilsCorrect.

(** ** Concrete runs *)

Definition start (m : Mem) (s : Store) (es : list Event) : World Mem Store :=
  {| w_mem := m; w_store := s; w_input := es; w_sent := []; w_last := None |}.
Definition blank : Mem := fun _ => NUL.

(** A store that holds [key] with a value of [n] bytes. *)
Definition store_with (key : bytes) (n : nat) : Store :=
  (mc_set empty_store key (repeat "x"%char n) 7 0).2.

(** A pipeline: two stores, one without a reply, a counter, and a retrieval. *)
Definition run_requests : list Request :=
  [RStore SET (str "k") (str "41") 0 100 false 0; RIncr (str "k") 1 false;
   RStore APPEND (str "k") (str "!") 0 0 true 0; RGet GETS 0 [str "k"; str "none"]].

Definition run_reply : bytes :=
  str "STORED" ++ CRLF ++ str "42" ++ CRLF ++ str "VALUE k 0 3 3" ++ CRLF ++ str "42!" ++ CRLF
    ++ str "END" ++ CRLF.

(** The stream cut after [n] bytes, with an idle poll in between. *)
Definition cut (n : nat) (l : bytes) : list Event := [Data (take n l); Idle; Data (drop n l)].

#[local] Instance request_ok_dec r : Decision (request_ok r).
Proof. destruct r; cbn [request_ok]; unfold in_long; apply _. Defined.
#[local] Instance quiet_dec e : Decision (quiet e).
Proof. destruct e; cbn; apply _. Defined.

(** Decide a hypothesis of a run by evaluation. *)
Ltac run := refine (bool_decide_unpack _ _); vm_compute; exact I.

Section Properties.
Context {mem S item : Type}.
Context `{UnsafeAccessLaws mem} `{CarrotUtilsLaws} `{Memcached S item} `{RecordWriter mem item}.
Context `{!RecordWriterLaws mem item, !MemcachedRetryLaws S item}.

Implicit Types (w : World mem S).

(** C1.  A connection serves its pipeline.  However the bytes of well-formed requests
    are cut into reads, with idle polls in between and with any part of the last
    request missing, the connection sends exactly the replies of the requests that are
    complete, in order, leaves the store they leave, and ends with all input used. *)
Theorem connection_refines_protocol version in_ptr out_ptr bufferSize rs tail w :
  0 <= in_ptr -> 44 <= bufferSize ->
  in_ptr + bufferSize <= out_ptr \/ out_ptr + bufferSize <= in_ptr ->
  Forall request_ok rs -> Forall (fun r => zlen (encode r) <= bufferSize) rs ->
  Forall quiet (w_input w) -> stream rs = data (w_input w) ++ tail ->
  let served := complete (zlen (data (w_input w))) rs in
  all_answered rec_render bufferSize served (w_store w) ->
  exists o w', let a := respond_all rec_render bufferSize served (w_store w) in
    connection version in_ptr out_ptr bufferSize (events_size (w_input w) + 1) w = (Ok o, w') /\
    (o = Released \/ o = Waiting) /\ w_input w' = [] /\
    w_sent w' = w_sent w ++ r_bytes a /\ w_store w' = r_store a.
Proof.
  intros Hin Hsize Hap Hok Hfit Hq Es served Ha.
  apply (connection_ok version in_ptr out_ptr bufferSize Hin Hsize Hap _ rs tail); [|lia].
  by apply ready_start.
Qed.

(** C2.  The parser inverts the client's encoder.  On a buffer whose first bytes are a
    well-formed request, [CommandParser.parse] answers "incomplete" exactly while part
    of the request is missing, and otherwise returns the command with the fields the
    client passed, claiming exactly the bytes of the request. *)
Theorem parse_inverts_encode r (m : mem) p n :
  request_ok r -> view m p n (encode r) ->
  parse m p n = (if n <? zlen (encode r) then Ok None else Ok (Some (command_of r p))) /\
  inputConsumed (command_of r p) = zlen (encode r).
Proof.
  intros Hr V. split; [by apply parse_encode | by apply inputConsumed_command_of].
Qed.

(** C3.  One request is processed as the protocol says: [CommandProcessor.process] on a
    complete request delivers its reply (flushed and pending bytes together), leaves the
    store it leaves, writes nothing but the output buffer, records the command, and lets
    an exception escape exactly when the protocol does. *)
Theorem process_refines_protocol version consume out_ptr bufferSize r p n w :
  consumes consume out_ptr bufferSize -> 44 <= bufferSize ->
  request_ok r -> 0 <= p -> zlen (encode r) <= n -> view (w_mem w) p n (encode r) ->
  p + zlen (encode r) <= out_ptr \/ out_ptr + bufferSize <= p ->
  reply_fits rec_render bufferSize r (w_store w) ->
  exists res w', let a := respond rec_render bufferSize r (w_store w) in
    process version consume p n out_ptr bufferSize w = (res, w') /\
    w_store w' = r_store a /\ w_last w' = Some (command_of r p) /\
    same_off (w_mem w) (w_mem w') out_ptr bufferSize /\
    match r_exn a with
    | Some e => res = Throw e /\ w_sent w' = w_sent w ++ r_bytes a
    | None => exists k, res = Ok k /\ 0 <= k <= bufferSize /\
        w_sent w' ++ bytes_at (w_mem w') out_ptr k = w_sent w ++ r_bytes a
    end.
Proof.
  intros Hc Hs Hr Hp Hn V A Hfit.
  destruct (process_respond version consume out_ptr bufferSize Hc Hs r p n w Hr Hp Hn V A Hfit)
    as (res & w' & E & X).
  exists res, w'. cbv zeta. split; [exact E|].
  destruct (r_exn _); [destruct X as [-> [D1 D2 D3 D4 D5]]|destruct X as (k & -> & Hk & [D1 D2 D3 D4 D5])];
    rewrite !bytes_at_0 in D5; cbn in D3, D4, D5; (split; [done|]; split; [done|]; split; [done|]).
  - split; [done|]. by rewrite app_nil_r in D5.
  - exists k. by split; [|split].
Qed.

(** C4.  Memory safety of the parser.  Whatever the bytes of the buffer are, a command the
    parser returns passes [isMemorySafe] - every key and value lies inside the buffer -
    and it claims at least one byte, and at most one byte more than the buffer has. *)
Theorem parse_memory_safe (m : mem) p n cmd :
  0 <= p -> parse m p n = Ok (Some cmd) ->
  isMemorySafe cmd p n = true /\ 0 < inputConsumed cmd <= n + 1.
Proof. intros Hp E. by apply (parse_safe m p n). Qed.

(** C21.  Every command the parser returns is well typed, whatever the bytes: numbers are
    within their Java types and within what the protocol allows (flags of 32 bits, sizes and
    delays that are not negative), a [cas] value or an expiration time that the command does
    not have is 0, there is a size for every key, and the flags are those of its class. *)
Theorem parsed_commands_typed (m : mem) p n cmd : parse m p n = Ok (Some cmd) -> well_typed cmd.
Proof. intros E. by apply (parse_typed m p n). Qed.

(** C9.  A retrieval delivers every item that is there, in the order of the keys, and
    [END], whatever is pending in the output buffer and however often it is flushed; an
    item that the whole buffer cannot hold ends it with [BufferOverflowException], after
    the items before it. *)
Theorem retrieve_delivers_all consume out_ptr bufferSize fetch withCAS keys ks k f w :
  consumes consume out_ptr bufferSize -> 5 <= bufferSize ->
  (forall s key, fetch (fetch s key).2 key = fetch s key) ->
  Forall2 (fun (a : Z * Z) key => a.2 = zlen key /\ holds out_ptr bufferSize (w_mem w) a.1 key) keys ks ->
  (2 * length keys + 1 <= f)%nat -> 0 <= k -> k + 5 <= bufferSize ->
  executed out_ptr bufferSize (retrieve consume f fetch withCAS keys out_ptr bufferSize k) w k
    (gather rec_render bufferSize fetch withCAS ks (w_store w)).
Proof. intros. by apply retrieve_gather. Qed.

(** C16.  [incr] and [decr] on every branch: the new value as decimal digits, "not found"
    on a negative result, the two error texts for the exceptions of the store, nothing
    with [noreply], and any other exception passed on. *)
Theorem arith_execute_replies out_ptr bufferSize op c key w :
  bytes_at (w_mem w) (keyPtr c) (keySize c) = key -> 11 <= bufferSize ->
  let a := (let '(r, s) := op (w_store w) key (value c) in arith r (noreply c) s) in
  zlen (r_bytes a) <= bufferSize ->
  executed out_ptr bufferSize (arith_execute op c out_ptr) w 0 a.
Proof. intros. by apply (arith_execute_ok out_ptr bufferSize op c w key). Qed.

(** C23.  The internal-error branch of [CommandProcessor.process] is dead: once the parser
    has returned a command, [process] runs its [execute]. *)
Theorem internal_error_unreachable version consume out_ptr bufferSize p n cmd w :
  0 <= p -> parse (w_mem w) p n = Ok (Some cmd) ->
  process version consume p n out_ptr bufferSize w =
    try_catch (execute version consume cmd out_ptr bufferSize) (process_handler out_ptr)
      (set_last (Some cmd) w).
Proof. intros Hp E. by apply process_some. Qed.

(** C24.  A request of which a part is missing has no effect: [process] asks for more
    input, and memory, store and socket are as they were. *)
Theorem partial_request_no_effect version consume out_ptr bufferSize r p n w :
  request_ok r -> n < zlen (encode r) -> view (w_mem w) p n (encode r) ->
  process version consume p n out_ptr bufferSize w = (Ok (-1), set_last None w).
Proof. intros. by apply process_partial with r. Qed.

(** C31.  A request longer than the buffer, at its front, is answered with the "input is too large" error
    as soon as the buffer is full, and the connection is closed, the store untouched. *)
Theorem oversized_request_rejected version in_ptr out_ptr bufferSize r l l2 tail es w :
  0 <= in_ptr -> 128 <= bufferSize ->
  request_ok r -> encode r = l ++ tail -> zlen l = bufferSize -> tail <> [] ->
  w_input w = Data (l ++ l2) :: es ->
  exists w', serve version in_ptr out_ptr bufferSize w = (Ok Closed, w') /\
    w_sent w' = w_sent w ++ INPUT_TOO_LARGE /\ w_store w' = w_store w.
Proof. intros. by eapply serve_oversize. Qed.

(** C32.  An item too large for the output buffer is reported after the items before it,
    and the connection is kept; the requests pipelined behind it in the buffer are
    dropped without an answer. *)
Theorem oversized_item_drops_pipeline version in_ptr out_ptr bufferSize r more es w :
  0 <= in_ptr -> 128 <= bufferSize ->
  in_ptr + bufferSize <= out_ptr \/ out_ptr + bufferSize <= in_ptr ->
  request_ok r -> w_input w = Data (encode r ++ more) :: es ->
  zlen (encode r ++ more) <= bufferSize ->
  reply_fits rec_render bufferSize r (w_store w) ->
  let a := respond rec_render bufferSize r (w_store w) in
  r_exn a = Some BufferOverflowException ->
  exists w', serve version in_ptr out_ptr bufferSize w = (Ok Released, w') /\
    w_sent w' = w_sent w ++ r_bytes a ++ OUTPUT_TOO_LARGE /\ w_store w' = r_store a /\
    w_input w' = es.
Proof. intros Hin Hsize Hap Hr Ein Hl Hfit. by apply serve_overflow with more. Qed.

(** A line whose first word is no command is answered with [ERROR], and the
    connection is closed. *)
Theorem unknown_command_closes version in_ptr out_ptr bufferSize t c k es w :
  0 <= in_ptr -> 128 <= bufferSize ->
  token t -> sep c -> Forall (fun name => t <> str name) command_names ->
  w_input w = Data (t ++ c :: k) :: es -> 3 <= zlen (t ++ c :: k) <= bufferSize ->
  exists w', serve version in_ptr out_ptr bufferSize w = (Ok Closed, w') /\
    w_sent w' = w_sent w ++ ERROR /\ w_store w' = w_store w.
Proof. intros. by eapply serve_unknown. Qed.

(** [quit] closes the connection without an answer. *)
Theorem quit_closes_silently version in_ptr out_ptr bufferSize es w :
  0 <= in_ptr -> 128 <= bufferSize -> w_input w = Data (str "quit" ++ CRLF) :: es ->
  exists w', serve version in_ptr out_ptr bufferSize w = (Ok Closed, w') /\
    w_sent w' = w_sent w /\ w_store w' = w_store w.
Proof. intros. by eapply serve_quit. Qed.

(** C35.  A [gat] or [gats] without arguments ends the worker thread: the key count
    becomes -1, and nothing catches the [NegativeArraySizeException]. *)
Theorem bare_gat_kills_worker version in_ptr out_ptr bufferSize v es w :
  0 <= in_ptr -> 128 <= bufferSize -> v = GAT \/ v = GATS ->
  w_input w = Data (str (match v with GAT => "gat" | _ => "gats" end) ++ CRLF) :: es ->
  exists w', serve version in_ptr out_ptr bufferSize w =
      (Ok (Died (NegativeArraySizeException (-1))), w') /\
    w_sent w' = w_sent w /\ w_store w' = w_store w.
Proof. intros. by eapply serve_bare_gat. Qed.

(** A [get] without a key is accepted as an empty retrieval and claims six bytes, one
    more than its line has: the first byte of a pipelined request behind it is lost. *)
Theorem bare_get_overconsumes (m : mem) p n k :
  view m p n (str "get" ++ CRLF ++ k) -> 5 <= n ->
  exists c, parse m p n = Ok (Some (RetrievalCommand GET c)) /\ r_keys c = [] /\
    inputConsumed (RetrievalCommand GET c) = 6.
Proof. intros. by apply parse_bare_get with k. Qed.

(** [stats] renders one line per pair of the store's statistics and [END]. *)
Theorem stats_renders_pairs out_ptr bufferSize l w :
  mc_stats (w_store w) = flatten l -> zlen (stats_text l) <= bufferSize ->
  executed out_ptr bufferSize (STATS_execute out_ptr) w 0 (done_with (stats_text l) (w_store w)).
Proof.
  intros E Hs. unfold STATS_execute.
  apply (call_executed out_ptr bufferSize (fun s => (mc_stats s, s))). cbn [fst snd]. rewrite E.
  apply (stats_loop_ok out_ptr bufferSize l (set_store (w_store w) w) 0); lia.
Qed.

(** [version] and [flush_all] answer with their texts. *)
Theorem server_commands_reply out_ptr bufferSize version c w :
  let v := default (str "unknown") version in
  10 + zlen v <= bufferSize ->
  executed out_ptr bufferSize (VERSION_execute version out_ptr) w 0
    (done_with (str "VERSION " ++ v ++ CRLF) (w_store w)) /\
  executed out_ptr bufferSize (FLUSH_ALL_execute c out_ptr) w 0
    (done_with (unless (f_noreply c) c_OK) (mc_flushAll (w_store w) (f_delay c))).
Proof.
  intros v Hs. split; [by apply VERSION_execute_ok|].
  apply FLUSH_ALL_execute_ok. pose proof (zlen_nonneg v). lia.
Qed.

(** Token scanning: [nextTokenEnd] finds the first separator, [nextTokenStart] the
    first byte that is not a space, and both answer -1 when there is none within the
    limit. *)
Theorem token_scanners_correct (m : mem) p n :
  0 < n ->
  (forall e, 0 <= e -> nextTokenEnd m p n = e <->
    e < n /\ sep (toByte m (p + e)) /\ forall i, 0 <= i < e -> plain (toByte m (p + i))) /\
  (forall s, 0 <= s -> nextTokenStart m p n = s <->
    s < n /\ toByte m (p + s) <> SP /\ forall i, 0 <= i < s -> toByte m (p + i) = SP).
Proof.
  intros Hn. split; intros e He; split.
  - intros <-. destruct (nextTokenEnd_spec m p n Hn) as [[E _]|(? & ? & ?)]; [lia|]. done || by split_and!; try lia.
  - intros (Hlt & Hsep & Hpl).
    destruct (nextTokenEnd_spec m p n Hn) as [[E A]|(B & C & D)].
    + destruct (A e ltac:(lia)) as [? ?]. by destruct Hsep.
    + destruct (Z.lt_trichotomy (nextTokenEnd m p n) e) as [Hl|[?|Hl]]; [|done|].
      * destruct (Hpl _ (conj (proj1 B) Hl)) as [? ?]. by destruct C.
      * destruct (D e ltac:(lia)) as [? ?]. by destruct Hsep.
  - intros <-. destruct (nextTokenStart_spec m p n Hn) as [[E _]|(? & ? & ?)]; [lia|]. done || by split_and!; try lia.
  - intros (Hlt & Hne & Hsp).
    destruct (nextTokenStart_spec m p n Hn) as [[E A]|(B & C & D)].
    + destruct Hne; apply A; lia.
    + destruct (Z.lt_trichotomy (nextTokenStart m p n) e) as [Hl|[?|Hl]]; [|done|].
      * destruct C; apply Hsp; lia.
      * destruct Hne; apply D; lia.
Qed.

(** [toUpperCase] replaces the lower-case letters of its region by capitals, changes
    no other byte anywhere, and leaves no lower-case letter in the region. *)
Theorem toUpperCase_region (m : mem) addr len q :
  0 <= len ->
  toByte (toUpperCase m addr len) q =
    (if (addr <=? q) && (q <? addr + len) && is_lower (toByte m q)
     then ascii_of_nat (nat_of_ascii (toByte m q) - 32) else toByte m q) /\
  (addr <= q < addr + len -> is_lower (toByte (toUpperCase m addr len) q) = false).
Proof.
  intros Hl. rewrite toUpperCase_spec by done. split.
  - destruct (_ && _); cbn [andb]; [apply upper_spec|done].
  - intros Hq. rewrite (proj2 (Z.leb_le _ _)), (proj2 (Z.ltb_lt _ _)) by lia. apply upper_not_lower.
Qed.

(** The expiration time: negative stays, up to thirty days is relative to now, later
    is an absolute second; no overflow while the instant is within reach of a [long]. *)
Theorem adjustExpirationTime_meaning now exptime :
  0 <= now < 2 ^ 62 -> exptime < 2 ^ 52 ->
  adjustExpirationTime now exptime =
    if exptime <? 0 then exptime
    else if exptime <=? 2592000 then now + 1000 * exptime else 1000 * exptime.
Proof.
  intros Hn He. unfold adjustExpirationTime. change (60 * 60 * 24 * 30) with 2592000.
  destruct (Z.ltb_spec exptime 0); [done|].
  assert (E : to_long (exptime * 1000) = 1000 * exptime)
    by (rewrite to_long_id by (unfold in_long; lia); lia).
  rewrite E. destruct (Z.leb_spec exptime 2592000); [|done].
  apply to_long_id. unfold in_long. lia.
Qed.

(** Keys: [equals] is equality of contents, equal keys have the same hash code, and a
    hash code is negative only where Java's [Math.abs] is, at the least [int]. *)
Theorem Key_contract (m : mem) k o :
  (Key_equals m false k o = true <->
     bytes_at m (address k) (key_length k) = bytes_at m (address o) (key_length o)) /\
  (Key_equals m false k o = true -> Key_hashCode m k = Key_hashCode m o) /\
  (in_int (murmurHash (bytes_at m (address k) (key_length k)) 0) ->
     Key_hashCode m k < 0 -> murmurHash (bytes_at m (address k) (key_length k)) 0 = - 2 ^ 31).
Proof.
  split; [apply Key_equals_content|]. split.
  - intros E%Key_equals_content. unfold Key_hashCode. by rewrite E.
  - unfold Key_hashCode. intros Hi Hn. destruct (Math_abs_range _ Hi); [lia|done].
Qed.

(** [save] and [bgsave] are never answered: their parsers are stubs that ask for more
    input for ever, whatever follows the name. *)
Theorem save_never_parses (m : mem) p n name cmd k :
  (name, cmd) = ("save"%string, SAVE) \/ (name, cmd) = ("bgsave"%string, BGSAVE) ->
  view m p n (str name ++ CRLF ++ k) -> zlen (str name) < n -> parse m p n = Ok None.
Proof.
  intros Hn V Hl.
  assert (X : In (name, cmd) command_class /\ token (str name) /\ 4 <= zlen (str name) /\
    forall p n, parse_command cmd m p n = Ok None).
  { destruct Hn as [E|E]; injection E as -> ->; (split; [cbn; tauto|]);
      (split; [split; [done|]; by repeat (constructor; [by split|])|]);
      (split; [vm_compute; discriminate|done]). }
  destruct X as (Hin & Ht & H4l & E). by rewrite (parse_bare m p n name cmd k) by (done || lia).
Qed.

End Properties.

Lemma connection_refines_protocol_witness :
  exists o w',
    connection None 1000 2000 128 (events_size (cut 20 (stream run_requests)) + 1)
      (start blank empty_store (cut 20 (stream run_requests))) = (Ok o, w') /\
    (o = Released \/ o = Waiting) /\ w_sent w' = run_reply.
Proof.
  destruct (connection_refines_protocol None 1000 2000 128 run_requests []
    (start blank empty_store (cut 20 (stream run_requests))))
    as (o & w' & E & Ho & _ & Hs & _).
  - run.
  - run.
  - run.
  - run.
  - run.
  - run.
  - run.
  - split; [vm_compute; repeat (split; [first [exact I | discriminate]|intros _]); exact I|run].
  - exists o, w'. split; [exact E|]. split; [exact Ho|]. rewrite Hs. run.
Defined.

(** *** Runs of the other theorems *)

Definition a_request : Request := RStore CAS (str "key") (str "value") 5 60 true 9.

Lemma view_mem_of l p n k : n <= zlen l -> view (mem_of (l ++ k) p) p n l.
Proof.
  intros Hn. pose proof (view_copyBytes (fun _ => NUL : ascii) (l ++ k) p n : view (mem_of (l ++ k) p) p n (l ++ k)) as V.
  by apply view_app in V as [V _].
Qed.

(** A consumer that sends, on the output buffer at 2000. *)
Definition ref_consume : Z -> M Mem Store unit := WorkThread.consume 2000 128.
Lemma ref_consume_ok : consumes ref_consume 2000 128.
Proof. apply consume_ok. Qed.

Lemma parse_inverts_encode_witness :
  parse (mem_of (encode a_request ++ []) 100) 100 (zlen (encode a_request) + 0) =
    Ok (Some (command_of a_request 100)).
Proof.
  destruct (parse_inverts_encode a_request (mem_of (encode a_request ++ []) 100) 100
    (zlen (encode a_request) + 0)) as [E _].
  - run.
  - apply view_mem_of. lia.
  - rewrite E. reflexivity.
Defined.

Definition at_100 (r : Request) (s : Store) : World Mem Store :=
  start (mem_of (encode r ++ []) 100) s [].

Lemma process_refines_protocol_witness :
  exists w', (process None ref_consume 100 (zlen (encode (RGet GET 0 [str "k"]))) 2000 128
      (at_100 (RGet GET 0 [str "k"]) (store_with (str "k") 3))).2 = w' /\
    w_last w' = Some (command_of (RGet GET 0 [str "k"]) 100).
Proof.
  destruct (process_refines_protocol None ref_consume 2000 128 (RGet GET 0 [str "k"]) 100
    (zlen (encode (RGet GET 0 [str "k"])))
    (at_100 (RGet GET 0 [str "k"]) (store_with (str "k") 3))) as (res & w' & E & _ & Hl & _).
  - apply ref_consume_ok.
  - lia.
  - run.
  - lia.
  - lia.
  - apply view_mem_of. lia.
  - run.
  - exact I.
  - exists w'. split; [by rewrite E|exact Hl].
Defined.

Lemma parsed_commands_typed_witness :
  exists c, parse (mem_of (str "cas k 4294967295 0 2 9" ++ CRLF ++ str "ab" ++ CRLF) 100) 100 28
              = Ok (Some (StorageCommand Command.CAS c)) /\
    storage_typed Command.CAS c.
Proof.
  destruct (parse (mem_of (str "cas k 4294967295 0 2 9" ++ CRLF ++ str "ab" ++ CRLF) 100) 100 28)
    as [[[[] c| | | | | | | | | | | |]|]| | |] eqn:E; try (vm_compute in E; discriminate E).
  exists c. split; [done|].
  exact (parsed_commands_typed (mem_of (str "cas k 4294967295 0 2 9" ++ CRLF ++ str "ab" ++ CRLF) 100) 100 28 _ E).
Defined.

Lemma parse_memory_safe_witness :
  exists cmd, parse (mem_of (str "delete key noreply" ++ CRLF) 100) 100 20 = Ok (Some cmd) /\
    isMemorySafe cmd 100 20 = true.
Proof.
  destruct (parse (mem_of (str "delete key noreply" ++ CRLF) 100) 100 20) as [[cmd|]| | |] eqn:E;
    [|vm_compute in E; discriminate E..].
  exists cmd. split; [done|]. apply (parse_memory_safe (mem_of (str "delete key noreply" ++ CRLF) 100));
    [lia|exact E].
Defined.

(** Two items of which the output buffer holds one at a time: one flush. *)
Definition two_items : Store :=
  (mc_set (store_with (str "a") 90) (str "b") (repeat "y"%char 90) 7 0).2.

Lemma retrieve_delivers_all_witness :
  executed 2000 128
    (retrieve ref_consume 5 mc_get false [(100, 1); (101, 1)] 2000 128 0)
    (start (mem_of (str "ab") 100) two_items []) 0
    (gather (rec_render (mem:=Mem)) 128 mc_get false [str "a"; str "b"] two_items) /\
  r_exn (gather (rec_render (mem:=Mem)) 128 mc_get false [str "a"; str "b"] two_items) = None.
Proof.
  split; [|reflexivity].
  apply (retrieve_delivers_all ref_consume 2000 128 mc_get false [(100, 1); (101, 1)]
    [str "a"; str "b"] 0 5 (start (mem_of (str "ab") 100) two_items [])).
  - apply ref_consume_ok.
  - lia.
  - reflexivity.
  - repeat constructor; run.
  - cbn. lia.
  - lia.
  - lia.
Defined.

Definition counter (nr : bool) : Abstract :=
  {| keyPtr := 100; keySize := 1; valPtr := 0; valSize := 0; flags := 0; exptime := 0; cas := 0;
     value := 5; noreply := nr; isCAS := false; consumed := 9 |}.

Lemma arith_execute_replies_witness :
  let a := (let '(r, s) := mc_incr (store_with (str "k") 3) (str "k") 5 in arith r false s) in
  executed 2000 128 (arith_execute mc_incr (counter false) 2000)
    (start (mem_of (str "k") 100) (store_with (str "k") 3) []) 0 a /\
  r_bytes a = NUMBER_FORMAT_ERROR.
Proof.
  cbv zeta. split; [|reflexivity].
  apply (arith_execute_replies 2000 128 mc_incr (counter false) (str "k")
    (start (mem_of (str "k") 100) (store_with (str "k") 3) [])).
  - reflexivity.
  - lia.
  - vm_compute. discriminate.
Defined.

Lemma internal_error_unreachable_witness :
  process None ref_consume 100 20 2000 128 (start (mem_of (str "delete key noreply" ++ CRLF) 100) empty_store [])
    = (Ok 0, {| w_mem := mem_of (str "delete key noreply" ++ CRLF) 100; w_store := empty_store;
        w_input := []; w_sent := [];
        w_last := Some (command_of (RDelete (str "key") true) 100) |}).
Proof.
  rewrite (internal_error_unreachable None ref_consume 2000 128 100 20
    (command_of (RDelete (str "key") true) 100)); [reflexivity|lia|reflexivity].
Defined.

Lemma partial_request_no_effect_witness :
  process None ref_consume 100 12 2000 128 (at_100 a_request empty_store) =
    (Ok (-1), at_100 a_request empty_store).
Proof.
  apply (partial_request_no_effect None ref_consume 2000 128 a_request 100 12
    (at_100 a_request empty_store)).
  - run.
  - run.
  - apply view_mem_of. vm_compute. discriminate.
Defined.

(** A value of 200 bytes, for a buffer of 128. *)
Definition big_set : Request := RStore SET (str "k") (repeat "z"%char 200) 0 0 false 0.

Lemma oversized_request_rejected_witness :
  exists w', serve None 1000 2000 128 (start blank empty_store [Data (encode big_set)]) = (Ok Closed, w') /\
    w_sent w' = INPUT_TOO_LARGE.
Proof.
  destruct (oversized_request_rejected None 1000 2000 128 big_set (take 128 (encode big_set))
    (drop 128 (encode big_set)) (drop 128 (encode big_set)) []
    (start blank empty_store [Data (encode big_set)])) as (w' & E & Hs & _).
  - lia.
  - lia.
  - run.
  - reflexivity.
  - reflexivity.
  - vm_compute. discriminate.
  - reflexivity.
  - exists w'. by split.
Defined.

Lemma oversized_item_drops_pipeline_witness :
  exists w', serve None 1000 2000 128 (start blank (store_with (str "k") 120)
      [Data (encode (RGet GET 0 [str "k"]) ++ encode (RDelete (str "k") false))]) = (Ok Released, w') /\
    w_sent w' = OUTPUT_TOO_LARGE /\ w_input w' = [].
Proof.
  destruct (oversized_item_drops_pipeline None 1000 2000 128 (RGet GET 0 [str "k"])
    (encode (RDelete (str "k") false)) [] (start blank (store_with (str "k") 120)
      [Data (encode (RGet GET 0 [str "k"]) ++ encode (RDelete (str "k") false))]))
    as (w' & E & Hs & _ & Hi).
  - lia.
  - lia.
  - run.
  - run.
  - reflexivity.
  - run.
  - exact I.
  - reflexivity.
  - exists w'. split; [exact E|]. split; [rewrite Hs; reflexivity|exact Hi].
Defined.

Lemma unknown_command_closes_witness :
  exists w', serve None 1000 2000 128 (start blank empty_store [Data (str "hello" ++ CRLF)]) = (Ok Closed, w') /\
    w_sent w' = str "ERROR" ++ CRLF.
Proof.
  destruct (unknown_command_closes None 1000 2000 128 (str "hello") CR [LF] []
    (start blank empty_store [Data (str "hello" ++ CRLF)])) as (w' & E & Hs & _).
  - lia.
  - lia.
  - split; run.
  - by right.
  - run.
  - reflexivity.
  - run.
  - exists w'. by split.
Defined.

Lemma quit_closes_silently_witness :
  exists w', serve None 1000 2000 128 (start blank empty_store [Data (str "quit" ++ CRLF)]) = (Ok Closed, w') /\
    w_sent w' = [].
Proof.
  destruct (quit_closes_silently None 1000 2000 128 []
    (start blank empty_store [Data (str "quit" ++ CRLF)])) as (w' & E & Hs & _).
  - lia.
  - lia.
  - reflexivity.
  - exists w'. by split.
Defined.

Lemma bare_gat_kills_worker_witness :
  exists w', serve None 1000 2000 128 (start blank empty_store [Data (str "gats" ++ CRLF)])
    = (Ok (Died (NegativeArraySizeException (-1))), w').
Proof.
  destruct (bare_gat_kills_worker None 1000 2000 128 GATS []
    (start blank empty_store [Data (str "gats" ++ CRLF)])) as (w' & E & _).
  - lia.
  - lia.
  - by right.
  - reflexivity.
  - by exists w'.
Defined.

Lemma bare_get_overconsumes_witness :
  exists c, parse (mem_of (str "get" ++ CRLF ++ str "quit" ++ CRLF) 100) 100 11
    = Ok (Some (RetrievalCommand GET c)) /\ inputConsumed (RetrievalCommand GET c) = 6.
Proof.
  destruct (bare_get_overconsumes (mem_of (str "get" ++ CRLF ++ str "quit" ++ CRLF) 100) 100 11
    (str "quit" ++ CRLF)) as (c & E & _ & Hc).
  - apply (view_copyBytes (fun _ => NUL : ascii)).
  - lia.
  - exists c. by split.
Defined.

Lemma stats_renders_pairs_witness :
  executed 2000 128 (STATS_execute 2000) (start blank empty_store []) 0
    (done_with (str "STAT curr_items 0" ++ CRLF ++ str "END" ++ CRLF) empty_store).
Proof.
  apply (stats_renders_pairs 2000 128 [(str "curr_items", str "0")] (start blank empty_store [])).
  - reflexivity.
  - vm_compute. discriminate.
Defined.

Lemma server_commands_reply_witness :
  executed 2000 128 (VERSION_execute None 2000) (start blank empty_store []) 0
    (done_with (str "VERSION unknown" ++ CRLF) empty_store).
Proof.
  apply (server_commands_reply 2000 128 None {| f_noreply := false; f_consumed := 0; f_delay := 0 |}
    (start blank empty_store [])).
  vm_compute. discriminate.
Defined.

Lemma token_scanners_correct_witness :
  nextTokenEnd (mem_of (str "key 1") 100) 100 5 = 3.
Proof.
  apply (token_scanners_correct (mem_of (str "key 1") 100) 100 5); [lia|lia|].
  split; [lia|]. split; [by left|]. intros i Hi.
  assert (i = 0 \/ i = 1 \/ i = 2) as [-> | [-> | ->]] by lia; by split.
Defined.

Lemma toUpperCase_region_witness :
  toByte (toUpperCase (mem_of (str "get") 100) 100 3) 101 = "E"%char.
Proof. by rewrite (proj1 (toUpperCase_region (mem_of (str "get") 100) 100 3 101 ltac:(lia))). Defined.

Lemma adjustExpirationTime_meaning_witness :
  adjustExpirationTime 1700000000000 60 = 1700000060000.
Proof. rewrite adjustExpirationTime_meaning by lia. reflexivity. Defined.

Lemma Key_contract_witness :
  let m := mem_of (str "abcabc") 100 in
  Key_hashCode m {| address := 100; key_length := 3 |} =
    Key_hashCode m {| address := 103; key_length := 3 |}.
Proof.
  cbv zeta. apply (proj1 (proj2 (Key_contract (mem_of (str "abcabc") 100)
    {| address := 100; key_length := 3 |} {| address := 103; key_length := 3 |}))).
  reflexivity.
Defined.

Lemma save_never_parses_witness :
  parse (mem_of (str "save" ++ CRLF ++ str "quit" ++ CRLF) 100) 100 12 = Ok None.
Proof.
  apply (save_never_parses (mem_of (str "save" ++ CRLF ++ str "quit" ++ CRLF) 100) 100 12
    "save" SAVE (str "quit" ++ CRLF)).
  - by left.
  - apply (view_copyBytes (fun _ => NUL : ascii)).
  - reflexivity.
Defined.
