(* ===== verification/BoundsTheorems.v ===== *)
(** * The properties: bounds

    That the worker writes inside its two buffers, what that depends on, and what
    happens when the statistics of the store are longer than the output buffer. *)

From S2P Require Import Prelude.
From S2P Require Import Memory.
From S2P Require Import Java.
From S2P Require Import CarrotCache.
From S2P Require Import Reference.
From S2P Require Import Utils.
From S2P Require Import Command.
From S2P Require Import CommandParse.
From S2P Require Import CommandParser.
From S2P Require Import Client.
From S2P Require Import ParseCorrect.
From S2P Require Import World.
From S2P Require Import Execute.
From S2P Require Import Protocol.
From S2P Require Import ExecuteCorrect.
From S2P Require Import CommandProcessor.
From S2P Require Import ProcessCorrect.
From S2P Require Import Stream.
From S2P Require Import WorkThread.
From S2P Require Import Network.
From S2P Require Import Termination.
From S2P Require Import ServeCorrect.
From S2P Require Import ServeErrors.
From S2P Require Import ServerCommands.
From S2P Require Import Footprint.
From S2P Require Import Theorems.

(** ** Statistics longer than the buffer *)

Section LongStats.
Context {mem S item : Type}.
Context `{UnsafeAccessLaws mem} `{CarrotUtilsLaws} `{Memcached S item} `{RecordWriter mem item}.

#[local] Abbreviation world := (World mem S).

Lemma stats_size_flatten l : stats_size (flatten l) = zlen (stats_text l).
Proof.
  induction l as [|[name value] l IH]; [done|].
  change (flatten ((name, value) :: l)) with (name :: value :: flatten l). cbn [stats_size].
  rewrite IH, stats_text_cons, zlen_app. unfold stat_line. cbn [fst snd].
  rewrite !zlen_app. change (zlen (str "STAT ")) with 5. change (zlen [SP]) with 1.
  change (zlen CRLF) with 2. lia.
Qed.

(** The loop touches memory only, and counts what it writes. *)
Lemma stats_loop_counts out l : forall k (w : world),
  exists m, stats_loop (flatten l) out k w = (Ok (k + stats_size (flatten l)), set_mem m w).
Proof.
  induction l as [|[name value] l IH]; intros k w; [by eexists|].
  change (flatten ((name, value) :: l)) with (name :: value :: flatten l).
  cbn [stats_loop stats_size]. unfold bindM at 1 2 3 4 5, write, put_byte, on_mem. cbv zeta.
  change (zlen (str "STAT ")) with 5. change (zlen CRLF) with 2.
  lazymatch goal with |- exists _, stats_loop _ _ ?k' ?w' = _ => destruct (IH k' w') as [m E] end.
  exists m. rewrite E. cbn [fst]. do 2 f_equal. lia.
Qed.

Lemma STATS_execute_writes out l (w : world) :
  mc_stats (w_store w) = flatten l ->
  exists m, STATS_execute out w = (Ok (zlen (stats_text l)), set_mem m w) /\
    bytes_at m out (zlen (stats_text l)) = stats_text l.
Proof.
  intros El. unfold STATS_execute, bindM, call. rewrite El.
  replace (set_store (w_store w) w) with w by (by destruct w).
  destruct (stats_loop_counts out l 0 w) as [m E]. rewrite stats_size_flatten, Z.add_0_l in E.
  exists m. split; [exact E|].
  destruct (stats_loop_ok out (zlen (stats_text l)) l w 0) as (r & w' & E' & X); [lia..|].
  rewrite E in E'. injection E' as <- <-. cbn [r_exn done_with] in X.
  destruct X as (n & [= <-] & _ & D). pose proof (d_bytes _ _ _ _ _ _ _ _ D) as B. cbn in B.
  by apply app_inv_head in B.
Qed.

Variable version : option bytes.
Variables in_ptr out_ptr bufferSize : Z.
Hypothesis in_pos : 0 <= in_ptr.
Hypothesis size_ok : 128 <= bufferSize.

#[local] Abbreviation serve := (serve version in_ptr out_ptr bufferSize).

Lemma serve_long_stats l es (w : world) :
  w_input w = Data (str "stats" ++ CRLF) :: es -> mc_stats (w_store w) = flatten l ->
  bufferSize < zlen (stats_text l) ->
  exists w', serve w = (Ok (Died (IllegalArgumentException [])), w') /\
    w_sent w' = w_sent w /\ w_store w' = w_store w /\
    bytes_at (w_mem w') out_ptr (zlen (stats_text l)) = stats_text l.
Proof.
  intros Ein El Hlong. set (t := str "stats" ++ CRLF) in *. set (w1 := received in_ptr t es w).
  assert (V : view (w_mem w1) in_ptr 7 t) by apply view_copyBytes.
  assert (Ep : parse (w_mem w1) in_ptr 7 = Ok (Some STATS)).
  { rewrite (parse_bare _ _ _ "stats" STATS []); [|cbn; tauto|exact V|done| |done].
    2:{ split; [done|]. by repeat (constructor; [by split|]). }
    change (zlen (str "stats")) with 5. cbn [parse_command]. unfold STATS_parse. cbn [Z.ltb Z.gtb Z.compare Z.sub Z.add Z.opp].
    apply view_app in V as [_ V]. change (zlen (str "stats")) with 5 in V.
    pose proof (bytes_at_view _ _ _ _ V) as B. change (zlen CRLF) with 2 in B.
    change (7 - 5) with 2. rewrite B by lia. by rewrite (proj2 (compareTo_eq CRLF CRLF) eq_refl). }
  destruct (STATS_execute_writes out_ptr l (set_last (Some STATS) w1) El) as (m & Es & Hm).
  exists (set_mem m (set_last (Some STATS) w1)). split; [|done].
  assert (E : serve_loop version in_ptr out_ptr bufferSize (events_size (w_input w) + 1) 0 0 w =
    (Throw (IllegalArgumentException []), set_mem m (set_last (Some STATS) w1))).
  { rewrite Nat.add_1_r, (serve_read _ _ _ _ size_ok _ _ _ _ Ein) by (done || (change (zlen t) with 7; lia)).
    fold w1. change (zlen t) with 7. unfold after_read. cbn [Z.eqb]. rewrite Z.add_0_l, Nat.add_1_r.
    generalize (Z.to_nat 7). intros f. cbn [WorkThread.batch Z.ltb Z.compare].
    rewrite Z.add_0_r, Z.sub_0_r. unfold bindM.
    rewrite (process_some _ _ _ _ _ _ _ _ Ep in_pos). cbn [execute]. unfold try_catch. rewrite Es.
    assert (0 <= zlen (stats_text l)) by apply zlen_nonneg.
    rewrite (proj2 (Z.ltb_ge _ 0)), (proj2 (Z.ltb_lt 0 _)) by lia. unfold write_out.
    by rewrite (proj2 (Z.ltb_lt bufferSize _)), orb_true_r by lia. }
  unfold WorkThread.serve, try_catch. by rewrite E.
Qed.

End LongStats.

(** ** The properties *)

Section Bounds.
Context {mem S item : Type}.
Context `{UnsafeAccessLaws mem} `{CarrotUtilsLaws} `{Memcached S item} `{RecordWriter mem item}.
Context `{!RecordWriterLaws mem item}.

Implicit Types (w : World mem S).

(** C6.  The worker writes inside its buffers.  Whatever arrives on a connection, in
    whatever pieces and with whatever errors, no byte outside the input and the output
    buffer changes, and a request that is processed changes the output buffer only, as
    long as the texts the store supplies for [stats], [version], [shutdown] and the
    errors of counters fit, which the code does not check. *)
Theorem writes_stay_inside version in_ptr out_ptr bufferSize w :
  texts_fit (S:=S) version bufferSize ->
  (forall p n, same_off (w_mem w)
     (w_mem (process version (consume out_ptr bufferSize) p n out_ptr bufferSize w).2)
     out_ptr bufferSize) /\
  forall fuel q,
    ~ in_ptr <= q < in_ptr + bufferSize -> ~ out_ptr <= q < out_ptr + bufferSize ->
    toByte (w_mem (connection version in_ptr out_ptr bufferSize fuel w).2) q = toByte (w_mem w) q.
Proof.
  intros T. split.
  - intros p n q Hq. pose proof (keeps_process (fun a => out_ptr <= a < out_ptr + bufferSize)
      version (consume out_ptr bufferSize) out_ptr bufferSize) as K.
    apply K; [intros; by apply keeps_send_out|by intros a|apply T|done|lia].
  - intros fuel q Hi Ho.
    apply (keeps_connection (fun a => in_ptr <= a < in_ptr + bufferSize \/ out_ptr <= a < out_ptr + bufferSize)
      version in_ptr out_ptr bufferSize); [by left|by right|done|tauto].
Qed.

(** C34.  [stats] overruns the output buffer when the statistics of the store are longer
    than it: the whole text is written from the start of the buffer on, past its end, and
    the worker then dies of the limit it cannot set, without having sent anything. *)
Theorem long_stats_overrun version in_ptr out_ptr bufferSize l es w :
  0 <= in_ptr -> 128 <= bufferSize ->
  w_input w = Data (str "stats" ++ CRLF) :: es -> mc_stats (w_store w) = flatten l ->
  bufferSize < zlen (stats_text l) ->
  exists w', serve version in_ptr out_ptr bufferSize w =
      (Ok (Died (IllegalArgumentException [])), w') /\
    w_sent w' = w_sent w /\ w_store w' = w_store w /\
    bytes_at (w_mem w') out_ptr (zlen (stats_text l)) = stats_text l.
Proof. intros. by eapply serve_long_stats. Qed.

End Bounds.

(** ** Witnesses *)

(** [stats] of a store that has more to tell than 128 bytes. *)
Definition long_stats : list (bytes * bytes) := [(str "note", repeat "x"%char 200)].

Definition verbose_store : Memcached Store Item := {|
  mc_set := @mc_set _ _ ref_store; mc_add := @mc_add _ _ ref_store; mc_replace := @mc_replace _ _ ref_store;
  mc_append := @mc_append _ _ ref_store; mc_prepend := @mc_prepend _ _ ref_store; mc_cas := @mc_cas _ _ ref_store;
  mc_get := @mc_get _ _ ref_store; mc_gets := @mc_gets _ _ ref_store; mc_gat := @mc_gat _ _ ref_store;
  mc_gats := @mc_gats _ _ ref_store; mc_incr := @mc_incr _ _ ref_store; mc_decr := @mc_decr _ _ ref_store;
  mc_touch := @mc_touch _ _ ref_store; mc_delete := @mc_delete _ _ ref_store; mc_flushAll := @mc_flushAll _ _ ref_store;
  mc_stats := fun _ => flatten long_stats; mc_shutdown := @mc_shutdown _ _ ref_store
|}.

Lemma ref_texts_fit : texts_fit (S:=Store) (H0:=ref_store) None 128.
Proof.
  assert (Arith : forall s k op, counter_fits 128 (add_to s k op).1).
  { intros s k op. unfold add_to. destruct (lookup_key s k) as [i|]; [|vm_compute; discriminate].
    destruct (parseLong (i_data i)) as [v|]; [|done]. cbn [fst counter_fits].
    pose proof (Long_toString_short (op v)). cbn [longToStrDirect ref_utils]. lia. }
  split; [lia|vm_compute; discriminate|intros s|done|intros; apply Arith..].
  cbn [mc_stats ref_store stats_size]. pose proof (Long_toString_short (zlen (entries s))).
  change (zlen (str "curr_items")) with 10. lia.
Qed.

Lemma writes_stay_inside_witness :
  w_mem (connection None 1000 2000 128 20
    (start (mem_of (str "x") 2128) empty_store (cut 9 (stream run_requests)))).2 2128 = "x"%char.
Proof.
  pose proof (proj2 (writes_stay_inside (H3:=ref_store) None 1000 2000 128
    (start (mem_of (str "x") 2128) empty_store (cut 9 (stream run_requests))) ref_texts_fit) 20%nat 2128) as W.
  cbn [toByte fun_mem] in W. rewrite W by lia. vm_compute. reflexivity.
Defined.

Lemma long_stats_overrun_witness :
  exists w', serve (H1:=verbose_store) None 1000 2000 128
      (start blank empty_store [Data (str "stats" ++ CRLF)])
    = (Ok (Died (IllegalArgumentException [])), w') /\ w_mem w' (2000 + 150) = "x"%char.
Proof.
  destruct (long_stats_overrun (H3:=verbose_store) None 1000 2000 128 long_stats []
    (start blank empty_store [Data (str "stats" ++ CRLF)])) as (w' & E & _ & _ & B).
  - lia.
  - lia.
  - reflexivity.
  - reflexivity.
  - vm_compute. reflexivity.
  - exists w'. split; [exact E|]. apply (f_equal (fun l => nth 150 l NUL)) in B.
    vm_compute in B. exact B.
Defined.
