(* ===== verification/PluginTheorems.v ===== *)
(** * Properties of the Grafana plugin bundles

    The style functions under any plain theme, the filter buttons of the profiles
    explorer against the meaning of filters, the labels cache, and the code pane. *)

From stdpp Require Import gmap.
From S2P Require Import Prelude.
From S2P Require Import Java.
From S2P Require Import Css.
From S2P Require Import Stylesheets.
From S2P Require Import Filters.
From S2P Require Import Labels LabelsOverlap.
From S2P Require Import CodeView.
From S2P Require Import Flame.
From S2P Require Import FlameCorrect.

(** ** Style functions *)

(** The templates of all classes read as CSS, and do so for any plain values in the places
    of the theme's, with the same blocks and property names: every value stands where a value
    may.  Nothing is said of values that are not plain, nor of what is declared. *)
Theorem templates_read e v colour height :
  plain_theme e -> plain_visualization v -> plain_value colour -> plain_value height ->
  (fun ps => css_outline (css ps)) <$> templates e v colour height = sheet_outlines /\
  Forall is_Some sheet_outlines.
Proof.
  intros He Hv Hc Hh. split; [|exact sheets_read].
  rewrite <- (templates_outline e v colour height).
  pose proof (templates_plain e v colour height He Hv Hc Hh) as Hp.
  pose proof sheets_read as Hr. rewrite <- (templates_outline e v colour height) in Hr.
  induction Hp as [|ps l Hps _ IH]; [done|]. rewrite !fmap_cons in *.
  apply Forall_cons_1 in Hr as [[os Hos] Hr]. f_equal; [|by apply IH].
  rewrite Hos. by apply css_outline_template; [apply plain_items|].
Qed.

Lemma templates_read_witness :
  (fun ps => css_outline (css ps)) <$>
    templates (flat_theme (str "rgb(1, 2, 3)")) (flat_visualization (str "#fff")) (str "red") (str "40")
  = sheet_outlines /\ Forall is_Some sheet_outlines.
Proof.
  apply (templates_read (flat_theme (str "rgb(1, 2, 3)")) (flat_visualization (str "#fff"))
           (str "red") (str "40"));
    [apply flat_theme_plain|intros c| |]; refine (bool_decide_unpack _ _); vm_compute; exact I.
Defined.

(** ** Filters *)

(** Including a value adds it to the values that an inclusive filter on its
    label lets through, and replaces an exclusive one; other labels' filters stay as
    they are, in their order. *)
Theorem include_adds e t :
  filters_ok e -> bar_free (value t) ->
  (forall x, accepts_all (Xt e t) (key t) x =
             bool_decide (x = value t) || (including e (key t) && accepts_all e (key t) x)) /\
  others (Xt e t) (key t) = others e (key t) /\ filters_ok (Xt e t).
Proof. intros He Ht. apply replaces_spec; [done|by apply include_replaces]. Qed.

(** Excluding a value takes it from the values that an exclusive filter lets
    through, and replaces an inclusive one. *)
Theorem exclude_removes e t :
  filters_ok e -> bar_free (value t) ->
  (forall x, accepts_all (Zt e t) (key t) x =
             bool_decide (x ≠ value t) && (negb (excluding e (key t)) || accepts_all e (key t) x)) /\
  others (Zt e t) (key t) = others e (key t) /\ filters_ok (Zt e t).
Proof. intros He Ht. apply replaces_spec; [done|by apply exclude_replaces]. Qed.

(** Clearing a value undoes either: an inclusive filter no longer lets it
    through, unless it was the only one and the filter goes; an exclusive one lets
    it through again. *)
Theorem clear_undoes e t :
  filters_ok e ->
  (forall x, accepts_all (en e t) (key t) x =
             if including e (key t)
             then negb (more e (key t) (value t)) || (accepts_all e (key t) x && bool_decide (x ≠ value t))
             else bool_decide (x = value t) || accepts_all e (key t) x) /\
  others (en e t) (key t) = others e (key t) /\ filters_ok (en e t).
Proof. intros He. apply replaces_spec; [done|by apply clear_replaces]. Qed.

(** One label with an inclusive list, one with an exclusive value. *)
Definition region : bytes := str "region".
Definition host : bytes := str "host".
Definition some_filters : list Filter :=
  [{| key := host; operator := NE; value := str "h1" |};
   {| key := region; operator := RE; value := str "eu|us" |}].
Definition pick (k v : string) : Filter := {| key := str k; operator := EQ; value := str v |}.

Lemma some_filters_ok : filters_ok some_filters.
Proof.
  split.
  - apply Forall_cons; [|apply Forall_cons; [apply filter_ok_RE|apply Forall_nil]].
    split; [|intros _]; apply (bool_decide_unpack _); reflexivity.
  - apply (bool_decide_unpack _). reflexivity.
Qed.

Lemma include_adds_witness :
  accepts_all (Xt some_filters (pick "region" "asia")) region (str "asia") = true /\
  accepts_all (Xt some_filters (pick "region" "asia")) region (str "eu") = true /\
  accepts_all (Xt some_filters (pick "region" "asia")) region (str "africa") = false.
Proof.
  destruct (include_adds some_filters (pick "region" "asia") some_filters_ok
              ltac:(apply (bool_decide_unpack _); reflexivity)) as [H _].
  change (key (pick "region" "asia")) with region in H. rewrite !H. by vm_compute.
Defined.

Lemma exclude_removes_witness :
  accepts_all (Zt some_filters (pick "host" "h2")) host (str "h2") = false /\
  accepts_all (Zt some_filters (pick "host" "h2")) host (str "h1") = false /\
  accepts_all (Zt some_filters (pick "host" "h2")) host (str "h3") = true.
Proof.
  destruct (exclude_removes some_filters (pick "host" "h2") some_filters_ok
              ltac:(apply (bool_decide_unpack _); reflexivity)) as [H _].
  change (key (pick "host" "h2")) with host in H. rewrite !H. by vm_compute.
Defined.

Lemma clear_undoes_witness :
  accepts_all (en some_filters (pick "region" "eu")) region (str "eu") = false /\
  accepts_all (en some_filters (pick "region" "eu")) region (str "us") = true.
Proof.
  destruct (clear_undoes some_filters (pick "region" "eu") some_filters_ok) as [H _].
  change (key (pick "region" "eu")) with region in H. rewrite !H. by vm_compute.
Defined.

(** On a filter "is empty" the buttons take the operator's name, which the
    query builder left in the filter's value, for one of the label's values. *)
Theorem is_empty_becomes_a_value k op x :
  bar_free x -> x <> IS_EMPTY ->
  expression [Q_Y k] = k ++ str "=" ++ DQUOTE ++ DQUOTE /\
  expression (Xt [Q_Y k] {| key := k; operator := op; value := x |})
    = k ++ str "=~" ++ DQUOTE ++ str "is-empty|" ++ x ++ DQUOTE /\
  expression (Zt [Q_Y k] {| key := k; operator := op; value := x |})
    = k ++ str "!~" ++ DQUOTE ++ str "is-empty|" ++ x ++ DQUOTE.
Proof.
  intros Hx Hne.
  assert (Hw : Wt [Q_Y k] k = (Some (Q_Y k), [])) by (apply (Wt_some [] (Q_Y k) [] k); [done|apply not_elem_of_nil..]).
  assert (Hadd : set_add (new_set (split_bar IS_EMPTY)) x = [IS_EMPTY; x]).
  { change (new_set (split_bar IS_EMPTY)) with [IS_EMPTY]. unfold set_add.
    rewrite decide_False; [done|]. rewrite list_elem_of_singleton. congruence. }
  split; [done|]. unfold Xt, Zt. cbn [key]. rewrite Hw.
  change (operator (Q_Y k)) with IS_EMPTY. change (value (Q_Y k)) with IS_EMPTY. cbn [value].
  decide_ops. rewrite !(decide_False (P := IS_EMPTY = x)) by congruence. rewrite Hadd. done.
Qed.

Lemma is_empty_becomes_a_value_witness :
  expression (Xt [Q_Y region] (pick "region" "eu"))
    = region ++ str "=~" ++ DQUOTE ++ str "is-empty|" ++ str "eu" ++ DQUOTE.
Proof.
  apply (is_empty_becomes_a_value region EQ (str "eu"));
    refine (bool_decide_unpack _ _); vm_compute; exact I.
Defined.

(** ** The labels cache *)

(** Calls leave nothing in the cache but answers that came, and a listing of
    labels that found any is answered from the cache, unchanged, the next time. *)
Theorem labels_cached base rs q f t e l c' a :
  let c := calls base ∅ rs in
  listLabels base c q f t (Fulfilled e) = (Fulfilled l, c') -> l <> [] ->
  settled_cache c' /\ listLabels base c' q f t a = (Fulfilled l, c').
Proof.
  intros c Hl Hne. split.
  - pose proof (call_settled base c (Labels q f t (Fulfilled e)) (calls_settled base rs ∅ (map_Forall_empty _))) as H.
    cbn [call] in H. by rewrite Hl in H.
  - revert Hl. unfold listLabels.
    destruct (assertParams q f t); [done|].
    destruct (cache_get c (labels_key base q f t)) as [[e'|msg]|] eqn:E; [|done|].
    + destruct (parseLabelsResponse e') as [|o os] eqn:Ep; intros [= <- <-]; [done|].
      by rewrite E, Ep.
    + intros [= Hp <-]. unfold cache_get, cache_set. rewrite lookup_insert_eq.
      rewrite Hp. by destruct l.
Qed.

Definition api : bytes := str "/api".
Definition series : bytes := str "process_cpu{}".

Lemma labels_cached_witness :
  listLabels api (calls api ∅ [Labels series 5 6 (Rejected (str "timeout"));
                               Labels series 1 2 (Fulfilled (Some [str "pod"; str "__name__"]))])
    series 1 2 (Rejected (str "timeout"))
  = (Fulfilled [option_of (str "pod")],
     {[ buildCacheKey (labels_key api series 1 2) := Fulfilled (Some [str "pod"; str "__name__"]) ]}).
Proof.
  refine (proj2 (labels_cached api [Labels series 5 6 (Rejected (str "timeout"))] series 1 2
    (Some [str "pod"; str "__name__"]) _ _ (Rejected (str "timeout")) _ _)); [|discriminate].
  vm_compute. reflexivity.
Defined.

(** C40: However calls overlap, a listing that succeeds is made of an answer to a request for
    its own cache key; the cache holds a promise without an answer only until the call that
    made the request has resumed; and when all calls have finished it holds answers only. *)
Theorem listings_overlap base es n :
  net_run base es no_calls = Some n ->
  (forall c l, c ∈ callers n -> k_pc c = Finished (Fulfilled l) ->
     exists p e, p_key <$> promises n !! p = Some (k_key c) /\ came_to n p = Some (Fulfilled e) /\
       (l = parseLabelsResponse e \/ l = own_parser (k_kind c) e)) /\
  (forall k p, stored n !! k = Some p ->
     p_key <$> promises n !! p = Some k /\
     ((exists e, came_to n p = Some (Fulfilled e)) \/
      exists c, c ∈ callers n /\ k_key c = k /\ k_pc c = AwaitsOwn p)) /\
  (Forall (fun c => exists l, k_pc c = Finished l) (callers n) ->
   map_Forall (fun _ p => exists e, came_to n p = Some (Fulfilled e)) (stored n)).
Proof.
  intros Hrun. destruct (net_run_ok base es no_calls n Hrun no_calls_ok) as [Hc Hs].
  split; [|split; [exact Hs|]].
  - intros c l Hin Hpc. rewrite list.Forall_forall in Hc. specialize (Hc c Hin). unfold call_ok in Hc.
    rewrite Hpc in Hc. destruct Hc as [[msg Hl]|(p & e & H1 & H2 & H3)]; [easy|].
    exists p, e. split_and!; [easy..|]. destruct H3 as [[= ->]|[= ->]]; auto.
  - intros Hfin k p Hk. destruct (Hs k p Hk) as [_ [He|(c & Hin & _ & Hpc)]]; [exact He|].
    rewrite list.Forall_forall in Hfin. destruct (Hfin c Hin) as [l Hl]. congruence.
Qed.

(** Two calls wait for the same empty answer.  The first to resume deletes it, a third
    makes a request, which the second then deletes from the cache: a fourth makes another
    request for the same key while that one is under way. *)
Definition raced : list NetStep :=
  let s := StepStart (StartLabels series 1 2) in
  [s; StepSettle 0 (Fulfilled (Some [])); StepResume 0; s; s; StepResume 1; s; StepResume 2; s].

Lemma listings_overlap_witness :
  exists n, net_run api raced no_calls = Some n /\
    p_outcome <$> promises n = [Some (Fulfilled (Some [])); None; None] /\
    (forall k p, stored n !! k = Some p ->
       (exists e, came_to n p = Some (Fulfilled e)) \/
       exists c, c ∈ callers n /\ k_key c = k /\ k_pc c = AwaitsOwn p).
Proof.
  destruct (net_run api raced no_calls) as [n|] eqn:Hn; [|vm_compute in Hn; discriminate].
  exists n. split; [reflexivity|]. split.
  - apply (f_equal (fun o => match o with Some n => p_outcome <$> promises n | None => [] end)) in Hn.
    rewrite <- Hn. vm_compute. reflexivity.
  - intros k p Hk. exact (proj2 (proj1 (proj2 (listings_overlap api raced n Hn)) k p Hk)).
Defined.

(** The second listing of a label's values goes through the parser for label
    names; it gives the values of the first one exactly when they have no duplicates
    and none looks like a meta label. *)
Theorem label_values_cached_differ base c label q f t names a :
  assertParams q f t = None -> label <> [] ->
  cache_get c (values_key base label q f t) = None ->
  let first := listLabelValues base c label q f t (Fulfilled (Some names)) in
  let second := listLabelValues base first.2 label q f t a in
  first.1 = Fulfilled (option_of <$> names) /\
  second.1 = Fulfilled (option_of <$> new_set (List.filter isNotMetaLabelOrServiceName names)) /\
  (second.1 = first.1 <-> NoDup names /\ Forall (fun n => isNotMetaLabelOrServiceName n = true) names).
Proof.
  intros Hp Hl Hc. cbv zeta.
  assert (listLabelValues base c label q f t (Fulfilled (Some names))
          = (Fulfilled (option_of <$> names),
             cache_set c (values_key base label q f t) (Fulfilled (Some names)))) as ->.
  { unfold listLabelValues. by rewrite Hp, decide_False, Hc by done. }
  cbn [fst snd].
  assert ((listLabelValues base (cache_set c (values_key base label q f t) (Fulfilled (Some names)))
             label q f t a).1
          = Fulfilled (option_of <$> new_set (List.filter isNotMetaLabelOrServiceName names))) as ->.
  { unfold listLabelValues, cache_get, cache_set.
    by rewrite Hp, decide_False, lookup_insert_eq by done. }
  split_and!; [done|done|]. rewrite <- cached_values_same. split.
  - intros [= H]. by apply (inj (fmap option_of)) in H.
  - by intros ->.
Qed.

Lemma label_values_cached_differ_witness :
  (listLabelValues api ∅ (str "service") series 1 2 (Fulfilled (Some [str "service_name"; str "web"]))).1
    = Fulfilled [option_of (str "service_name"); option_of (str "web")] /\
  (listLabelValues api
     (listLabelValues api ∅ (str "service") series 1 2 (Fulfilled (Some [str "service_name"; str "web"]))).2
     (str "service") series 1 2 (Rejected [])).1
    = Fulfilled [option_of (str "web")].
Proof.
  destruct (label_values_cached_differ api ∅ (str "service") series 1 2 [str "service_name"; str "web"]
    (Rejected []) eq_refl ltac:(discriminate) (lookup_empty _)) as (H1 & H2 & _).
  split; [exact H1|exact H2].
Defined.

(** Parameters are told apart by the cache when their numbers print equally
    long, as millisecond time stamps of the same decades do. *)
Theorem cache_keys_separate base q f t q' f' t' :
  in_long f -> in_long t -> in_long f' -> in_long t' ->
  zlen (Long_toString f) = zlen (Long_toString f') -> zlen (Long_toString t) = zlen (Long_toString t') ->
  buildCacheKey (labels_key base q f t) = buildCacheKey (labels_key base q' f' t') ->
  (q, f, t) = (q', f', t').
Proof.
  intros Hf Ht Hf' Ht' Ef Et. rewrite !buildCacheKey_concat. cbn. rewrite !app_nil_r.
  intros H%app_inv_head. unfold zlen in *.
  rewrite !app_assoc in H. apply app_inj_2 in H as [H H3]; [|lia].
  apply app_inj_2 in H as [-> H2]; [|lia].
  apply Long_toString_inj in H2; [|done..]. apply Long_toString_inj in H3; [|done..]. by subst.
Qed.

Lemma cache_keys_separate_witness :
  buildCacheKey (labels_key api series 1 2) <> buildCacheKey (labels_key api series 3 4).
Proof.
  intros H. apply (cache_keys_separate api series 1 2 series 3 4) in H; [discriminate| | | | |done|done];
    unfold in_long; lia.
Defined.

(** The cache's keys do run together otherwise: two valid calls for labels with
    different queries, and a call for labels and one for a label's values. *)
Theorem cache_keys_collide base q :
  q <> [] ->
  (assertParams (q ++ str "1") 2 30 = None /\ assertParams q 12 30 = None /\
   buildCacheKey (labels_key base (q ++ str "1") 2 30) = buildCacheKey (labels_key base q 12 30)) /\
  (forall label f t, buildCacheKey (values_key base label q f t)
                     = buildCacheKey (labels_key base (label ++ q) f t)).
Proof.
  intros Hq.
  assert (q ++ str "1" <> []) by (intros [? _]%app_eq_nil; done).
  split; [split_and!|intros label f t]; rewrite ?buildCacheKey_concat;
    try (unfold assertParams; by rewrite decide_False by done).
  all: cbn; rewrite ?app_nil_r; by rewrite <- !app_assoc.
Qed.

Lemma cache_keys_collide_witness :
  buildCacheKey (values_key api (str "pod") series 1 2)
  = buildCacheKey (labels_key api (str "podprocess_cpu{}") 1 2).
Proof. apply (proj2 (cache_keys_collide api series ltac:(discriminate)) (str "pod") 1 2). Defined.

(** ** The code pane *)

(** [zs] takes off every line as many characters as the longest indentation that
    the first line and all lines that are not blank share; from those lines it takes
    exactly this indentation, and it changes nothing else. *)
Theorem zs_dedents l ls :
  exists t, shared_indent (l :: ls) t /\
    zs (l :: ls) = (fun m => set_line m (drop (length t) (line m))) <$> l :: ls /\
    Forall (fun m => line m = t ++ drop (length t) (line m)) (counted (l :: ls)).
Proof.
  exists (common_indent ls (Ys (line l))).
  pose proof (shared_indent_common l ls) as H. split_and!; [exact H|apply zs_drop|].
  destruct H as (_ & H & _). eapply Forall_impl; [|exact H]. cbn.
  intros m [s ->]. by rewrite drop_app_length.
Qed.

(** ** Flame graphs *)

(** C15: the rows made of the levels of a profile are the nodes of its tree, parents
    first, each with its name, depth and sizes: finding the parent of every frame by the
    interval it starts in inverts the encoding by levels, for a profile and for a
    comparison of two, as long as no node is empty and children fit in their parents. *)
Theorem flame_round_trip names diff t :
  fits diff t = true -> flame_rows (encode diff t) names diff = Some (Ok (preorder names diff 0 t)).
Proof. apply decode_encode. Qed.

Lemma flame_round_trip_witness :
  let main := Node 0 0 0 5 0 1 0 [Node 1 0 0 2 0 2 0 []; Node 2 1 0 1 0 0 0 [Node 1 0 0 1 0 1 0 []]] in
  let names := [str "main"; str "read"; str "parse"] in
  encode false main = [[0; 5; 1; 0]; [0; 2; 2; 1; 1; 1; 0; 2]; [3; 1; 1; 1]] /\
  flame_rows (encode false main) names false = Some (Ok (preorder names false 0 main)).
Proof.
  intros main names. split; [vm_compute; reflexivity|].
  apply (flame_round_trip names false main). vm_compute. reflexivity.
Defined.
