(* ===== verification/ShardTheorems.v ===== *)
(** * Properties of the sharded queries

    The text of a request, the requests of a run and what becomes of their answers, and the
    end of a run whatever the server does. *)

From S2P Require Import Prelude.
From stdpp Require Import gmap.
From S2P Require Import Java.
From S2P Require Import JavaScript.
From S2P Require Import Filters.
From S2P Require Import Frames.
From S2P Require Import FramesCorrect.
From S2P Require Import Shards.
From S2P Require Import ShardsCorrect.
From S2P Require Import ShardsServed.
From Stdlib Require Import SpecFloat Sorted.
#[local] Open Scope nat_scope.

(** ** The text of a request *)

(** The matcher for a group of shards. *)
Definition group_matcher (g : list Z) : bytes :=
  str ", __stream_shard__=" ++
  match g with
  | [x] => [QUOTE] ++ (if decide (x = (-1)%Z) then [] else Long_toString x) ++ [QUOTE]
  | _ => str "~" ++ [QUOTE] ++ Prelude.join (str "|") (Long_toString <$> g) ++ [QUOTE]
  end.

(** No match reaches over the end of a text that ends with a character the pattern does
    not have. *)
Lemma no_match_before p a c x y z :
  c ∉ p -> includes p a = false -> a ++ [c] = x ++ y -> y <> [] -> starts p (y ++ z) = false.
Proof.
  intros Hc Ha Hxy Hy. destruct (starts p (y ++ z)) eqn:Hs; [|easy].
  destruct y as [|d y _] using rev_ind; [easy|]. rewrite app_assoc in Hxy.
  apply app_inj_tail in Hxy as [-> ->]. rewrite <- app_assoc in Hs.
  cbn [app] in Hs. rewrite starts_sep in Hs by exact Hc. apply starts_spec in Hs as [r ->].
  rewrite <- (not_true_iff_false (includes p (x ++ p ++ r))) in Ha. exfalso. apply Ha.
  apply includes_spec. now exists x, r.
Qed.

Lemma first_split {A} (c : A) l l' r r' : c ∉ l -> c ∉ l' -> l ++ c :: r = l' ++ c :: r' -> l = l'.
Proof.
  revert l'; induction l as [|a l IH]; intros [|a' l'] Hl Hl'; cbn; try easy.
  - intros [= -> _]. rewrite not_elem_of_cons in Hl'. now destruct Hl'.
  - intros [= -> _]. rewrite not_elem_of_cons in Hl. now destruct Hl.
  - rewrite not_elem_of_cons in Hl, Hl'. intros [= -> Hr]. f_equal. now apply IH.
Qed.

Definition BRACE : ascii := "}"%char.
Definition PLACED_HEAD : bytes := str ", __stream_shard__=~" ++ [QUOTE].

Lemma placed_once a b x y :
  BRACE ∉ a -> a = x ++ y -> y <> [] -> starts PLACED (y ++ PLACED ++ b) = false.
Proof.
  intros Ha -> Hy. destruct (starts _ _) eqn:Hs; [|easy]. exfalso.
  apply starts_spec in Hs as [r Hr].
  set (Q := PLACED_HEAD ++ PLACEHOLDER ++ [QUOTE]).
  change PLACED with (Q ++ [BRACE]) in Hr. rewrite <- !app_assoc in Hr. cbn [app] in Hr.
  assert (HQ : BRACE ∉ Q) by (refine (bool_decide_unpack _ _); vm_compute; exact Logic.I).
  rewrite (app_assoc y Q) in Hr. apply first_split in Hr; [|rewrite not_elem_of_app in *; tauto|exact HQ].
  apply (f_equal length) in Hr. rewrite length_app in Hr. destruct y; [easy|]. cbn in Hr. lia.
Qed.

Lemma toString_minus_one x : in_long x -> Long_toString x = str "-1" -> x = (-1)%Z.
Proof.
  intros Hx He. apply (f_equal parseLong) in He. rewrite parseLong_toString in He by exact Hx.
  now injection He.
Qed.

Lemma join_bar_ne x y g w : BAR ∉ w -> Prelude.join (str "|") (x :: y :: g) <> w.
Proof. intros Hw <-. apply Hw. cbn. set_solver. Qed.

(** A shard group is asked for by one more matcher in front of the first closing brace
    of the expression: equality for one shard, no shard for the last request, and the
    alternatives of the group otherwise. *)
Theorem shard_matcher_text a b g :
  BRACE ∉ a -> includes PLACEHOLDER a = false -> includes PLACEHOLDER b = false ->
  g <> [] -> Forall in_long g ->
  interpolate_shards (add_placeholder (a ++ BRACE :: b)) g = a ++ group_matcher g ++ BRACE :: b.
Proof.
  intros Ha Hpa Hpb Hg Hl. unfold add_placeholder.
  change (a ++ BRACE :: b) with (a ++ str "}" ++ b).
  rewrite replace_first_at by
    (intros x y -> Hy; destruct y as [|c y]; [easy|];
     change (str "}") with [BRACE]; cbn [starts app]; apply andb_false_iff; left;
     apply eqb_char_false; intros <-; apply Ha, elem_of_app; right; left).
  destruct g as [|x g]; [easy|]. apply list.Forall_cons in Hl as [Hx Hl].
  unfold interpolate_shards. destruct g as [|x' g].
  - rewrite (bool_decide_eq_true_2 (length [x] = 1)) by easy. rewrite orb_true_r.
    rewrite replace_first_at by (intros; eapply placed_once; eassumption).
    unfold group_matcher. rewrite <- !app_assoc. do 3 f_equal.
    change (Prelude.join (str "|") (Long_toString <$> [x])) with (Long_toString x).
    destruct (decide (x = (-1)%Z)) as [->|Hn]; [now rewrite bool_decide_eq_true_2 by reflexivity|].
    now rewrite bool_decide_eq_false_2 by (intros He; now apply Hn, toString_minus_one).
  - rewrite bool_decide_eq_false_2 by (apply join_bar_ne; refine (bool_decide_unpack _ _); vm_compute; exact Logic.I).
    rewrite bool_decide_eq_false_2 by easy. cbn [orb].
    change (a ++ PLACED ++ b) with (a ++ (PLACED_HEAD ++ PLACEHOLDER ++ [QUOTE; BRACE]) ++ b).
    unfold group_matcher.
    set (n := Prelude.join _ _).
    replace (a ++ (PLACED_HEAD ++ PLACEHOLDER ++ [QUOTE; BRACE]) ++ b)
      with ((a ++ PLACED_HEAD) ++ PLACEHOLDER ++ [QUOTE; BRACE] ++ b) by now rewrite <- !app_assoc.
    rewrite replace_all_at; [now rewrite <- !app_assoc|easy| |].
    + intros y z Hyz Hz. unfold PLACED_HEAD in Hyz. rewrite app_assoc in Hyz.
      eapply no_match_before; [| |exact Hyz|exact Hz].
      * refine (bool_decide_unpack _ _); vm_compute; exact Logic.I.
      * etransitivity; [apply (includes_sep PLACEHOLDER a ","%char); [|easy]|now rewrite Hpa].
        refine (bool_decide_unpack _ _); vm_compute; exact Logic.I.
    + exact Hpb.
Qed.

(** ** Runs *)

Lemma shards_pos q : shards q <> [] -> 1 <= length (shards q).
Proof. destruct (shards q); [easy|cbn; lia]. Qed.

Definition no_refusal (tr : list (nat * nat * Outcome)) : Prop := forall d g r, (d, g, Refused r) ∉ tr.

Lemma run_finished `{GrafanaData} q tr h st :
  shards q <> [] -> Behaves q tr h st -> over st ->
  (forall d, failures d tr < 5) -> no_refusal tr -> finished q tr st.
Proof.
  intros Hq Hs Hl Hf Hr. destruct (behaves_over q tr h st (shards_pos q Hq) Hs Hl) as [Hd|Hg]; [exact Hd|].
  destruct (g_reason _ _ Hg) as [[d Hd]|(d & g & r & tr' & ->)].
  - specialize (Hf d). lia.
  - exfalso. apply (Hr d g r), elem_of_app. right. left.
Qed.

(** The value of a series at a time in the frames of several answers. *)
Definition summed (ts : list DataFrame) (k : option bytes * option bytes) (x : Z) : option spec_float :=
  fold_left (fun o t => union_with sum o (contribution k x t)) ts None.

Lemma finished_sums `{GrafanaData, !GrafanaDataLaws _} q tr st tn vn :
  tn <> vn -> finished q tr st -> Forall (good tn vn) (concat (data <$> (answered q tr).*2)) ->
  good_data tn vn (data (merged st)) /\
  forall k x, point (data (merged st)) k x = summed (concat (data <$> (answered q tr).*2)) k x.
Proof.
  intros Hn Hd Hg. pose proof (merged_data _ _ _ (f_merged _ _ _ Hd)) as Hm.
  destruct (combine_data_points tn vn Hn [] _ (conj NoDup_nil_2 (Forall_nil_2 _)) Hg) as (d & Hd' & Hgd & Hp).
  cbn [data no_response] in Hm. rewrite Hd' in Hm. injection Hm as <-. now split.
Qed.

(** C17: from a data source that answers every request once, or fails it, with timers that go
    off at any time: a run that is over, in which no group of one shard failed five times and
    nothing was refused, ended with [Done]; the requests it made are those of the trace, in
    order; every shard was asked for in exactly one answered request, in descending order, and
    so were the streams without a shard, last; and the response delivered is the merge of just
    those answers. *)
Theorem sharded_query_complete `{GrafanaData} q tr h st :
  shards q <> [] -> Behaves q tr h st -> over st ->
  (forall d, failures d tr < 5) -> no_refusal tr ->
  r_group <$> requests st = groups q tr /\
  concat (answered q tr).*1 = shards q ++ [(-1)%Z] /\
  foldM combine_responses no_response (answered q tr).*2 = Some (merged st) /\
  exists em, emitted st = em ++ [Next Done (merged st); Complete].
Proof.
  intros Hq Hs Hl Hf Hr. destruct (run_finished q tr h st Hq Hs Hl Hf Hr) as [_ Hg Hm He].
  split; [|auto]. rewrite (behaves_requests q tr h st (shards_pos q Hq) Hs). unfold unanswered.
  destruct Hl as [-> _]. by rewrite app_nil_r.
Qed.

(** Such a run that ends with [Error] has had a group of at most one shard fail five times, or
    its last response was refused: a parse error, or an empty list of errors. *)
Theorem sharded_query_gives_up `{GrafanaData} q tr h st em r :
  shards q <> [] -> Behaves q tr h st -> over st ->
  emitted st = em ++ [Next Error r; Complete] ->
  (exists d, 5 <= failures d tr) \/ (exists d g r tr', tr = tr' ++ [(d, g, Refused r)]).
Proof.
  intros Hq Hs Hl He. destruct (behaves_over q tr h st (shards_pos q Hq) Hs Hl) as [Hd|Hg]; [|exact (g_reason _ _ Hg)].
  destruct (f_emitted _ _ _ Hd) as [em' He']. rewrite He in He'.
  change [Next Error r; Complete] with ([Next Error r] ++ [Complete]) in He'.
  change [Next Done (merged st); Complete] with ([Next Done (merged st)] ++ [Complete]) in He'.
  rewrite !app_assoc in He'. apply app_inj_tail in He' as [He' _]. now apply app_inj_tail in He' as [_ He'].
Qed.

(** The query is over and delivered, for every series and every time, the sum of what the
    server's replies for [gs] have there, in this order; these groups are the shards and,
    last, the streams without one. *)
Record delivers (q : Query) (reply : list Z -> Response) (st : State) (gs : list (list Z)) : Prop := {
  d_over : over st;
  d_done : exists em, emitted st = em ++ [Next Done (merged st); Complete];
  d_groups : concat gs = shards q ++ [(-1)%Z];
  d_series : NoDup (key <$> data (merged st));
  d_sums k x : point (data (merged st)) k x = summed (concat ((fun g => data (reply g)) <$> gs)) k x
}.

Lemma finished_delivers `{GrafanaData, !GrafanaDataLaws _} q tn vn reply tr st :
  tn <> vn -> (forall g, has_error (reply g) = false /\ Forall (good tn vn) (data (reply g))) ->
  answered_by q reply tr -> finished q tr st -> delivers q reply st (answered q tr).*1.
Proof.
  intros Hn Hreply Hby Hfin. pose proof (answered_by_groups q reply tr Hby) as Hans.
  assert (Hgood : Forall (good tn vn) (concat (data <$> (answered q tr).*2))).
  { rewrite Hans, <- list_fmap_compose. clear -Hreply. induction (answered q tr).*1 as [|g gs IH]; [constructor|].
    rewrite fmap_cons. cbn [concat]. apply Forall_app. split; [apply Hreply|exact IH]. }
  destruct (finished_sums q tr st tn vn Hn Hfin Hgood) as [[Hnd _] Hp].
  destruct Hfin as [Hov Hgr _ Hem]. split; [exact Hov|exact Hem|exact Hgr|exact Hnd|].
  intros k x. rewrite Hp, Hans, <- list_fmap_compose. reflexivity.
Qed.

(** C11: for a server whose answer to each group is [reply], time series without errors: every
    run of the query that is over, with any time-outs and failures in between (fewer than five
    of one group of one shard) and nothing refused, has delivered, for every series and every
    time, the sum of the replies to the groups answered, which are the shards and the streams
    without one; and when every request is answered the query does come to its end, with the
    sum of the replies to the requests it made. *)
Theorem sharded_query_sums `{GrafanaData, !GrafanaDataLaws _} q tn vn (reply : list Z -> Response) :
  tn <> vn -> shards q <> [] ->
  (forall g, has_error (reply g) = false /\ Forall (good tn vn) (data (reply g))) ->
  (forall tr h st, Behaves q tr h st -> over st -> (forall d, failures d tr < 5) -> no_refusal tr ->
     answered_by q reply tr -> delivers q reply st (answered q tr).*1) /\
  (exists st, converse q reply (S (length (shards q))) (begin_ q) = Some st /\
     delivers q reply st (r_group <$> requests st)).
Proof.
  intros Hn Hq Hreply. split.
  { intros tr h st Hb Ho Hf Hr Hby. apply (finished_delivers q tn vn); try easy. by apply (run_finished q tr h st). }
  destruct (served_begin q (shards_pos q Hq)) as [[k Hk]|Hd]; [|by apply finished_stays in Hd].
  destruct (converse_to_the_end q tn vn Hn reply Hreply (length (shards q)) [] (begin_ q) k)
    as (tr & st & Hb & Hc & Ho & Hby & Hall & Hreq); try easy.
  - lia.
  - constructor.
  - split; [apply NoDup_nil_2|apply Forall_nil_2].
  - apply list.Forall_nil_2.
  - pose proof (a_live _ _ _ _ Hk) as Hl. unfold begin_, run_next in Hl |- *. cbn in Hl |- *. clear -Hl. by injection Hl as <-.
  - exists st. split; [exact Hc|]. rewrite Hreq. apply (finished_delivers q tn vn); try easy.
    apply (run_finished q tr false st); try easy; [intros d|intros d g r Hin].
    + unfold failures. replace (List.filter (failed d) tr) with (@nil (nat * nat * Outcome)); [cbn; lia|].
      symmetry. clear -Hall. induction Hall as [|[[d' g] o] tr [r Hr] _ IH]; [easy|]. cbn in Hr. subst o. cbn.
      by rewrite andb_false_r.
    + unfold all_answered in Hall. rewrite list.Forall_forall in Hall. by destruct (Hall _ Hin) as [r' [=]].
Qed.

(** C18: whatever comes - responses, errors, timers, in any order and number - a query of [n]
    shards makes at most [(n + 1) (n + 2) (8 n + 9)] requests. *)
Theorem sharded_requests_bounded `{GrafanaData} q evs st :
  shards q <> [] -> run q (begin_ q) evs = Some st ->
  length (requests st) <= (length (shards q) + 1) * (length (shards q) + 2) * (8 * length (shards q) + 9).
Proof.
  intros Hq Hr. set (n := length (shards q)).
  assert (Hn : 1 <= n) by (subst n; destruct (shards q); [easy|cbn; lia]).
  destruct (begin_within q Hn) as [Hi Ht]. fold n in Ht.
  destruct (run_potential q evs _ _ Hn Hi Hr) as [_ Hm]. unfold total at 1 in Hm. nia.
Qed.

(** ** Concrete runs *)

(** The run of some events, with its trace, when they are those of such a data source. *)
Fixpoint observe `{GrafanaData} (q : Query) (x : list (nat * nat * Outcome) * bool * State) (evs : list Event)
    : option (list (nat * nat * Outcome) * bool * State) :=
  match evs with
  | [] => Some x
  | ev :: evs =>
      let '(tr, h, st) := x in
      st' ← step q st ev;
      match ev, live st, h with
      | OnNext r, Some k, false => observe q (tr ++ [(start k, size k, outcome_of r)], same_request st st', st') evs
      | OnComplete, Some _, true => observe q (tr, false, st') evs
      | OnError, Some k, false => observe q (tr ++ [(start k, size k, Failed)], false, st') evs
      | OnTimer _, _, _ => observe q (tr, h && same_request st st', st') evs
      | _, _, _ => None
      end
  end.

Lemma observe_behaves `{GrafanaData} q evs : forall tr h st tr' h' st',
  Behaves q tr h st -> observe q (tr, h, st) evs = Some (tr', h', st') -> Behaves q tr' h' st'.
Proof.
  induction evs as [|ev evs IH]; intros tr h st tr' h' st' Hb; cbn [observe]; [by intros [= <- <- <-]|].
  destruct (step q st ev) as [st1|] eqn:Hst; [|easy]. cbn [mbind option_bind].
  destruct ev; try (destruct (live st) as [k|] eqn:Hl; [|easy]; destruct h); try easy; apply IH.
  - by eapply Behaves_next.
  - by eapply Behaves_complete.
  - by eapply Behaves_error.
  - by eapply Behaves_timer.
Qed.

Lemma failures_le d tr : failures d tr <= length tr.
Proof. unfold failures. apply filter_le. Qed.

Lemma no_refusal_forallb tr :
  forallb (fun x : nat * nat * Outcome => match x.2 with Refused _ => false | _ => true end) tr = true -> no_refusal tr.
Proof.
  intros Hf d g r Hin. rewrite forallb_forall in Hf. apply list_elem_of_In in Hin. now specialize (Hf _ Hin).
Qed.

(** The index of a nearest time, by a scan. *)
Fixpoint nearest (x : Z) (l : list value) : option (nat * Z) :=
  match l with
  | [] => None
  | v :: l =>
      let rest := (fun '(i, d) => (S i, d)) <$> nearest x l in
      match v with
      | Time t =>
          let d := Z.abs (x - t) in
          match rest with Some (i, d') => if (d' <? d)%Z then Some (i, d') else Some (0, d) | None => Some (0, d) end
      | _ => rest
      end
  end.
#[local] Instance scan_closest : GrafanaData :=
  {| closestIdx x l := match nearest x l with Some (i, _) => Z.of_nat i | None => (-1)%Z end |}.

Lemma nearest_times x l :
  l <> [] -> exists i t, nearest x (Time <$> l) = Some (i, Z.abs (x - t)) /\ l !! i = Some t /\
    Forall (fun u => (Z.abs (x - t) <= Z.abs (x - u))%Z) l.
Proof.
  induction l as [|t l IH]; [easy|]. intros _. rewrite fmap_cons. cbn [nearest].
  destruct l as [|t' l].
  { exists 0, t. cbn. repeat constructor. lia. }
  destruct IH as (i & u & -> & Hi & Hu); [easy|]. cbn [fmap option_fmap option_map].
  destruct (Z.ltb_spec (Z.abs (x - u)) (Z.abs (x - t))).
  - exists (S i), u. split; [easy|]. split; [easy|]. constructor; [lia|exact Hu].
  - exists 0, t. split; [easy|]. split; [easy|]. constructor; [lia|].
    eapply Forall_impl; [exact Hu|]. cbn. intros; lia.
Qed.

#[local] Instance scan_closest_laws : GrafanaDataLaws scan_closest.
Proof.
  split; [easy|]. intros x l Hl _. destruct (nearest_times x l Hl) as (i & t & Hi & Ht & Hf).
  exists i, t. cbn. now rewrite Hi.
Qed.

Definition demo_query : Query :=
  {| targets := [add_placeholder (str "sum(rate({app=`x`}[1m]))")]; requestId := None; shards := [2; 1]%Z |}.
(** Two points of one series: one at a time of the group's own, one at a common time. *)
Definition demo_points (g : list Z) : points :=
  let t := foldr Z.max 0%Z g in
  if (0 <? t)%Z then [(0%Z, S754_finite false 1 0); (t, S754_finite false 2 0)] else [(0%Z, S754_finite false 1 0)].
Definition demo_frame (g : list Z) : DataFrame :=
  {| refId := Some (str "A"); fr_name := None;
     fields := series_fields (str "Time") (str "Value") None (Some [(str "app", str "x")]) (demo_points g);
     meta_type := Some TimeSeriesMulti; frameType := None; stats := []; fr_length := length (demo_points g) |}.
Definition demo_reply (g : list Z) : Response :=
  {| data := [demo_frame g]; errors := None; error := None; traceIds := None |}.
Definition demo_timeout : Response :=
  {| data := []; errors := Some [Some (str "context deadline exceeded: Timeout")]; error := None; traceIds := None |}.
Definition demo_refusal : Response :=
  {| data := []; errors := Some [Some (str "Parse error at line 1")]; error := None; traceIds := None |}.

Definition demo_run (evs : list Event) : list (nat * nat * Outcome) * bool * State :=
  default ([], false, begin_ demo_query) (observe demo_query ([], false, begin_ demo_query) evs).

Lemma demo_behaves evs :
  observe demo_query ([], false, begin_ demo_query) evs <> None ->
  Behaves demo_query (demo_run evs).1.1 (demo_run evs).1.2 (demo_run evs).2.
Proof.
  intros Hs. unfold demo_run. destruct (observe _ _ evs) as [[[tr h] st]|] eqn:He; [|easy].
  eapply observe_behaves; [constructor|exact He].
Qed.

(** The first request times out; its timer goes off before it completes, and what it completes is
    then the request that was made again.  Another fails. *)
Definition demo_events : list Event :=
  [OnNext demo_timeout; OnTimer 0; OnNext (demo_reply [2]); OnComplete; OnError; OnTimer 1;
   OnNext (demo_reply [1]); OnComplete; OnNext (demo_reply [-1]); OnComplete]%Z.

Lemma shard_matcher_text_witness :
  interpolate_shards (add_placeholder (str "sum(rate({app=`x`" ++ BRACE :: str "[1m]))")) [3; 2; 1]%Z
  = str "sum(rate({app=`x`" ++ group_matcher [3; 2; 1]%Z ++ BRACE :: str "[1m]))".
Proof.
  apply (shard_matcher_text (str "sum(rate({app=`x`") (str "[1m]))") [3; 2; 1]%Z); [|reflexivity|reflexivity|easy|].
  - refine (bool_decide_unpack _ _); vm_compute; exact Logic.I.
  - repeat constructor; unfold in_long; lia.
Defined.

Lemma sharded_query_complete_witness :
  concat (answered demo_query (demo_run demo_events).1.1).*1 = [2; 1; -1]%Z.
Proof.
  refine (proj1 (proj2 (sharded_query_complete demo_query (demo_run demo_events).1.1 (demo_run demo_events).1.2
    (demo_run demo_events).2 _ _ _ _ _))).
  - easy.
  - apply demo_behaves. vm_compute. easy.
  - split; vm_compute; reflexivity.
  - intros d. destruct d as [|[|[|d]]]; vm_compute; lia.
  - apply no_refusal_forallb. vm_compute. reflexivity.
Defined.

Lemma sharded_query_gives_up_witness :
  (exists d, 5 <= failures d (demo_run [OnNext (demo_reply [2%Z]); OnComplete; OnNext demo_refusal; OnComplete]).1.1) \/
  (exists d g r tr', (demo_run [OnNext (demo_reply [2%Z]); OnComplete; OnNext demo_refusal; OnComplete]).1.1
                     = tr' ++ [(d, g, Refused r)]).
Proof.
  set (evs := [OnNext (demo_reply [2%Z]); OnComplete; OnNext demo_refusal; OnComplete]).
  assert (He : exists em r, emitted (demo_run evs).2 = em ++ [Next Error r; Complete]).
  { eexists [_; _], _. vm_compute. reflexivity. }
  destruct He as (em & r & He).
  refine (sharded_query_gives_up demo_query (demo_run evs).1.1 (demo_run evs).1.2 (demo_run evs).2 em r _ _ _ He).
  - easy.
  - apply demo_behaves. vm_compute. easy.
  - split; vm_compute; reflexivity.
Defined.

Lemma demo_reply_good g : has_error (demo_reply g) = false /\ Forall (good (str "Time") (str "Value")) (data (demo_reply g)).
Proof.
  split; [reflexivity|]. apply list.Forall_singleton.
  assert (Hs : series (str "Time") (str "Value") (demo_frame g) (demo_points g)).
  { split; [now eexists _, _|]. unfold sorted, demo_points.
    destruct (Z.ltb_spec 0 (foldr Z.max 0%Z g)); repeat constructor. easy. }
  split; [|easy]. now rewrite (series_points _ _ _ _ Hs).
Qed.

Lemma demo_answered : answered_by demo_query demo_reply (demo_run demo_events).1.1.
Proof.
  intros d g r Hin.
  assert (Hall : Forall (fun x => match x.2 with Answered r => r = demo_reply (shard_group (shards demo_query) x.1.1 x.1.2) | _ => True end)
            (demo_run demo_events).1.1) by (vm_compute; repeat constructor).
  rewrite list.Forall_forall in Hall. exact (Hall _ Hin).
Qed.

Lemma demo_failures d : failures d (demo_run demo_events).1.1 < 5.
Proof. destruct d as [|[|[|d]]]; vm_compute; lia. Qed.

(** The run with the time-out and the failure, and the one without. *)
Lemma sharded_query_sums_witness :
  delivers demo_query demo_reply (demo_run demo_events).2 [[2]; [1]; [-1]]%Z /\
  (exists st, converse demo_query demo_reply 3 (begin_ demo_query) = Some st /\
     delivers demo_query demo_reply st (r_group <$> requests st)).
Proof.
  destruct (sharded_query_sums demo_query (str "Time") (str "Value") demo_reply
           ltac:(refine (bool_decide_unpack _ _); vm_compute; exact Logic.I) ltac:(easy) demo_reply_good) as [Hany Hall].
  split; [|exact Hall].
  refine (Hany (demo_run demo_events).1.1 (demo_run demo_events).1.2 (demo_run demo_events).2 _ _ demo_failures _ demo_answered).
  - apply demo_behaves. vm_compute. easy.
  - split; vm_compute; reflexivity.
  - apply no_refusal_forallb. vm_compute. reflexivity.
Defined.

Lemma sharded_requests_bounded_witness :
  length (requests (default (begin_ demo_query) (run demo_query (begin_ demo_query) [OnError; OnTimer 0; OnNext demo_timeout])))
    <= 3 * 4 * 25.
Proof.
  apply (sharded_requests_bounded demo_query [OnError; OnTimer 0; OnNext demo_timeout]); [easy|]. vm_compute. reflexivity.
Defined.
