(* ===== verification/ClientTheorems.v ===== *)
(** * Properties of the client

    What [SimpleClient] makes of the responses that [Protocol] gives to its requests,
    depending on how they arrive. *)

From S2P Require Import Prelude.
From S2P Require Import Memory.
From S2P Require Import Java.
From S2P Require Import CarrotCache.
From S2P Require Import Reference.
From S2P Require Import Utils.
From S2P Require Import Command.
From S2P Require Import Client.
From S2P Require Import ClientReply.
From S2P Require Import World.
From S2P Require Import Execute.
From S2P Require Import Protocol.
From S2P Require Import ClientCorrect.
From S2P Require Import CommandProcessor.
From S2P Require Import WorkThread.
From S2P Require Import ParseCorrect.
From S2P Require Import ServeErrors.
From S2P Require Import UtilsCorrect.

Ltac run := refine (bool_decide_unpack _ _); vm_compute; exact I.

(** The bytes of a response arrive, in reads of any size and after any number of
    reads that find nothing. *)
Definition arrives (stream : bytes) (arrivals : list nat) : Prop :=
  Exists (fun q => (length stream <= q)%nat) (positions 0 arrivals).
(** All in one read. *)
Definition at_once (stream : bytes) (arrivals : list nat) : Prop :=
  arrives stream arrivals /\ Forall (fun q => q = 0 \/ length stream <= q)%nat (positions 0 arrivals).
(** In reads none of which ends at a prefix that looks like a retrieval response. *)
Definition arrives_safely (stream : bytes) (arrivals : list nat) : Prop :=
  arrives stream arrivals /\
  Forall (fun q => (length stream <= q)%nat \/ goes_on stream q) (positions 0 arrivals).

#[local] Instance goes_on_dec stream q : Decision (goes_on stream q).
Proof. unfold goes_on. apply _. Defined.
#[local] Instance arrives_dec stream a : Decision (arrives stream a).
Proof. unfold arrives. apply _. Defined.
#[local] Instance at_once_dec stream a : Decision (at_once stream a).
Proof. unfold at_once. apply _. Defined.
#[local] Instance arrives_safely_dec stream a : Decision (arrives_safely stream a).
Proof. unfold arrives_safely. apply _. Defined.

(** A response of a few bytes. *)
Ltac fits := match goal with |- zlen _ <= CAPACITY => apply (bool_decide_unpack _); reflexivity end.

Lemma receive_at_once {A} (respond : Buf -> Verdict A) stream v arrivals :
  zlen stream <= CAPACITY -> at_once stream arrivals -> respond clear = Again clear ->
  respond {| got := stream; limit := CAPACITY |} = v -> (forall b, v <> Again b) ->
  receive respond arrivals stream clear = v.
Proof.
  intros Hc [Ha Hf] H0 Hv Hne. apply receive_clear; try done.
  - intros q Hq Hlt. rewrite list.Forall_forall in Hf. destruct (Hf q Hq) as [->|]; [|lia]. exact H0.
  - by rewrite filled_length.
  - unfold arrives in Ha. rewrite list.Exists_exists in Ha. done.
Qed.

(** The codes of the store's results. *)
Definition storage_code (v : StorageVerb) (o : OpResult) : ResponseCode :=
  match v, o with
  | Command.CAS, EXISTS => R_EXISTS
  | Command.CAS, NOT_FOUND => R_NOT_FOUND
  | _, NOT_STORED => R_NOT_STORED
  | _, _ => R_STORED
  end.

Section Client.
Context {S item : Type}.
Context `{CarrotUtilsLaws} `{Memcached S item}.
Variable render : item -> bytes -> bool -> bytes.
Variable limit : Z.

(** The items that a retrieval finds, as the client shows them. *)
Fixpoint found (shown : item -> bytes -> bool -> GetResult) (fetch : S -> bytes -> option item * S)
    (withCAS : bool) (keys : list bytes) (s : S) : list GetResult :=
  match keys with
  | [] => []
  | k :: keys =>
      let '(r, s) := fetch s k in
      match r with
      | None => found shown fetch withCAS keys s
      | Some i => shown i k withCAS :: found shown fetch withCAS keys s
      end
  end.

Lemma gather_found shown fetch withCAS keys s :
  (forall i k, k ∈ keys -> render i k withCAS = print_result (shown i k withCAS)) ->
  r_exn (gather render limit fetch withCAS keys s) = None ->
  r_bytes (gather render limit fetch withCAS keys s) = print_results (found shown fetch withCAS keys s).
Proof.
  revert s. induction keys as [|k keys IH]; intros s Hr; [done|]. cbn [gather found].
  destruct (fetch s k) as [[i|] s'].
  - destruct (limit <? zlen (render i k withCAS) + 5); [done|]. cbn [r_exn r_bytes].
    intros He. rewrite print_results_cons, IH, Hr; [done|by left| |done].
    intros j k' Hk. apply Hr. by right.
  - intros He. apply IH; [|done]. intros j k' Hk. apply Hr. by right.
Qed.

(** C38.  The client reads back what the server found.  If carrot-cache writes an item
    in the protocol's format, the response to a retrieval - with every item it found,
    in the order of the keys - is read by [getRetrievalResponse] as those items, in
    whatever reads it arrives, unless one of them ends after five bytes or where the
    bytes of a value look like the end of the response. *)
Theorem client_reads_items shown v e keys s arrivals :
  (forall i k c, key_ok k -> render i k c = print_result (shown i k c)) ->
  Forall key_ok keys ->
  let r := respond render limit (RGet v e keys) s in
  let items := found shown (fetch_op v e) (r_isCAS (new_RetrievalCommand v)) keys s in
  Forall result_ok items -> r_exn r = None -> zlen (r_bytes r) <= CAPACITY ->
  arrives_safely (r_bytes r) arrivals ->
  receive getRetrievalResponse arrivals (r_bytes r) clear = Answer items.
Proof.
  intros Hr Hk r items Hok Hex Hcap [Ha Hf].
  assert (Hb : r_bytes r = print_results items).
  { apply gather_found; [|done]. intros i k Hin. apply Hr.
    rewrite list.Forall_forall in Hk. by apply Hk. }
  apply receive_clear; try done.
  - intros q Hq Hlt. rewrite list.Forall_forall in Hf.
    destruct (Hf q Hq) as [Hq'|Hgo]; [lia|]. by apply retrieval_prefix.
  - rewrite filled_length, Hb. by apply retrieval_whole.
  - unfold arrives in Ha. by rewrite list.Exists_exists in Ha.
Qed.

(** The other responses, when they arrive at once, are read as the result of the
    operation on the store. *)
Theorem replies_understood s arrivals key :
  (forall v val f e c, let r := RStore v key val f e false c in
     let stream := r_bytes (respond render limit r s) in
     at_once stream arrivals ->
     receive getStorageResponse arrivals stream clear
     = Answer (storage_code v (store_op v s key val (to_int f) e c).1)) /\
  (forall e, let stream := r_bytes (respond render limit (RTouch key e false) s) in
     at_once stream arrivals ->
     receive getTouchResponse arrivals stream clear
     = Answer (if (mc_touch s key e).1 <? 0 then R_NOT_FOUND else R_TOUCHED)) /\
  (let stream := r_bytes (respond render limit (RDelete key false) s) in
     at_once stream arrivals ->
     receive getDeleteResponse arrivals stream clear
     = Answer (if decide ((mc_delete s key).1 = DELETED) then R_DELETED else R_NOT_FOUND)).
Proof.
  split_and!.
  - intros v val f e c r stream Ha. subst r stream. cbn [respond] in *.
    destruct (store_op v s key val (to_int f) e c) as [o s']. cbn [r_bytes unless fst] in *.
    destruct v, o; by apply receive_at_once; try fits.
  - intros e stream Ha. subst stream. cbn [respond] in *.
    destruct (mc_touch s key e) as [t s']. cbn [r_bytes unless fst] in *.
    destruct (t <? 0); by apply receive_at_once; try fits.
  - intros stream Ha. subst stream. cbn [respond] in *.
    destruct (mc_delete s key) as [o s']. cbn [r_bytes unless fst] in *.
    destruct (decide (o = DELETED)); by apply receive_at_once; try fits.
Qed.

(** The response of a counter is read right however it arrives: the new value, or
    that there is no such key. *)
Theorem counter_replies_any_arrival :
  (forall v arrivals, in_long v -> arrives (Long_toString v ++ CRLF) arrivals ->
     receive getIncrDecrResponse arrivals (Long_toString v ++ CRLF) clear = Answer (Number v)) /\
  (forall arrivals, arrives c_NOT_FOUND arrivals ->
     receive getIncrDecrResponse arrivals c_NOT_FOUND clear = Answer (Code R_NOT_FOUND)).
Proof.
  split.
  - intros v arrivals Hv Ha. apply receive_clear; try done.
    + rewrite zlen_app, zlen_CRLF. pose proof (Long_toString_short v). unfold CAPACITY. lia.
    + intros q _ Hq. apply counter_prefix; [apply number_no_LF|done].
    + rewrite filled_length. by apply counter_whole.
    + unfold arrives in Ha. by rewrite list.Exists_exists in Ha.
  - intros arrivals Ha. apply receive_clear; [fits| |by rewrite filled_length|done|].
    + intros q _ Hq. apply (counter_prefix (str "NOT_FOUND")); [|done].
      apply (bool_decide_unpack _). reflexivity.
    + unfold arrives in Ha. by rewrite list.Exists_exists in Ha.
Qed.

(** The other methods take a part of a response for a response: a retrieval
    response whose first five bytes come alone leaves the client reading for ever, nine
    bytes of [NOT_FOUND] pass for [DELETED] and [TOUCHED], and a part of [STORED] is an
    exception. *)
Theorem partial_replies_misread stream ns :
  (5 <= length stream)%nat -> take 5 stream <> END ->
  receive getRetrievalResponse (5%nat :: ns) stream clear
    = Again {| got := take 5 stream; ClientReply.limit := 5 |} /\
  receive getDeleteResponse (9%nat :: ns) c_NOT_FOUND clear = Answer R_DELETED /\
  receive getTouchResponse (9%nat :: ns) c_NOT_FOUND clear = Answer R_TOUCHED /\
  (forall k, (0 < k < 8)%nat ->
     receive getStorageResponse (k :: ns) c_STORED clear = Throws (RuntimeException (take k c_STORED))).
Proof.
  intros Hlen Hne. split_and!.
  - rewrite receive_first, filled_5 by (done || (unfold CAPACITY; lia)). by apply stuck.
  - by rewrite receive_first by (unfold CAPACITY; lia).
  - by rewrite receive_first by (unfold CAPACITY; lia).
  - intros k Hk. rewrite receive_first by (unfold CAPACITY; lia).
    do 8 (destruct k as [|k]; [try lia; reflexivity|]). lia.
Qed.

End Client.

(** ** [save] behind another call *)

Section Save.
Context {mem S item : Type}.
Context `{UnsafeAccessLaws mem} `{CarrotUtilsLaws} `{Memcached S item} `{RecordWriter mem item}.

(** [save] and [bgsave] send what the client last received in front of the command.
    After any call that was answered by one line, the server takes that line for the
    command, which it does not know: nothing is saved, the connection is closed with
    [ERROR] - and these seven bytes are as many as [SAVED] has, so [save] reports success
    ([bgsave] throws). *)
Theorem save_reports_saved version in_ptr out_ptr bufferSize t r sent es (w : World mem S) arrivals :
  0 <= in_ptr -> 128 <= bufferSize -> token t -> Forall (fun name => t <> str name) command_names ->
  client_save {| got := t ++ CR :: r; ClientReply.limit := CAPACITY |} = Ok sent ->
  zlen sent <= bufferSize -> w_input w = Data sent :: es -> at_once ERROR arrivals ->
  (exists w', serve version in_ptr out_ptr bufferSize w = (Ok Closed, w') /\
    w_sent w' = w_sent w ++ ERROR /\ w_store w' = w_store w) /\
  receive getSaveResponse arrivals ERROR clear = Answer R_SAVED /\
  receive getBgsaveResponse arrivals ERROR clear = Throws (RuntimeException (str "something wrong")).
Proof.
  intros Hin Hb Ht Hu Hs Hl Hw Ha. unfold client_save, put_command in Hs. cbn [got ClientReply.limit] in Hs.
  destruct (_ <? _); [done|]. injection Hs as <-. rewrite <- app_assoc in *. cbn [app] in *. split_and!.
  - eapply (serve_unknown version in_ptr out_ptr bufferSize); try eassumption; [by right|].
    split; [|done]. clear. zlia.
  - by apply receive_at_once; [fits|done|reflexivity|reflexivity|].
  - by apply receive_at_once; [fits|done|reflexivity|reflexivity|].
Qed.
End Save.

(** ** Concrete runs *)

Definition ref_shown (i : Item) (k : bytes) (withCAS : bool) : GetResult :=
  {| g_key := k; g_value := i_data i; g_flags := i_flags i;
     g_cas := if withCAS then Some (i_cas i) else None |}.

(** The writer of [Reference] keeps the format. *)
Lemma ref_render_format i k withCAS : ref_render i k withCAS = print_result (ref_shown i k withCAS).
Proof.
  unfold ref_render, print_result, value_words, ref_shown.
  destruct withCAS; cbn [g_key g_value g_flags g_cas app put_keys]; unfold SPACE;
    change (str "VALUE ") with (str "VALUE" ++ [SP]); by rewrite <- !app_assoc.
Qed.

Definition two_items : Store :=
  (mc_set (mc_set empty_store (str "k1") (str "41") 5 0).2 (str "k2") (str "END") 0 0).2.

#[local] Instance result_ok_dec r : Decision (result_ok r).
Proof. unfold result_ok, in_int, in_long. destruct (g_cas r); apply _. Defined.

Lemma client_reads_items_witness :
  receive getRetrievalResponse [0; 7; 20; 40]%nat
    (r_bytes (respond ref_render 100 (RGet GETS 0 [str "k1"; str "none"; str "k2"]) two_items)) clear
  = Answer [{| g_key := str "k1"; g_value := str "41"; g_flags := 5; g_cas := Some 1 |};
            {| g_key := str "k2"; g_value := str "END"; g_flags := 0; g_cas := Some 2 |}].
Proof.
  refine (client_reads_items ref_render 100 ref_shown GETS 0 [str "k1"; str "none"; str "k2"] two_items
            [0; 7; 20; 40]%nat _ _ _ _ _ _).
  - intros. apply ref_render_format.
  - run.
  - run.
  - vm_compute. reflexivity.
  - run.
  - run.
Defined.

Lemma replies_understood_witness :
  receive getStorageResponse [0; 20]%nat
    (r_bytes (respond (item := Item) ref_render 100 (RStore REPLACE (str "k9") (str "v") 0 0 false 0) two_items))
    clear = Answer R_NOT_STORED.
Proof.
  refine (eq_trans (proj1 (replies_understood (item := Item) ref_render 100 two_items [0; 20]%nat (str "k9"))
                      REPLACE (str "v") 0 0 0 _) _); [run|vm_compute; reflexivity].
Defined.

Lemma counter_replies_any_arrival_witness :
  receive getIncrDecrResponse [1; 0; 1; 2]%nat (Long_toString 42 ++ CRLF) clear = Answer (Number 42).
Proof. apply (proj1 counter_replies_any_arrival 42); [unfold in_long; lia|run]. Defined.

Lemma partial_replies_misread_witness :
  receive getRetrievalResponse [5; 100; 100]%nat (str "VALUE k 0 1" ++ CRLF ++ str "x" ++ CRLF ++ END) clear
  = Again {| got := str "VALUE"; limit := 5 |}.
Proof.
  apply (partial_replies_misread (str "VALUE k 0 1" ++ CRLF ++ str "x" ++ CRLF ++ END) [100; 100]%nat);
    [cbn; lia|discriminate].
Defined.

Lemma save_reports_saved_witness :
  let w := {| w_mem := fun _ => NUL : ascii; w_store := empty_store;
              w_input := [Data (str "STORED" ++ CRLF ++ str "save" ++ CRLF)]; w_sent := []; w_last := None |} in
  (exists w', serve None 1000 2000 128 w = (Ok Closed, w') /\ w_sent w' = str "ERROR" ++ CRLF) /\
  receive getSaveResponse [7%nat] (str "ERROR" ++ CRLF) clear = Answer R_SAVED.
Proof.
  intros w.
  destruct (save_reports_saved None 1000 2000 128 (str "STORED") [LF]
    (str "STORED" ++ CRLF ++ str "save" ++ CRLF) [] w [7%nat]) as ((w' & E & Hs & _) & Hr & _).
  - lia.
  - lia.
  - split; run.
  - run.
  - reflexivity.
  - run.
  - reflexivity.
  - run.
  - split; [|exact Hr]. exists w'. by split.
Defined.
