(* ===== verification/DispatchTheorems.v ===== *)
(** * The dispatch of selection keys: the theorems

    A key has at most one worker; [submit] hands a key over and the worker serves it; a
    worker that died keeps one more key for ever. *)

From stdpp Require Import gmap.
From S2P Require Import Prelude.
From S2P Require Import WorkThread.
From S2P Require Import Dispatch.
From S2P Require Import DispatchCorrect.
#[local] Open Scope nat_scope.

(** ** Runs used as examples *)

(** The selector's steps of handing over a key when the first free worker is [i]. *)
Definition hand_over (k : key) (i : nat) : list Label :=
  [Read k; IsInUse; IsShutdown] ++ repeat IsBusy (S i) ++ [Attach; MarkBusy; CompareAndSet].
(** A worker's steps through one request. *)
Definition one_request (i : nat) (o : Outcome) : list Label :=
  [Poll i; Finish i o; Release i; ClearNext i; Free i].
Definition after (n : nat) (ls : list Label) : Pool := default (create n) (run ls (create n)).

(** ** The theorems *)

(** C7.  However the selector and the workers interleave, a connection is served by at
    most one worker at a time: while worker [i] runs a request of [k], or has it in its
    slot, no other worker does and the key is marked in use, so that [read] leaves it
    alone.  And when the selector is about to fill a slot, the slot is empty: the
    [compareAndSet] in [nextKey] succeeds at once. *)
Theorem dispatch_exclusive (n : nat) (p : Pool) :
  reachable n p ->
  (forall i j wi wj k, workers p !! i = Some wi -> workers p !! j = Some wj ->
     held wi = Some k -> held wj = Some k -> i = j) /\
  (forall i w k, workers p !! i = Some w -> held w = Some k -> inUse p !! k = Some true) /\
  (forall k i, selector p = Swapping k i ->
     exists p', exec CompareAndSet p = Some p' /\ handed k i p' /\ selector p' = Selecting).
Proof.
  intros Hok%reachable_ok. split; [eapply ok_unique; eauto|]. split; [eapply ok_in_use; eauto|].
  intros k i Es. pose proof (ok_selector _ Hok) as Hs. unfold selector_ok in Hs. rewrite Es in Hs.
  destruct Hs as (_ & _ & w & Hi & Hpc & Hn & _).
  simpl. unfold compareAndSet. rewrite Es, Hi, Hn. eexists. split; [done|]. split; [|done].
  eexists. split; [by eapply lookup_set_worker_eq|]. done.
Qed.

(** C25.  [submit] returns: if worker [j] is free when the selector starts looking, then
    in every run in which the selector takes [j + 4] steps, whatever the workers do in
    between, the key has been put in the slot of some worker [i <= j] and the selector is
    back in [select]. *)
Theorem submit_hands_over (n : nat) (p p' : Pool) (k : key) (j : nat) (ls : list Label) :
  reachable n p -> selector p = Scanning k 0 -> idle p j ->
  run ls p = Some p' -> j + 4 <= length (List.filter by_selector ls) ->
  exists ls1 ls2 i q, ls = ls1 ++ ls2 /\ run ls1 p = Some q /\
    i <= j /\ handed k i q /\ selector q = Selecting.
Proof.
  intros Hok%reachable_ok Hs Hidle Hrun Hlen.
  apply (pending_handed ls p p' k j (j - 0 + 4)); [done| |done|lia].
  apply (pending_scan k j p 0); [done|lia|done].
Qed.

(** C26.  What was put in the slot of a worker that waits for work is served: as long as
    the server is not shut down, whatever the selector and the other workers do, the
    worker takes the key within two steps of its own (the first may be the end of a look
    at the slot when it was still empty) and then serves it. *)
Theorem handed_key_served (n : nat) (p p' : Pool) (i : nat) (w : Worker) (k : key) (ls : list Label) :
  reachable n p -> workers p !! i = Some w -> pc w = Polling \/ pc w = Idling ->
  nextKey w = Some k -> run ls p = Some p' -> shutdown p' = false ->
  2 <= length (List.filter (by_worker i) ls) ->
  exists ls1 ls2 q, ls = ls1 ++ Poll i :: ls2 /\ run (ls1 ++ [Poll i]) p = Some q /\
    exists w', workers q !! i = Some w' /\ pc w' = Serving k.
Proof.
  intros Hreach Hi Hpc Hn Hrun Hsd Hlen.
  eapply (handed_served ls p p' i w k); eauto using reachable_ok, reachable_calm.
  unfold steps_to_poll. destruct (pc w); lia.
Qed.

(** C27.  A worker that dies of an exception nothing catches leaves its slot empty and
    its busy flag cleared, like a free worker.  The next key put in its slot stays there:
    in every later state the key is marked in use and no other worker has it.  When all
    workers have died and hold such a key, [submit] never returns: the selector looks for
    a free worker for ever. *)
Theorem dead_worker_swallows_keys (n : nat) (p : Pool) :
  reachable n p ->
  (forall i w, workers p !! i = Some w -> pc w = Freeing true ->
     exists p', exec (Free i) p = Some p' /\
       workers p' !! i = Some {| pc := Gone; nextKey := None; busy := false; interrupted := interrupted w |}) /\
  (forall i w k ls p', workers p !! i = Some w -> pc w = Gone -> nextKey w = Some k ->
     run ls p = Some p' ->
     inUse p' !! k = Some true /\
     forall j wj, workers p' !! j = Some wj -> held wj = Some k -> j = i /\ pc wj = Gone) /\
  (forall k i ls p', all_gone p -> selector p = Scanning k i -> run ls p = Some p' ->
     exists i', selector p' = Scanning k i').
Proof.
  intros Hreach. pose proof (reachable_ok _ _ Hreach) as Hok. split; [|split].
  - intros i w Hi Hpc. simpl. unfold free. rewrite Hi, Hpc. eexists. split; [done|].
    pose proof (ok_workers _ Hok _ _ Hi) as Hw. unfold worker_ok in Hw. rewrite Hpc in Hw.
    destruct Hw as [_ ->]. by eapply lookup_set_worker_eq.
  - intros i w k ls p' Hi Hpc Hn Hrun.
    pose proof (run_ok _ _ _ Hok Hrun) as Hok'.
    destruct (gone_forever _ _ _ _ _ Hok Hi Hpc Hrun) as (w' & Hi' & Hpc' & _ & Hn').
    assert (Hheld : held w' = Some k) by (unfold held; rewrite Hpc'; auto).
    split; [by eapply ok_in_use|]. intros j wj Hj Hk.
    assert (j = i) as -> by (eapply ok_unique; eauto). split; [done|]. congruence.
  - intros k i ls p'. by apply all_gone_forever.
Qed.

(** ** Witnesses *)

Lemma after_reachable (n : nat) (ls : list Label) : is_Some (run ls (create n)) -> reachable n (after n ls).
Proof. intros [p Hp]. exists ls. unfold after. by rewrite Hp. Qed.

Lemma dispatch_exclusive_witness :
  exists p, selector p = Swapping 7 1 /\
    (exists w, workers p !! 0 = Some w /\ held w = Some 5) /\
    exists p', exec CompareAndSet p = Some p' /\ handed 7 1 p' /\ selector p' = Selecting.
Proof.
  set (ls := hand_over 5 0 ++ [Poll 0; Read 7; IsInUse; IsShutdown; IsBusy; IsBusy; Attach; MarkBusy]).
  exists (after 2 ls). split; [vm_compute; reflexivity|].
  split; [eexists; split; vm_compute; reflexivity|].
  apply (dispatch_exclusive 2 (after 2 ls)).
  - apply after_reachable. vm_compute. eauto.
  - vm_compute. reflexivity.
Defined.

Lemma submit_hands_over_witness :
  exists ls1 ls2 i q,
    [IsBusy; Poll 0; IsBusy; Finish 0 Released; Attach; MarkBusy; Poll 1; CompareAndSet] = ls1 ++ ls2 /\
    run ls1 (after 2 (hand_over 5 0 ++ [Read 7; IsInUse; IsShutdown])) = Some q /\
    i <= 1 /\ handed 7 i q /\ selector q = Selecting.
Proof.
  set (p := after 2 (hand_over 5 0 ++ [Read 7; IsInUse; IsShutdown])).
  set (ls := [IsBusy; Poll 0; IsBusy; Finish 0 Released; Attach; MarkBusy; Poll 1; CompareAndSet]).
  apply (submit_hands_over 2 p (default p (run ls p)) 7 1 ls).
  - apply after_reachable. vm_compute. eauto.
  - vm_compute. reflexivity.
  - exists new_worker. split; vm_compute; reflexivity.
  - vm_compute. reflexivity.
  - vm_compute. lia.
Defined.

Lemma handed_key_served_witness :
  exists ls1 ls2 q, [Read 5; IsInUse; IsInterrupted 0; Poll 1; Poll 0] = ls1 ++ Poll 0 :: ls2 /\
    run (ls1 ++ [Poll 0]) (after 2 (Poll 0 :: hand_over 5 0)) = Some q /\
    exists w', workers q !! 0 = Some w' /\ pc w' = Serving 5.
Proof.
  set (p := after 2 (Poll 0 :: hand_over 5 0)).
  set (ls := [Read 5; IsInUse; IsInterrupted 0; Poll 1; Poll 0]).
  apply (handed_key_served 2 p (default p (run ls p)) 0
           {| pc := Idling; nextKey := Some 5; busy := true; interrupted := false |} 5 ls).
  - apply after_reachable. vm_compute. eauto.
  - vm_compute. reflexivity.
  - by right.
  - reflexivity.
  - vm_compute. reflexivity.
  - vm_compute. reflexivity.
  - vm_compute. lia.
Defined.

(** One worker: the request of key 5 kills it, key 6 stays in its slot, key 7 keeps the
    selector. *)
Lemma dead_worker_swallows_keys_witness :
  exists p, selector p = Scanning 7 0 /\ inUse p !! 6 = Some true /\
    forall ls p', run ls p = Some p' -> exists i', selector p' = Scanning 7 i'.
Proof.
  set (ls := hand_over 5 0 ++ one_request 0 (Died ArrayIndexOutOfBoundsException) ++ hand_over 6 0 ++
             [Read 7; IsInUse; IsShutdown]).
  exists (after 1 ls). split; [vm_compute; reflexivity|].
  split; [vm_compute; reflexivity|].
  intros ls' p'. apply (dead_worker_swallows_keys 1 (after 1 ls)) with (i := 0).
  - apply after_reachable. vm_compute. eauto.
  - intros [|j] w; vm_compute; intros [= <-]; split; reflexivity.
  - vm_compute. reflexivity.
Defined.
