(* ===== verification/BuilderTheorems.v ===== *)
(** * The query builder: properties

    What the state machine never does, what its selections and its query do, and what its
    comparison of filters decides; each with a concrete run. *)

From S2P Require Import Prelude JavaScript Regex.
From S2P Require Import LogQL.
From S2P Require Import Filters.
From S2P Require Import QueryBuilder QueryMachine QueryMachineCorrect QuerySafety QueryText.

(** ** Safety *)

(** C12: Whatever the page does with the builder from its start, an event throws exactly if
    it selects an operator for a filter under edition while another filter still has none;
    every other event the page offers is handled. *)
Theorem builder_never_throws (Ak : nat -> bytes) (e : Params) (p : QState * Context) (ev : QEvent) :
  Inj (=) (=) Ak -> reachable Ak e p -> offered p.2 ev ->
  if edits_while_awaiting p ev then send Ak p ev = type_error else exists p', send Ak p ev = Ok p'.
Proof.
  intros Hinj Hr Hoff. pose proof (send_offered Ak Hinj p ev (reachable_sound Ak Hinj e p Hr) Hoff) as Hk.
  destruct (edits_while_awaiting p ev); [exact Hk|]. destruct Hk as (p' & Hp & _). now exists p'.
Qed.

(** C19: In every state the builder reaches ids are distinct, all filters but at most the
    last are complete, an edition names one of them, and where values are to be loaded the
    label and query to load them for are there. *)
Theorem builder_invariant (Ak : nat -> bytes) (e : Params) (s : QState) (c : Context) :
  Inj (=) (=) Ak -> reachable Ak e (s, c) ->
  NoDup (q_id <$> filters c) /\
  (exists a b, filters c = a ++ b /\ Forall complete a /\ Forall pending b /\ (length b <= 1)%nat) /\
  (forall ed, edition c = Some ed -> exists f, f ∈ filters c /\ q_id f = filterId ed) /\
  (s = idle -> edition c = None) /\
  (s = loadLabelValues -> exists r, fetchLabelValues c = Ok r).
Proof.
  intros Hinj Hr. pose proof (reachable_sound Ak Hinj e _ Hr) as Hs. pose proof Hs as (Hrd & Hi & He & Hp).
  cbn in Hrd, Hi, He, Hp. split_and!; [apply Hi| | |exact He|intros ->; now apply (fetch_ok Ak)].
  - destruct (shape_cases _ (ready_shape s c Hrd Hp)) as (a & b & Hf & Ha & Hb). exists a, b.
    split_and!; [exact Hf|exact Ha|..]; destruct Hb as [->|(p & -> & Hpe)].
    + constructor.
    + now apply list.Forall_singleton.
    + cbn; lia.
    + cbn; lia.
  - intros ed Hed. unfold ready in Hrd. rewrite Hed in Hrd.
    destruct s; try easy; [specialize (He eq_refl); congruence|..];
      destruct Hrd as [_ (f & Hf & Hid & _)]; now exists f.
Qed.

(** ** Comparing filters *)

(** What [H] compares of a filter. *)
Definition signature (f : QFilter) : FilterType * bytes * option bytes * option bytes :=
  (q_type f, c_value (q_attribute f), c_value <$> q_operator f, c_value <$> q_value f).

Lemma same_filter_signature e f : same_filter e f = true <-> signature f = signature e.
Proof.
  unfold same_filter, signature. rewrite bool_decide_eq_true. split; [intros (-> & -> & -> & ->); easy|].
  now intros [= -> -> -> ->].
Qed.

(** C39: If no two complete filters of the first list are the same to the server, [H] decides
    whether the two lists have the same filters in some order. *)
Theorem same_filters_permutation (a b : list QFilter) :
  NoDup (signature <$> completed a) ->
  H_same a b = true <-> signature <$> completed a ≡ₚ signature <$> completed b.
Proof.
  intros Hd. unfold H_same. rewrite andb_true_iff, bool_decide_eq_true, forallb_forall. split.
  - intros [Hl Hin]. apply submseteq_length_Permutation; [|now rewrite !length_fmap, Hl].
    apply NoDup_submseteq; [easy|]. intros x (f & -> & Hf)%list_elem_of_fmap.
    apply list_elem_of_In, Hin, existsb_exists in Hf as (g & Hg & Hs).
    apply same_filter_signature in Hs as <-. now apply list_elem_of_fmap_2, list_elem_of_In.
  - intros Hp. split; [now rewrite <- (length_fmap signature (completed a)), Hp, length_fmap|].
    intros f Hf. apply existsb_exists.
    assert (signature f ∈ signature <$> completed b) as (g & Hg & Hgb)%list_elem_of_fmap.
    { rewrite <- Hp. now apply list_elem_of_fmap_2, list_elem_of_In. }
    exists g. split; [now apply list_elem_of_In|now apply same_filter_signature].
Qed.

(** ** The query *)

(** What a filter has to be to come back from the query as itself: no empty value with [=]
    (that comes back as is-empty), none of the characters of a regular expression in a list of
    values, and one of them at least with [=~] and [!~]. *)
Definition normal (f : QFilter) : Prop :=
  let o := default [] (c_value <$> q_operator f) in
  let v := default [] (c_value <$> q_value f) in
  if decide (o = IS_EMPTY) then q_type f = attribute_operator /\ v = IS_EMPTY
  else q_type f = attribute_operator_value /\ (o = EQ -> v <> []) /\
       (o = IN \/ o = NOT_IN -> ie v = false) /\ (o = RE \/ o = NRE -> ie v = true).

Lemma enter_idle_ok c : exists c', entry idle c = Ok c' /\
  filters c' = filters c /\ query c' = query c /\ isQueryUpToDate c' = isQueryUpToDate c.
Proof. cbn [entry]. unfold enter_idle. case_match. eexists. split; [reflexivity|easy]. Qed.

(** A filter read back is written in the same way. *)
Lemma read_matcher i m : plain_matcher m -> matcher_of (read_filter i m) = m.
Proof.
  destruct m as [[a o] v]. intros (_ & _ & _ & Ho & _). cbn [fst snd] in Ho. unfold read_filter, matcher_of.
  assert (Hn : o <> IS_EMPTY /\ o <> IN /\ o <> NOT_IN).
  { repeat (apply elem_of_cons in Ho as [->|Ho]); [..|by apply not_elem_of_nil in Ho]; by split_and!. }
  destruct Hn as (Hn1 & Hn2 & Hn3).
  destruct (decide (o = EQ /\ v = [])) as [[-> ->]|_]; [reflexivity|].
  destruct (decide ((o = RE \/ o = NRE) /\ ie v = false)) as [[[->| ->] _]|_]; [reflexivity..|].
  cbn. by rewrite !decide_False.
Qed.

(** It is the same filter just when it was normal. *)
Lemma normal_read f i :
  complete f -> plain_matcher (matcher_of f) -> same_filter f (read_filter i (matcher_of f)) = true <-> normal f.
Proof.
  intros (_ & [o Ho] & [v Hv]) (_ & _ & _ & Hop & _).
  rewrite same_filter_signature. unfold signature, matcher_of, normal in *.
  rewrite Ho, Hv in *. destruct o as [o lo], v as [v lv].
  change (default [] (c_value <$> Some {| c_value := o; c_label := lo |})) with o in *.
  change (default [] (c_value <$> Some {| c_value := v; c_label := lv |})) with v in *.
  change (c_value <$> Some {| c_value := o; c_label := lo |}) with (Some o) in *.
  change (c_value <$> Some {| c_value := v; c_label := lv |}) with (Some v) in *.
  destruct (decide (o = IS_EMPTY)) as [->|Hne].
  { cbn. split; [now intros [= <- <-]|now intros [-> ->]]. }
  unfold read_filter. destruct (decide (o = IN)) as [->|Hni].
  { rewrite decide_False by now intros [? _]. destruct (ie v) eqn:Hie.
    - rewrite decide_False by now intros [_ ?]. cbn. split; [easy|]. intros (_ & _ & Hin & _). now specialize (Hin (or_introl eq_refl)).
    - rewrite decide_True by auto. cbn. split; [intros [= <-]|now intros [-> _]]. split_and!; try easy. now intros [|]. }
  destruct (decide (o = NOT_IN)) as [->|Hnn].
  { rewrite decide_False by now intros [? _]. destruct (ie v) eqn:Hie.
    - rewrite decide_False by now intros [_ ?]. cbn. split; [easy|]. intros (_ & _ & Hin & _). now specialize (Hin (or_intror eq_refl)).
    - rewrite decide_True by auto. cbn. split; [intros [= <-]|now intros [-> _]]. split_and!; try easy. now intros [|]. }
  destruct (decide (o = EQ /\ v = [])) as [[-> ->]|He].
  { cbn. split; [easy|]. intros (_ & Hv' & _). now destruct (Hv' eq_refl). }
  destruct (decide ((o = RE \/ o = NRE) /\ ie v = false)) as [[Hre Hie]|Hre].
  - split; [|intros (_ & _ & _ & Hr); specialize (Hr Hre); congruence].
    intros Hsig. exfalso. cbn [signature q_type q_attribute q_operator q_value with_op with_val] in Hsig.
    case_decide; injection Hsig; intros; [by apply Hni|by apply Hnn].
  - cbn. split; [intros [= <-]|now intros [-> _]]. split_and!; [easy| |now intros [|]|].
    + intros ->. intros ->. now apply He.
    + intros Ho'. destruct (ie v) eqn:Hie; [easy|]. now destruct Hre.
Qed.

Lemma shape_completed fs : shape fs -> Forall complete (completed fs).
Proof.
  intros Hs. destruct (shape_cases _ Hs) as (a & b & -> & Ha & Hb). unfold completed. rewrite List.filter_app.
  apply Forall_app. split.
  - apply list.Forall_forall. intros f Hf. apply list_elem_of_In, filter_In in Hf as [Hf _].
    rewrite list.Forall_forall in Ha. now apply Ha, list_elem_of_In.
  - destruct Hb as [->|(p & -> & Hp)]; [constructor|]. cbn. unfold isPartial.
    now rewrite bool_decide_eq_true_2 by apply Hp.
Qed.

(** C14: With filters of plain names and values - no quote, brace or dollar sign, and no
    service_name in them - the query that Execute reports, given to the builder as its new
    input, gives a filter for each complete one: active, and written in the same way, so that
    the query is the same, with its profile type and service name; and it is the same filter
    just when the one written was normal.  So a list of values with one of the characters of a
    regular expression comes back as [=~], and [=~] without one as a list. *)
Theorem execute_reads_back (Ak : nat -> bytes) prof svc (c : Context) (from to : Z) (uid : option bytes) :
  good_query prof svc (query c) -> shape (filters c) ->
  Forall (fun f => plain_matcher (matcher_of f)) (completed (filters c)) ->
  exists c1 c2,
    send Ak (idle, c) EXECUTE_QUERY = Ok (idle, c1) /\
    send Ak (idle, c1) (CHANGE_INPUT_PARAMS
      {| p_query := query c1; p_from := from; p_to := to; p_dataSourceUid := uid |}) = Ok (idle, c2) /\
    Forall2 (fun f g => q_active g = true /\ matcher_of g = matcher_of f /\ (same_filter f g = true <-> normal f))
      (completed (filters c)) (filters c2) /\
    query c2 = query c1 /\ isQueryUpToDate c2 = true /\ good_query prof svc (query c2).
Proof.
  intros Hq Hs Hpl.
  pose proof (shape_completed (filters c) Hs) as Hc.
  set (ms := matcher_of <$> completed (filters c)).
  assert (Forall plain_matcher ms) as Hms by now apply Forall_fmap.
  set (q1 := braces prof (inner_text (services svc ++ ms))).
  pose proof (W_text prof svc (query c) (filters c) Hq Hs Hpl) as HW. fold ms q1 in HW.
  assert (exists c1, send Ak (idle, c) EXECUTE_QUERY = Ok (idle, c1) /\ query c1 = q1) as (c1 & H1 & Hq1).
  { assert (activateFilters Ak c = Ok (set_filters (if up_to_date Ak (filters c) c then ue (filters c) true
                 else filters c) q1 (up_to_date Ak (filters c) c) c)) as Ha.
    { unfold activateFilters, fe. now rewrite HW. }
    destruct (enter_idle_ok (set_filters (if up_to_date Ak (filters c) c then ue (filters c) true
                 else filters c) q1 (up_to_date Ak (filters c) c) c)) as (c1 & He & Hf).
    exists c1. split; [|apply Hf]. exact (send_branch Ak idle c EXECUTE_QUERY _ _ _ eq_refl Ha He ltac:(easy)). }
  set (d := {| p_query := query c1; p_from := from; p_to := to; p_dataSourceUid := uid |}).
  destruct (enter_idle_ok (match changeInputParams Ak d c1 with Ok x => x | _ => c1 end)) as (c2 & H2 & Hf2 & Hq2 & Hu2).
  apply (send_branch Ak idle c1 (CHANGE_INPUT_PARAMS d) _ _ _ eq_refl eq_refl) in H2; [|easy].
  cbn [changeInputParams filters query isQueryUpToDate p_query d] in Hf2, Hq2, Hu2.
  exists c1, c2. split_and!; [exact H1|exact H2| |easy|easy|].
  - rewrite Hf2, Hq1. unfold se, q1. rewrite query_matchers_braces; [|apply Hq|now destruct Hq|easy].
    clear -Hc Hpl. unfold ms. generalize (calls c1) as n.
    induction Hc as [|f fs Hf _ IH]; intros n; [constructor|]. inversion Hpl as [|f' fs' Hp Hps]; subst. specialize (IH Hps).
    rewrite fmap_cons, imap_cons. constructor; [|].
    + split_and!; [|by apply read_matcher|by apply normal_read].
      destruct (matcher_of f) as [[a o] v]. unfold read_filter. now repeat case_decide.
    + specialize (IH (S n)). erewrite imap_ext; [exact IH|]. intros i x Hx. cbn. now rewrite Nat.add_succ_r.
  - rewrite Hq2, Hq1. apply good_braces; [apply Hq|now destruct Hq|easy].
Qed.

(** ** Adding a filter *)

(** The context holds these filters, up to which are active, and this query; no filter is
    under edition. *)
Definition holds (fs : list QFilter) (q : bytes) (c : Context) : Prop :=
  same_list fs (filters c) /\ query c = q /\ edition c = None.

Lemma holds_suggestions fs q c s : holds fs q c -> holds fs q (set_suggestions s c).
Proof. easy. Qed.

Lemma holds_last fs p q c : holds (fs ++ [p]) q c -> exists p', J (filters c) = Some p' /\ same_parts p p'.
Proof.
  intros [Hs _]. apply Forall2_app_inv_l in Hs as (a & b & _ & Hb & ->).
  apply Forall2_cons_inv_l in Hb as (p' & b' & Hp & Hb & ->). apply Forall2_nil_inv_l in Hb as ->.
  exists p'. unfold J. now rewrite last_snoc.
Qed.

Lemma holds_partial fs p q c : holds (fs ++ [p]) q c -> hasPartialFilter c = isPartial p.
Proof.
  intros (p' & Hl & Hp)%holds_last. unfold hasPartialFilter, isPartial. rewrite Hl.
  now destruct (same_parts_fields _ _ Hp) as (_ & <- & _).
Qed.

Lemma holds_target fs p q c o :
  holds (fs ++ [p]) q c -> q_operator p = Some o -> exists f, target_operator c = Ok (f, o).
Proof.
  intros Hh Ho. destruct (holds_last _ _ _ _ Hh) as (p' & Hl & Hp). destruct Hh as (_ & _ & He).
  unfold target_operator. rewrite He, Hl. cbn [rbind].
  destruct (same_parts_fields _ _ Hp) as (_ & _ & _ & <- & _). rewrite Ho. now eexists.
Qed.

(** The same map of two lists that differ in which filters are active. *)
Lemma same_list_map (g : QFilter -> QFilter) fs gs :
  (forall f h, same_parts f h -> same_parts (g f) (g h)) -> same_list fs gs -> same_list (g <$> fs) (g <$> gs).
Proof. intros Hg. induction 1; constructor; auto. Qed.

Lemma same_matchers fs gs :
  same_list fs gs -> matcher_of <$> completed fs = matcher_of <$> completed gs.
Proof.
  induction 1 as [|f g fs gs Hfg _ IH]; [easy|]. unfold completed in *. cbn [List.filter].
  destruct (same_parts_fields _ _ Hfg) as (_ & Ht & Ha & Ho & Hv).
  assert (isPartial f = isPartial g) as -> by (unfold isPartial; now rewrite Ht).
  destruct (negb _); [|exact IH]. rewrite !fmap_cons, IH. f_equal. unfold matcher_of. now rewrite Ha, Ho, Hv.
Qed.

(** [fe] on filters that the context could hold. *)
Lemma fe_holds Ak prof svc e fs t :
  good_query prof svc (query t) -> shape fs -> same_list fs e -> edition t = None ->
  Forall (fun f => plain_matcher (matcher_of f)) (completed fs) ->
  exists c, fe Ak e t = Ok c /\ holds fs (braces prof (inner_text (services svc ++ (matcher_of <$> completed fs)))) c /\
    calls c = calls t /\ good_query prof svc (query c).
Proof.
  intros Hq Hs Hsame He Hpl. unfold fe.
  assert (Forall plain_matcher (matcher_of <$> completed fs)) as Hms by now apply Forall_fmap.
  rewrite (W_text prof svc).
  - cbn [rbind]. eexists. split; [reflexivity|]. cbn [query calls set_filters].
    rewrite <- (same_matchers _ _ Hsame).
    split_and!; [|easy|apply good_braces; [apply Hq|now destruct Hq|easy]].
    split_and!; [|easy|easy]. cbn [filters set_filters]. transitivity e; [easy|].
    destruct (up_to_date Ak e t); [apply ue_same|apply same_refl].
  - exact Hq.
  - now apply (stable_shape fs).
  - change (Forall (plain_matcher ∘ matcher_of) (completed e)).
    rewrite <- Forall_fmap, <- (same_matchers _ _ Hsame). easy.
Qed.

Section AddFilter.
Context (Ak : nat -> bytes) (prof : bytes) (svc : option bytes).
Context (lbl op val : Choice) (Hop : c_value op <> IS_EMPTY).

Definition new_filter (i : bytes) (t : FilterType) (o v : option Choice) : QFilter :=
  {| q_id := i; q_type := t; q_active := false; q_attribute := lbl; q_operator := o; q_value := v |}.

(** The label is chosen. *)
Lemma add_label fs c ls :
  no_pending fs -> holds fs (query c) c ->
  exists c', send_all Ak (idle, c) [START_INPUT; Done ls; SELECT_SUGGESTION lbl] = Ok (loadOperators, c') /\
    holds (fs ++ [new_filter (Ak (calls c)) partial None None]) (query c) c'.
Proof.
  intros Hn (Hf & _ & He). cbn [send_all].
  assert (shouldSuggestAttributes c = true) as Hsug.
  { apply (stable_no_pending _ _ Hf) in Hn. unfold shouldSuggestAttributes, J.
    destruct (list.last (filters c)) as [t|] eqn:Hl; [|easy]. apply last_Some_elem_of in Hl.
    unfold no_pending in Hn. rewrite list.Forall_forall in Hn. now rewrite complete_not_partial by auto. }
  erewrite send_branch; [|cbn [on choose go_if guard]; now rewrite Hsug|reflexivity..|easy]. cbn [rbind target go_if].
  erewrite send_branch; [|reflexivity..|easy]. cbn [rbind target go_do].
  erewrite send_branch;
    [|cbn [on choose go_if_do guard]; unfold pure_guard, isEditing; cbn [edition set_suggestions];
      rewrite He; reflexivity|reflexivity..|easy].
  cbn [rbind target go_do]. eexists. split; [reflexivity|].
  split_and!; [|easy|easy]. apply Forall2_app; [easy|]. apply same_refl.
Qed.

(** The operator is chosen: by way of the proxy the values are loaded. *)
Lemma add_operator fs c os i :
  good_query prof svc (query c) -> no_pending fs -> Forall (fun f => plain_matcher (matcher_of f)) fs ->
  holds (fs ++ [new_filter i partial None None]) (query c) c ->
  exists c', send_all Ak (loadOperators, c) [Done os; SELECT_SUGGESTION op] = Ok (loadLabelValues, c') /\
    holds (fs ++ [new_filter i partial (Some op) None]) (query c') c' /\ good_query prof svc (query c').
Proof.
  intros Hq Hn Hpl Hh. cbn [send_all]. erewrite send_branch; [|reflexivity..|easy]. cbn [rbind target go_do].
  set (c1 := set_suggestions _ _).
  assert (holds (fs ++ [new_filter i partial None None]) (query c) c1) as Hh1 by easy.
  set (g := fun f => if negb (isPartial f) then f else if decide (c_value op = IS_EMPTY) then Q f
                     else with_op (Some op) (with_val None f)).
  assert (same_list (fs ++ [new_filter i partial (Some op) None]) (g <$> filters c1)) as Hg.
  { transitivity (g <$> (fs ++ [new_filter i partial None None])).
    - rewrite fmap_app, fmap_cons.
      assert (g (new_filter i partial None None) = new_filter i partial (Some op) None) as ->.
      { unfold g. change (isPartial _) with true. cbn [negb]. now rewrite decide_False. }
      apply Forall2_app; [|apply same_refl].
      replace (g <$> fs) with fs; [apply same_refl|]. rewrite <- (list_fmap_id fs) at 1.
      apply list_fmap_ext. intros k f Hf%list_elem_of_lookup_2. unfold no_pending in Hn.
      rewrite list.Forall_forall in Hn. unfold g. now rewrite complete_not_partial by auto.
    - apply same_list_map; [|apply Hh1]. intros f h Hfh. unfold g, isPartial.
      destruct (same_parts_fields _ _ Hfh) as (Hi & Ht & Ha & Ho & Hv). rewrite Ht.
      destruct f, h. cbn in *. subst. case_decide; now destruct (negb _). }
  destruct (fe_holds Ak prof svc (g <$> filters c1) (fs ++ [new_filter i partial (Some op) None]) c1)
    as (c2 & Hfe & Hh2 & _ & Hq2); [exact Hq| |exact Hg|apply Hh1| |].
  { right; right. apply awaiting_app; [easy| |easy]. split_and!; [easy..|]. now intros o [= <-]. }
  { rewrite completed_app, completed_complete by easy. cbn. now rewrite app_nil_r. }
  assert (holds (fs ++ [new_filter i partial (Some op) None]) (query c2) c2) as Hh2'.
  { split_and!; [apply Hh2|easy|apply Hh2]. }
  destruct (holds_target _ _ _ _ op Hh2' eq_refl) as (f & Htarget).
  destruct (holds_last _ _ _ _ Hh2') as (p & Hl & Hp).
  destruct (same_parts_fields _ _ Hp) as (_ & _ & _ & Ho & Hv). cbn in Ho, Hv.
  unfold send. cbn [fst snd on choose go_if_do guard].
  unfold shouldSuggestValuesAfterOperatorEdition, shouldNotSuggestValuesAfterOperatorEdition, pure_guard.
  rewrite (proj2 (proj2 Hh1)), (holds_partial _ _ _ _ Hh1). cbn [rbind].
  change (isPartial (new_filter i partial None None)) with true. cbn [rbind]. unfold take at 1.
  cbn [action target go_if_do]. unfold setFilterOperator. fold g. rewrite Hfe. cbn [rbind entry].
  unfold settle. cbn [fst snd always choose go_if guard].
  unfold shouldSuggestOperators, shouldSuggestValues. rewrite Hl, <- Ho, <- Hv. cbn [rbind].
  unfold take. cbn [action target go_if rbind entry]. unfold enter_loadLabelValues. rewrite Htarget.
  cbn [rbind]. eexists. split; [reflexivity|]. split; [exact Hh2'|exact Hq2].
Qed.

(** The value is chosen. *)
Lemma add_value fs c vs i :
  good_query prof svc (query c) -> no_pending fs -> Forall (fun f => plain_matcher (matcher_of f)) fs ->
  plain_matcher (matcher_of (new_filter i attribute_operator_value (Some op) (Some val))) ->
  holds (fs ++ [new_filter i partial (Some op) None]) (query c) c ->
  let f := new_filter i attribute_operator_value (Some op) (Some val) in
  exists c', send_all Ak (loadLabelValues, c) [Done vs; SELECT_SUGGESTION val] = Ok (idle, c') /\
    holds (fs ++ [f]) (braces prof (inner_text (services svc ++ (matcher_of <$> fs ++ [f])))) c'.
Proof.
  intros Hq Hn Hpl Hplf Hh f. cbn [send_all].
  set (c0 := set_suggestions (loading false (with_items vs (suggestions c))) c).
  assert (holds (fs ++ [new_filter i partial (Some op) None]) (query c) c0) as Hh0 by easy.
  destruct (holds_target _ _ _ _ op Hh0 eq_refl) as (f0 & Htarget).
  erewrite send_branch;
    [|reflexivity|reflexivity|cbn [entry target go_do]; unfold enter_displayLabelValues; fold c0;
      rewrite Htarget; cbn [rbind]; reflexivity|easy].
  cbn [rbind target go_do]. set (c1 := set_suggestions _ c0).
  assert (holds (fs ++ [new_filter i partial (Some op) None]) (query c) c1) as Hh1 by easy.
  set (g := fun f => if isPartial f then give_value val f else f).
  assert (same_list (fs ++ [f]) (g <$> filters c1)) as Hg.
  { transitivity (g <$> (fs ++ [new_filter i partial (Some op) None])).
    - rewrite fmap_app, fmap_cons. apply Forall2_app; [|apply same_refl].
      replace (g <$> fs) with fs; [apply same_refl|]. rewrite <- (list_fmap_id fs) at 1.
      apply list_fmap_ext. intros k h Hf%list_elem_of_lookup_2. unfold no_pending in Hn.
      rewrite list.Forall_forall in Hn. unfold g. now rewrite complete_not_partial by auto.
    - apply same_list_map; [|apply Hh1]. intros h k Hhk. unfold g, isPartial.
      destruct (same_parts_fields _ _ Hhk) as (Hi & Ht & Ha & Ho & Hv). rewrite Ht.
      destruct h, k. cbn in *. subst. now destruct (bool_decide _). }
  assert (no_pending (fs ++ [f])) as Hn'.
  { apply no_pending_snoc; [easy|]. split_and!; [easy|now eexists..]. }
  destruct (fe_holds Ak prof svc (g <$> filters c1) (fs ++ [f]) c1) as (c2 & Hfe & Hh2 & _ & _);
    [exact Hq|now left|exact Hg|apply Hh1| |].
  { rewrite completed_complete by easy. apply Forall_app. split; [easy|now apply list.Forall_singleton]. }
  rewrite completed_complete in Hh2 by easy.
  destruct (enter_idle_ok c2) as (c3 & He3 & Hf3 & Hq3 & _).
  erewrite send_branch;
    [|cbn [on choose go_if_do guard]; unfold pure_guard, isEditing; rewrite (proj2 (proj2 Hh1)); reflexivity
    |exact Hfe|exact He3|easy].
  exists c3. split; [reflexivity|]. destruct Hh2 as (H1 & H2 & _). split_and!; [now rewrite Hf3|now rewrite Hq3|].
  cbn [entry] in He3. unfold enter_idle in He3. case_match. injection He3 as <-. easy.
Qed.
End AddFilter.

Lemma send_all_app Ak p es es' p' :
  send_all Ak p es = Ok p' -> send_all Ak p (es ++ es') = send_all Ak p' es'.
Proof.
  revert p; induction es as [|e es IH]; intros p; cbn [app send_all]; [now intros [= ->]|].
  destruct (send Ak p e) as [q| | |]; cbn [rbind]; [apply IH|easy..].
Qed.

(** C20: From the idle builder without a pending filter, on a query of a profile type and
    possibly a service name, with filters of plain names and values - no quote, brace or
    dollar sign and no service_name in them - the selections of a plain label, an operator
    other than is-empty and a plain value, whatever was suggested, add just that filter, and
    leave the query with the profile type, the service name and all filters.  For names and
    values that are not plain this fails ([service_name_hijacked]). *)
Theorem filter_added (Ak : nat -> bytes) prof svc (c : Context) (lbl op val : Choice) (ls os vs : list Suggestion) :
  good_query prof svc (query c) -> no_pending (filters c) -> edition c = None ->
  Forall (fun f => plain_matcher (matcher_of f)) (filters c) -> c_value op <> IS_EMPTY ->
  let f := {| q_id := Ak (calls c); q_type := attribute_operator_value; q_active := false;
              q_attribute := lbl; q_operator := Some op; q_value := Some val |} in
  plain_matcher (matcher_of f) ->
  exists c',
    send_all Ak (idle, c) [START_INPUT; Done ls; SELECT_SUGGESTION lbl; Done os; SELECT_SUGGESTION op;
                           Done vs; SELECT_SUGGESTION val] = Ok (idle, c') /\
    same_list (filters c ++ [f]) (filters c') /\
    query c' = braces prof (inner_text (services svc ++ (matcher_of <$> filters c ++ [f]))).
Proof.
  intros Hq Hn He Hpl Hop f Hplf.
  assert (holds (filters c) (query c) c) as Hh by (split_and!; [apply same_refl|easy|easy]).
  destruct (add_label Ak lbl (filters c) c ls Hn Hh) as (c1 & H1 & Hh1).
  assert (query c1 = query c) as Hq1 by apply Hh1. rewrite <- Hq1 in Hh1, Hq.
  destruct (add_operator Ak prof svc lbl op Hop (filters c) c1 os _ Hq Hn Hpl Hh1) as (c2 & H2 & Hh2 & Hq2).
  destruct (add_value Ak prof svc lbl op val (filters c) c2 vs _ Hq2 Hn Hpl Hplf Hh2) as (c3 & H3 & Hh3).
  exists c3. split_and!; [|apply Hh3..].
  change (send_all Ak (idle, c) (([START_INPUT; Done ls; SELECT_SUGGESTION lbl] ++ [Done os; SELECT_SUGGESTION op]) ++
    [Done vs; SELECT_SUGGESTION val]) = Ok (idle, c3)).
  rewrite (send_all_app Ak _ _ _ (loadLabelValues, c2)); [exact H3|].
  now rewrite (send_all_app Ak _ _ _ (loadOperators, c1)).
Qed.

(** ** Concrete runs *)

Definition demo_id (n : nat) : bytes := replicate n "i"%char.
Lemma demo_id_inj : Inj (=) (=) demo_id.
Proof. intros m n Hmn. apply (f_equal length) in Hmn. unfold demo_id in Hmn. now rewrite !length_replicate in Hmn. Qed.

Definition choice (s : string) : Choice := {| c_value := str s; c_label := str s |}.
Definition demo_matchers : list matcher := [(str "region", EQ, str "eu"); (str "pod", RE, str "a.*")].
Definition demo_prof : bytes := str "process_cpu:cpu:nanoseconds".
Definition demo_query : bytes :=
  braces demo_prof (inner_text (services (Some (str "shop")) ++ demo_matchers)).
Definition demo_params : Params := {| p_query := demo_query; p_from := 0; p_to := 1; p_dataSourceUid := None |}.
Definition demo_start : QState * Context :=
  match start demo_id demo_params with Ok p => p | _ => (idle, Je demo_id demo_params) end.
(** A label is chosen for a new filter, the menu is closed, and the operator of the first
    filter is clicked and its menu shown. *)
Definition demo_editing : QState * Context :=
  default demo_start (play demo_id demo_start
    [START_INPUT; Done []; SELECT_SUGGESTION (choice "zone"); DISCARD_SUGGESTIONS;
     EDIT_FILTER {| filterId := demo_id 0; part := Poperator |}; Done operator_list]).

Lemma demo_reachable : reachable demo_id demo_params demo_editing.
Proof.
  apply (play_reachable _ _ demo_start [START_INPUT; Done []; SELECT_SUGGESTION (choice "zone"); DISCARD_SUGGESTIONS;
     EDIT_FILTER {| filterId := demo_id 0; part := Poperator |}; Done operator_list]).
  - apply reach_start. vm_compute. reflexivity.
  - vm_compute. reflexivity.
Qed.

Lemma demo_good : good_query demo_prof (Some (str "shop")) demo_query.
Proof.
  apply good_braces; [|refine (bool_decide_unpack _ _); vm_compute; exact Logic.I..].
  split_and!; [refine (bool_decide_unpack _ _); vm_compute; exact Logic.I..|].
  exists (str "process_cpu:cpu"), (str "nanoseconds"). easy.
Qed.

(** The operator cannot be changed: the event throws. *)
Lemma builder_never_throws_witness :
  reachable demo_id demo_params demo_editing /\
  offered demo_editing.2 (SELECT_SUGGESTION (choice "!=")) /\
  send demo_id demo_editing (SELECT_SUGGESTION (choice "!=")) = type_error.
Proof.
  split; [exact demo_reachable|split; [exact Logic.I|]].
  pose proof (builder_never_throws demo_id demo_params demo_editing (SELECT_SUGGESTION (choice "!="))
    demo_id_inj demo_reachable Logic.I) as Hk.
  assert (edits_while_awaiting demo_editing (SELECT_SUGGESTION (choice "!=")) = true) as He
    by (vm_compute; reflexivity).
  rewrite He in Hk. exact Hk.
Defined.

Lemma builder_invariant_witness :
  demo_editing.1 = displayOperators /\ length (filters demo_editing.2) = 3%nat /\
  NoDup (q_id <$> filters demo_editing.2).
Proof.
  split; [vm_compute; reflexivity|split; [vm_compute; reflexivity|]].
  pose proof demo_reachable as Hr. rewrite (surjective_pairing demo_editing) in Hr.
  exact (proj1 (builder_invariant demo_id demo_params demo_editing.1 demo_editing.2 demo_id_inj Hr)).
Defined.

Definition demo_filters : list QFilter :=
  [read_filter (demo_id 0) (str "region", EQ, str "eu"); read_filter (demo_id 1) (str "pod", RE, str "a.*")].

Lemma demo_start_eq :
  filters demo_start.2 = demo_filters /\ query demo_start.2 = demo_query /\ edition demo_start.2 = None /\
  completed demo_filters = demo_filters.
Proof. split_and!; vm_compute; reflexivity. Qed.

Lemma same_filters_permutation_witness :
  H_same demo_filters (rev demo_filters) = true /\
  signature <$> completed demo_filters ≡ₚ signature <$> completed (rev demo_filters).
Proof.
  split; [vm_compute; reflexivity|].
  apply (same_filters_permutation demo_filters (rev demo_filters)); [|vm_compute; reflexivity].
  refine (bool_decide_unpack _ _); vm_compute; exact Logic.I.
Defined.

(** Two filters that are the same make [H] answer for a list with another filter. *)
Example same_filters_duplicates :
  exists f g, signature f <> signature g /\ H_same [f; f] [f; g] = true.
Proof.
  exists (read_filter [] (str "a", EQ, str "1")), (read_filter [] (str "b", EQ, str "2")).
  split; [easy|reflexivity].
Qed.

Lemma demo_complete : no_pending demo_filters.
Proof. apply Forall_cons_2; [apply read_complete|]. apply Forall_cons_2; [apply read_complete|constructor]. Qed.

Lemma demo_plain : Forall (fun f => plain_matcher (matcher_of f)) demo_filters.
Proof. refine (bool_decide_unpack _ _); vm_compute; exact Logic.I. Qed.

Lemma execute_reads_back_witness :
  exists c1 c2, send demo_id (idle, demo_start.2) EXECUTE_QUERY = Ok (idle, c1) /\
    Forall2 (fun f g => q_active g = true /\ matcher_of g = matcher_of f /\ (same_filter f g = true <-> normal f))
      demo_filters (filters c2) /\
    query c2 = query c1.
Proof.
  destruct demo_start_eq as (Hf & Hq & He & Hc).
  destruct (execute_reads_back demo_id demo_prof (Some (str "shop")) demo_start.2 0 1 None)
    as (c1 & c2 & H1 & _ & H2 & H3 & _).
  - rewrite Hq. exact demo_good.
  - rewrite Hf. left. exact demo_complete.
  - rewrite Hf, Hc. exact demo_plain.
  - rewrite Hf, Hc in H2. exists c1, c2. split; [exact H1|split; [exact H2|exact H3]].
Defined.

Lemma filter_added_witness :
  exists c', send_all demo_id (idle, demo_start.2)
      [START_INPUT; Done []; SELECT_SUGGESTION (choice "zone"); Done operator_list;
       SELECT_SUGGESTION (choice "in"); Done []; SELECT_SUGGESTION (choice "a|b")] = Ok (idle, c') /\
    query c' = braces demo_prof (inner_text (services (Some (str "shop")) ++ demo_matchers ++
                                             [(str "zone", RE, str "a|b")])).
Proof.
  destruct demo_start_eq as (Hf & Hq & He & Hc).
  destruct (filter_added demo_id demo_prof (Some (str "shop")) demo_start.2 (choice "zone") (choice "in")
    (choice "a|b") [] operator_list []) as (c' & H1 & _ & H2).
  - rewrite Hq. exact demo_good.
  - rewrite Hf. exact demo_complete.
  - exact He.
  - rewrite Hf. exact demo_plain.
  - vm_compute. discriminate.
  - refine (bool_decide_unpack _ _); vm_compute; exact Logic.I.
  - exists c'. split; [exact H1|]. rewrite H2, Hf. vm_compute. reflexivity.
Defined.

(** A label whose name ends like the service name's replaces it, from the second time on. *)
Example service_name_hijacked :
  exists f q1 q2, W demo_query [f] = Ok q1 /\ W q1 [f] = Ok q2 /\
    service_part q1 <> service_part demo_query /\
    q2 = braces demo_prof (inner_text [(NAME, EQ, str "evil"); (str "my_service_name", EQ, str "evil")]).
Proof.
  exists (read_filter [] (str "my_service_name", EQ, str "evil")). do 2 eexists.
  split; [vm_compute; reflexivity|]. split; [vm_compute; reflexivity|].
  split; [vm_compute; discriminate|vm_compute; reflexivity].
Qed.
