(* ===== verification/ConfTheorems.v ===== *)
(** * Properties of the configuration *)

From stdpp Require Import gmap.
From S2P Require Import Prelude.
From S2P Require Import Java.
From S2P Require Import Conf.
#[local] Open Scope Z_scope.

(** The configuration after all setters, in the order of the fields. *)
Definition configured (props : Properties) (port : Z) (address : bytes) (threads size buffer : Z) : Properties :=
  setSndRcvBufferSize (setKeyValueMaxSize (setThreadPoolSize (setServerAddress (setServerPort props port) address)
    threads) size) buffer.

(** What the setters store the getters return, each its own setting, unless the
    environment has the name: then its text decides, whatever was set, and a text that is
    no number makes the getter throw.  Without either a getter returns its default. *)
Theorem configuration_read_back (getenv : bytes -> option bytes) cpus props port address threads size buffer :
  in_int port -> in_int threads -> in_int size -> in_int buffer -> 0 <= cpus <= INT_MAX ->
  let props' := configured props port address threads size buffer in
  ((forall name, getenv name = None) ->
     getServerPort getenv props' = Ok port /\ getServerAddress getenv props' = address /\
     getThreadPoolSize getenv cpus props' = Ok threads /\ getKeyValueMaxSize getenv props' = Ok size /\
     getSndRcvBufferSize getenv props' = Ok buffer /\
     getNode getenv props' = Ok (address ++ str ":" ++ Long_toString port) /\
     getServerPort getenv ∅ = Ok 11211 /\ getKeyValueMaxSize getenv ∅ = Ok 4194304 /\
     getThreadPoolSize getenv cpus ∅ = Ok (Z.max 1 (cpus / 2))) /\
  (forall s, getenv CONF_KV_SIZE_MAX = Some s ->
     getKeyValueMaxSize getenv props' = match parseInt s with Some n => Ok n | None => Throw NumberFormatException end).
Proof.
  intros Hp Ht Hs Hb Hc props'.
  assert (Hd : in_int (DEFAULT_THREAD_POOL_SIZE cpus)).
  { unfold DEFAULT_THREAD_POOL_SIZE, in_int, INT_MAX in *. pose proof (Z.div_le_upper_bound cpus 2 cpus). lia. }
  split; [intros He|intros s He; by apply get_number_env].
  assert (Hport : getServerPort getenv props' = Ok port).
  { unfold getServerPort, props', configured, setSndRcvBufferSize, setKeyValueMaxSize, setThreadPoolSize, setServerAddress, setServerPort.
    do 3 (unfold set_number at 1; rewrite get_number_other by done). rewrite get_number_other by done.
    by apply get_number_set. }
  assert (Haddr : getServerAddress getenv props' = address).
  { unfold getServerAddress, props', configured, setSndRcvBufferSize, setKeyValueMaxSize, setThreadPoolSize, setServerAddress, set_number.
    rewrite !get_setting_other by done. unfold get_setting. by rewrite He, lookup_insert_eq. }
  split_and!; try done.
  - unfold getThreadPoolSize, props', configured, setSndRcvBufferSize, setKeyValueMaxSize.
    do 2 (unfold set_number at 1; rewrite get_number_other by done). by apply get_number_set.
  - unfold getKeyValueMaxSize, props', configured, setSndRcvBufferSize.
    unfold set_number at 1; rewrite get_number_other by done. by apply get_number_set.
  - by apply get_number_set.
  - unfold getNode. by rewrite Hport, Haddr.
  - by apply get_number_default.
  - by apply get_number_default.
  - by apply get_number_default.
Qed.

Definition no_env : bytes -> option bytes := fun _ => None.

Lemma configuration_read_back_witness :
  getNode no_env (configured ∅ 123 (str "0.0.0.0") 8 65536 8192) = Ok (str "0.0.0.0:123").
Proof.
  destruct (configuration_read_back no_env 4 ∅ 123 (str "0.0.0.0") 8 65536 8192) as [H _];
    try (unfold in_int, INT_MAX; lia).
  destruct (H ltac:(done)) as (_ & _ & _ & _ & _ & Hn & _). exact Hn.
Defined.
