(* ===== verification/AuthTheorems.v ===== *)
(** * Properties of the authorization of connections *)

From stdpp Require Import gmap.
From S2P Require Import Prelude.
From S2P Require Import Java.
From S2P Require Import Conf.
From S2P Require Import CarrotCache.
From S2P Require Import Sha256.
From S2P Require Import Writes.
From S2P Require Import Authorization.
From S2P Require Import AuthorizationCorrect.
#[local] Open Scope Z_scope.

Section Properties.
Context `{CarrotUtils}.
Variables (getenv : bytes -> option bytes) (props : Properties).

(** The verdict under the configured name and hash. *)
Definition configured_verdict (known : bytes -> bool) (a : InetSocketAddress) (text : bytes) : Verdict :=
  verdict (getUserLoginName getenv props) (getUserPasswordSHA256 getenv props) known a text.

(** What the server does with a connection under a verdict. *)
Definition carried_out (v : Verdict) (c : nat) (h : AuthorizationHandler) (ch : SocketChannel)
    (x : result bool * (AuthorizationHandler * SocketChannel)) : Prop :=
  let '(r, (h', ch')) := x in
  match v with
  | Known rest =>
      r = Ok false /\ h' = remove_pending c h /\ written ch' = written ch /\ closed ch' = false /\
      received (arrivals ch') = rest
  | LoggedIn ip noreply rest =>
      r = Ok true /\ h' = put_host ip (remove_pending c h) /\
      written ch' = written ch ++ (if noreply then [] else STORED_REPLY) /\ closed ch' = false /\
      received (arrivals ch') = rest
  | Refused msg =>
      r = Ok true /\ h' = remove_pending c h /\ written ch' = written ch ++ msg /\ closed ch' = true
  end.

Lemma takes_less n m es : takes n es -> (m <= n)%nat -> takes m es.
Proof. intros [H1 H2]. split; [done|lia]. Qed.

Lemma refused_lengths known a text msg :
  configured_verdict known a text = Refused msg -> (length msg <= 37)%nat.
Proof.
  unfold configured_verdict, verdict. destruct (claimed a text) as [[ip t]|]; [|intros [= <-]; vm_compute; lia].
  destruct (known ip); [done|]. destruct (login_lines t) as [[[tokens pw] rest]|]; [|intros [= <-]; vm_compute; lia].
  destruct (_ && _); [done|]. intros [= <-]. vm_compute. lia.
Qed.

Lemma authorization_outcome (c : nat) (h : AuthorizationHandler) (ch : SocketChannel) :
  is_Some (pendingConns h !! c) -> closed ch = false -> takes 37 (attempts ch) ->
  carried_out (configured_verdict (known_to h) (remote ch) (received (arrivals ch))) c h ch
    (authorizeConnection getenv props c (h, ch)).
Proof.
  intros Hc Ho Ht. unfold authorizeConnection, authorize_pending. cbn [fst]. rewrite bool_decide_true by done.
  pose proof (try_concludes (getUserLoginName getenv props) (getUserPasswordSHA256 getenv props) h ch Ho) as Hx.
  fold (configured_verdict (known_to h) (remote ch) (received (arrivals ch))) in Hx. unfold catch_io.
  pose proof (refused_lengths (known_to h) (remote ch) (received (arrivals ch))) as Hlen.
  destruct (configured_verdict (known_to h) (remote ch) (received (arrivals ch))) as [rest|ip noreply rest|msg].
  - by destruct Hx as (es & -> & Hes).
  - destruct Hx as (es & Hes & ->). unfold auth_bind. destruct noreply; [cbn; by rewrite app_nil_r|].
    destruct (writeString_ok STORED_REPLY (put_host ip h) (set_arrivals es ch) Ho) as (es' & ->); [|done].
    apply (takes_less 37); [done|vm_compute; lia].
  - specialize (Hlen msg eq_refl).
    assert (Hr : forall es, exists es', refuse msg (h, set_arrivals es ch) =
        (Ok true, (h, close_channel (wrote msg es' (set_arrivals es ch))))).
    { intros es. apply refuse_ok; [done|]. by apply (takes_less 37). }
    destruct Hx as (es & [->|(-> & m & ->)]); destruct (Hr es) as (es' & ->); done.
Qed.

(** C10: On a pending connection [authorizeConnection] does what the text it received says,
    however the bytes arrive and whatever interrupts them - end of stream, a failure, the
    time limit: it passes a connection from a known host on with the rest of its input
    untouched, it makes the host of a correct login known, and it answers and closes in
    every other case, as long as the channel takes the reply. *)
Theorem authorization_refines (c : nat) (h : AuthorizationHandler) (ch : SocketChannel) :
  is_Some (pendingConns h !! c) -> closed ch = false -> takes 37 (attempts ch) ->
  carried_out (configured_verdict (known_to h) (remote ch) (received (arrivals ch))) c h ch
    (authorizeConnection getenv props c (h, ch)).
Proof. apply authorization_outcome. Qed.

(** ** Histories *)

(** The calls on a handler; a channel is in any state when [authorizeConnection] is called. *)
Inductive Call : Type :=
  | AddPending (c : nat)
  | Authorize (c : nat) (ch : SocketChannel).

Definition call_handler (h : AuthorizationHandler) (k : Call) : AuthorizationHandler :=
  match k with
  | AddPending c => addPendingConnection c h
  | Authorize c ch => (authorizeConnection getenv props c (h, ch)).2.1
  end.
Definition history (ks : list Call) : AuthorizationHandler := foldl call_handler new_AuthorizationHandler ks.

(** A connection among the calls logged in for the host: with the configured name, and a
    password of the configured hash. *)
Definition earned (ks : list Call) (ip : bytes) : Prop :=
  exists c ch noreply rest, In (Authorize c ch) ks /\
    configured_verdict (fun _ => false) (remote ch) (received (arrivals ch)) = LoggedIn ip noreply rest.

Lemma logged_in_unknown known a text ip noreply rest :
  configured_verdict known a text = LoggedIn ip noreply rest ->
  configured_verdict (fun _ => false) a text = LoggedIn ip noreply rest.
Proof.
  unfold configured_verdict, verdict. destruct (claimed a text) as [[ip' t]|]; [|done]. by destruct (known ip').
Qed.

Lemma verdict_known known a text rest :
  configured_verdict known a text = Known rest -> exists ip, claimed a text = Some (ip, rest) /\ known ip = true.
Proof.
  unfold configured_verdict, verdict. destruct (claimed a text) as [[ip t]|]; [|done].
  destruct (known ip) eqn:Hk; [intros [= <-]; by exists ip|].
  destruct (login_lines t) as [[[tokens pw] r]|]; [|done]. by destruct (_ && _).
Qed.

(** The block and its [catch] clause, whatever the channel does. *)
Lemma block_settles h ch :
  let x := catch_io (try_authorize (Some (getUserLoginName getenv props)) (Some (getUserPasswordSHA256 getenv props)))
             (refuse AUTH_REQUIRED) (h, ch) in
  settled h x \/
  (exists ip noreply rest, settled (put_host ip h) x /\
     configured_verdict (fun _ => false) (remote ch) (received (arrivals ch)) = LoggedIn ip noreply rest) \/
  (exists ip rest ch', x = (Ok false, (h, ch')) /\
     claimed (remote ch) (received (arrivals ch)) = Some (ip, rest) /\ known_to h ip = true).
Proof.
  cbv zeta. destruct (closed ch) eqn:Ho.
  { left. unfold catch_io, try_authorize. unfold auth_bind at 1, getRemoteAddress. cbn [fst snd]. rewrite Ho.
    apply refuse_settled. }
  pose proof (try_concludes (getUserLoginName getenv props) (getUserPasswordSHA256 getenv props) h ch Ho) as Hx.
  fold (configured_verdict (known_to h) (remote ch) (received (arrivals ch))) in Hx.
  unfold catch_io.
  destruct (configured_verdict (known_to h) (remote ch) (received (arrivals ch))) as [rest|ip noreply rest|msg] eqn:Hv.
  - right. right. destruct Hx as (es & -> & _). destruct (verdict_known _ _ _ _ Hv) as (ip & ? & ?). eauto 6.
  - right. left. apply logged_in_unknown in Hv. destruct Hx as (es & _ & ->). exists ip, noreply, rest.
    split; [apply say_settled|done].
  - left. destruct Hx as (es & [->|(-> & m & ->)]); [|apply refuse_settled].
    destruct (refuse_settled msg h (set_arrivals es ch)) as (ch' & [->| ->]); eexists; [by left|by right].
Qed.

(** One call: a host is added by a login only, and a pending connection is passed on only
    from a known host. *)
Lemma authorize_step c h ch :
  let x := authorizeConnection getenv props c (h, ch) in
  (authHosts x.2.1 = authHosts h \/
   exists ip noreply rest, authHosts x.2.1 = <[ip := ip]> (authHosts h) /\
     configured_verdict (fun _ => false) (remote ch) (received (arrivals ch)) = LoggedIn ip noreply rest) /\
  (is_Some (pendingConns h !! c) -> x.1 = Ok false ->
     exists ip rest, claimed (remote ch) (received (arrivals ch)) = Some (ip, rest) /\ known_to h ip = true).
Proof.
  cbv zeta. unfold authorizeConnection, authorize_pending. cbn [fst].
  destruct (bool_decide (is_Some (pendingConns h !! c))) eqn:Hp.
  2: { split; [by left|]. intros Hs. by apply bool_decide_eq_false_1 in Hp. }
  destruct (block_settles h ch) as [(ch' & [->| ->])|[(ip & noreply & rest & (ch' & [->| ->]) & Hv)|(ip & rest & ch' & -> & Hc & Hk)]];
    cbn; split; try done; try (by left); first [by right; eauto | by eauto].
Qed.

Lemma history_snoc ks k : history (ks ++ [k]) = call_handler (history ks) k.
Proof. unfold history. by rewrite foldl_app. Qed.

Lemma earned_app ks ks' ip : earned ks ip -> earned (ks ++ ks') ip.
Proof. intros (c & ch & n & rest & Hin & Hv). exists c, ch, n, rest. by rewrite in_app_iff; split; [left|]. Qed.

Lemma hosts_earned ks ip : is_Some (authHosts (history ks) !! ip) -> earned ks ip.
Proof.
  induction ks as [|k ks IH] using rev_ind; [by intros [? ?]|]. rewrite history_snoc.
  destruct k as [c|c ch]; cbn [call_handler]; [intros Hip; by apply earned_app, IH|].
  destruct (authorize_step c (history ks) ch) as [[->|(ip' & n & rest & -> & Hv)] _];
    [intros Hip; by apply earned_app, IH|].
  destruct (decide (ip' = ip)) as [->|Hne]; [|rewrite lookup_insert_ne by done; intros Hip; by apply earned_app, IH].
  intros _. exists c, ch, n, rest. by rewrite in_app_iff; split; [right; left|].
Qed.

(** What a call made of a pending connection: it was passed on, its host being known; it
    logged in; it was refused and closed, or refused without taking the whole reply. *)
Definition decided (ks : list Call) (h : AuthorizationHandler) (c : nat) (ch : SocketChannel) : Prop :=
  let '(r, (_, ch')) := authorizeConnection getenv props c (h, ch) in
  closed ch' = true \/
  match configured_verdict (known_to h) (remote ch) (received (arrivals ch)) with
  | Known rest => r = Ok false /\ exists ip, claimed (remote ch) (received (arrivals ch)) = Some (ip, rest) /\ earned ks ip
  | LoggedIn ip _ _ => r = Ok true
  | Refused msg => r = Ok true /\ exists s t, written ch' = written ch ++ s /\ msg = s ++ t /\ t <> []
  end.

(** The last time the connection was pending it was decided. *)
Definition decided_before (ks : list Call) (c : nat) : Prop :=
  exists ks1 ch ks2, ks = ks1 ++ Authorize c ch :: ks2 /\ ~ In (AddPending c) ks2 /\
    is_Some (pendingConns (history ks1) !! c) /\ decided ks1 (history ks1) c ch.

(** A pending connection is no longer pending once the call has returned. *)
Lemma pending_after c h ch :
  let x := authorizeConnection getenv props c (h, ch) in
  pendingConns x.2.1 = match x.1 with OutOfFuel => pendingConns h | _ => delete c (pendingConns h) end.
Proof.
  cbv zeta. unfold authorizeConnection, authorize_pending. cbn [fst].
  destruct (bool_decide (is_Some (pendingConns h !! c))) eqn:Hp.
  - destruct (block_settles h ch) as [(ch' & [->| ->])|[(ip & noreply & rest & (ch' & [->| ->]) & Hv)|(ip & rest & ch' & -> & Hc & Hk)]];
      done.
  - cbn. apply bool_decide_eq_false_1 in Hp. symmetry. apply delete_id.
    by apply eq_None_not_Some.
Qed.
Lemma pending_returns c h ch :
  is_Some (pendingConns h !! c) -> ~ is_Some (pendingConns (authorizeConnection getenv props c (h, ch)).2.1 !! c) ->
  (authorizeConnection getenv props c (h, ch)).1 <> OutOfFuel.
Proof. intros Hc Hn Hr. apply Hn. rewrite pending_after. by rewrite Hr. Qed.

Lemma refused_return msg h ch es :
  closed ch = false ->
  let '(r, (_, ch')) := refuse msg (h, set_arrivals es ch) in r <> OutOfFuel ->
  closed ch' = true \/ r = Ok true /\ exists s t, written ch' = written ch ++ s /\ msg = s ++ t /\ t <> [].
Proof.
  intros Ho. pose proof (refuse_open msg h (set_arrivals es ch) Ho) as Hr.
  destruct (refuse msg _) as [r [h' ch']]. destruct Hr as [_ [->|[(-> & Hcl & _)|(-> & _ & Hst)]]]; try done; auto.
Qed.

(** A refusal does not throw: the clause around it is idle. *)
Lemma catch_refuse msg msg' h ch : catch_io (refuse msg) (refuse msg') (h, ch) = refuse msg (h, ch).
Proof. unfold catch_io. by destruct (refuse_settled msg h ch) as (ch' & [->| ->]). Qed.

Lemma decided_return ks c ch :
  is_Some (pendingConns (history ks) !! c) ->
  (authorizeConnection getenv props c (history ks, ch)).1 <> OutOfFuel -> decided ks (history ks) c ch.
Proof.
  intros Hc. set (h := history ks) in *. unfold decided, authorizeConnection, authorize_pending. cbn [fst].
  rewrite bool_decide_true by done.
  set (b := try_authorize _ _). set (v := configured_verdict _ _ _).
  assert (Hx : let '(r, (_, ch')) := catch_io b (refuse AUTH_REQUIRED) (h, ch) in r <> OutOfFuel ->
    closed ch' = true \/
    match v with
    | Known rest => r = Ok false /\ exists ip, claimed (remote ch) (received (arrivals ch)) = Some (ip, rest) /\ earned ks ip
    | LoggedIn ip _ _ => r = Ok true
    | Refused msg => r = Ok true /\ exists s t, written ch' = written ch ++ s /\ msg = s ++ t /\ t <> []
    end); [|by destruct (catch_io b _ _) as [[] [h' ch']]].
  destruct (closed ch) eqn:Ho.
  { subst b. unfold catch_io, try_authorize. unfold auth_bind at 1, getRemoteAddress. cbn [fst snd]. rewrite Ho.
    unfold refuse, sendErrorAndClose, catch_io, auth_bind, writeString. cbn [fst snd]. rewrite Ho. cbn. by left. }
  pose proof (try_concludes (getUserLoginName getenv props) (getUserPasswordSHA256 getenv props) h ch Ho) as Hx.
  fold (configured_verdict (known_to h) (remote ch) (received (arrivals ch))) in Hx. fold b v in Hx.
  destruct v as [rest|ip noreply rest|msg] eqn:Hv; unfold catch_io.
  - destruct Hx as (es & -> & _). intros _. right. split; [done|].
    destruct (verdict_known _ _ _ _ Hv) as (ip & Hcl & Hk). exists ip. split; [done|].
    apply hosts_earned. by apply bool_decide_eq_true_1 in Hk.
  - destruct Hx as (es & _ & ->). destruct (say_settled noreply (put_host ip h) (set_arrivals es ch)) as (ch' & Hs).
    unfold catch_io in Hs. destruct Hs as [->| ->]; [by right|done].
  - destruct Hx as (es & [->|(-> & m & ->)]); [|by apply refused_return].
    pose proof (catch_refuse msg AUTH_REQUIRED h (set_arrivals es ch)) as Hi. unfold catch_io in Hi. rewrite Hi.
    by apply refused_return.
Qed.

Lemma decided_before_app ks k c : k <> AddPending c -> decided_before ks c -> decided_before (ks ++ [k]) c.
Proof.
  intros Hk (ks1 & ch & ks2 & -> & Hn & Hd). exists ks1, ch, (ks2 ++ [k]). rewrite <- app_assoc. split; [done|].
  split; [|done]. rewrite in_app_iff. intros [Hin|[Hin|[]]]; congruence.
Qed.

Lemma no_longer_pending ks c :
  ~ is_Some (pendingConns (history ks) !! c) -> ~ In (AddPending c) ks \/ decided_before ks c.
Proof.
  induction ks as [|k ks IH] using rev_ind; [by left; intros []|]. rewrite history_snoc. intros Hn.
  assert (Hkeep : k <> AddPending c -> ~ is_Some (pendingConns (history ks) !! c) ->
            ~ In (AddPending c) (ks ++ [k]) \/ decided_before (ks ++ [k]) c).
  { intros Hk Hn'. destruct (IH Hn') as [Hin|Hd]; [left|right; by apply decided_before_app].
    rewrite in_app_iff. intros [|[|[]]]; congruence. }
  destruct k as [c'|c' ch]; cbn [call_handler] in Hn.
  - destruct (decide (c' = c)) as [->|Hne]; [|apply Hkeep; [congruence|]].
    + destruct Hn. cbn. rewrite lookup_insert_eq. by eexists.
    + cbn in Hn. by rewrite lookup_insert_ne in Hn.
  - destruct (decide (c' = c)) as [->|Hne].
    + destruct (decide (is_Some (pendingConns (history ks) !! c))) as [Hp|Hp]; [|by apply Hkeep].
      right. exists ks, ch, []. split_and!; [done|by intros []|done|]. apply decided_return; [done|by apply pending_returns].
    + apply Hkeep; [done|]. rewrite pending_after in Hn.
      destruct (authorizeConnection _ _ _ _).1; by rewrite ?lookup_delete_ne in Hn.
Qed.

(** C8: Whatever calls are made and whatever the channels do, a host is known only if a
    connection from it logged in before with the configured name and a password of the
    configured hash; and a call passes a connection on - answers false - only if it is pending
    and the host it is from, or names in its PROXY line, is known; or it was never made to
    wait for authorization; or when it last waited an earlier call passed it on as of a known
    host, logged it in, refused and closed it, or refused it without its taking the whole
    reply (which leaves it open: [refusal_unsent_passes]). *)
Theorem known_hosts_logged_in (ks : list Call) :
  (forall ip, is_Some (authHosts (history ks) !! ip) -> earned ks ip) /\
  (forall c ch, (authorizeConnection getenv props c (history ks, ch)).1 = Ok false ->
     (is_Some (pendingConns (history ks) !! c) /\
      exists ip rest, claimed (remote ch) (received (arrivals ch)) = Some (ip, rest) /\ earned ks ip) \/
     ~ In (AddPending c) ks \/ decided_before ks c).
Proof.
  split; [apply hosts_earned|]. intros c ch Hr.
  destruct (decide (is_Some (pendingConns (history ks) !! c))) as [Hc|Hc]; [left|right; by apply no_longer_pending].
  split; [done|]. destruct (authorize_step c (history ks) ch) as [_ Hs]. destruct (Hs Hc Hr) as (ip & rest & Hcl & Hk).
  exists ip, rest. split; [done|]. apply hosts_earned. by apply bool_decide_eq_true_1 in Hk.
Qed.

(** A refused client that does not take the reply: the channel stays open and is no longer
    pending, so the next call passes it on. *)
Theorem refusal_unsent_passes (c : nat) (h : AuthorizationHandler) (ch : SocketChannel) msg fails' ch2 :
  is_Some (pendingConns h !! c) -> closed ch = false -> attempts ch = WriteFails msg :: fails' ->
  (exists errorMsg, configured_verdict (known_to h) (remote ch) (received (arrivals ch)) = Refused errorMsg /\ errorMsg <> []) ->
  let '(r, (h', ch')) := authorizeConnection getenv props c (h, ch) in
  r = Ok true /\ closed ch' = false /\ authorizeConnection getenv props c (h', ch2) = (Ok false, (h', ch2)).
Proof.
  intros Hc Ho Ha (errorMsg & Hv & Hne). unfold authorizeConnection at 1, authorize_pending. cbn [fst].
  rewrite bool_decide_true by done. unfold catch_io at 1.
  pose proof (try_concludes (getUserLoginName getenv props) (getUserPasswordSHA256 getenv props) h ch Ho) as Hx.
  fold (configured_verdict (known_to h) (remote ch) (received (arrivals ch))) in Hx. rewrite Hv in Hx.
  assert (Hr : forall es m, m <> [] -> refuse m (h, set_arrivals es ch) = (Ok true, (h, wrote [] fails' (set_arrivals es ch)))).
  { intros es m Hm. unfold refuse, sendErrorAndClose, catch_io, auth_bind, writeString. cbn [fst snd set_arrivals closed attempts].
    rewrite Ho, Ha. by destruct m. }
  assert (Hn : forall ch0, authorizeConnection getenv props c (remove_pending c h, ch0) = (Ok false, (remove_pending c h, ch0))).
  { intros ch0. unfold authorizeConnection, authorize_pending. cbn [fst remove_pending pendingConns]. rewrite lookup_delete_eq.
    rewrite bool_decide_false; [done|by intros [? ?]]. }
  destruct Hx as (es & [->|(-> & m & ->)]); rewrite Hr by done; cbn; split_and!; done.
Qed.
(** ** Logging in *)

(** How a connection says which host it is from: a proxy on the machine by a PROXY line. *)
Definition introduces (a : InetSocketAddress) (ip intro : bytes) : Prop :=
  if isLoopbackAddress a then
    exists proto more, intro = words_line (str "PROXY" :: proto :: ip :: more) ++ CRLF /\
      forallb is_word (proto :: ip :: more) = true /\ 3 <= zlen more
  else intro = [] /\ ip = getHostString a.

Lemma claimed_intro a ip intro text : introduces a ip intro -> claimed a (intro ++ text) = Some (ip, text).
Proof.
  unfold introduces, claimed. destruct (isLoopbackAddress a); [|by intros [-> ->]].
  intros (proto & more & -> & Hw & Hm). rewrite <- app_assoc, line_of_words by done. cbn [mbind option_bind].
  rewrite (tokens_of_words (str "PROXY")) by (done || zlia). done.
Qed.

Lemma login_lines_text name flags exptime size password rest :
  forallb is_word [name; flags; exptime; size] = true ->
  forallb (fun c => negb (c =c? CR)) password = true ->
  login_lines (words_line [str "set"; name; flags; exptime; size] ++ CRLF ++ password ++ CRLF ++ rest) =
    Some ([str "set"; name; flags; exptime; size], flat_map byte_char password, rest).
Proof.
  intros Hw Hp. unfold login_lines. rewrite line_of_words by done. cbn [mbind option_bind].
  rewrite (tokens_of_words (str "set")) by (done || zlia). cbn [mbind option_bind]. by rewrite line_of_crlf.
Qed.

(** C22: Logging in: a host's connection that sends a set command under the configured name
    with the password is answered STORED, if the hash of the characters read is the
    configured one, and from then on a connection of the same host is passed on at once with
    its input from behind the PROXY line; with any other password it is refused and closed.
    Both channels take the replies. *)
Theorem login_then_pass (c1 c2 : nat) (h : AuthorizationHandler) (ch1 ch2 : SocketChannel)
    ip intro1 intro2 flags exptime size password rest1 rest2 :
  is_Some (pendingConns h !! c1) -> is_Some (pendingConns h !! c2) -> c1 <> c2 -> authHosts h !! ip = None ->
  closed ch1 = false -> closed ch2 = false -> takes 37 (attempts ch1) -> takes 37 (attempts ch2) ->
  introduces (remote ch1) ip intro1 -> introduces (remote ch2) ip intro2 ->
  forallb is_word [getUserLoginName getenv props; flags; exptime; size] = true ->
  forallb (fun c => negb (c =c? CR)) password = true ->
  received (arrivals ch1) =
    intro1 ++ words_line [str "set"; getUserLoginName getenv props; flags; exptime; size] ++ CRLF ++ password ++ CRLF ++ rest1 ->
  received (arrivals ch2) = intro2 ++ rest2 ->
  let '(r1, (h1, ch1')) := authorizeConnection getenv props c1 (h, ch1) in
  if bool_decide (hashString (flat_map byte_char password) = getUserPasswordSHA256 getenv props) then
    r1 = Ok true /\ written ch1' = written ch1 ++ STORED_REPLY /\ closed ch1' = false /\ received (arrivals ch1') = rest1 /\
    let '(r2, (_, ch2')) := authorizeConnection getenv props c2 (h1, ch2) in
    r2 = Ok false /\ written ch2' = written ch2 /\ closed ch2' = false /\ received (arrivals ch2') = rest2
  else
    r1 = Ok true /\ written ch1' = written ch1 ++ AUTH_FAILED /\ closed ch1' = true /\ authHosts h1 = authHosts h.
Proof.
  intros Hc1 Hc2 Hne Hip Ho1 Ho2 Ht1 Ht2 Hi1 Hi2 Hw Hp Hr1 Hr2.
  pose proof (authorization_outcome c1 h ch1 Hc1 Ho1 Ht1) as H1.
  unfold configured_verdict, verdict in H1. rewrite Hr1, (claimed_intro _ ip), login_lines_text in H1 by done.
  assert (Hk : known_to h ip = false) by (unfold known_to; rewrite Hip; by apply bool_decide_eq_false_2; intros [? ?]).
  rewrite Hk in H1. cbn [nth] in H1. rewrite bool_decide_true in H1 by done. cbn [andb] in H1.
  destruct (authorizeConnection getenv props c1 (h, ch1)) as [r1 [h1 ch1']].
  destruct (bool_decide (hashString _ = _)); [|destruct H1 as (-> & -> & -> & ->); done].
  destruct H1 as (-> & -> & -> & -> & Hrest). split_and!; try done.
  set (h1 := put_host ip (remove_pending c1 h)).
  pose proof (authorization_outcome c2 h1 ch2) as H2.
  unfold configured_verdict, verdict in H2. rewrite Hr2, (claimed_intro _ ip) in H2 by done.
  assert (Hk1 : known_to h1 ip = true) by (unfold known_to, h1; cbn; rewrite lookup_insert_eq; by apply bool_decide_eq_true_2).
  rewrite Hk1 in H2.
  destruct (authorizeConnection getenv props c2 (h1, ch2)) as [r2 [h2 ch2']].
  destruct H2 as (-> & _ & ? & ? & ?); [|done|done|done].
  unfold h1. cbn. by rewrite lookup_delete_ne.
Qed.
End Properties.

(** ** A concrete server *)

(** [toHex] in lower case; the rest of the library is not used here. *)
Definition hex_utils : CarrotUtils := {|
  compareTo a b := if decide (a = b) then 0 else 1;
  strToLongDirect := parseLong;
  longToStrDirect := Long_toString;
  murmurHash _ _ := 0;
  toHex := hex
|}.
(** The user root, whose password is password. *)
Definition auth_props : Properties :=
  <[CONF_USER_PASSWORD_SHA256 := str "5e884898da28047151d0e56f8dc6292773603d0d6aabbdd62a11ef721d1542d8"]>
    (<[CONF_USER_NAME := str "root"]> ∅).
Definition auth_env : bytes -> option bytes := fun _ => None.

(** Bytes one by one, with pauses. *)
Definition arriving (text : bytes) : list Arrival := flat_map (fun b => [NothingYet; Byte b]) text.
Definition local_channel (text : bytes) : SocketChannel :=
  {| remote := {| isLoopbackAddress := true; getHostString := str "127.0.0.1" |};
     arrivals := arriving text; attempts := replicate 40 (Takes 1); written := []; closed := false |}.
Definition proxy_line : bytes := words_line (str <$> ["PROXY"; "TCP4"; "10.0.0.7"; "10.0.0.1"; "4711"; "11211"]%string) ++ CRLF.
Definition login_text (password : bytes) : bytes :=
  proxy_line ++ words_line (str <$> ["set"; "root"; "0"; "0"; "8"]%string) ++ CRLF ++ password ++ CRLF ++ str "get a".
Definition two_pending : AuthorizationHandler := addPendingConnection 2 (addPendingConnection 1 new_AuthorizationHandler).

Lemma takes_replicate n : takes n (replicate n (Takes 1)).
Proof.
  split; [by apply Forall_replicate|]. induction n; cbn; lia.
Qed.

Lemma local_takes text : takes 37 (attempts (local_channel text)).
Proof. exact (takes_less 40 37 _ (takes_replicate 40) ltac:(lia)). Qed.

Lemma proxy_introduces text : introduces (remote (local_channel text)) (str "10.0.0.7") proxy_line.
Proof. exists (str "TCP4"), (str <$> ["10.0.0.1"; "4711"; "11211"]%string). by split_and!. Qed.

Lemma authorization_refines_witness :
  let h := two_pending in let ch := local_channel (login_text (str "password")) in
  (authorizeConnection (H := hex_utils) auth_env auth_props 1 (h, ch)).1 = Ok true.
Proof.
  cbv zeta. pose proof (authorization_refines (H := hex_utils) auth_env auth_props 1 two_pending
    (local_channel (login_text (str "password"))) ltac:(by eexists) eq_refl (local_takes _)) as Hx.
  match type of Hx with carried_out ?v _ _ _ _ => let v' := eval vm_compute in v in change v with v' in Hx end.
  destruct (authorizeConnection _ _ _ _) as [r [h ch]]. exact (proj1 Hx).
Defined.

Lemma known_hosts_logged_in_witness :
  earned (H := hex_utils) auth_env auth_props [AddPending 1; Authorize 1 (local_channel (login_text (str "password")))] (str "10.0.0.7").
Proof.
  apply (proj1 (known_hosts_logged_in (H := hex_utils) auth_env auth_props _)).
  refine (bool_decide_unpack _ _); vm_compute; exact Logic.I.
Defined.

Lemma login_then_pass_witness :
  let '(r1, (h1, ch1)) := authorizeConnection (H := hex_utils) auth_env auth_props 1 (two_pending, local_channel (login_text (str "password"))) in
  r1 = Ok true /\ written ch1 = STORED_REPLY /\
  (authorizeConnection (H := hex_utils) auth_env auth_props 2 (h1, local_channel (proxy_line ++ str "get a"))).1 = Ok false.
Proof.
  pose proof (login_then_pass (H := hex_utils) auth_env auth_props 1 2 two_pending
    (local_channel (login_text (str "password"))) (local_channel (proxy_line ++ str "get a")) (str "10.0.0.7")
    proxy_line proxy_line (str "0") (str "0") (str "8") (str "password") (str "get a") (str "get a")
    ltac:(by eexists) ltac:(by eexists) ltac:(done) eq_refl eq_refl eq_refl (local_takes _) (local_takes _)
    (proxy_introduces _) (proxy_introduces _)
    ltac:(vm_compute; reflexivity) ltac:(vm_compute; reflexivity) ltac:(vm_compute; reflexivity) ltac:(vm_compute; reflexivity)) as Hx.
  destruct (authorizeConnection auth_env auth_props 1 _) as [r1 [h1 ch1]].
  match type of Hx with if ?v then _ else _ => let v' := eval vm_compute in v in change v with v' in Hx end.
  destruct Hx as (Hr & Hw & _ & _ & H2). split; [exact Hr|]. split; [exact Hw|].
  destruct (authorizeConnection auth_env auth_props 2 _) as [r2 [h2 ch2]]. exact (proj1 H2).
Defined.

(** A password that is not ASCII: its bytes become characters of their own, whose hash is not
    that of the password's UTF-8. *)
Definition unicode_password : bytes := str "p" ++ [byte_of 195; byte_of 164] ++ str "ss".

Theorem unicode_password_refused :
  let props := <[CONF_USER_PASSWORD_SHA256 := hashString (H := hex_utils) unicode_password]> auth_props in
  let '(r, (h, ch)) := authorizeConnection (H := hex_utils) auth_env props 1
      (two_pending, local_channel (login_text unicode_password)) in
  r = Ok true /\ written ch = AUTH_FAILED /\ closed ch = true.
Proof. vm_compute. by split_and!. Qed.

(** Without a configured user: the name and the hash are the empty text, not null, so the
    reply that authorization is not configured is never sent. *)
Theorem unconfigured_reply :
  let '(r, (h, ch)) := authorizeConnection (H := hex_utils) auth_env ∅ 1
      (two_pending, local_channel (login_text (str "password"))) in
  r = Ok true /\ written ch = AUTH_FAILED /\ closed ch = true.
Proof. vm_compute. by split_and!. Qed.
