(* ===== verification/WriteTheorems.v ===== *)
(** * Properties of the worker on any channel

    The worker on a channel that takes bytes piecemeal, throws or blocks ([Writes]): when it
    comes back, what it has sent, and that a channel which takes everything in the end is as
    good as one that takes it at once, which is what the other theorems are about. *)

From S2P Require Import Prelude.
From S2P Require Import Memory.
From S2P Require Import CarrotCache.
From S2P Require Import Reference.
From S2P Require Import Command.
From S2P Require Import Client.
From S2P Require Import World.
From S2P Require Import Execute.
From S2P Require Import WorkThread.
From S2P Require Import Writes.
From S2P Require Import Termination.
From S2P Require Import Piecemeal.
From S2P Require Import Theorems.

Section Properties.
Context {mem S item : Type}.
Context `{UnsafeAccessLaws mem} `{CarrotUtils} `{Memcached S item} `{RecordWriter mem item}.
Variable version : option bytes.
Variables in_ptr out_ptr bufferSize : Z.
Hypothesis in_pos : 0 <= in_ptr.
Hypothesis size_pos : 0 < bufferSize.

(** A channel on which these attempts are to come. *)
Definition open (es : list Attempt) : Socket := {| to_come := es; cancelled := false |}.

(** A connection on such a channel, and on one that takes responses at once. *)
Definition on_channel (w : World mem S) (es : list Attempt) : result Outcome * World mem (S * Socket) :=
  connection version in_ptr out_ptr bufferSize (events_size (w_input w) + 1) (over w (open es)).
Definition on_any (w : World mem S) : result Outcome * World mem S :=
  connection version in_ptr out_ptr bufferSize (events_size (w_input w) + 1) w.

Lemma on_channel_served w es :
  served w (open es) (on_any w).1 (on_any w).2 (on_channel w es).1 (on_channel w es).2.
Proof. apply connection_served. Qed.

Lemma on_any_ends w : exists o, (on_any w).1 = Ok o.
Proof.
  destruct (connection_ended version in_ptr out_ptr bufferSize in_pos size_pos (events_size (w_input w) + 1) w)
    as (o & w' & E); [lia|]. exists o. unfold on_any. by rewrite E.
Qed.

(** C5: Serving ends unless the channel stops taking bytes.  On any network events, any bytes
    and whatever the channel does with the responses, a connection has an outcome - or it is inside a loop that writes a response
    and has used up all attempts there are, of which then fewer took something than bytes
    were to be sent.  No other loop can keep the worker: not the parser's, a retrieval's, that
    of the batch or that of the reads. *)
Theorem connection_terminates (w : World mem S) (es : list Attempt) :
  (exists o, (on_channel w es).1 = Ok o) \/
  (on_channel w es).1 = OutOfFuel /\ to_come (socket (on_channel w es).2) = [] /\
  exists s rest, w_sent (on_channel w es).2 = w_sent w ++ s /\ w_sent (on_any w).2 = w_sent w ++ s ++ rest /\
    rest <> [] /\ (useful es <= length s)%nat.
Proof.
  destruct (on_any_ends w) as [o Ho].
  destruct (on_channel_served w es) as [ch1 l used|w1 msg Hs|w1 (l & s & rest & Hl & [-> Hne] & Hs & _ & Hr)
    |w1 s rest|w1 s u more H1' H2' H3' H4' H5' H6' H7']; try (left; by eexists).
  - right. destruct Hr as [(used & msg & [=] & _)|(_ & Hc & _ & Hu)]. split_and!; [done..|]. by exists s, rest.
  - right. split_and!; [done..|]. exists s, (u ++ more). split_and!; [done..| |done]. by destruct u.
Qed.

(** C37: A channel that takes at least as many bytes as are to be sent, however few at a time,
    and never throws is as good as one that takes them at once: the outcome, the memory, the
    store and what was sent are the same. *)
Theorem piecemeal_as_at_once (w : World mem S) (es : list Attempt) (l : bytes) :
  w_sent (on_any w).2 = w_sent w ++ l -> clean es -> (length l <= useful es)%nat ->
  exists left, on_channel w es = ((on_any w).1, over (on_any w).2 (open left)).
Proof.
  intros Hl Hc Hu. pose proof (on_channel_served w es) as Hs.
  destruct (on_channel w es) as [r' w']. cbn [fst snd] in Hs.
  inversion Hs as [ch1 l' used G1 G2 G3 Hr Hw|w1 msg Hst Hr Hw|w1 Hst Hr Hw|w1 s rest u1 msg u2 G1 G2 G3 G4 G5 Hr Hw
    |w1 s u more G1 G2 G3 G4 G5 G6 G7 G8 Hr Hw]; subst.
  - exists (to_come ch1). destruct ch1 as [es1 c]. cbn in G3. by rewrite G3.
  - destruct Hst as (l' & s & rest & _ & _ & _ & _ & [(used & m & _ & E & _)|[[=] _]]). cbn in E. subst es.
    apply Forall_app in Hc as [_ Hc]. by apply Forall_cons_1 in Hc as [? _].
  - destruct Hst as (l' & s & rest & E & [-> Hne] & _ & _ & [(used & m & [=] & _)|(_ & _ & _ & Hu')]).
    rewrite Hl in E. apply app_inv_head in E. subst l. rewrite length_app in Hu.
    destruct rest; [done|]. cbn [length] in Hu. change (useful es <= length s)%nat in Hu'. lia.
  - cbn in G3. subst es. rewrite <- app_assoc in Hc. apply Forall_app in Hc as [_ Hc]. by apply Forall_cons_1 in Hc as [? _].
  - done.
Qed.

(** C33: A client that stops taking bytes in the middle of what is to be sent, and whose
    writes throw from then on: the connection is closed, a proper prefix of the responses
    having been sent - except in the clause that answers a result which is too
    large: there the exceptions are caught inside the loop, and however many writes have
    thrown the worker is still sending the rest of that answer, its key cancelled and the
    channel open. *)
Theorem failed_write_outcomes (w : World mem S) (pre fs : list Attempt) (l : bytes) :
  w_sent (on_any w).2 = w_sent w ++ l -> clean pre -> (taken_by pre < length l)%nat ->
  fs <> [] -> Forall (fun a => fails a = true) fs ->
  exists s rest, l = s ++ rest /\ rest <> [] /\ w_sent (on_channel w (pre ++ fs)).2 = w_sent w ++ s /\
    ((on_channel w (pre ++ fs)).1 = Ok Closed /\ cancelled (socket (on_channel w (pre ++ fs)).2) = false \/
     (on_channel w (pre ++ fs)).1 = OutOfFuel /\ cancelled (socket (on_channel w (pre ++ fs)).2) = true /\
     to_come (socket (on_channel w (pre ++ fs)).2) = [] /\
     exists u more, rest = u ++ more /\ u <> [] /\ u `suffix_of` OUTPUT_TOO_LARGE).
Proof.
  intros Hl Hc Ht Hne Hf. pose proof (on_channel_served w (pre ++ fs)) as Hs.
  assert (Htaken : forall used left, pre ++ fs = used ++ left -> (taken_by used <= taken_by pre)%nat).
  { intros used left E. apply (f_equal taken_by) in E. rewrite !taken_by_app, (taken_by_fails fs Hf) in E. lia. }
  assert (Hafter : forall u1 msg u2 left, pre ++ fs = (u1 ++ WriteFails msg :: u2) ++ left -> taken_by u2 = 0%nat).
  { intros u1 msg u2 left E. rewrite <- app_assoc in E. cbn in E. apply app_eq_app in E as [k [[-> E]|[-> E]]].
    - destruct k as [|a k]; cbn in E.
      + subst fs. apply Forall_cons_1 in Hf as [_ Hf]. apply Forall_app in Hf as [Hf _]. by apply taken_by_fails.
      + injection E as <- E. apply Forall_app in Hc as [_ Hc]. by apply Forall_cons_1 in Hc as [? _].
    - subst fs. apply Forall_app in Hf as [_ Hf]. apply Forall_cons_1 in Hf as [_ Hf].
      apply Forall_app in Hf as [Hf _]. by apply taken_by_fails. }
  destruct (on_channel w (pre ++ fs)) as [r' w']. cbn [fst snd] in *.
  inversion Hs as [ch1 l' used G1 G2 G3 Hr Hw|w1 msg Hst Hr Hw|w1 Hst Hr Hw|w1 s rest u1 msg u2 G1 G2 G3 G4 G5 Hr Hw
    |w1 s u more G1 G2 G3 G4 G5 G6 G7 G8 Hr Hw]; subst.
  - destruct G2 as [E _ T _]. cbn in E. apply Htaken in E. rewrite Hl in G1. apply app_inv_head in G1. subst l'. lia.
  - destruct Hst as (l' & s & rest & E & [-> Hr'] & Hs' & Hk & _). rewrite Hl in E. apply app_inv_head in E. subst l.
    exists s, rest. split_and!; [done..|]. left. by split.
  - destruct Hst as (l' & s & rest & _ & _ & _ & _ & [(used & m & [=] & _)|(_ & _ & Hcl & _)]).
    cbn in Hcl. apply Forall_app in Hcl as [_ Hcl]. destruct fs as [|f fs]; [done|].
    apply Forall_cons_1 in Hcl as [Ha _]. apply Forall_cons_1 in Hf as [Hb _]. congruence.
  - cbn in G3. apply Hafter in G3. lia.
  - rewrite Hl in G1. apply app_inv_head in G1. subst l. exists s, (u ++ more). split_and!; [done|by destruct u|done|].
    right. split_and!; [done..|]. by exists u, more.
Qed.
End Properties.

(** ** Concrete runs *)

Definition greedy : World Mem Store := start blank (store_with (str "k") 120) [Data (encode (RGet GET 0 [str "k"]))].
Definition modest : World Mem Store := start blank (store_with (str "k") 20) [Data (encode (RGet GET 0 [str "k"]))].

(** A client that takes nothing: the worker is in the loop of the response. *)
Lemma connection_terminates_witness :
  (on_channel None 1000 2000 128 modest (replicate 9 (Takes 0))).1 = OutOfFuel /\
  ((exists o, (on_channel None 1000 2000 128 modest (replicate 9 (Takes 0))).1 = Ok o) \/
   (on_channel None 1000 2000 128 modest (replicate 9 (Takes 0))).1 = OutOfFuel).
Proof.
  split; [vm_compute; reflexivity|].
  destruct (connection_terminates None 1000 2000 128 ltac:(lia) ltac:(lia) modest (replicate 9 (Takes 0)))
    as [Ho|[Ho _]]; [by left|by right].
Defined.

Lemma piecemeal_as_at_once_witness :
  exists left, on_channel None 1000 2000 128 modest (replicate 60 (Takes 1)) =
    ((on_any None 1000 2000 128 modest).1, over (on_any None 1000 2000 128 modest).2 (open left)).
Proof.
  apply (piecemeal_as_at_once None 1000 2000 128 modest (replicate 60 (Takes 1))
    (w_sent (on_any None 1000 2000 128 modest).2)).
  - reflexivity.
  - by apply Forall_replicate.
  - apply Nat.leb_le. vm_compute. reflexivity.
Defined.

(** A response cut after twelve bytes; and the answer to a result that is too large. *)
Lemma failed_write_outcomes_witness :
  let broken := replicate 20 (WriteFails (str "Broken pipe")) in
  (exists s rest, w_sent (on_any None 1000 2000 128 modest).2 = s ++ rest /\ rest <> [] /\
     w_sent (on_channel None 1000 2000 128 modest ([Takes 12; Takes 0] ++ broken)).2 = s) /\
  (on_channel None 1000 2000 128 modest ([Takes 12; Takes 0] ++ broken)).1 = Ok Closed /\
  (on_channel None 1000 2000 128 greedy ([Takes 12; Takes 0] ++ broken)).1 = OutOfFuel.
Proof.
  intros broken. split_and!; [|vm_compute; reflexivity|vm_compute; reflexivity].
  destruct (failed_write_outcomes None 1000 2000 128 modest [Takes 12; Takes 0] broken
    (w_sent (on_any None 1000 2000 128 modest).2)) as (s & rest & Hs & Hne & Hw & _).
  - reflexivity.
  - by repeat constructor.
  - apply Nat.ltb_lt. vm_compute. reflexivity.
  - done.
  - by apply Forall_replicate.
  - exists s, rest. split_and!; [exact Hs|exact Hne|exact Hw].
Defined.
